(* ===== verification/_CoqProject ===== *)
-Q . S2P
Prelude.v
Errors.v
Protocol.v
Frame.v
Ring.v
Lease.v
Ledger.v
VtFence.v
Text.v
Paths.v
Terminal.v
Auth.v
AuthRace.v
Store.v
Restart.v
Autostart.v
Profiles.v
SessionInput.v
SessionOutput.v
Session.v
TermModel.v
TerminalStream.v
Float.v
PerfTrace.v
PerfStart.v
Geometry.v
MediaCore.v
MediaWire.v
Windows.v
Sources.v
GuiInput.v
GuiSession.v
GuiSetup.v
MediaStream.v
MediaPipe.v
MediaProbe.v
MediaHelper.v
Config.v
Program.v
Tailscale.v
Serve.v
Runner.v
Preview.v
Relay.v
Http.v
Response.v
Control.v
MediaStart.v
Tray.v
Admin.v
Agent.v
LocalIpc.v
Desktop.v
