(* ===== verification/Prelude.v ===== *)
(** * RemoteCodex: verification of the remote terminal agent

    RemoteCodex lets a paired device drive the terminals, and one shared screen,
    of a Windows host over a tailnet.  An agent process (crates/rc-agent) serves an
    HTTP and WebSocket interface on loopback; crates/rc-core holds the protocol
    logic it shares with its helpers, crates/rc-platform-windows the input
    injection, crates/rc-media the process that captures and encodes the screen,
    apps/desktop/src-tauri the shell that publishes the agent in the tailnet.  This
    library models that code as executable definitions and proves what makes it
    safe to expose.

    ** Files and the code they model

    - [Prelude]: this header; result type, machine integers as [Z] with their
      wrap-around, list and map lemmas, runs of a step relation ([steps]).
    - [Errors], [Protocol], [Text], [Paths]: error.rs, protocol.rs, and the operations
      of Rust's library on strings (as UTF-8 bytes) and paths that the source uses.
    - [Frame] (frame.rs), [Ring] (ring.rs), [Lease] (lease.rs), [Ledger]
      (input.rs), [VtFence] (vt_fence.rs): the pure parts of a terminal stream:
      binary frames, the replay ring, the exclusive writer lease, the replay guard
      of inputs, the filter of escape sequences.
    - [Terminal], [TermModel] (terminal.rs): the repaint a client starts from and the
      readable text of the screen, over what the third-party emulator reports; what
      reaches the emulator, behind the class [Emulator] with its laws, and what
      becomes of its answers.
    - [Auth], [AuthRace] (auth.rs): pairing, challenges, access tokens, WebSocket
      tickets, revocation, the remote block; the same calls as threads, interleaved
      between their check of the block and their lock.
    - [Store] (store.rs, schema.sql), [Restart]: the tables of the agent's database
      and their statements; the authority in memory together with what is stored of
      it, over failing writes and restarts.
    - [SessionInput], [SessionOutput], [Session] (session.rs): the path of an input
      from [enqueue] to the writer thread's PTY writes; the path of output from
      the reader thread to the broadcast; the calls of a session and of the manager.
    - [Profiles] (profiles.rs): the programs a client may start and how they are found.
    - [TerminalStream], [Control] (ws.rs): the terminal and the control connection.
    - [PerfTrace], [PerfStart] (perf.rs, perf_histogram.rs): the opt-in trace, with its
      lock-free admission, its writer and its histograms; its start, and the waits of
      its finish.
    - [Float], [Geometry] (geometry.rs), [MediaCore] (media.rs of rc-core),
      [MediaWire] (media_wire.rs), [MediaStream] (media.rs of rc-agent): the shared
      screen's coordinates over an executable binary64, its bookkeeping, its
      messages and their validation, the agent's side of a stream; [MediaStart]
      (media.rs of rc-agent): the helper program and its environment, the probe, the
      media routes, and one viewer's run from the slot to its release.
    - [MediaPipe], [MediaHelper] (adaptation.rs, encoder.rs, pump.rs, native.rs of
      rc-media): the helper's side: rate policy, encoder, pump, proofs of freshness,
      the search for a pipeline, the threads and callbacks around its loop, and the
      lines it writes to the agent; [MediaProbe] (native.rs, pump.rs): its measuring
      runs, with the capture's callback statement by statement.
    - [Windows] (windows.rs, dpi.rs), [Sources] (sources.rs): who a process is, the
      pipe's name and its peer, who listens on a port; the windows and monitors that
      can be shared, and that one is still what was approved.
    - [GuiInput], [GuiSession], [GuiSetup] (gui_input.rs, gui_session.rs): injection of
      input, the safety thread that guards it, its safeguards' set-up and removal.
    - [Config] (config.rs), [Preview], [Relay] (preview.rs), [Http], [Response]
      (http.rs): the settings and allow lists, the gateways of local previews and what
      they relay, the boundary and the handlers of the HTTP interface over the agent's
      whole state, and the headers of its responses.
    - [Tray] (tray.rs of rc-platform-windows): the icon's life, its menu and messages,
      for any host (the class [TrayHost]).
    - [Admin] (local.rs, tray.rs, main.rs of rc-agent): the local user's commands over
      the named pipe, the agent as the tray's host, and what a block and the end of a
      run do to the whole agent.
    - [Agent] (main.rs of rc-agent): the statements of main with the lock file, for any
      number of processes on one directory.
    - [LocalIpc] (local.rs, main.rs of the desktop shell): the pipe's server and its
      clients, and a call from one end to the other.
    - [Autostart] (autostart.rs, transaction.rs): the registry entry that starts the
      agent, and the lock around changes of the settings.
    - [Desktop] (main.rs, lifecycle.rs of the desktop shell): the media settings it
      writes into the agent's configuration, the requests it lets through, finding
      and starting the agent, preview links.
    - [Program]: programs over effects, with runs that may stop between any two
      effects; [Tailscale], [Serve] (tailscale.rs and main.rs of the desktop shell):
      parsing the status of the tailscale daemon, and the transaction that keeps its
      rule, the receipt, the journal and the agent's public origin in step; [Runner]
      (tailscale.rs): one run of the command, bounded in time.

    A component's state is a record with the source's fields, each operation is one
    definition that returns the new state and a [res] (the source's [Result]), and
    loops over events are functions of the event.  Where threads interleave
    ([GuiSession], [MediaHelper], [MediaProbe], [PerfTrace]) a step is one access to what they
    share, and theorems hold of every sequence of steps; so do processes in [Agent].
    Where a process may die ([Serve]) they hold of every prefix of its effects.  Calls
    whose order matters ([Tray], [GuiSetup], [MediaStart]) are traces that an automaton
    of what is held must accept ([Prelude.trace]).

    ** What is proved

    - No replay: [SessionInput.accepted_inputs_strictly_increase],
      [MediaStream.media_inputs_fenced], [Auth.consume_ws_single_use];
      [Ledger.ledger_refines_journal] relates the bounded guard to a journal that
      forgets nothing.
    - Fencing: [Lease.lease_fencing], [GuiSession.gui_epoch_fencing],
      [SessionInput.writer_checks_every_write], [MediaStream.media_action_guarded].
    - Revocation is final: [Auth.revoked_device_locked_out],
      [Restart.revocation_survives_restarts],
      [Agent.revocation_holds_in_every_process], [Auth.block_all_final],
      [AuthRace.blocked_host_is_sealed],
      [Admin.block_holds_until_resumed], [Session.closed_session_refuses_everything];
      [Restart.restart_restores_authority] relates the process to its store, and
      [Agent.agent_processes_refine] any number of processes to that one.
    - Stored data keeps its form: [Store.store_reads_back],
      [Store.bindings_are_permanent], [Store.audit_log_bounded]; settings mean the same
      to shell and agent: [Desktop.media_settings_reach_agent],
      [Desktop.render_config_reads_back]; the registry entry is the agent's or is left
      alone: [Autostart.autostart_owns_only_its_entry].
    - Authority: [Http.http_changes_need_authority],
      [Control.control_acts_for_itself], [Preview.preview_gateway_guarded],
      [Relay.gateway_hides_application], [Session.composer_needs_same_process],
      [Auth.verify_requires_signature], [Response.responses_protected]; the local user's:
      [LocalIpc.ipc_call_exact], [Admin.tray_acts_on_host],
      [Desktop.page_requests_keep_agent], [Windows.loopback_owner_exact],
      [Profiles.profiles_resolve_exact].
    - The shared screen: [Sources.shared_source_is_the_approved_one],
      [Sources.listed_sources_validate], [GuiSetup.sharing_keeps_its_safeguards].
    - What is started is ended: [MediaStart.media_run_releases],
      [Tray.tray_releases_everything], [GuiInput.gui_leaves_nothing_down],
      [Relay.relay_faithful], [Relay.preview_response_guarded]; waits are bounded:
      [Runner.run_always_returns], [PerfStart.finish_returns],
      [MediaStart.media_probe_bounded], [MediaProbe.fixture_returns].
    - Streams are exact: [SessionOutput.output_stream_faithful],
      [TerminalStream.terminal_connection_exact], [Ring.ring_after_lossless],
      [Frame.frame_decode_all_exact], the [VtFence] theorems;
      [TermModel.session_snapshot_exact], [Terminal.snapshot_passes_fence] and
      [Terminal.projection_correct] for what is shown of the screen,
      [TermModel.terminal_replies_exact] for what the program is answered.
    - The picture is honest: [MediaHelper.helper_frames_honest],
      [MediaHelper.helper_reports_justified], [MediaHelper.helper_wire_roundtrip],
      [MediaProbe.fixture_report_honest], [MediaProbe.benchmark_counts_exact].
    - Bookkeeping under concurrency and crashes:
      [PerfTrace.trace_accounts_for_every_record], [Serve.serve_files_consistent],
      [Serve.serve_commands_justified], [Serve.serve_recovery_completes].

    Some theorems state where the code falls short of its description:
    [Auth.redundant_resume_breaks_revocation],
    [AuthRace.pairing_ticket_survives_block],
    [AuthRace.block_during_resume_is_lost], [Serve.serve_journal_stuck],
    [VtFence.fence_osc52_bypass], [SessionOutput.oversize_frame_broadcast],
    [Restart.failed_revocation_is_lost], [Desktop.start_after_torn_write],
    [Desktop.inline_media_table], [Agent.late_task_is_lost].

    ** How the model reads the code

    - A critical section is atomic and reads one instant; instants are [Z]
      nanoseconds, a clock reading is an argument of the operation.  Concurrent
      callers are interleavings of these operations, as step relations.  In [Auth] the
      check of the block flag and the critical section after it are one operation;
      [AuthRace] takes them apart, and [AuthRace.call_split] relates the two.
    - A [Uuid] is its 128-bit number; fresh identifiers and secrets are arguments.
      A [CancellationToken] is an identity; cancelling adds it to a shared set.
    - SHA-256, base64, P-256, URL, cookie, JSON and TOML code belongs to other
      crates and is a parameter of the definitions that use it, as is the terminal
      emulator.  What the operating system, GStreamer, the tailscale command, the
      PTY, the store and a socket answer is an argument (an oracle) of the
      operation; where the code relies on nothing, the answer is arbitrary.
    - Fuel occurs where a Rust loop consumes a list ([Text], [VtFence],
      [SessionInput.write_all], [Tailscale.trim_443], [MediaHelper.read_lines]): its
      length is given and is enough, because each iteration consumes an element;
      theorems are stated of the result.  The polling loops of [Runner] and [PerfStart]
      take a number of looks; that 101 and 5001 are enough is part of their theorems,
      from a clock that every sleep advances.

    ** Not modelled

    - The terminal emulator, capture, encoding and WebRTC themselves, Tauri, TLS
      and the SQLite engine: third-party code.  [Store] states what each SQL statement
      of the source does to the tables it names.
    - Win32 calls themselves: their answers are oracles of [Windows], [Sources],
      [GuiSetup] and [Tray]; SendInput's effect is the state of [GuiInput].
    - The examples of rc-platform-windows, rc-agent and rc-media (fixture and
      benchmark programs around the library), and the tests.
    - apps/web: Svelte and TypeScript. *)
From Stdlib Require Export ZArith Lia Bool.
From stdpp Require Export base option numbers strings sets gmap list.
#[global] Open Scope Z_scope.

(** ** Results

    [Result<A, E>] of the source.  Its bind is the [?] operator. *)
Inductive result (E A : Type) : Type :=
| Ok (a : A)
| Err (e : E).
Arguments Ok {E A} a.
Arguments Err {E A} e.

#[global] Instance result_ret {E} : MRet (result E) := fun A a => Ok a.
#[global] Instance result_bind {E} : MBind (result E) :=
  fun A B k m => match m with Ok a => k a | Err e => Err e end.
#[global] Instance result_fmap {E} : FMap (result E) :=
  fun A B f m => match m with Ok a => Ok (f a) | Err e => Err e end.
#[global] Instance result_eq_dec `{EqDecision E, EqDecision A} :
  EqDecision (result E A).
Proof. solve_decision. Defined.

Declare Scope rc_scope.
Delimit Scope rc_scope with rc.

(** [if cond { return Err(e) }] *)
Definition reject_if {E} (c : bool) (e : E) : result E unit :=
  if c then Err e else Ok tt.
(** [opt.ok_or(e)?] *)
Definition ok_or {E A} (o : option A) (e : E) : result E A :=
  match o with Some a => Ok a | None => Err e end.
(** [r.map_err(f)] *)
Definition map_err {E F A} (f : E -> F) (r : result E A) : result F A :=
  match r with Ok a => Ok a | Err e => Err (f e) end.
Definition is_ok {E A} (r : result E A) : bool :=
  match r with Ok _ => true | Err _ => false end.
Definition is_err {E A} (r : result E A) : bool := negb (is_ok r).
Definition option_is_some {A} (o : option A) : bool :=
  match o with Some _ => true | None => false end.
Definition option_is_none {A} (o : option A) : bool := negb (option_is_some o).
(** [opt.is_some_and(p)] *)
Definition is_some_and {A} (p : A -> bool) (o : option A) : bool :=
  match o with Some a => p a | None => false end.
(** [opt.is_none_or(p)] *)
Definition is_none_or {A} (p : A -> bool) (o : option A) : bool :=
  match o with Some a => p a | None => true end.
(** [opt.filter(p)] *)
Definition option_keep {A} (p : A -> bool) (o : option A) : option A :=
  match o with Some a => if p a then Some a else None | None => None end.

Notation "c '?!' e ';;' k" := (if c then Err e else k)
  (at level 100, e at next level, k at level 200, right associativity,
   only parsing) : rc_scope.

(** ** Automation *)

(** Case analysis on every match and conditional of a hypothesis or goal. *)
Ltac case_step :=
  match goal with
  | H : context [match ?x with _ => _ end] |- _ =>
      lazymatch x with context [match _ with _ => _ end] => fail | _ => idtac end;
      destruct x eqn:?; try discriminate H
  | |- context [match ?x with _ => _ end] =>
      lazymatch x with context [match _ with _ => _ end] => fail | _ => idtac end;
      destruct x eqn:?
  end.
Ltac case_all := repeat (case_step; simplify_eq/=).

(** Boolean hypotheses and goals to propositions. *)
Ltac bools :=
  repeat match goal with
  | H : andb _ _ = true |- _ => apply andb_true_iff in H as [? ?]
  | H : orb _ _ = false |- _ => apply orb_false_iff in H as [? ?]
  | H : andb _ _ = false |- _ => apply andb_false_iff in H
  | H : orb _ _ = true |- _ => apply orb_true_iff in H
  | H : negb _ = true |- _ => apply negb_true_iff in H
  | H : negb _ = false |- _ => apply negb_false_iff in H
  | H : Z.ltb _ _ = true |- _ => apply Z.ltb_lt in H
  | H : Z.ltb _ _ = false |- _ => apply Z.ltb_ge in H
  | H : Z.leb _ _ = true |- _ => apply Z.leb_le in H
  | H : Z.leb _ _ = false |- _ => apply Z.leb_gt in H
  | H : Z.eqb _ _ = true |- _ => apply Z.eqb_eq in H
  | H : Z.eqb _ _ = false |- _ => apply Z.eqb_neq in H
  | H : bool_decide _ = true |- _ => apply bool_decide_eq_true in H
  | H : bool_decide _ = false |- _ => apply bool_decide_eq_false in H
  | |- andb _ _ = true => apply andb_true_iff; split
  | |- orb _ _ = false => apply orb_false_iff; split
  | |- negb _ = true => apply negb_true_iff
  | |- negb _ = false => apply negb_false_iff
  | |- Z.ltb _ _ = true => apply Z.ltb_lt
  | |- Z.ltb _ _ = false => apply Z.ltb_ge
  | |- Z.leb _ _ = true => apply Z.leb_le
  | |- Z.leb _ _ = false => apply Z.leb_gt
  | |- Z.eqb _ _ = true => apply Z.eqb_eq
  | |- Z.eqb _ _ = false => apply Z.eqb_neq
  | |- bool_decide _ = true => apply bool_decide_eq_true
  | |- bool_decide _ = false => apply bool_decide_eq_false
  end.

(** ** Machine integers *)
Definition u64_max : Z := 18446744073709551615.
Definition u32_max : Z := 4294967295.
Definition u16_max : Z := 65535.
(** Release-profile [+]: wraps modulo 2^w. *)
Definition wrap64 (x : Z) : Z := x mod 18446744073709551616.
Definition wrap32 (x : Z) : Z := x mod 4294967296.
Definition checked_add64 (x y : Z) : option Z :=
  if u64_max <? x + y then None else Some (x + y).
Definition saturating_add64 (x y : Z) : Z := Z.min u64_max (x + y).
Definition saturating_sub (x y : Z) : Z := Z.max 0 (x - y).
Definition in_u (w x : Z) : Prop := 0 <= x < 2 ^ w.
Definition in_range (lo hi x : Z) : bool := (lo <=? x) && (x <=? hi).

Lemma in_range_spec lo hi x : in_range lo hi x = true <-> lo <= x <= hi.
Proof. unfold in_range. rewrite andb_true_iff, !Z.leb_le. done. Qed.
Lemma wrap64_small x : 0 <= x <= u64_max -> wrap64 x = x.
Proof. unfold wrap64, u64_max. intros. apply Z.mod_small. lia. Qed.
Lemma wrap32_small x : 0 <= x <= u32_max -> wrap32 x = x.
Proof. unfold wrap32, u32_max. intros. apply Z.mod_small. lia. Qed.
Lemma checked_add64_Some x y z :
  checked_add64 x y = Some z <-> z = x + y /\ x + y <= u64_max.
Proof. unfold checked_add64. case_match; bools; naive_solver lia. Qed.

(** ** Time: instants and durations are nanoseconds since an origin. *)
Definition millis (x : Z) : Z := x * 1000000.
Definition secs (x : Z) : Z := x * 1000000000.
Definition as_millis (d : Z) : Z := d / 1000000.

(** ** Lists *)
Abbreviation bytes := (list Z) (only parsing).
Abbreviation Uuid := Z (only parsing).
Definition zlen {A} (l : list A) : Z := Z.of_nat (length l).
Definition is_byte (b : Z) : Prop := 0 <= b < 256.
Definition zsum {A} (f : A -> Z) (l : list A) : Z :=
  foldr (fun x acc => f x + acc) 0 l.
(** [&data[a..b]] for [a <= b <= data.len()] *)
Definition slice {A} (a b : nat) (l : list A) : list A := take (b - a) (drop a l).

Lemma zlen_nonneg {A} (l : list A) : 0 <= zlen l.
Proof. unfold zlen. lia. Qed.
Lemma zlen_nil {A} : zlen (@nil A) = 0.
Proof. done. Qed.
Lemma zlen_cons {A} (x : A) l : zlen (x :: l) = 1 + zlen l.
Proof. unfold zlen. simpl length. lia. Qed.
Lemma zlen_app {A} (l k : list A) : zlen (l ++ k) = zlen l + zlen k.
Proof. unfold zlen. rewrite length_app. lia. Qed.
Lemma zlen_snoc {A} (l : list A) x : zlen (l ++ [x]) = zlen l + 1.
Proof. rewrite zlen_app. done. Qed.
Lemma zsum_cons {A} (f : A -> Z) x l : zsum f (x :: l) = f x + zsum f l.
Proof. done. Qed.
Lemma zsum_app {A} (f : A -> Z) l k : zsum f (l ++ k) = zsum f l + zsum f k.
Proof. induction l; cbn [zsum foldr app] in *; [done|]. unfold zsum in *. lia. Qed.
Lemma zsum_nonneg {A} (f : A -> Z) l : (forall x, x ∈ l -> 0 <= f x) -> 0 <= zsum f l.
Proof.
  induction l as [|x l IH]; intros Hf; [done|]. rewrite zsum_cons.
  pose proof (Hf x ltac:(left)). pose proof (IH ltac:(intros; apply Hf; by right)). lia.
Qed.

Lemma filter_none {A} (P : A -> Prop) `{!forall x, Decision (P x)} (l : list A) :
  (forall x, x ∈ l -> ~ P x) -> base.filter P l = [].
Proof.
  induction l as [|x l IH]; intros Hn; [done|].
  rewrite filter_cons_False by (apply Hn; left). apply IH. intros; apply Hn. by right.
Qed.
Lemma filter_all {A} (P : A -> Prop) `{!forall x, Decision (P x)} (l : list A) :
  (forall x, x ∈ l -> P x) -> base.filter P l = l.
Proof.
  induction l as [|x l IH]; intros Hn; [done|].
  rewrite filter_cons_True by (apply Hn; left). f_equal. apply IH. intros; apply Hn. by right.
Qed.

Create HintDb rc.
Create Rewrite HintDb rc.
#[export] Hint Resolve zlen_nonneg : rc.
#[export] Hint Rewrite @zlen_nil @zlen_cons @zlen_app @zsum_cons @zsum_app : rc.

(** ** Sizes of maps *)
Lemma size_filter_le {K A} `{Countable K} (P : K * A -> Prop) `{!forall x, Decision (P x)}
    (m : gmap K A) : (size (base.filter P m) <= size m)%nat.
Proof. apply map_subseteq_size, map_filter_subseteq. Qed.
Lemma size_delete_le {K A} `{Countable K} (k : K) (m : gmap K A) :
  (size (delete k m) <= size m)%nat.
Proof. apply map_subseteq_size, delete_subseteq. Qed.
Lemma size_insert_le {K A} `{Countable K} (k : K) (x : A) (m : gmap K A) :
  (size (<[k := x]> m) <= S (size m))%nat.
Proof. rewrite map_size_insert. case_match; cbn; lia. Qed.

(** ** Big-endian integers *)
Fixpoint be_enc (n : nat) (x : Z) : list Z :=
  match n with
  | O => []
  | S m => be_enc m (x / 256) ++ [x mod 256]
  end.
Definition be_dec (l : list Z) : Z := fold_left (fun acc b => acc * 256 + b) l 0.

Lemma be_enc_length n x : length (be_enc n x) = n.
Proof. revert x. induction n; intros; simpl; [done|]. rewrite length_app, IHn. simpl. lia. Qed.
Lemma be_dec_snoc l b : be_dec (l ++ [b]) = be_dec l * 256 + b.
Proof. unfold be_dec. by rewrite fold_left_app. Qed.
Lemma be_dec_enc n x : 0 <= x < 256 ^ Z.of_nat n -> be_dec (be_enc n x) = x.
Proof.
  revert x. induction n as [|n IH]; intros x Hx.
  - change (256 ^ Z.of_nat 0) with 1 in Hx. change (be_dec (be_enc 0 x)) with 0. lia.
  - cbn [be_enc]. rewrite be_dec_snoc, IH.
    + pose proof (Z.div_mod x 256). lia.
    + rewrite Nat2Z.inj_succ, Z.pow_succ_r in Hx by lia.
      split; [apply Z.div_pos; lia | apply Z.div_lt_upper_bound; lia].
Qed.
Lemma be_enc_dec l : Forall is_byte l -> be_enc (length l) (be_dec l) = l.
Proof.
  induction l as [|b l IH] using rev_ind; intros Hl; [done|].
  apply Forall_app in Hl as [Hl Hb%Forall_inv]. unfold is_byte in Hb.
  rewrite length_app, Nat.add_comm. cbn [length Nat.add be_enc].
  rewrite be_dec_snoc. replace ((be_dec l * 256 + b) / 256) with (be_dec l)
    by (clear IH Hl; Z.to_euclidean_division_equations; lia).
  rewrite IH by done. f_equal. f_equal.
  rewrite Z.add_comm, Z.mod_add by lia. apply Z.mod_small. lia.
Qed.
Lemma be_dec_range l : Forall is_byte l -> 0 <= be_dec l < 256 ^ zlen l.
Proof.
  induction l as [|b l IH] using rev_ind; intros Hl; [by cbv|].
  apply Forall_app in Hl as [Hl Hb%Forall_inv]. unfold is_byte in Hb.
  rewrite be_dec_snoc, zlen_snoc, Z.pow_add_r by (auto with rc; lia).
  specialize (IH Hl). lia.
Qed.
Lemma be_enc_bytes n x : Forall is_byte (be_enc n x).
Proof.
  revert x. induction n; intros; simpl; [constructor|].
  apply Forall_app; split; [done|]. constructor; [|done].
  unfold is_byte. apply Z.mod_pos_bound. lia.
Qed.
#[export] Hint Rewrite be_enc_length : rc.

(** ** Reachability: reflexive-transitive closure of a step relation *)
Section Closure.
Context {A : Type} (step : A -> A -> Prop).
Inductive steps : A -> A -> Prop :=
| steps_refl a : steps a a
| steps_trans a b c : step a b -> steps b c -> steps a c.
Lemma steps_invariant (P : A -> Prop) :
  (forall a b, P a -> step a b -> P b) ->
  forall a b, steps a b -> P a -> P b.
Proof. intros HP a b Hs. induction Hs; eauto. Qed.
Lemma steps_one a b : step a b -> steps a b.
Proof. intros. eapply steps_trans; [done | constructor]. Qed.
Lemma steps_app a b c : steps a b -> steps b c -> steps a c.
Proof. intros H. induction H; eauto using steps_trans. Qed.
End Closure.

(** ** Typestate: effects in an order that an automaton allows *)
Section Trace.
Context {S E : Type} (step : S -> E -> option S).
Fixpoint trace (es : list E) (s : S) : option S :=
  match es with
  | [] => Some s
  | e :: es => match step s e with Some s => trace es s | None => None end
  end.
Lemma trace_app es k s :
  trace (es ++ k) s = match trace es s with Some s => trace k s | None => None end.
Proof. revert s. induction es as [|e es IH]; intros s; [done|]. cbn. by destruct (step s e). Qed.
(** Effects that all leave the state as it is. *)
Lemma trace_steady es s : Forall (fun e => step s e = Some s) es -> trace es s = Some s.
Proof. induction 1 as [|e es He _ IH]; [done|]. cbn. by rewrite He. Qed.
End Trace.
