(* ===== verification/Errors.v ===== *)
(** * Error codes shared by every component
    ([crates/rc-core/src/error.rs]). *)
From S2P Require Import Prelude.

Inductive ErrorCode : Type :=
| Unauthenticated | Forbidden | DeviceRevoked
| LeaseRequired | LeaseStale | LeaseBusy
| SessionGenerationMismatch | HostRestarted | SessionLost
| InputDeliveryUnknown | DuplicateInput | InputCanceled
| FrameTooLarge | RateLimited | ResyncRequired
| PreviewNotApproved | UpstreamChanged | CaptureUnsupported
| SourceStale | DesktopLocked | ElevationRequired | MediaUnavailable
| OriginRejected | InvalidRequest | Internal.
#[global] Instance ErrorCode_eq_dec : EqDecision ErrorCode.
Proof. solve_decision. Defined.

(** [Display] of the codes: the [#[error("...")]] attributes. *)
Definition ErrorCode_to_string (c : ErrorCode) : string :=
  match c with
  | Unauthenticated => "Authentication is required"
  | Forbidden => "This device does not have permission"
  | DeviceRevoked => "Device authorization was revoked"
  | LeaseRequired => "Input control is required"
  | LeaseStale => "The input lease is no longer valid"
  | LeaseBusy => "Another connection owns input control"
  | SessionGenerationMismatch => "Session generation mismatch"
  | HostRestarted => "Host restarted; reconnect before sending input"
  | SessionLost => "Session is not running"
  | InputDeliveryUnknown =>
      "Input may have been partially delivered; do not replay automatically"
  | DuplicateInput => "Input ID or sequence was already consumed"
  | InputCanceled => "Queued input was canceled before PTY write"
  | FrameTooLarge => "Message or buffer exceeds its limit"
  | RateLimited => "Rate or resource limit reached"
  | ResyncRequired => "A new terminal snapshot is required"
  | PreviewNotApproved => "Preview is not approved"
  | UpstreamChanged => "Upstream process identity changed"
  | CaptureUnsupported => "Capture is not available on this build"
  | SourceStale => "Source geometry or frame is stale"
  | DesktopLocked => "The interactive desktop is locked or unavailable"
  | ElevationRequired => "Target integrity or foreground does not permit input"
  | MediaUnavailable => "The media pipeline has not passed the platform gate"
  | OriginRejected => "Origin or Host is not approved"
  | InvalidRequest => "Invalid request"
  | Internal => "Service failure; see local diagnostic metadata"
  end%string.

Record ApiError := {
  ae_code : ErrorCode;
  ae_message : string;
  ae_retryable : bool;
  ae_request_id : option string
}.

(** [impl From<ErrorCode> for ApiError] *)
Definition api_error_from (code : ErrorCode) : ApiError := {|
  ae_message := ErrorCode_to_string code;
  ae_retryable := match code with RateLimited | ResyncRequired => true | _ => false end;
  ae_code := code;
  ae_request_id := None
|}.

(** Shorthand for the source's [Result<A, ErrorCode>]. *)
Abbreviation res A := (result ErrorCode A).
