(* ===== verification/Protocol.v ===== *)
(** * Protocol data and limits
    ([crates/rc-core/src/protocol.rs]). *)
From S2P Require Import Prelude Errors.

Definition PROTOCOL_MAJOR : Z := 1.
Definition MAX_INPUT : Z := 8 * 1024.
Definition MAX_PASTE : Z := 256 * 1024.
Definition MAX_SESSIONS : Z := 8.
Definition MAX_COLS : Z := 400.
Definition MAX_ROWS : Z := 150.
Definition MAX_JS_INTEGER : Z := 9007199254740991.

Inductive Scope : Type :=
| TerminalRead | TerminalWrite | TerminalCreate | TerminalClose
| PreviewRead | WindowView | WindowControl | DesktopView | DesktopControl
| AdminDevices | AdminSettings.
#[global] Instance Scope_eq_dec : EqDecision Scope.
Proof. solve_decision. Defined.

(** The serde names of the scopes. *)
Definition Scope_name (s : Scope) : string :=
  match s with
  | TerminalRead => "terminal.read"
  | TerminalWrite => "terminal.write"
  | TerminalCreate => "terminal.create"
  | TerminalClose => "terminal.close"
  | PreviewRead => "preview.read"
  | WindowView => "window.view"
  | WindowControl => "window.control"
  | DesktopView => "desktop.view"
  | DesktopControl => "desktop.control"
  | AdminDevices => "admin.devices"
  | AdminSettings => "admin.settings"
  end%string.

Definition Scope_owner : list Scope :=
  [TerminalRead; TerminalWrite; TerminalCreate; TerminalClose; PreviewRead;
   AdminDevices; AdminSettings].

Record CreateSession := {
  cs_label : string;
  cs_project_id : option Uuid;
  cs_cwd : string;
  cs_profile : string;
  cs_cols : Z;
  cs_rows : Z
}.

Record RenameSession := { rs_label : string }.

Inductive Lifecycle : Type := Starting | Running | Closing | Exited | Lost.
#[global] Instance Lifecycle_eq_dec : EqDecision Lifecycle.
Proof. solve_decision. Defined.

Record LeaseView := {
  lv_client_id : Uuid;
  lv_connection_id : Uuid;
  lv_epoch : Z;
  lv_remaining_ms : Z
}.
#[global] Instance LeaseView_eq_dec : EqDecision LeaseView.
Proof. solve_decision. Defined.

Record SessionInfo := {
  si_session_id : Uuid;
  si_project_id : option Uuid;
  si_label : string;
  si_initial_cwd : string;
  si_profile : string;
  si_agent_epoch : Uuid;
  si_generation : Z;
  si_state : Lifecycle;
  si_cols : Z;
  si_rows : Z;
  si_output_seq : string;
  si_pid : option Z;
  si_process_created : option string;
  si_program_path : option string;
  si_last_activity_at : option string;
  si_composer_allowed : bool;
  si_lease : option LeaseView
}.

(** Text is the UTF-8 bytes of the string. *)
Inductive InputPayload : Type :=
| Utf8 (text : bytes)
| Binary (base64 : string).

Inductive ControlMessage : Type :=
| LeaseAcquire (request_id session_id : Uuid) (takeover : bool)
| LeaseRenew (request_id session_id : Uuid) (lease_epoch : Z)
| LeaseRelease (request_id session_id : Uuid) (lease_epoch : Z)
| Input (request_id session_id agent_epoch : Uuid) (generation lease_epoch : Z)
    (input_id : Uuid) (input_seq : Z) (payload : InputPayload)
| Resize (request_id session_id agent_epoch : Uuid) (generation lease_epoch : Z)
    (cols rows : Z)
| RefreshAuth (request_id : Uuid) (ticket : string)
| Ping (request_id : Uuid).

Definition ControlMessage_request_id (m : ControlMessage) : Uuid :=
  match m with
  | LeaseAcquire request_id _ _ | LeaseRenew request_id _ _
  | LeaseRelease request_id _ _ | Input request_id _ _ _ _ _ _ _
  | Resize request_id _ _ _ _ _ _ | RefreshAuth request_id _
  | Ping request_id => request_id
  end.

Inductive StreamMessage : Type :=
| StreamRefreshAuth (ticket : string)
| Applied (sequence : string) (bytes : Z)
| StreamPing.

Record SnapshotMeta := {
  sm_cols : Z;
  sm_rows : Z;
  sm_sequence : string;
  sm_generation : Z;
  sm_agent_epoch : Uuid;
  sm_fidelity : string;
  sm_warnings : list string;
  sm_bytes : Z
}.
