(* ===== verification/Frame.v ===== *)
(** * Binary stream frames
    ([crates/rc-core/src/frame.rs]): the 40-byte header, the encoder and the
    decoder of a whole message, the round trip between them. *)
From S2P Require Import Prelude Errors.

Definition HEADER_LEN : Z := 40.
Definition MAX_PAYLOAD : Z := 32 * 1024.
Definition MAX_MESSAGE : Z := 256 * 1024.
Definition OUTPUT : Z := 1.
Definition RESIZE : Z := 2.
Definition SNAPSHOT_META : Z := 3.
Definition SNAPSHOT_CHUNK : Z := 4.
Definition SNAPSHOT_END : Z := 5.
Definition EXIT : Z := 6.

(** A frame; [session_id] is the 128-bit value of the UUID's bytes. *)
Record Frame := {
  kind : Z;
  session_id : Uuid;
  generation : Z;
  sequence : Z;
  payload : bytes
}.
#[global] Instance Frame_eq_dec : EqDecision Frame.
Proof. solve_decision. Defined.

(** The ranges of the Rust field types: u8, Uuid, u32, u64, Bytes. *)
Definition frame_wf (f : Frame) : Prop :=
  in_u 8 (kind f) /\ in_u 128 (session_id f) /\ in_u 32 (generation f) /\
  in_u 64 (sequence f) /\ Forall is_byte (payload f).

Definition magic : bytes := [82; 67; 84; 77].  (* b"RCTM" *)

Definition frame_header (f : Frame) : bytes :=
  magic ++ [1; kind f] ++ be_enc 2 0 ++ be_enc 16 (session_id f) ++
  be_enc 4 (generation f) ++ be_enc 8 (sequence f) ++
  be_enc 4 (wrap32 (zlen (payload f))).

Definition frame_encode (f : Frame) : res bytes :=
  if (MAX_PAYLOAD <? zlen (payload f)) || negb (in_range 1 6 (kind f))
  then Err FrameTooLarge
  else Ok (frame_header f ++ payload f).

(** One iteration of the decoder's loop on [data[pos..]]: the frame and the
    bytes after it.  [pos.checked_add] cannot overflow a 64-bit [usize], the
    message being at most [MAX_MESSAGE] long. *)
Definition frame_decode_one (data : bytes) : res (Frame * bytes) :=
  if zlen data <? HEADER_LEN then Err InvalidRequest else
  let h := take 40 data in
  if negb (bool_decide (take 4 h = magic)) || negb (nth 4 h 0 =? 1) ||
     negb (in_range 1 6 (nth 5 h 0)) || negb (nth 6 h 0 =? 0) ||
     negb (nth 7 h 0 =? 0)
  then Err InvalidRequest else
  let len := be_dec (slice 36 40 h) in
  if MAX_PAYLOAD <? len then Err FrameTooLarge else
  if zlen data <? HEADER_LEN + len then Err InvalidRequest else
  Ok ({| kind := nth 5 h 0;
         session_id := be_dec (slice 8 24 h);
         generation := be_dec (slice 24 28 h);
         sequence := be_dec (slice 28 36 h);
         payload := take (Z.to_nat len) (drop 40 data) |},
      drop (40 + Z.to_nat len) data).

(** The [while pos < data.len()] loop; each round consumes at least the
    header, so the length of the data is enough fuel. *)
Fixpoint frame_decode_loop (fuel : nat) (data : bytes) (acc : list Frame)
  : res (list Frame) :=
  match data with
  | [] => Ok acc
  | _ =>
    match fuel with
    | O => Ok acc
    | S n =>
      match frame_decode_one data with
      | Err e => Err e
      | Ok (f, rest) => frame_decode_loop n rest (acc ++ [f])
      end
    end
  end.

Definition frame_decode_all (data : bytes) : res (list Frame) :=
  if MAX_MESSAGE <? zlen data then Err FrameTooLarge
  else frame_decode_loop (length data) data [].

(** ** The header's fields *)
Lemma frame_header_length f : length (frame_header f) = 40%nat.
Proof. reflexivity. Qed.
Lemma frame_header_fields f :
  take 4 (frame_header f) = magic /\ nth 4 (frame_header f) 0 = 1 /\
  nth 5 (frame_header f) 0 = kind f /\ nth 6 (frame_header f) 0 = 0 /\
  nth 7 (frame_header f) 0 = 0 /\
  slice 8 24 (frame_header f) = be_enc 16 (session_id f) /\
  slice 24 28 (frame_header f) = be_enc 4 (generation f) /\
  slice 28 36 (frame_header f) = be_enc 8 (sequence f) /\
  slice 36 40 (frame_header f) = be_enc 4 (wrap32 (zlen (payload f))).
Proof. repeat split; reflexivity. Qed.

Lemma frame_encode_Ok f b :
  frame_encode f = Ok b <->
  zlen (payload f) <= MAX_PAYLOAD /\ 1 <= kind f <= 6 /\
  b = frame_header f ++ payload f.
Proof.
  unfold frame_encode. destruct (_ <? _) eqn:E1; destruct (in_range _ _ _) eqn:E2;
    simpl; rewrite <- in_range_spec, E2; bools; naive_solver lia.
Qed.

Lemma wrap32_payload f :
  zlen (payload f) <= MAX_PAYLOAD -> wrap32 (zlen (payload f)) = zlen (payload f).
Proof.
  intros. apply wrap32_small. pose proof (zlen_nonneg (payload f)).
  unfold MAX_PAYLOAD, u32_max in *. lia.
Qed.

Lemma frame_decode_one_encode f b rest :
  frame_wf f -> frame_encode f = Ok b ->
  frame_decode_one (b ++ rest) = Ok (f, rest).
Proof.
  intros (Hk & Hs & Hg & Hq & Hp) (Hlen & Hkind & ->)%frame_encode_Ok.
  pose proof (wrap32_payload f Hlen) as Hw.
  pose proof (zlen_nonneg (payload f)). pose proof (zlen_nonneg rest).
  pose proof (frame_header_length f) as Hhl.
  assert (zlen (frame_header f) = 40) as Hhz by reflexivity.
  destruct (frame_header_fields f) as (F1 & F2 & F3 & F4 & F5 & F6 & F7 & F8 & F9).
  unfold frame_decode_one. rewrite <- app_assoc, !zlen_app, Hhz.
  rewrite (take_app_length' (frame_header f)) by done.
  rewrite (drop_app_length' (frame_header f)) by done.
  rewrite F1, F2, F3, F4, F5, F6, F7, F8, F9.
  unfold in_u, MAX_PAYLOAD, HEADER_LEN in *.
  rewrite !be_dec_enc by (try rewrite Hw; lia). rewrite Hw.
  rewrite (proj2 (in_range_spec 1 6 (kind f)) Hkind).
  rewrite !(proj2 (Z.ltb_ge _ _)) by lia. simpl.
  rewrite take_app_length' by (unfold zlen; lia).
  replace (drop _ _) with rest; [by destruct f|].
  rewrite drop_app_length'; [done|]. unfold zlen. lia.
Qed.

Lemma length40 {A} (h : list A) : length h = 40%nat ->
  exists a0 a1 a2 a3 a4 a5 a6 a7 s g q n,
    h = [a0;a1;a2;a3;a4;a5;a6;a7] ++ s ++ g ++ q ++ n /\
    length s = 16%nat /\ length g = 4%nat /\ length q = 8%nat /\ length n = 4%nat.
Proof.
  intros H. do 8 (destruct h as [|? h]; [discriminate|]). simpl in H.
  do 8 eexists.
  exists (take 16 h), (slice 16 20 h), (slice 20 28 h), (slice 28 32 h).
  do 32 (destruct h as [|? h]; [discriminate|]). by destruct h.
Qed.

(** The fields of a header of forty bytes. *)
Lemma header_slices a0 a1 a2 a3 a4 a5 a6 a7 (s g q n : bytes) :
  length s = 16%nat -> length g = 4%nat -> length q = 8%nat -> length n = 4%nat ->
  let h := [a0;a1;a2;a3;a4;a5;a6;a7] ++ s ++ g ++ q ++ n in
  slice 8 24 h = s /\ slice 24 28 h = g /\ slice 28 36 h = q /\ slice 36 40 h = n.
Proof.
  intros Hs Hg Hq Hn. do 17 (destruct s; try discriminate). do 5 (destruct g; try discriminate).
  do 9 (destruct q; try discriminate). do 5 (destruct n; try discriminate). done.
Qed.
(** Numbers of a header, written again. *)
Lemma header_renc (s g q n : bytes) :
  length s = 16%nat -> length g = 4%nat -> length q = 8%nat -> length n = 4%nat ->
  Forall is_byte s -> Forall is_byte g -> Forall is_byte q -> Forall is_byte n ->
  be_enc 16 (be_dec s) = s /\ be_enc 4 (be_dec g) = g /\ be_enc 8 (be_dec q) = q /\
  be_enc 4 (be_dec n) = n.
Proof.
  intros Hs Hg Hq Hn. rewrite <- Hs, <- Hg, <- Hq at 1. intros. rewrite <- Hn. by rewrite !be_enc_dec.
Qed.
Lemma frame_decode_one_sound data f rest :
  Forall is_byte data -> frame_decode_one data = Ok (f, rest) ->
  frame_wf f /\ exists b, frame_encode f = Ok b /\ data = b ++ rest.
Proof.
  intros Hb. unfold frame_decode_one.
  destruct (zlen data <? HEADER_LEN) eqn:E1; [done|]. bools.
  assert (length (take 40 data) = 40%nat) as Hl
    by (rewrite length_take; unfold zlen, HEADER_LEN in *; lia).
  assert (Forall is_byte (take 40 data) /\ Forall is_byte (drop 40 data)) as [Hbh Hbd]
    by (split; [by apply Forall_take | by apply Forall_drop]).
  rewrite <- (take_drop 40 data) in E1.
  destruct (length40 _ Hl)
    as (a0&a1&a2&a3&a4&a5&a6&a7&s&g&q&n&Hh&Hs&Hg&Hq&Hn).
  rewrite Hh in *. cbn zeta.
  destruct (header_slices a0 a1 a2 a3 a4 a5 a6 a7 s g q n Hs Hg Hq Hn) as (-> & -> & -> & ->).
  simpl in Hbh. rewrite !Forall_cons_iff, !Forall_app in Hbh.
  destruct Hbh as (_&_&_&_&Ha4&Ha5&_&_&Bs&Bg&Bq&Bn).
  cbn [nth take app]. intros HH.
  destruct (bool_decide _) eqn:Em; [|done]. bools.
  destruct (a4 =? 1) eqn:E4; [|done]. destruct (in_range 1 6 a5) eqn:E5; [|done].
  destruct (a6 =? 0) eqn:E6; [|done]. destruct (a7 =? 0) eqn:E7; [|done].
  cbn [negb orb] in HH.
  destruct (MAX_PAYLOAD <? _) eqn:E8; [done|].
  destruct (zlen data <? _) eqn:E9; [done|]. bools.
  apply in_range_spec in E5.
  pose proof (be_dec_range s Bs). pose proof (be_dec_range g Bg).
  pose proof (be_dec_range q Bq). pose proof (be_dec_range n Bn).
  unfold zlen in *. rewrite Hs, Hg, Hq, Hn in *.
  injection HH as <- <-.
  assert (length (take (Z.to_nat (be_dec n)) (drop 40 data)) = Z.to_nat (be_dec n)) as Hpl.
  { rewrite length_take, length_drop. unfold HEADER_LEN in *. lia. }
  split.
  - unfold frame_wf, in_u, is_byte in *; cbn. repeat split; try lia.
    by apply Forall_take.
  - eexists. split; [apply frame_encode_Ok; cbn [kind payload]|].
    { split; [unfold zlen; rewrite Hpl; lia | split; [lia | reflexivity]]. }
    unfold frame_header. cbn [kind session_id generation sequence payload].
    unfold zlen. rewrite Hpl, Z2Nat.id by lia. rewrite wrap32_small by (unfold u32_max; lia).
    destruct (header_renc s g q n) as (-> & -> & -> & ->); [done..|].
    rewrite <- (take_drop 40 data) at 1. rewrite Hh. injection Em as -> -> -> ->. subst.
    rewrite <- app_assoc, <- (take_drop (Z.to_nat (be_dec n)) (drop 40 data)) at 1.
    rewrite drop_drop. rewrite !app_assoc_reverse. done.
Qed.

(** The frames [fs] are the decoding of [data]: each is well formed and the
    data is the concatenation of their encodings. *)
Definition frames_of (data : bytes) (fs : list Frame) : Prop :=
  Forall frame_wf fs /\
  exists chunks, Forall2 (fun f b => frame_encode f = Ok b) fs chunks /\
    data = concat chunks.

Lemma frame_encode_nonempty f b : frame_encode f = Ok b -> (40 <= length b)%nat.
Proof.
  intros (_ & _ & ->)%frame_encode_Ok. rewrite length_app, frame_header_length. lia.
Qed.
Lemma frames_of_nil fs : frames_of [] fs <-> fs = [].
Proof.
  split.
  - intros (_ & chunks & HF & Hc). destruct HF as [|f b fs' cs Hf HF]; [done|].
    apply frame_encode_nonempty in Hf. simpl in Hc.
    apply (f_equal length) in Hc. rewrite length_app in Hc. simpl in Hc. lia.
  - intros ->. split; [done|]. exists []. done.
Qed.
Lemma frames_of_cons f b rest fs :
  frame_wf f -> frame_encode f = Ok b -> frames_of rest fs ->
  frames_of (b ++ rest) (f :: fs).
Proof.
  intros Hw He (Hws & cs & HF & ->). split; [by constructor|].
  exists (b :: cs). split; [by constructor|done].
Qed.

Lemma frame_decode_loop_spec fuel data acc out :
  (length data <= fuel)%nat -> Forall is_byte data ->
  frame_decode_loop fuel data acc = Ok out <->
  exists fs, out = acc ++ fs /\ frames_of data fs.
Proof.
  revert data acc. induction fuel as [|fuel IH]; intros data acc Hl Hb.
  { destruct data; [|simpl in Hl; lia]. simpl. setoid_rewrite frames_of_nil. split.
    - intros [= <-]. exists []. by rewrite app_nil_r.
    - intros (fs & -> & ->). by rewrite app_nil_r. }
  destruct data as [|d0 data0] eqn:Ed.
  { simpl. setoid_rewrite frames_of_nil. split.
    - intros [= <-]. exists []. by rewrite app_nil_r.
    - intros (fs & -> & ->). by rewrite app_nil_r. }
  cbn [frame_decode_loop]. rewrite <- Ed in *.
  destruct (frame_decode_one data) as [[f rest]|e] eqn:E1.
  - destruct (frame_decode_one_sound _ _ _ Hb E1) as (Hw & b & He & Hd).
    pose proof (frame_encode_nonempty _ _ He).
    assert (length data = length b + length rest)%nat by (rewrite Hd; apply length_app).
    rewrite IH by (first [lia | rewrite Hd in Hb; by apply Forall_app in Hb as [_ ?]]).
    split.
    + intros (fs & -> & Hf). exists (f :: fs). rewrite <- app_assoc. split; [done|].
      rewrite Hd. by apply frames_of_cons.
    + intros (fs & -> & (Hws & cs & HF & Hc)).
      destruct HF as [|f' b' fs' cs' He' HF']; [by rewrite Hc in Ed|].
      apply Forall_cons_iff in Hws as [Hw' Hws].
      pose proof (frame_decode_one_encode f' b' (concat cs') Hw' He') as E2.
      cbn [concat] in Hc. rewrite <- Hc, E1 in E2. simplify_eq.
      exists fs'. rewrite <- app_assoc. split; [done|]. split; [done|]. by exists cs'.
  - split; [done|]. intros (fs & _ & (Hws & cs & HF & Hc)).
    destruct HF as [|f' b' fs' cs' He' HF']; [by rewrite Hc in Ed|].
    apply Forall_cons_iff in Hws as [Hw' Hws].
    pose proof (frame_decode_one_encode f' b' (concat cs') Hw' He') as E2.
    cbn [concat] in Hc. rewrite <- Hc, E1 in E2. done.
Qed.

(** C10: the decoder accepts exactly the concatenations of encoded frames of at
    most [MAX_MESSAGE] bytes, and returns those frames: encoding any list of
    well-formed frames and decoding it gives the list back, and whatever the
    decoder accepts re-encodes to the same bytes.  Every other message (short,
    bad magic, bad kind, reserved bits, oversize length, trailing bytes) is an
    error. *)
Theorem frame_decode_all_exact data fs :
  Forall is_byte data ->
  frame_decode_all data = Ok fs <-> zlen data <= MAX_MESSAGE /\ frames_of data fs.
Proof.
  intros Hb. unfold frame_decode_all. destruct (_ <? _) eqn:E; bools.
  - split; [done|]. lia.
  - rewrite frame_decode_loop_spec by done. cbn [app]. naive_solver.
Qed.

Definition sample_frame : Frame :=
  {| kind := OUTPUT; session_id := 7; generation := 4;
     sequence := 18014398509481991; payload := [104; 105] |}.
Lemma frame_decode_all_exact_witness :
  Forall is_byte (frame_header sample_frame ++ [104; 105]) /\
  (frame_decode_all (frame_header sample_frame ++ [104; 105]) = Ok [sample_frame] <->
   zlen (frame_header sample_frame ++ [104; 105]) <= MAX_MESSAGE /\
   frames_of (frame_header sample_frame ++ [104; 105]) [sample_frame]).
Proof.
  assert (Forall is_byte (frame_header sample_frame ++ [104; 105])) as Hb.
  { repeat constructor; vm_compute; congruence. }
  split; [exact Hb | exact (frame_decode_all_exact _ [sample_frame] Hb)].
Defined.
Example frame_decode_all_runs :
  frame_decode_all (frame_header sample_frame ++ [104; 105]) = Ok [sample_frame] /\
  frame_decode_all (take 41 (frame_header sample_frame ++ [104; 105])) = Err InvalidRequest.
Proof. by vm_compute. Qed.
