(* ===== verification/Ring.v ===== *)
(** * The replay ring of a session
    ([crates/rc-core/src/ring.rs]): a bounded queue of the last output frames,
    from which a reconnecting terminal is resumed. *)
From S2P Require Import Prelude Errors Frame.

Record EventRing := {
  ring_limit : Z;
  ring_bytes : Z;
  ring_events : list Frame
}.

Definition ring_new (limit : Z) : EventRing :=
  {| ring_limit := limit; ring_bytes := 0; ring_events := [] |}.

(** What one event counts for: [payload.len() + 40]. *)
Definition frame_cost (f : Frame) : Z := zlen (payload f) + 40.

(** The [while] loop of [push]. *)
Fixpoint ring_evict (limit bytes : Z) (events : list Frame) : Z * list Frame :=
  if (limit <? bytes) || (4096 <? zlen events) then
    match events with
    | old :: rest => ring_evict limit (wrap64 (bytes - frame_cost old)) rest
    | [] => (bytes, [])
    end
  else (bytes, events).

Definition ring_push (r : EventRing) (event : Frame) : EventRing :=
  let '(bytes, events) :=
    ring_evict (ring_limit r) (wrap64 (ring_bytes r + frame_cost event))
      (ring_events r ++ [event]) in
  {| ring_limit := ring_limit r; ring_bytes := bytes; ring_events := events |}.

Definition ring_after (r : EventRing) (seq : Z) : res (list Frame) :=
  if is_some_and (fun f => saturating_add64 seq 1 <? sequence f) (head (ring_events r))
  then Err ResyncRequired
  else Ok (base.filter (fun e => seq < sequence e) (ring_events r)).

Definition ring_pushes (limit : Z) (history : list Frame) : EventRing :=
  foldl ring_push (ring_new limit) history.

(** ** Invariant *)
Record ring_inv (r : EventRing) : Prop := {
  ri_bytes : ring_bytes r = zsum frame_cost (ring_events r);
  ri_limit : ring_bytes r <= ring_limit r;
  ri_count : zlen (ring_events r) <= 4096
}.

Lemma frame_cost_pos f : 40 <= frame_cost f.
Proof. unfold frame_cost. pose proof (zlen_nonneg (payload f)). lia. Qed.
Lemma cost_sum_nonneg l : 0 <= zsum frame_cost l.
Proof. apply zsum_nonneg. intros x _. pose proof (frame_cost_pos x). lia. Qed.

(** Eviction drops a prefix, keeps the byte count exact and stops within both
    bounds. *)
Lemma ring_evict_spec limit events :
  0 <= limit -> zsum frame_cost events <= u64_max ->
  exists dropped kept,
    ring_evict limit (zsum frame_cost events) events = (zsum frame_cost kept, kept) /\
    events = dropped ++ kept /\
    zsum frame_cost kept <= limit /\ zlen kept <= 4096 /\
    (forall last, kept = [] -> list.last events = Some last ->
       limit < frame_cost last).
Proof.
  intros Hlim. induction events as [|old rest IH]; intros Hmax.
  - exists [], []. simpl. replace (limit <? 0) with false by (symmetry; bools; lia).
    repeat split; try done; simpl; lia.
  - cbn [ring_evict]. destruct ((limit <? _) || _) eqn:E.
    + rewrite zsum_cons in *. pose proof (cost_sum_nonneg rest).
      pose proof (frame_cost_pos old).
      rewrite wrap64_small by lia. replace (_ + _ - _) with (zsum frame_cost rest) by lia.
      destruct IH as (dr & k & -> & Hr & ? & ? & Hl); [lia|].
      exists (old :: dr), k. rewrite Hr. repeat split; try done.
      intros last -> Hlast. destruct rest as [|y rest'].
      * destruct dr; [|done]. simpl in Hlast. simplify_eq. bools.
        change (zsum frame_cost []) with 0 in *. change (zlen [last]) with 1 in E.
        destruct E; bools; lia.
      * apply Hl; [done|]. rewrite <- Hlast. by rewrite <- Hr.
    + bools. exists [], (old :: rest). repeat split; try done.
Qed.

Lemma ring_push_spec r f :
  ring_inv r -> 0 <= ring_limit r -> ring_limit r + frame_cost f <= u64_max ->
  ring_inv (ring_push r f) /\ ring_limit (ring_push r f) = ring_limit r /\
  exists dropped,
    ring_events r ++ [f] = dropped ++ ring_events (ring_push r f) /\
    (frame_cost f <= ring_limit r -> ring_events (ring_push r f) <> []).
Proof.
  intros [Hb Hl Hc] Hlim Hmax. unfold ring_push.
  assert (zsum frame_cost (ring_events r ++ [f]) = ring_bytes r + frame_cost f) as Hs.
  { rewrite zsum_app, Hb. cbn [zsum foldr]. lia. }
  pose proof (cost_sum_nonneg (ring_events r)). pose proof (frame_cost_pos f).
  rewrite wrap64_small by lia. rewrite <- Hs.
  destruct (ring_evict_spec (ring_limit r) (ring_events r ++ [f]))
    as (dr & k & -> & He & ? & ? & Hlast); [done | lia |].
  simpl. split; [done|]. split; [done|]. exists dr. split; [done|].
  intros ? ->. specialize (Hlast f eq_refl). rewrite last_snoc in Hlast.
  specialize (Hlast eq_refl). lia.
Qed.

(** ** The history of a session *)

(** Sequence numbers go up by one from [start]. *)
Fixpoint contiguous (start : Z) (l : list Frame) : Prop :=
  match l with
  | [] => True
  | f :: rest => sequence f = start + 1 /\ contiguous (start + 1) rest
  end.

Lemma contiguous_app start l k :
  contiguous start (l ++ k) <-> contiguous start l /\ contiguous (start + zlen l) k.
Proof.
  revert start. induction l as [|f l IH]; intros start; cbn [contiguous app].
  - rewrite zlen_nil, Z.add_0_r. naive_solver.
  - rewrite IH, zlen_cons, Z.add_assoc. naive_solver.
Qed.
Lemma contiguous_bounds start l f :
  contiguous start l -> f ∈ l -> start < sequence f <= start + zlen l.
Proof.
  revert start. induction l as [|g l IH]; intros start; [by intros _ ?%elem_of_nil|].
  intros [Hg Hl] [->|Hf]%elem_of_cons; rewrite zlen_cons;
    pose proof (zlen_nonneg l); [lia|]. specialize (IH _ Hl Hf). lia.
Qed.

Lemma ring_pushes_spec limit history :
  0 <= limit -> Forall (fun f => limit + frame_cost f <= u64_max) history ->
  ring_inv (ring_pushes limit history) /\
  ring_limit (ring_pushes limit history) = limit /\
  exists dropped, history = dropped ++ ring_events (ring_pushes limit history) /\
    (Forall (fun f => frame_cost f <= limit) history -> history <> [] ->
     ring_events (ring_pushes limit history) <> []).
Proof.
  intros Hlim. unfold ring_pushes. induction history as [|f history IH] using rev_ind; intros HF.
  - simpl. split; [split; simpl; [done | lia | done]|]. split; [done|]. by exists [].
  - apply Forall_app in HF as [HF Hf%Forall_inv].
    destruct (IH HF) as (Hinv & Hl & dr & Hd & _). rewrite foldl_app. cbn [foldl].
    set (r := foldl ring_push (ring_new limit) history) in *.
    destruct (ring_push_spec r f) as (Hi & Hl' & dr' & Hd' & Hne); [done | lia | lia |].
    split; [done|]. split; [congruence|]. exists (dr ++ dr'). split.
    + rewrite Hd at 1. by rewrite <- !app_assoc, Hd'.
    + intros [_ Hf']%Forall_app _. apply Hne. rewrite Hl. by apply Forall_inv in Hf'.
Qed.

(** Whatever is pushed, the ring's byte count is exactly the sum over its
    events and never exceeds the limit, at most 4096 events are kept, and the
    events are the most recent ones: a suffix of everything pushed. *)
Theorem ring_bounded limit history :
  0 <= limit -> Forall (fun f => limit + frame_cost f <= u64_max) history ->
  let r := ring_pushes limit history in
  ring_bytes r = zsum frame_cost (ring_events r) /\ ring_bytes r <= limit /\
  zlen (ring_events r) <= 4096 /\ (exists dropped, history = dropped ++ ring_events r).
Proof.
  intros Hlim HF. destruct (ring_pushes_spec limit history Hlim HF)
    as ([? ? ?] & Hl & dr & ? & _). simpl. rewrite Hl in *. eauto.
Qed.

(** Resuming after [seq] is lossless: when every event fits the limit, the
    frames [after] returns are exactly the frames of the session's history
    with a larger sequence, in order; and it answers [ResyncRequired] exactly
    when one of those has been evicted.  (A session numbers its frames from 1.) *)
Theorem ring_after_lossless limit history seq :
  0 <= limit -> Forall (fun f => limit + frame_cost f <= u64_max) history ->
  Forall (fun f => frame_cost f <= limit) history ->
  contiguous 0 history -> zlen history <= u64_max -> 0 <= seq ->
  let r := ring_pushes limit history in
  (ring_after r seq = Ok (base.filter (fun e => seq < sequence e) history) \/
   ring_after r seq = Err ResyncRequired) /\
  (ring_after r seq = Err ResyncRequired <->
   exists f dropped, f ∈ dropped /\ seq < sequence f /\
     history = dropped ++ ring_events r).
Proof.
  intros Hlim HF Hfit Hc Hmax Hseq r.
  destruct (ring_pushes_spec limit history Hlim HF) as (_ & _ & dr & Hd & Hne).
  fold r in Hd, Hne. unfold ring_after.
  destruct (ring_events r) as [|e ev] eqn:Ee.
  { destruct history; [|by destruct Hne]. simpl. split; [by left|]. split; [done|].
    intros (f & d & Hf & _ & Hd'). symmetry in Hd'. apply app_eq_nil in Hd' as [-> _].
    by apply elem_of_nil in Hf. }
  cbn [head is_some_and]. rewrite Hd in Hc. apply contiguous_app in Hc as [Hc1 Hc2].
  pose proof (proj1 Hc2) as Hse.
  rewrite Hd, zlen_app, zlen_cons in Hmax. pose proof (zlen_nonneg ev).
  unfold saturating_add64. destruct (_ <? _) eqn:E; bools.
  - split; [by right|]. split; [|done]. intros _.
    destruct dr as [|g dr _] using rev_ind.
    { rewrite zlen_nil in *. lia. }
    exists g, (dr ++ [g]). split; [set_solver|]. split; [|done].
    apply contiguous_app in Hc1 as [_ [Hg _]]. rewrite zlen_snoc in *. lia.
  - split.
    + left. f_equal. rewrite Hd. rewrite filter_app.
      replace (base.filter _ dr) with (@nil Frame); [done|].
      symmetry. apply filter_none. intros f Hf.
      pose proof (contiguous_bounds _ _ _ Hc1 Hf). lia.
    + split; [done|]. intros (f & d & Hf & Hlt & Hd').
      rewrite Hd in Hd'. apply app_inv_tail in Hd' as <-.
      pose proof (contiguous_bounds _ _ _ Hc1 Hf). lia.
Qed.

(** The limits a session uses: [ring_bytes] of at least 32 KiB. *)
Definition two_frames : list Frame :=
  [{| kind := OUTPUT; session_id := 1; generation := 1; sequence := 1; payload := [65] |};
   {| kind := OUTPUT; session_id := 1; generation := 1; sequence := 2; payload := [66; 67] |}].
Lemma ring_bounded_witness :
  0 <= 32768 /\ Forall (fun f => 32768 + frame_cost f <= u64_max) two_frames /\
  (let r := ring_pushes 32768 two_frames in
   ring_bytes r = zsum frame_cost (ring_events r) /\ ring_bytes r <= 32768 /\
   zlen (ring_events r) <= 4096 /\ (exists dropped, two_frames = dropped ++ ring_events r)).
Proof.
  assert (Forall (fun f => 32768 + frame_cost f <= u64_max) two_frames) as H
    by (repeat constructor; vm_compute; congruence).
  split; [lia|]. split; [exact H|]. exact (ring_bounded 32768 two_frames ltac:(lia) H).
Defined.
Lemma ring_after_lossless_witness :
  let r := ring_pushes 50 two_frames in
  (ring_after r 1 = Ok (base.filter (fun e => 1 < sequence e) two_frames) \/
   ring_after r 1 = Err ResyncRequired) /\
    (ring_after r 1 = Err ResyncRequired <->
   exists f dropped, f ∈ dropped /\ 1 < sequence f /\
    two_frames = dropped ++ ring_events r).
Proof.
  apply (ring_after_lossless 50 two_frames 1);
    first [lia | repeat constructor; vm_compute; congruence].
Defined.
Example ring_evicts_whole_events :
  ring_after (ring_pushes 50 two_frames) 0 = Err ResyncRequired /\
    ring_after (ring_pushes 50 two_frames) 1 = Ok (drop 1 two_frames).
Proof. by vm_compute. Qed.

(** An event larger than the limit evicts itself, and the empty ring then
    answers every resume request with success and no frames: a full frame
    (payload [MAX_PAYLOAD]) in a ring of the smallest configurable size
    (32768 bytes) is lost without [ResyncRequired]. *)
Theorem ring_oversize_event_lost_silently f :
  zlen (payload f) = MAX_PAYLOAD -> 0 < sequence f ->
  ring_events (ring_pushes 32768 [f]) = [] /\
    ring_after (ring_pushes 32768 [f]) 0 = Ok [].
Proof.
  intros Hp Hs. unfold ring_pushes. cbn [foldl]. unfold ring_push, ring_new.
  cbn [ring_bytes ring_events ring_limit app]. unfold frame_cost. rewrite Hp.
  cbn [ring_evict]. unfold frame_cost. rewrite Hp. done.
Qed.
Definition full_frame : Frame :=
  {| kind := OUTPUT; session_id := 1; generation := 1; sequence := 1;
     payload := replicate (Z.to_nat MAX_PAYLOAD) 65 |}.
Lemma ring_oversize_event_lost_silently_witness :
  ring_events (ring_pushes 32768 [full_frame]) = [] /\
    ring_after (ring_pushes 32768 [full_frame]) 0 = Ok [].
Proof.
  apply (ring_oversize_event_lost_silently full_frame); [vm_compute; reflexivity | reflexivity].
Defined.
