(* ===== verification/Lease.v ===== *)
(** * The input lease of a session
    ([crates/rc-core/src/lease.rs]): one connection at a time may write to a
    terminal, for at most [LEASE_TTL] unless it renews, and each change of
    owner gets a fresh epoch. *)
From S2P Require Import Prelude Errors Protocol.

Definition LEASE_TTL : Z := secs 15.

Record Owner := {
  ow_client : Uuid;
  ow_connection : Uuid;
  ow_until : Z
}.

Record Lease := {
  ls_epoch : Z;
  ls_owner : option Owner
}.

Definition lease_default : Lease := {| ls_epoch := 0; ls_owner := None |}.

Definition lease_view (l : Lease) (now : Z) : option LeaseView :=
  match option_keep (fun o => now <? ow_until o) (ls_owner l) with
  | None => None
  | Some o =>
    Some {| lv_client_id := ow_client o;
            lv_connection_id := ow_connection o;
            lv_epoch := ls_epoch l;
            lv_remaining_ms := wrap64 (as_millis (ow_until o - now)) |}
  end.

(** [self.view(now).unwrap()]: the panic is the [None]. *)
Definition lease_view_unwrap (l : Lease) (now : Z) : option (res LeaseView) :=
  match lease_view l now with Some v => Some (Ok v) | None => None end.

(** A call returns the new state and its result, [None] for a panic. *)
Definition lease_acquire (l : Lease) (client connection : Uuid) (takeover : bool)
    (now : Z) : Lease * option (res LeaseView) :=
  let fresh :=
    match checked_add64 (ls_epoch l) 1 with
    | None => (l, Some (Err Internal))
    | Some epoch =>
      let l' := {| ls_epoch := epoch;
                   ls_owner := Some {| ow_client := client; ow_connection := connection;
                                       ow_until := now + LEASE_TTL |} |} in
      (l', lease_view_unwrap l' now)
    end in
  match option_keep (fun o => now <? ow_until o) (ls_owner l) with
  | Some owner =>
    if (ow_client owner =? client) && (ow_connection owner =? connection) then
      let l' := {| ls_epoch := ls_epoch l;
                   ls_owner := Some {| ow_client := ow_client owner;
                                       ow_connection := ow_connection owner;
                                       ow_until := now + LEASE_TTL |} |} in
      (l', lease_view_unwrap l' now)
    else if negb takeover then (l, Some (Err LeaseBusy))
    else fresh
  | None => fresh
  end.

Definition lease_verify (l : Lease) (client connection : Uuid) (epoch now : Z)
  : res unit :=
  match ls_owner l with
  | None => Err LeaseRequired
  | Some o =>
    if (ow_until o <=? now) || negb (ow_client o =? client) ||
       negb (ow_connection o =? connection) || negb (ls_epoch l =? epoch)
    then Err LeaseStale else Ok tt
  end.

Definition lease_renew (l : Lease) (client connection : Uuid) (epoch now : Z)
  : Lease * option (res LeaseView) :=
  match lease_verify l client connection epoch now with
  | Err e => (l, Some (Err e))
  | Ok _ =>
    match ls_owner l with
    | None => (l, None)
    | Some o =>
      let l' := {| ls_epoch := ls_epoch l;
                   ls_owner := Some {| ow_client := ow_client o;
                                       ow_connection := ow_connection o;
                                       ow_until := now + LEASE_TTL |} |} in
      (l', lease_view_unwrap l' now)
    end
  end.

Definition lease_release (l : Lease) (client connection : Uuid) (epoch now : Z)
  : Lease * res unit :=
  match lease_verify l client connection epoch now with
  | Err e => (l, Err e)
  | Ok _ => ({| ls_epoch := ls_epoch l; ls_owner := None |}, Ok tt)
  end.

Definition lease_revoke_connection (l : Lease) (id : Uuid) : Lease :=
  if is_some_and (fun o => ow_connection o =? id) (ls_owner l)
  then {| ls_epoch := ls_epoch l; ls_owner := None |} else l.
Definition lease_revoke_client (l : Lease) (id : Uuid) : Lease :=
  if is_some_and (fun o => ow_client o =? id) (ls_owner l)
  then {| ls_epoch := ls_epoch l; ls_owner := None |} else l.
Definition lease_revoke_all (l : Lease) : Lease :=
  {| ls_epoch := ls_epoch l; ls_owner := None |}.

(** ** Who holds the lease *)

(** [(client, connection)] may write under [epoch] at [now]. *)
Definition holds (l : Lease) (client connection : Uuid) (epoch now : Z) : Prop :=
  exists o, ls_owner l = Some o /\ now < ow_until o /\ ow_client o = client /\
    ow_connection o = connection /\ ls_epoch l = epoch.

Lemma lease_verify_holds l c k e now :
  lease_verify l c k e now = Ok tt <-> holds l c k e now.
Proof.
  unfold lease_verify, holds. destruct (ls_owner l) as [o|]; [|naive_solver].
  destruct (_ || _) eqn:E; split; intros Hx.
  - done.
  - destruct Hx as (o' & [= <-] & ? & <- & <- & <-). rewrite !Z.eqb_refl in E. simpl in E.
    rewrite !orb_false_r in E. bools. lia.
  - bools. exists o. repeat split; (done || lia).
  - done.
Qed.

(** The operations as one transition relation over time: [ep] is the lease
    epoch handed out by the step, if any. *)
Inductive lease_op : Type :=
| OpAcquire (c k : Uuid) (takeover : bool)
| OpRenew (c k : Uuid) (e : Z)
| OpRelease (c k : Uuid) (e : Z)
| OpRevokeConnection (k : Uuid)
| OpRevokeClient (c : Uuid)
| OpRevokeAll.
Definition lease_apply (l : Lease) (now : Z) (op : lease_op) : Lease :=
  match op with
  | OpAcquire c k t => fst (lease_acquire l c k t now)
  | OpRenew c k e => fst (lease_renew l c k e now)
  | OpRelease c k e => fst (lease_release l c k e now)
  | OpRevokeConnection k => lease_revoke_connection l k
  | OpRevokeClient c => lease_revoke_client l c
  | OpRevokeAll => lease_revoke_all l
  end.

(** What each operation may do to the lease. *)
Lemma lease_apply_cases l now op :
  let l' := lease_apply l now op in
  l' = l \/ (ls_epoch l' = ls_epoch l /\ ls_owner l' = None) \/
  (exists c k, (op = OpAcquire c k true \/ op = OpAcquire c k false \/
                op = OpRenew c k (ls_epoch l)) /\
     holds l c k (ls_epoch l) now /\ ls_epoch l' = ls_epoch l /\
     ls_owner l' = Some {| ow_client := c; ow_connection := k; ow_until := now + LEASE_TTL |}) \/
  (exists c k t, op = OpAcquire c k t /\
     (t = true \/ forall o, ls_owner l = Some o -> ow_until o <= now) /\
     ls_epoch l < u64_max /\ ls_epoch l' = ls_epoch l + 1 /\
     ls_owner l' = Some {| ow_client := c; ow_connection := k; ow_until := now + LEASE_TTL |}).
Proof.
  destruct op as [c k t|c k e|c k e|k|c|]; cbn [lease_apply].
  - unfold lease_acquire. destruct (checked_add64 _ _) as [ep|] eqn:Ec.
    + apply checked_add64_Some in Ec as [-> Hm].
      destruct (ls_owner l) as [o|] eqn:Eo; cbn [option_keep].
      * destruct (now <? ow_until o) eqn:Et.
        -- destruct (_ && _) eqn:Eq; cbn.
           ++ right; right; left. bools. exists c, k. subst. split; [destruct t; auto|].
              split; [exists o; auto|]. done.
           ++ destruct t; cbn; [|auto]. right; right; right.
              exists c, k, true. repeat split; (auto || lia).
        -- right; right; right. bools. exists c, k, t.
           repeat split; [right; intros; simplify_eq; lia | lia].
      * right; right; right. exists c, k, t. repeat split; [by right | lia].
    + destruct (ls_owner l) as [o|] eqn:Eo; cbn [option_keep]; [|auto].
      destruct (now <? ow_until o) eqn:Et; [|auto].
      destruct (_ && _) eqn:Eq; cbn.
      * right; right; left. bools. exists c, k. subst. split; [destruct t; auto|].
        split; [exists o; auto|]. done.
      * destruct t; cbn; auto.
  - unfold lease_renew. destruct (lease_verify _ _ _ _ _) as [[]|er] eqn:Ev; [|cbn; auto].
    apply lease_verify_holds in Ev as (o & Ho & Ht & <- & <- & <-). rewrite Ho. cbn.
    right; right; left. do 2 eexists. repeat split; eauto. by exists o.
  - unfold lease_release. destruct (lease_verify _ _ _ _ _); cbn; auto.
  - unfold lease_revoke_connection. case_match; cbn; auto.
  - unfold lease_revoke_client. case_match; cbn; auto.
  - cbn; auto.
Qed.

(** ** Runs *)
Definition lease_run (l : Lease) (ops : list (Z * lease_op)) : Lease :=
  foldl (fun l x => lease_apply l x.1 x.2) l ops.

(** The clock of the calls does not go back: [Instant] is monotonic. *)
Fixpoint clock_from {A} (t : Z) (ops : list (Z * A)) : Prop :=
  match ops with
  | [] => True
  | (now, _) :: rest => t <= now /\ clock_from now rest
  end.

(** What a later state may still know of the lease [l0] as it was at [t0]:
    a larger epoch, or the same epoch with the same live owner. *)
Definition lease_continues (l0 : Lease) (t0 : Z) (l : Lease) : Prop :=
  ls_epoch l0 < ls_epoch l \/
  (ls_epoch l0 = ls_epoch l /\
   forall o, ls_owner l = Some o ->
     ow_until o <= t0 \/ holds l0 (ow_client o) (ow_connection o) (ls_epoch l0) t0).

Lemma lease_continues_refl l t : lease_continues l t l.
Proof.
  right. split; [done|]. intros o Ho. destruct (decide (ow_until o <= t)); [by left|].
  right. exists o. repeat split; (done || lia).
Qed.
Lemma lease_continues_apply l0 t0 l now op :
  t0 <= now -> lease_continues l0 t0 l -> lease_continues l0 t0 (lease_apply l now op).
Proof.
  intros Ht Hc.
  destruct (lease_apply_cases l now op)
    as [->|[[He Ho]|[(c & k & _ & (o & Ho & Hlive & <- & <- & _) & He & Ho')
                    |(c & k & t & _ & _ & _ & He & _)]]]; [done|..];
    unfold lease_continues in *; rewrite ?He.
  - destruct Hc as [?|[? _]]; [by left|right]. split; [done|]. rewrite Ho. done.
  - destruct Hc as [?|[? Hc]]; [by left|right]. split; [done|].
    intros o'. rewrite Ho'. intros [= <-]. right. cbn.
    destruct (Hc o Ho) as [?|?]; [lia|done].
  - destruct Hc as [?|[? _]]; left; lia.
Qed.
Lemma lease_continues_run l0 t0 ops l t :
  t0 <= t -> clock_from t ops -> lease_continues l0 t0 l ->
  lease_continues l0 t0 (lease_run l ops).
Proof.
  revert l t. induction ops as [|[now op] ops IH]; intros l t Ht; [done|].
  intros [Hn Hops] Hc. apply (IH _ now); [lia | done |].
  cbn [fst snd]. apply lease_continues_apply; [lia | done].
Qed.

(** C2: fencing.  After any sequence of calls, whoever may write holds either
    a strictly larger epoch than the lease had before, or the same epoch and
    then is the very connection that held it live at the start.  So an epoch
    never names two writers, and an expired, released or revoked lease is
    never revived under its old epoch (by renewal, re-acquisition or
    otherwise). *)
Theorem lease_fencing l t0 ops c k e now :
  clock_from t0 ops ->
  holds (lease_run l ops) c k e now -> t0 <= now ->
  ls_epoch l < e \/ (ls_epoch l = e /\ holds l c k e t0).
Proof.
  intros Hclk (o & Ho & Hlive & <- & <- & <-) Hnow.
  destruct (lease_continues_run l t0 ops l t0 ltac:(lia) Hclk (lease_continues_refl l t0))
    as [?|[Heq Hc]]; [by left|].
  right. split; [done|]. rewrite <- Heq. destruct (Hc o Ho) as [?|?]; [|done]. lia.
Qed.
Lemma lease_fencing_witness :
  holds (lease_run lease_default [(0, OpAcquire 1 2 false); (5, OpAcquire 1 3 true)]) 1 3 2 6 /\
  (ls_epoch lease_default < 2 \/
   (ls_epoch lease_default = 2 /\ holds lease_default 1 3 2 0)).
Proof.
  assert (holds (lease_run lease_default
    [(0, OpAcquire 1 2 false); (5, OpAcquire 1 3 true)]) 1 3 2 6) as H
    by (eexists; vm_compute; repeat split; congruence).
  split; [exact H|].
  refine (lease_fencing lease_default 0 _ 1 3 2 6 _ H _); [repeat split|]; lia.
Defined.

(** The lease as [acquire] grants it. *)
Definition fresh_lease (c k e now : Z) : Lease :=
  {| ls_epoch := e;
     ls_owner := Some {| ow_client := c; ow_connection := k; ow_until := now + LEASE_TTL |} |}.
Lemma fresh_lease_granted c k e now :
  lease_view_unwrap (fresh_lease c k e now) now =
    Some (Ok {| lv_client_id := c; lv_connection_id := k; lv_epoch := e; lv_remaining_ms := 15000 |}) /\
  forall c' k' e' now', holds (fresh_lease c k e now) c' k' e' now' <->
    now' < now + LEASE_TTL /\ c' = c /\ k' = k /\ e' = e.
Proof.
  split.
  - unfold lease_view_unwrap, lease_view, fresh_lease. cbn [ls_owner option_keep ow_until].
    replace (now <? now + LEASE_TTL) with true by (symmetry; bools; unfold LEASE_TTL, secs; lia).
    cbn [ow_client ow_connection ls_epoch ow_until].
    replace (now + LEASE_TTL - now) with LEASE_TTL by lia. done.
  - intros c' k' e' now'. unfold holds, fresh_lease. cbn. split.
    + by intros (o & [= <-] & ? & ? & ? & ?).
    + intros (? & -> & -> & ->). eexists. split; [done|]. done.
Qed.
(** A live owner is the only holder; without one there is none. *)
Lemma live_owner_holds l now c k :
  holds l c k (ls_epoch l) now <->
  exists o, option_keep (fun o => now <? ow_until o) (ls_owner l) = Some o /\
    ow_client o = c /\ ow_connection o = k.
Proof.
  unfold holds, option_keep. split.
  - intros (o & Ho & Hu & Hc & Hk & _). exists o. rewrite Ho. case_match; bools; [done|lia].
  - intros (o & Ho & Hc & Hk). destruct (ls_owner l) as [o'|]; [|done].
    destruct (now <? ow_until o') eqn:E; [|done]. injection Ho as ->. bools. by exists o.
Qed.

(** [acquire] never panics, and does exactly this: while another connection
    holds the lease and no takeover is asked, [LeaseBusy] and nothing changes;
    the live owner keeps its epoch and gets a full TTL; everyone else gets the
    next epoch ([Internal], nothing changed, when the epoch is exhausted).  On
    success the caller, and only it, holds the lease. *)
Theorem lease_acquire_correct l c k takeover now :
  let '(l', r) := lease_acquire l c k takeover now in
  let mine := holds l c k (ls_epoch l) now in
  let taken := exists c' k', holds l c' k' (ls_epoch l) now /\ ~ (c' = c /\ k' = k) in
  let granted e :=
    r = Some (Ok {| lv_client_id := c; lv_connection_id := k; lv_epoch := e;
                    lv_remaining_ms := 15000 |}) /\
    forall c' k' e' now', holds l' c' k' e' now' <->
      now' < now + LEASE_TTL /\ c' = c /\ k' = k /\ e' = e in
  (mine /\ granted (ls_epoch l)) \/
  (~ mine /\ taken /\ takeover = false /\ r = Some (Err LeaseBusy) /\ l' = l) \/
  (~ mine /\ (taken -> takeover = true) /\ ls_epoch l + 1 <= u64_max /\
     granted (ls_epoch l + 1)) \/
  (~ mine /\ (taken -> takeover = true) /\ u64_max < ls_epoch l + 1 /\
     r = Some (Err Internal) /\ l' = l).
Proof.
  unfold lease_acquire. fold (fresh_lease c k (ls_epoch l) now).
  pose proof (live_owner_holds l now) as Hh.
  destruct (option_keep _ _) as [o|].
  - assert (forall c' k', holds l c' k' (ls_epoch l) now <-> ow_client o = c' /\ ow_connection o = k') as Ho.
    { intros c' k'. rewrite Hh. split; [by intros (? & [= <-] & ? & ?)|by exists o]. }
    destruct (_ && _) eqn:Eq.
    + bools. subst. left. split; [by apply Ho|]. apply fresh_lease_granted.
    + assert (~ (ow_client o = c /\ ow_connection o = k)) as Hne
        by (intros [<- <-]; by rewrite !Z.eqb_refl in Eq).
      destruct takeover; cbn [negb].
      * destruct (checked_add64 _ _) as [e|] eqn:Ec.
        -- apply checked_add64_Some in Ec as [-> ?]. right; right; left. rewrite Ho.
           split; [done|]. split; [done|]. split; [done|]. apply fresh_lease_granted.
        -- right; right; right. rewrite Ho. unfold checked_add64 in Ec. case_match; bools; [|done].
           repeat split; (done || lia).
      * right; left. rewrite Ho. split; [done|]. split; [|done].
        exists (ow_client o), (ow_connection o). rewrite Ho. by split.
  - assert (forall c' k', ~ holds l c' k' (ls_epoch l) now) as Hn
      by (intros c' k'; rewrite Hh; by intros (? & ? & _)).
    assert ((exists c' k', holds l c' k' (ls_epoch l) now /\ ~ (c' = c /\ k' = k)) -> takeover = true)
      as Ht by (intros (c' & k' & H & _); by destruct (Hn c' k')).
    destruct (checked_add64 _ _) as [e|] eqn:Ec.
    + apply checked_add64_Some in Ec as [-> ?]. right; right; left.
      split; [apply Hn|]. split; [done|]. split; [done|]. apply fresh_lease_granted.
    + right; right; right. unfold checked_add64 in Ec. case_match; bools; [|done].
      split; [apply Hn|]. split; [done|]. split; [lia|done].
Qed.
