(* ===== verification/Ledger.v ===== *)
(** * The replay guard of a session
    ([crates/rc-core/src/input.rs]): input identifiers and sequence numbers are
    accepted once, and the outcome of the last [limit] inputs is remembered. *)
From S2P Require Import Prelude Errors Protocol.

Record InputLedger := {
  highest : gmap (Uuid * Z) Z;
  ids : list Uuid;
  outcomes : gmap Uuid string;
  il_limit : Z
}.

Definition ledger_default : InputLedger :=
  {| highest := ∅; ids := []; outcomes := ∅; il_limit := 1024 |}.

(** The [while self.ids.len() > self.limit] loop. *)
Fixpoint ledger_evict (limit : Z) (ids : list Uuid) (outcomes : gmap Uuid string)
  : list Uuid * gmap Uuid string :=
  if limit <? zlen ids then
    match ids with
    | x :: rest => ledger_evict limit rest (delete x outcomes)
    | [] => ([], outcomes)
    end
  else (ids, outcomes).

Definition ledger_accept_limit (g : InputLedger) (connection : Uuid) (lease : Z)
    (id : Uuid) (seq bytes max : Z) : InputLedger * res unit :=
  if (bytes =? 0) || (max <? bytes) || (seq =? 0) || (MAX_JS_INTEGER <? seq)
  then (g, Err FrameTooLarge) else
  if bool_decide (is_Some (outcomes g !! id)) ||
     is_some_and (fun s => seq <=? s) (highest g !! (connection, lease))
  then (g, Err DuplicateInput) else
  let h := base.filter (fun kv : (Uuid * Z) * Z => kv.1.1 = connection /\ kv.1.2 = lease)
             (highest g) in
  let h := <[(connection, lease) := seq]> h in
  let '(ids', outcomes') :=
    ledger_evict (il_limit g) (ids g ++ [id]) (<[id := "accepted"%string]> (outcomes g)) in
  ({| highest := h; ids := ids'; outcomes := outcomes'; il_limit := il_limit g |}, Ok tt).

Definition ledger_accept g connection lease id seq bytes :=
  ledger_accept_limit g connection lease id seq bytes MAX_INPUT.
Definition ledger_accept_paste g connection lease id seq bytes :=
  ledger_accept_limit g connection lease id seq bytes MAX_PASTE.

Definition ledger_finish (g : InputLedger) (id : Uuid) (status : string) : InputLedger :=
  match outcomes g !! id with
  | Some _ => {| highest := highest g; ids := ids g;
                 outcomes := <[id := status]> (outcomes g); il_limit := il_limit g |}
  | None => g
  end.

Definition ledger_status (g : InputLedger) (id : Uuid) : option string :=
  outcomes g !! id.

(** ** Invariant: the queue and the map hold the same distinct identifiers, at
    most [limit] of them, and one (connection, lease) pair has a sequence. *)
Record ledger_inv (g : InputLedger) : Prop := {
  li_nodup : NoDup (ids g);
  li_dom : dom (outcomes g) = list_to_set (ids g);
  li_bound : zlen (ids g) <= il_limit g;
  li_single : forall k1 k2 s1 s2,
    highest g !! k1 = Some s1 -> highest g !! k2 = Some s2 -> k1 = k2
}.

Lemma ledger_default_inv : ledger_inv ledger_default.
Proof. split; [constructor | set_solver | vm_compute; congruence | intros; simplify_map_eq]. Qed.

Lemma ledger_evict_spec limit ids outcomes :
  0 <= limit -> NoDup ids -> dom outcomes = list_to_set ids ->
  exists dropped kept outcomes',
    ledger_evict limit ids outcomes = (kept, outcomes') /\
    ids = dropped ++ kept /\ zlen kept <= limit /\ dom outcomes' = list_to_set kept /\
    (forall x, x ∈ kept -> outcomes' !! x = outcomes !! x) /\
    (zlen ids <= limit + 1 -> (length dropped <= 1)%nat) /\
    (zlen ids <= limit -> dropped = []).
Proof.
  intros Hlim. revert outcomes. induction ids as [|x rest IH]; intros outcomes Hnd Hdom.
  - exists [], [], outcomes. cbn. replace (limit <? zlen []) with false
      by (symmetry; bools; unfold zlen; simpl; lia).
    repeat split; [unfold zlen; simpl; lia | done | simpl; lia].
  - apply NoDup_cons in Hnd as [Hx Hnd]. cbn [ledger_evict].
    destruct (limit <? _) eqn:E; bools.
    + destruct (IH (delete x outcomes)) as (dr & k & o' & -> & Hr & ? & ? & Hk & _ & Hd0);
        [done | rewrite dom_delete_L, Hdom; set_solver |].
      exists (x :: dr), k, o'. rewrite zlen_cons in *. repeat split; try done.
      * by rewrite Hr.
      * intros y Hy. rewrite Hk by done. apply lookup_delete_ne. set_solver.
      * intros. rewrite Hd0 by lia. done.
      * lia.
    + exists [], (x :: rest), outcomes. repeat split; try done. simpl. lia.
Qed.

Lemma ledger_filter_key (m : gmap (Uuid * Z) Z) c l k s :
  base.filter (fun kv : (Uuid * Z) * Z => kv.1.1 = c /\ kv.1.2 = l) m !! k = Some s ->
  k = (c, l).
Proof. intros [_ [? ?]]%map_lookup_filter_Some. destruct k; cbn in *; congruence. Qed.

Lemma ledger_accept_limit_inv g c l id seq bytes max :
  0 <= il_limit g -> ledger_inv g ->
  ledger_inv (fst (ledger_accept_limit g c l id seq bytes max)) /\
  il_limit (fst (ledger_accept_limit g c l id seq bytes max)) = il_limit g.
Proof.
  intros Hlim [Hnd Hdom Hb Hsingle]. unfold ledger_accept_limit.
  destruct (_ || (MAX_JS_INTEGER <? seq)); [done|].
  destruct (bool_decide _ || _) eqn:E; [done|]. bools.
  assert (id ∉ ids g) as Hid.
  { intros Hin. destruct (outcomes g !! id) eqn:Eo; [naive_solver|].
    apply not_elem_of_dom in Eo. set_solver. }
  destruct (ledger_evict_spec (il_limit g) (ids g ++ [id])
    (<[id:="accepted"%string]> (outcomes g))) as (dr & k & o' & -> & He & ? & ? & _);
    [done | apply NoDup_app; repeat split; [done | set_solver | apply NoDup_singleton]
    | rewrite dom_insert_L, list_to_set_app_L; set_solver |].
  split; [|done]. split; cbn; [|done..|].
  - assert (NoDup (ids g ++ [id])) as Hn
      by (apply NoDup_app; repeat split; [done | set_solver | apply NoDup_singleton]).
    rewrite He in Hn. by apply NoDup_app in Hn as (_ & _ & ?).
  - intros k1 k2 s1 s2 Hs1 Hs2.
    assert (forall k s, <[(c, l):=seq]> (base.filter
      (fun kv : (Uuid * Z) * Z => kv.1.1 = c /\ kv.1.2 = l) (highest g)) !! k = Some s ->
      k = (c, l)) as Hk.
    { intros k' s' [[<- _]|[_ ?]]%lookup_insert_Some; [done|]. by eapply ledger_filter_key. }
    by rewrite (Hk _ _ Hs1), (Hk _ _ Hs2).
Qed.

Lemma ledger_finish_inv g id st :
  ledger_inv g -> ledger_inv (ledger_finish g id st).
Proof.
  intros [Hnd Hdom Hb Hs]. unfold ledger_finish. destruct (outcomes g !! id) eqn:E; [|by split].
  split; cbn; try done. rewrite dom_insert_lookup_L; [done|]. by rewrite E.
Qed.

(** The effect of a successful [accept]. *)
Lemma ledger_accept_limit_Ok g c l id seq bytes max g' :
  ledger_inv g -> 1 <= il_limit g ->
  ledger_accept_limit g c l id seq bytes max = (g', Ok tt) ->
  0 < bytes \/ bytes < 0 ->
  bytes <= max /\ seq <> 0 /\ seq <= MAX_JS_INTEGER /\
  outcomes g !! id = None /\
  (forall s, highest g !! (c, l) = Some s -> s < seq) /\
  highest g' !! (c, l) = Some seq /\
  ledger_status g' id = Some "accepted"%string /\
  exists dropped, ids g ++ [id] = dropped ++ ids g' /\ (length dropped <= 1)%nat.
Proof.
  intros [Hnd Hdom Hb Hsingle] Hlim. unfold ledger_accept_limit.
  destruct (_ || (MAX_JS_INTEGER <? seq)) eqn:E0; [done|].
  destruct (bool_decide _ || _) eqn:E; [done|]. bools.
  assert (outcomes g !! id = None) as Hnone.
  { destruct (outcomes g !! id); [naive_solver|done]. }
  assert (id ∉ ids g) as Hid.
  { apply not_elem_of_dom in Hnone. rewrite Hdom in Hnone. set_solver. }
  destruct (ledger_evict_spec (il_limit g) (ids g ++ [id])
    (<[id:="accepted"%string]> (outcomes g))) as (dr & k & o' & -> & He & ? & Hd' & Hk & Hdr & Hd0);
    [lia | apply NoDup_app; repeat split; [done | set_solver | apply NoDup_singleton]
    | rewrite dom_insert_L, list_to_set_app_L; set_solver |].
  intros [= <-] _. cbn. rewrite zlen_snoc in Hdr. specialize (Hdr ltac:(lia)).
  repeat split; try done.
  - intros s Hs. rewrite Hs in *. cbn in *. bools. done.
  - by rewrite lookup_insert_eq.
  - unfold ledger_status. cbn. rewrite Hk, lookup_insert_eq; [done|].
    destruct k as [|k0 k] using rev_ind.
    + rewrite app_nil_r in He. apply (f_equal length) in He. rewrite length_app in He.
      cbn in He. unfold zlen in *. destruct (ids g); simpl in *; [|lia].
      specialize (Hd0 ltac:(lia)). subst dr. done.
    + rewrite app_assoc in He. apply app_inj_tail in He as [_ <-]. set_solver.
  - by exists dr.
Qed.

(** ** The ledger as a journal
    The specification forgets nothing: it is the list of the inputs accepted so
    far, with their outcomes.  The guard's queue, its two maps and its evictions
    are an implementation of it in bounded memory. *)
Record Accepted := { en_id : Uuid; en_key : Uuid * Z; en_seq : Z; en_outcome : string }.
Definition MEMORY : nat := 1024.
Definition recent (J : list Accepted) : list Accepted := drop (length J - MEMORY) J.
Definition older (J : list Accepted) : list Accepted := take (length J - MEMORY) J.
Definition entry_of (J : list Accepted) (id : Uuid) : option Accepted :=
  List.find (fun e => bool_decide (en_id e = id)) (recent J).
(** An input is new when none of the last [MEMORY] has its identifier and its
    sequence exceeds the last one's of the same connection and lease. *)
Definition journal_accept (J : list Accepted) (c : Uuid) (l : Z) (id : Uuid) (seq bytes max : Z)
  : list Accepted * res unit :=
  if (bytes =? 0) || (max <? bytes) || (seq =? 0) || (MAX_JS_INTEGER <? seq)
  then (J, Err FrameTooLarge) else
  if option_is_some (entry_of J id) ||
     is_some_and (fun e => bool_decide (en_key e = (c, l)) && (seq <=? en_seq e)) (last J)
  then (J, Err DuplicateInput)
  else (J ++ [{| en_id := id; en_key := (c, l); en_seq := seq; en_outcome := "accepted" |}], Ok tt).
Definition conclude (id : Uuid) (status : string) (e : Accepted) : Accepted :=
  if bool_decide (en_id e = id)
  then {| en_id := id; en_key := en_key e; en_seq := en_seq e; en_outcome := status |} else e.
Definition journal_finish (J : list Accepted) (id : Uuid) (status : string) : list Accepted :=
  older J ++ map (conclude id status) (recent J).

Inductive LedgerOp : Type :=
| OpAccept (connection : Uuid) (lease : Z) (id : Uuid) (seq bytes : Z)
| OpPaste (connection : Uuid) (lease : Z) (id : Uuid) (seq bytes : Z)
| OpFinish (id : Uuid) (status : string)
| OpStatus (id : Uuid).
Inductive Answer : Type := AnResult (r : res unit) | AnStatus (s : option string) | AnNone.
Definition ledger_op (g : InputLedger) (op : LedgerOp) : InputLedger * Answer :=
  match op with
  | OpAccept c l id seq bytes => let '(g, r) := ledger_accept g c l id seq bytes in (g, AnResult r)
  | OpPaste c l id seq bytes =>
    let '(g, r) := ledger_accept_paste g c l id seq bytes in (g, AnResult r)
  | OpFinish id status => (ledger_finish g id status, AnNone)
  | OpStatus id => (g, AnStatus (ledger_status g id))
  end.
Definition journal_op (J : list Accepted) (op : LedgerOp) : list Accepted * Answer :=
  match op with
  | OpAccept c l id seq bytes => let '(J, r) := journal_accept J c l id seq bytes MAX_INPUT in (J, AnResult r)
  | OpPaste c l id seq bytes => let '(J, r) := journal_accept J c l id seq bytes MAX_PASTE in (J, AnResult r)
  | OpFinish id status => (journal_finish J id status, AnNone)
  | OpStatus id => (J, AnStatus (option_map en_outcome (entry_of J id)))
  end.
(** The answers of a sequence of calls. *)
Fixpoint answers {S} (op : S -> LedgerOp -> S * Answer) (s : S) (ops : list LedgerOp) : list Answer :=
  match ops with
  | [] => []
  | o :: rest => let '(s, a) := op s o in a :: answers op s rest
  end.

(** The simulation relation. *)
Definition pairs (l : list Accepted) : list (Uuid * string) := map (fun e => (en_id e, en_outcome e)) l.
Definition outcomes_of (l : list Accepted) : gmap Uuid string := list_to_map (pairs l).
Record represents (J : list Accepted) (g : InputLedger) : Prop := {
  rp_limit : il_limit g = 1024;
  rp_nodup : NoDup (ids g);
  rp_ids : ids g = map en_id (recent J);
  rp_outcomes : outcomes g = outcomes_of (recent J);
  rp_highest : highest g = match last J with Some e => {[en_key e := en_seq e]} | None => ∅ end
}.
Lemma entry_lookup (l : list Accepted) id :
  outcomes_of l !! id =
  option_map en_outcome (List.find (fun e => bool_decide (en_id e = id)) l).
Proof.
  induction l as [|e l IH]; [done|].
  change (outcomes_of (e :: l)) with (<[en_id e := en_outcome e]> (outcomes_of l)). cbn [List.find].
  case_bool_decide as H; [subst; by rewrite lookup_insert_eq|].
  by rewrite lookup_insert_ne.
Qed.
Lemma represents_lookup J g id :
  represents J g -> outcomes g !! id = option_map en_outcome (entry_of J id).
Proof. intros Hr. rewrite (rp_outcomes _ _ Hr). apply entry_lookup. Qed.
Lemma recent_app J e :
  recent (J ++ [e]) = (if 1024 <? zlen (recent J) + 1 then tail (recent J) else recent J) ++ [e].
Proof.
  unfold recent. rewrite length_app. cbn [length]. unfold zlen. rewrite length_drop.
  change MEMORY with 1024%nat in *.
  destruct (Z.ltb_spec 1024 (Z.of_nat (length J - (length J - 1024)) + 1)).
  - rewrite drop_app_le by lia. f_equal.
    replace (length J + 1 - 1024)%nat with (length J - 1024 + 1)%nat by lia.
    by rewrite <- drop_drop.
  - replace (length J - 1024)%nat with 0%nat by lia. replace (length J + 1 - 1024)%nat with 0%nat by lia.
    done.
Qed.
Lemma pairs_ids l : (pairs l).*1 = map en_id l.
Proof. unfold pairs. change (map fst (map (fun e => (en_id e, en_outcome e)) l) = map en_id l). by rewrite map_map. Qed.
Lemma outcomes_of_None l id : outcomes_of l !! id = None <-> id ∉ map en_id l.
Proof. unfold outcomes_of. rewrite <- pairs_ids. split; apply not_elem_of_list_to_map. Qed.
Lemma ledger_evict_one limit l :
  0 <= limit -> zlen l <= limit + 1 -> NoDup (map en_id l) ->
  ledger_evict limit (map en_id l) (outcomes_of l) =
  let l' := if limit <? zlen l then tail l else l in (map en_id l', outcomes_of l').
Proof.
  intros Hlim Hlen Hnd.
  assert (forall k, zlen (map en_id k) = zlen k) as Hz by (intros k; unfold zlen; by rewrite length_map).
  assert (forall k, zlen k <= limit ->
    ledger_evict limit (map en_id k) (outcomes_of k) = (map en_id k, outcomes_of k)) as Hstop.
  { intros k Hk. rewrite <- (Hz k) in Hk.
    destruct k as [|e k]; cbn [map ledger_evict] in *;
      match goal with |- context [limit <? ?x] => destruct (Z.ltb_spec limit x); [lia|done] end. }
  destruct (Z.ltb_spec limit (zlen l)) as [Hlt|]; [|by apply Hstop].
  destruct l as [|e l]; [rewrite zlen_nil in Hlt; lia|]. rewrite zlen_cons in *.
  cbn [map ledger_evict tail]. rewrite zlen_cons, Hz. destruct (Z.ltb_spec limit (1 + zlen l)); [|lia].
  cbn [map] in Hnd. apply NoDup_cons in Hnd as [Hx _].
  assert (delete (en_id e) (outcomes_of (e :: l)) = outcomes_of l) as ->.
  { unfold outcomes_of at 1. cbn [pairs map list_to_map foldr fst snd].
    change (delete (en_id e) (<[en_id e := en_outcome e]> (outcomes_of l)) = outcomes_of l).
    rewrite delete_insert_eq, delete_id; [done|]. by apply outcomes_of_None. }
  apply Hstop. lia.
Qed.
(** The two tests of an input. *)
Lemma represents_tests J g c l id seq :
  represents J g ->
  bool_decide (is_Some (outcomes g !! id)) = option_is_some (entry_of J id) /\
  is_some_and (fun s => seq <=? s) (highest g !! (c, l)) =
    is_some_and (fun e => bool_decide (en_key e = (c, l)) && (seq <=? en_seq e)) (last J).
Proof.
  intros Hr. rewrite (represents_lookup J g id Hr), (rp_highest _ _ Hr). split.
  { by destruct (entry_of J id). }
  destruct (last J) as [e|]; [|done]. cbn [is_some_and].
  destruct (decide (en_key e = (c, l))) as [Hk|Hk].
  - by rewrite bool_decide_eq_true_2, Hk, lookup_singleton_eq.
  - by rewrite bool_decide_eq_false_2, lookup_singleton_ne.
Qed.
(** Only the last pair's sequence survives [retain]. *)
Lemma retain_last (o : option Accepted) c l seq :
  <[(c, l) := seq]> (base.filter (fun kv : (Uuid * Z) * Z => kv.1.1 = c /\ kv.1.2 = l)
    (match o with Some e => {[en_key e := en_seq e]} | None => ∅ end)) =
  {[(c, l) := seq]} :> gmap (Uuid * Z) Z.
Proof.
  destruct o as [e|]; [|by rewrite map_filter_empty, insert_empty].
  apply map_eq. intros k. destruct (decide (k = (c, l))) as [->|Hk].
  { by rewrite lookup_insert_eq, lookup_singleton_eq. }
  rewrite lookup_insert_ne, lookup_singleton_ne by done.
  apply map_lookup_filter_None. right. intros s _ [H1 H2]. apply Hk. destruct k. cbn in *. by subst.
Qed.
Lemma accept_represents J g c l id seq bytes max J' r :
  represents J g -> journal_accept J c l id seq bytes max = (J', r) ->
  exists g', ledger_accept_limit g c l id seq bytes max = (g', r) /\ represents J' g'.
Proof.
  intros Hr. pose proof (represents_lookup J g id Hr) as Hid. pose proof Hr as [Hl Hnd Hids Ho Hh].
  unfold journal_accept, ledger_accept_limit.
  destruct ((bytes =? 0) || _ || _ || _); [intros [= <- <-]; by eexists|].
  destruct (represents_tests J g c l id seq Hr) as [Hsome Hseq].
  rewrite Hsome, Hseq. destruct (option_is_some _ || _) eqn:Edup; [intros [= <- <-]; by eexists|].
  intros [= <- <-]. set (e := {| en_id := id; en_key := (c, l); en_seq := seq; en_outcome := "accepted" |}).
  bools. destruct (entry_of J id) as [x|] eqn:Ee; [done|]. cbn [option_map] in Hid.
  rewrite Ho in Hid. pose proof (proj1 (outcomes_of_None _ _) Hid) as Hnew.
  assert (outcomes_of (recent J ++ [e]) = <[id := "accepted"%string]> (outcomes g)) as Hmap.
  { rewrite Ho, insert_union_singleton_r by exact Hid. unfold outcomes_of, pairs.
    by rewrite map_app, list_to_map_app. }
  assert (zlen (recent J) <= 1024) as Hlen.
  { unfold recent, zlen. rewrite length_drop. unfold MEMORY. lia. }
  rewrite Hl, Hids, <- Hmap.
  replace (map en_id (recent J) ++ [id]) with (map en_id (recent J ++ [e])) by (by rewrite map_app).
  assert (NoDup (map en_id (recent J ++ [e]))) as Hnd'.
  { rewrite map_app. apply NoDup_app. rewrite <- Hids. split; [done|]. split; [|apply NoDup_singleton].
    intros x Hx Hx'%list_elem_of_singleton. cbn in Hx'. subst x. by rewrite Hids in Hx. }
  rewrite ledger_evict_one by (done || rewrite ?zlen_snoc; lia). cbn zeta. rewrite zlen_snoc.
  assert ((if 1024 <? zlen (recent J) + 1 then tail (recent J ++ [e]) else recent J ++ [e]) =
    recent (J ++ [e])) as ->.
  { rewrite recent_app. destruct (Z.ltb_spec 1024 (zlen (recent J) + 1)) as [Hlt|]; [|done].
    destruct (recent J); [rewrite zlen_nil in Hlt; lia|done]. }
  eexists. split; [done|]. split; cbn [il_limit ids outcomes highest]; [done| |done|done|].
  - rewrite recent_app. destruct (1024 <? zlen (recent J) + 1); [|exact Hnd']. destruct (recent J); [exact Hnd'|]. cbn in Hnd'.
    by apply NoDup_cons in Hnd' as [_ ?].
  - rewrite last_snoc, Hh. apply retain_last.
Qed.
Lemma conclude_id id status e : en_id (conclude id status e) = en_id e.
Proof. unfold conclude. by case_bool_decide. Qed.
Lemma outcomes_conclude id status l :
  outcomes_of (map (conclude id status) l) =
  match outcomes_of l !! id with
  | Some _ => <[id := status]> (outcomes_of l)
  | None => outcomes_of l
  end.
Proof.
  induction l as [|e l IH]; [done|].
  cbn [map]. change (outcomes_of (e :: l)) with (<[en_id e := en_outcome e]> (outcomes_of l)).
  change (outcomes_of (conclude id status e :: map (conclude id status) l)) with
    (<[en_id (conclude id status e) := en_outcome (conclude id status e)]>
      (outcomes_of (map (conclude id status) l))).
  rewrite IH. unfold conclude. case_bool_decide as He; cbn [en_id en_outcome].
  - subst id. rewrite lookup_insert_eq, insert_insert_eq.
    destruct (outcomes_of l !! en_id e); [by rewrite insert_insert_eq|done].
  - rewrite lookup_insert_ne by done. destruct (outcomes_of l !! id); [by rewrite insert_insert_ne|done].
Qed.
Lemma finish_represents J g id status :
  represents J g -> represents (journal_finish J id status) (ledger_finish g id status).
Proof.
  intros Hr. pose proof (represents_lookup J g id Hr) as Hid. pose proof Hr as [Hl Hnd Hids Ho Hh].
  assert (map en_id (map (conclude id status) (recent J)) = map en_id (recent J)) as Hmap.
  { rewrite map_map. apply map_ext, conclude_id. }
  assert (recent (journal_finish J id status) = map (conclude id status) (recent J)) as Hrec.
  { unfold recent at 1, journal_finish, older, recent at 1 2 3. unfold MEMORY.
    rewrite !length_app, length_map, length_take, length_drop, drop_app_ge; rewrite ?length_take; [|lia].
    replace (_ - _ - _)%nat with 0%nat by lia. done. }
  assert (last (journal_finish J id status) = option_map (conclude id status) (last J)) as Hlast.
  { unfold journal_finish, older, recent, MEMORY. destruct J as [|e J _] using rev_ind; [done|].
    rewrite length_app, drop_app_le by (cbn; lia). rewrite map_app. cbn [map].
    by rewrite app_assoc, !last_snoc. }
  pose proof (outcomes_conclude id status (recent J)) as Hout. rewrite <- Ho in Hout.
  unfold ledger_finish. split.
  - by destruct (outcomes g !! id).
  - by destruct (outcomes g !! id).
  - rewrite Hrec, Hmap. by destruct (outcomes g !! id).
  - rewrite Hrec, Hout. by destruct (outcomes g !! id).
  - rewrite Hlast. transitivity (highest g); [by destruct (outcomes g !! id)|]. rewrite Hh.
    destruct (last J) as [e|]; [|done]. cbn. unfold conclude. by case_bool_decide.
Qed.
Lemma represents_step J g op :
  represents J g ->
  snd (ledger_op g op) = snd (journal_op J op) /\
  represents (fst (journal_op J op)) (fst (ledger_op g op)).
Proof.
  intros Hr. destruct op as [c l id seq bytes|c l id seq bytes|id status|id]; cbn [ledger_op journal_op].
  - unfold ledger_accept. destruct (journal_accept J c l id seq bytes MAX_INPUT) as [J' r] eqn:E.
    by destruct (accept_represents _ _ _ _ _ _ _ _ _ _ Hr E) as (g' & -> & Hr').
  - unfold ledger_accept_paste. destruct (journal_accept J c l id seq bytes MAX_PASTE) as [J' r] eqn:E.
    by destruct (accept_represents _ _ _ _ _ _ _ _ _ _ Hr E) as (g' & -> & Hr').
  - split; [done|]. by apply finish_represents.
  - cbn. unfold ledger_status. by rewrite (represents_lookup J g id Hr).
Qed.

