(* ===== verification/VtFence.v ===== *)
(** * The output fence
    ([crates/rc-core/src/vt_fence.rs]): PTY bytes are cut into complete UTF-8
    text and complete escape sequences before the terminal model and the
    clients see them; some control strings are omitted. *)
From S2P Require Import Prelude.

(** ** [std::str::from_utf8]

    [Utf8Partial] is an error whose [error_len()] is [None] (the input ends
    inside a scalar), [Utf8Invalid] one where it is [Some(_)]. *)
Inductive Utf8Result : Type := Utf8Ok | Utf8Partial | Utf8Invalid.
#[global] Instance Utf8Result_eq_dec : EqDecision Utf8Result.
Proof. solve_decision. Defined.

Definition is_cont (b : Z) : bool := in_range 128 191 b.

(** The second byte a three- or four-byte lead admits. *)
Definition second3 (b0 b1 : Z) : bool :=
  if b0 =? 224 then in_range 160 191 b1
  else if b0 =? 237 then in_range 128 159 b1
  else is_cont b1.
Definition second4 (b0 b1 : Z) : bool :=
  if b0 =? 240 then in_range 144 191 b1
  else if b0 =? 244 then in_range 128 143 b1
  else is_cont b1.

Fixpoint from_utf8 (l : bytes) : Utf8Result :=
  match l with
  | [] => Utf8Ok
  | b0 :: l1 =>
    if b0 <? 128 then from_utf8 l1
    else if in_range 194 223 b0 then
      match l1 with
      | [] => Utf8Partial
      | b1 :: l2 => if is_cont b1 then from_utf8 l2 else Utf8Invalid
      end
    else if in_range 224 239 b0 then
      match l1 with
      | [] => Utf8Partial
      | b1 :: l2 =>
        if negb (second3 b0 b1) then Utf8Invalid else
        match l2 with
        | [] => Utf8Partial
        | b2 :: l3 => if is_cont b2 then from_utf8 l3 else Utf8Invalid
        end
      end
    else if in_range 240 244 b0 then
      match l1 with
      | [] => Utf8Partial
      | b1 :: l2 =>
        if negb (second4 b0 b1) then Utf8Invalid else
        match l2 with
        | [] => Utf8Partial
        | b2 :: l3 =>
          if negb (is_cont b2) then Utf8Invalid else
          match l3 with
          | [] => Utf8Partial
          | b3 :: l4 => if is_cont b3 then from_utf8 l4 else Utf8Invalid
          end
        end
      end
    else Utf8Invalid
  end.

(** U+FFFD *)
Definition replacement : bytes := [239; 191; 189].

(** ** The fence *)
Inductive FenceState : Type :=
| SGround | SEsc | SCsi | SOsc | SOscEsc | SString | SStringEsc.
#[global] Instance FenceState_eq_dec : EqDecision FenceState.
Proof. solve_decision. Defined.

Record VtFence := {
  vf_state : FenceState;
  vf_pending : bytes;
  vf_utf8 : bytes;
  vf_discard : bool;
  vf_omitted : Z
}.

Definition fence_default : VtFence :=
  {| vf_state := SGround; vf_pending := []; vf_utf8 := []; vf_discard := false;
     vf_omitted := 0 |}.

Definition fence_push (f : VtFence) (b : Z) : VtFence :=
  if zlen (vf_pending f) <? 16 * 1024 then
    {| vf_state := vf_state f; vf_pending := vf_pending f ++ [b]; vf_utf8 := vf_utf8 f;
       vf_discard := vf_discard f; vf_omitted := vf_omitted f |}
  else
    {| vf_state := vf_state f; vf_pending := vf_pending f; vf_utf8 := vf_utf8 f;
       vf_discard := true; vf_omitted := vf_omitted f |}.

Fixpoint starts_with (l p : bytes) : bool :=
  match p, l with
  | [], _ => true
  | _, [] => false
  | y :: p', x :: l' => (x =? y) && starts_with l' p'
  end.

(** [b"\x1b]52;"] and [b"\x1b]8;"] *)
Definition osc52 : bytes := [27; 93; 53; 50; 59].
Definition osc8 : bytes := [27; 93; 56; 59].

Definition fence_complete (f : VtFence) (out : list bytes) : VtFence * list bytes :=
  let unsafe_osc := starts_with (vf_pending f) osc52 || starts_with (vf_pending f) osc8 in
  let '(omitted, out) :=
    if vf_discard f || unsafe_osc then (wrap64 (vf_omitted f + 1), out)
    else if negb (bool_decide (vf_pending f = [])) then
      (vf_omitted f, out ++ [vf_pending f])
    else (vf_omitted f, out) in
  ({| vf_state := SGround; vf_pending := []; vf_utf8 := vf_utf8 f;
      vf_discard := false; vf_omitted := omitted |}, out).

Definition fence_set_state (f : VtFence) (s : FenceState) : VtFence :=
  {| vf_state := s; vf_pending := vf_pending f; vf_utf8 := vf_utf8 f;
     vf_discard := vf_discard f; vf_omitted := vf_omitted f |}.
Definition fence_set_discard (f : VtFence) : VtFence :=
  {| vf_state := vf_state f; vf_pending := vf_pending f; vf_utf8 := vf_utf8 f;
     vf_discard := true; vf_omitted := vf_omitted f |}.
Definition fence_set_utf8 (f : VtFence) (u : bytes) : VtFence :=
  {| vf_state := vf_state f; vf_pending := vf_pending f; vf_utf8 := u;
     vf_discard := vf_discard f; vf_omitted := vf_omitted f |}.

(** The fence, the tokens of this call and the current run of text. *)
Definition fence_acc : Type := VtFence * list bytes * bytes.

(** An ESC in the ground state: the text run ends, a sequence starts. *)
Definition fence_enter_esc (a : fence_acc) (b : Z) : fence_acc :=
  let '(f, out, text) := a in
  let '(out, text) :=
    if negb (bool_decide (text = [])) then (out ++ [text], []) else (out, text) in
  ({| vf_state := SEsc; vf_pending := vf_pending f ++ [b]; vf_utf8 := vf_utf8 f;
      vf_discard := vf_discard f; vf_omitted := vf_omitted f |}, out, text).

Definition fence_ground (a : fence_acc) (b : Z) : fence_acc :=
  let '(f, out, text) := a in
  if negb (bool_decide (vf_utf8 f = [])) then
    let u := vf_utf8 f ++ [b] in
    match from_utf8 u with
    | Utf8Ok => (fence_set_utf8 f [], out, text ++ u)
    | Utf8Invalid =>
      let text := text ++ replacement in
      let f := fence_set_utf8 f [] in
      if b <? 128 then
        if b =? 27 then fence_enter_esc (f, out, text) b
        else (f, out, text ++ [b])
      else (f, out, text)
    | Utf8Partial => (fence_set_utf8 f u, out, text)
    end
  else if b =? 27 then fence_enter_esc (f, out, text) b
  else if 194 <=? b then (fence_set_utf8 f (vf_utf8 f ++ [b]), out, text)
  else if 128 <=? b then (f, out, text ++ replacement)
  else (f, out, text ++ [b]).

Definition fence_complete_acc (f : VtFence) (out : list bytes) (text : bytes) : fence_acc :=
  let '(f, out) := fence_complete f out in (f, out, text).

(** The body of the [for &b in bytes] loop. *)
Definition fence_step (a : fence_acc) (b : Z) : fence_acc :=
  let '(f, out, text) := a in
  match vf_state f with
  | SGround => fence_ground a b
  | SEsc =>
    let f := fence_push f b in
    if b =? 91 then (fence_set_state f SCsi, out, text)
    else if b =? 93 then (fence_set_state f SOsc, out, text)
    else if (b =? 80) || (b =? 95) || (b =? 94) || (b =? 88) then
      (fence_set_discard (fence_set_state f SString), out, text)
    else if in_range 32 47 b then (f, out, text)
    else fence_complete_acc f out text
  | SCsi =>
    let f := fence_push f b in
    if in_range 64 126 b then fence_complete_acc f out text
    else if (b =? 24) || (b =? 26) then fence_complete_acc (fence_set_discard f) out text
    else if 1024 <? zlen (vf_pending f) then (fence_set_discard f, out, text)
    else (f, out, text)
  | SOsc =>
    let f := fence_push f b in
    if b =? 7 then fence_complete_acc f out text
    else if b =? 27 then (fence_set_state f SOscEsc, out, text)
    else (f, out, text)
  | SOscEsc =>
    let f := fence_push f b in
    if b =? 92 then fence_complete_acc f out text
    else (fence_set_state f SOsc, out, text)
  | SString =>
    let f := fence_push f b in
    if b =? 27 then (fence_set_state f SStringEsc, out, text) else (f, out, text)
  | SStringEsc =>
    let f := fence_push f b in
    if b =? 92 then fence_complete_acc f out text
    else (fence_set_state f SString, out, text)
  end.

Definition fence_push_bytes (f : VtFence) (bs : bytes) : VtFence * list bytes :=
  let '(f, out, text) := foldl fence_step (f, [], []) bs in
  (f, if negb (bool_decide (text = [])) then out ++ [text] else out).

Definition fence_pending_len (f : VtFence) : Z :=
  zlen (vf_pending f) + zlen (vf_utf8 f).

(** Several reads in a row: the tokens of each. *)
Fixpoint fence_feed (f : VtFence) (reads : list bytes) : VtFence * list bytes :=
  match reads with
  | [] => (f, [])
  | bs :: rest =>
    let '(f1, out1) := fence_push_bytes f bs in
    let '(f2, out2) := fence_feed f1 rest in
    (f2, out1 ++ out2)
  end.

Example fence_keeps_text :
  concat (snd (fence_feed fence_default [[237]; [149]; [156; 65]])) = [237; 149; 156; 65].
Proof. reflexivity. Qed.
Example fence_partial_escape_waits :
  fence_feed fence_default [[27; 91; 51; 49]; [109; 88]] =
  (fence_default, [[27; 91; 51; 49; 109]; [88]]).
Proof. reflexivity. Qed.
Example fence_omits_osc52 :
  let '(f, out) := fence_push_bytes fence_default
    [65; 27; 93; 53; 50; 59; 99; 59; 101; 7; 66] in
  concat out = [65; 66] /\ vf_omitted f = 1.
Proof. done. Qed.

(** ** UTF-8 lemmas *)
(** Case analysis along the decoder's run in hypothesis [H]. *)
Ltac utf8_cases H :=
  repeat match type of H with
  | context [if ?c then _ else _] => destruct c eqn:?; try done
  | context [match ?l with [] => _ | _ :: _ => _ end] => destruct l; try done
  end.

Lemma from_utf8_app_len n l k :
  (length l <= n)%nat -> from_utf8 l = Utf8Ok -> from_utf8 (l ++ k) = from_utf8 k.
Proof.
  revert l. induction n as [|n IH]; intros l Hl Hok; [by destruct l; simpl in Hl; [|lia]|].
  destruct l as [|b0 l]; [done|]. simpl in Hl. cbn [from_utf8 app] in *.
  utf8_cases Hok; cbn [app length] in *;
    repeat match goal with
    | E : ?c = _ |- context [if ?c then _ else _] => rewrite E
    end; apply IH; (done || lia).
Qed.
Lemma from_utf8_app l k : from_utf8 l = Utf8Ok -> from_utf8 (l ++ k) = from_utf8 k.
Proof. by apply (from_utf8_app_len (length l)). Qed.

(** The bytes held back in the ground state: the start of one scalar. *)
Definition utf8_held (u : bytes) : Prop :=
  match u with
  | [] => True
  | [b0] => 194 <= b0
  | [b0; b1] => 194 <= b0 /\ from_utf8 u = Utf8Partial
  | [b0; b1; b2] => 240 <= b0 <= 244 /\ from_utf8 u = Utf8Partial
  | _ => False
  end.

Ltac byte_bools :=
  bools; unfold second3, second4 in *; unfold is_cont in *;
  repeat match goal with
  | H : (if ?c then _ else _) = _ |- _ => destruct c eqn:?
  end;
  repeat match goal with
  | H : in_range _ _ _ = true |- _ => apply in_range_spec in H
  | H : in_range ?a ?b ?c = false |- _ =>
      assert (~ (a <= c <= b)) by (rewrite <- in_range_spec; congruence); clear H
  end; bools.

Lemma utf8_held_len u : utf8_held u -> zlen u <= 3.
Proof. destruct u as [|? [|? [|? [|]]]]; simpl; try done; unfold zlen; simpl; lia. Qed.

(** Appending a byte to the held bytes: either still held, or one scalar. *)
Lemma utf8_held_step u b :
  utf8_held u -> u <> [] ->
  match from_utf8 (u ++ [b]) with
  | Utf8Partial => utf8_held (u ++ [b])
  | Utf8Ok => 27 ∉ u ++ [b]
  | Utf8Invalid => True
  end.
Proof.
  intros Hu Hne. destruct (from_utf8 (u ++ [b])) eqn:E; [| |done];
  destruct u as [|b0 [|b1 [|b2 [|]]]]; try done; cbn [app utf8_held from_utf8] in *;
    utf8_cases E; try (destruct Hu as [Hb Hu]; utf8_cases Hu); byte_bools; try lia.
  all: try (repeat split; first [lia | done]).
  all: try (rewrite !not_elem_of_cons; repeat split; try lia; apply not_elem_of_nil).
Qed.

(** ** Invariant *)

(** The byte after ESC opens none of the control strings (DCS, APC, PM, SOS). *)
Definition second_ok (p : bytes) : Prop :=
  exists b1 r, p = 27 :: b1 :: r /\ b1 <> 80 /\ b1 <> 95 /\ b1 <> 94 /\ b1 <> 88.

Definition fence_inv (f : VtFence) : Prop :=
  zlen (vf_pending f) <= 16384 /\
  match vf_state f with
  | SGround => vf_pending f = [] /\ vf_discard f = false /\ utf8_held (vf_utf8 f)
  | SEsc => vf_utf8 f = [] /\
      exists r, vf_pending f = 27 :: r /\ Forall (fun b => 32 <= b <= 47) r
  | SString | SStringEsc => vf_utf8 f = [] /\ vf_discard f = true
  | SCsi | SOsc | SOscEsc => vf_utf8 f = [] /\ second_ok (vf_pending f)
  end.

(** A token handed to the terminal: a run of complete, valid UTF-8 text without
    ESC, or one bounded escape sequence that is neither OSC 52 / OSC 8 nor a
    control string. *)
Definition token_ok (t : bytes) : Prop :=
  (t <> [] /\ 27 ∉ t /\ from_utf8 t = Utf8Ok) \/
  (second_ok t /\ zlen t <= 16384 /\ starts_with t osc52 = false /\
   starts_with t osc8 = false).

Definition acc_inv (a : fence_acc) : Prop :=
  let '(f, out, text) := a in
  fence_inv f /\ Forall token_ok out /\ from_utf8 text = Utf8Ok /\ 27 ∉ text /\
  (vf_state f <> SGround -> text = []).

Lemma second_ok_app p b : second_ok p -> second_ok (p ++ [b]).
Proof. intros (b1 & r & -> & ?). by exists b1, (r ++ [b]). Qed.
Lemma second_ok_esc r b :
  Forall (fun b => 32 <= b <= 47) r -> b <> 80 -> b <> 95 -> b <> 94 -> b <> 88 ->
  second_ok (27 :: r ++ [b]).
Proof.
  intros Hr ????. destruct r as [|c r]; cbn [app]; do 2 eexists; (split; [done|]); [done|].
  apply Forall_inv in Hr. lia.
Qed.

(** [push] appends, or sets [discard]. *)
Lemma fence_push_cases f b :
  zlen (vf_pending f) <= 16384 ->
  let f' := fence_push f b in
  vf_state f' = vf_state f /\ vf_utf8 f' = vf_utf8 f /\ vf_omitted f' = vf_omitted f /\
  zlen (vf_pending f') <= 16384 /\
  ((vf_pending f' = vf_pending f ++ [b] /\ vf_discard f' = vf_discard f) \/
   (vf_pending f' = vf_pending f /\ zlen (vf_pending f) = 16384 /\ vf_discard f' = true)).
Proof.
  intros Hl. unfold fence_push. destruct (_ <? _) eqn:E; bools; cbn.
  - rewrite zlen_snoc. repeat split; try lia. by left.
  - repeat split; try lia. right. repeat split. lia.
Qed.

Lemma fence_complete_inv f out text :
  vf_utf8 f = [] -> zlen (vf_pending f) <= 16384 ->
  (vf_discard f = false -> second_ok (vf_pending f)) ->
  Forall token_ok out -> text = [] ->
  acc_inv (fence_complete_acc f out text).
Proof.
  intros Hu Hl Hs Hout ->. unfold fence_complete_acc, fence_complete.
  destruct (vf_discard f) eqn:Ed; cbn [orb].
  - repeat split; cbn; try done. by rewrite Hu. apply not_elem_of_nil.
  - destruct (starts_with _ osc52 || _) eqn:Eu.
    + repeat split; cbn; try done. by rewrite Hu. apply not_elem_of_nil.
    + specialize (Hs eq_refl). destruct (bool_decide _) eqn:Ep.
      { apply bool_decide_eq_true in Ep. destruct Hs as (? & ? & Hp & _). congruence. }
      bools. repeat split; cbn; try done; [by rewrite Hu| |apply not_elem_of_nil].
      apply Forall_app; split; [done|]. constructor; [|done]. by right.
Qed.

Lemma fence_enter_esc_inv f out text b :
  vf_utf8 f = [] -> vf_pending f = [] -> b = 27 -> Forall token_ok out ->
  from_utf8 text = Utf8Ok -> 27 ∉ text ->
  acc_inv (fence_enter_esc (f, out, text) b).
Proof.
  intros Hu Hp -> Hout Ht Ht27. unfold fence_enter_esc.
  destruct (bool_decide (text = [])) eqn:E; cbn [negb]; bools.
  - subst. repeat split; cbn; rewrite ?Hp, ?Hu; try done.
    exists []. done.
  - repeat split; cbn; rewrite ?Hp, ?Hu; try done.
    + exists []. done.
    + apply Forall_app; split; [done|]. constructor; [|done]. by left.
    + apply not_elem_of_nil.
Qed.

(** The text run may be extended by U+FFFD and by ASCII other than ESC. *)
Definition text_ok (t : bytes) : Prop := from_utf8 t = Utf8Ok /\ 27 ∉ t.
Lemma text_ok_app t u : text_ok t -> text_ok u -> text_ok (t ++ u).
Proof.
  intros [Ht Ht'] [Hu Hu']. split; [by rewrite from_utf8_app | by rewrite not_elem_of_app].
Qed.
Lemma text_ok_replacement : text_ok replacement.
Proof.
  split; [done|]. unfold replacement. rewrite !not_elem_of_cons.
  repeat split; [lia..|apply not_elem_of_nil].
Qed.
Lemma text_ok_ascii b : b < 128 -> b <> 27 -> text_ok [b].
Proof.
  intros. split; [cbn; by rewrite (proj2 (Z.ltb_lt b 128)) by lia|].
  rewrite not_elem_of_cons. split; [lia|apply not_elem_of_nil].
Qed.

Lemma acc_inv_ground f out text :
  vf_state f = SGround -> vf_pending f = [] -> vf_discard f = false ->
  utf8_held (vf_utf8 f) -> Forall token_ok out -> text_ok text ->
  acc_inv (f, out, text).
Proof.
  intros Hst Hp Hd Hu Hout [? ?]. repeat split; rewrite ?Hst, ?Hp; try done.
Qed.

Lemma fence_ground_inv f out text b :
  vf_state f = SGround -> acc_inv (f, out, text) -> acc_inv (fence_ground (f, out, text) b).
Proof.
  intros Hst (Hf & Hout & Ht & Ht27 & _). unfold fence_inv in Hf. rewrite Hst in Hf.
  destruct Hf as (Hl & Hp & Hd & Hu). assert (text_ok text) as Htxt by done.
  pose proof text_ok_replacement as Hrep. unfold fence_ground.
  destruct (bool_decide (vf_utf8 f = [])) eqn:Eu; cbn [negb]; bools.
  - destruct (b =? 27) eqn:E27; bools; [by apply fence_enter_esc_inv|].
    destruct (194 <=? b) eqn:E194; bools; [|destruct (128 <=? b) eqn:E128; bools];
      apply acc_inv_ground; cbn; try done.
    + by rewrite Eu.
    + by apply text_ok_app.
    + apply text_ok_app; [done|]. apply text_ok_ascii; lia.
  - pose proof (utf8_held_step (vf_utf8 f) b Hu Eu) as Hstep.
    destruct (from_utf8 (vf_utf8 f ++ [b])) eqn:E.
    + apply acc_inv_ground; cbn; try done. by apply text_ok_app.
    + by apply acc_inv_ground.
    + assert (text_ok (text ++ replacement)) as [? ?] by by apply text_ok_app.
      destruct (b <? 128) eqn:E128; [destruct (b =? 27) eqn:E27|]; bools.
      * by apply fence_enter_esc_inv.
      * apply acc_inv_ground; cbn; try done. apply text_ok_app; [done|].
        apply text_ok_ascii; lia.
      * by apply acc_inv_ground.
Qed.

(** The states inside a sequence. *)
Lemma acc_inv_seq f out :
  vf_state f <> SGround -> fence_inv f -> Forall token_ok out -> acc_inv (f, out, []).
Proof.
  intros. split; [done|]. split; [done|]. split; [done|].
  split; [apply not_elem_of_nil|done].
Qed.


Lemma fence_inv_seq f s :
  zlen (vf_pending f) <= 16384 -> vf_utf8 f = [] ->
  (s = SCsi \/ s = SOsc \/ s = SOscEsc) -> second_ok (vf_pending f) ->
  fence_inv (fence_set_state f s).
Proof. intros ?? [-> | [-> | ->]] ?; done. Qed.
Lemma fence_inv_string f s :
  zlen (vf_pending f) <= 16384 -> vf_utf8 f = [] -> vf_discard f = true ->
  (s = SString \/ s = SStringEsc) -> fence_inv (fence_set_state f s).
Proof. intros ??? [-> | ->]; done. Qed.
Lemma fence_set_state_same f s : vf_state f = s -> fence_set_state f s = f.
Proof. intros <-. by destruct f. Qed.

Lemma fence_push_second_ok f b :
  zlen (vf_pending f) <= 16384 -> second_ok (vf_pending f) ->
  second_ok (vf_pending (fence_push f b)).
Proof.
  intros Hl Hs. destruct (fence_push_cases f b Hl) as (_ & _ & _ & _ & [[-> _]|[-> _]]);
    [by apply second_ok_app | done].
Qed.
Lemma fence_push_esc_second_ok f b r :
  zlen (vf_pending f) <= 16384 ->
  vf_pending f = 27 :: r -> Forall (fun b => 32 <= b <= 47) r ->
  b <> 80 -> b <> 95 -> b <> 94 -> b <> 88 ->
  second_ok (vf_pending (fence_push f b)).
Proof.
  intros Hl Hr Hint ????.
  destruct (fence_push_cases f b Hl) as (_ & _ & _ & _ & [[-> _]|(-> & Hlen & _)]); rewrite Hr in *.
  - by apply second_ok_esc.
  - destruct r as [|c r]; [done|]. do 2 eexists. split; [done|].
    apply Forall_inv in Hint. lia.
Qed.
Lemma fence_push_discard f b : vf_discard f = true -> vf_discard (fence_push f b) = true.
Proof. intros H. unfold fence_push. by case_match. Qed.

Lemma fence_step_inv a b : acc_inv a -> acc_inv (fence_step a b).
Proof.
  destruct a as [[f out] text]. intros Hacc. unfold fence_step.
  destruct (vf_state f) eqn:Hst; [by apply fence_ground_inv|..];
    destruct Hacc as (Hf & Hout & _ & _ & Htext); rewrite Hst in Htext;
    rewrite Htext by done; clear Htext; unfold fence_inv in Hf; rewrite Hst in Hf;
    destruct Hf as (Hl & Hu & Hx);
    destruct (fence_push_cases f b Hl) as (Hs' & Hu' & _ & Hl' & Hp');
    rewrite Hst in Hs'; rewrite Hu in Hu'.
  - destruct Hx as (r & Hr & Hint).
    pose proof (fence_push_esc_second_ok f b r Hl Hr Hint) as Hsec.
    destruct (b =? 91) eqn:E91; bools;
      [apply acc_inv_seq; [done | apply fence_inv_seq; auto; apply Hsec; lia | done]|].
    destruct (b =? 93) eqn:E93; bools;
      [apply acc_inv_seq; [done | apply fence_inv_seq; auto; apply Hsec; lia | done]|].
    destruct (_ || (b =? 88)) eqn:Ed.
    { apply acc_inv_seq; [done | | done]. by split. }
    bools. destruct (in_range 32 47 b) eqn:E32.
    + apply in_range_spec in E32. apply acc_inv_seq; [by rewrite Hs' | | done].
      split; [done|]. rewrite Hs', Hu'. split; [done|].
      destruct Hp' as [[-> _]|(-> & _)]; rewrite Hr; eexists; (split; [done|]); [|done].
      apply Forall_app; split; [done|]. by constructor.
    + apply fence_complete_inv; auto.
  - pose proof (fence_push_second_ok f b Hl Hx) as Hsec.
    destruct (in_range 64 126 b); [by apply fence_complete_inv|].
    destruct (_ || (b =? 26)); [by apply fence_complete_inv|].
    destruct (1024 <? _); apply acc_inv_seq; cbn; rewrite ?Hs'; try done;
      split; cbn; rewrite ?Hs', ?Hu'; done.
  - pose proof (fence_push_second_ok f b Hl Hx) as Hsec.
    destruct (b =? 7); [by apply fence_complete_inv|].
    destruct (b =? 27); apply acc_inv_seq; cbn; rewrite ?Hs'; try done;
      split; cbn; rewrite ?Hs', ?Hu'; done.
  - pose proof (fence_push_second_ok f b Hl Hx) as Hsec.
    destruct (b =? 92); [by apply fence_complete_inv|].
    apply acc_inv_seq; cbn; rewrite ?Hs'; done.
  - pose proof (fence_push_discard f b Hx) as Hd.
    destruct (b =? 27); apply acc_inv_seq; cbn; rewrite ?Hs'; try done;
      split; cbn; rewrite ?Hs', ?Hu'; done.
  - pose proof (fence_push_discard f b Hx) as Hd.
    destruct (b =? 92); [apply fence_complete_inv; try done; by rewrite Hd|].
    apply acc_inv_seq; cbn; rewrite ?Hs'; done.
Qed.

Lemma fence_default_inv : fence_inv fence_default.
Proof. split; [by vm_compute|done]. Qed.
Lemma fence_steps_inv bs a : acc_inv a -> acc_inv (foldl fence_step a bs).
Proof. revert a. induction bs; intros; cbn; auto using fence_step_inv. Qed.
Lemma fence_push_bytes_inv f bs :
  fence_inv f ->
  fence_inv (fst (fence_push_bytes f bs)) /\ Forall token_ok (snd (fence_push_bytes f bs)).
Proof.
  intros Hf. unfold fence_push_bytes.
  pose proof (fence_steps_inv bs (f, [], [])) as H.
  destruct (foldl _ _ _) as [[f' out] text].
  destruct H as (Hf' & Hout & Ht & Ht27 & _).
  { split; [done|]. split; [done|]. split; [done|]. split; [apply not_elem_of_nil|done]. }
  split; [done|]. cbn. destruct (bool_decide _) eqn:E; cbn; [done|]. bools.
  apply Forall_app; split; [done|]. constructor; [|done]. by left.
Qed.


(** ** The byte stream does not depend on how reads cut it *)
Definition flat (out : list bytes) (text : bytes) : bytes := concat out ++ text.

Lemma flat_text out text u : flat out (text ++ u) = flat out text ++ u.
Proof. unfold flat. apply app_assoc. Qed.
Lemma flat_token out t : flat (out ++ [t]) [] = flat out [] ++ t.
Proof. unfold flat. rewrite concat_app. cbn. by rewrite !app_nil_r. Qed.
Lemma flat_flush out text : flat (out ++ [text]) [] = flat out text.
Proof. unfold flat. rewrite concat_app. cbn. by rewrite !app_nil_r. Qed.

(** [run] moves the fence from [f] to [f'] and emits the bytes [e], whatever
    was emitted before. *)
Definition emits (run : fence_acc -> fence_acc) (f f' : VtFence) (e : bytes) : Prop :=
  forall out text, (vf_state f <> SGround -> text = []) ->
    exists out' text', run (f, out, text) = (f', out', text') /\
      flat out' text' = flat out text ++ e /\ (vf_state f' <> SGround -> text' = []).

Lemma emits_stay (run : fence_acc -> fence_acc) f f' :
  vf_state f <> SGround ->
  (forall out text, run (f, out, text) = (f', out, text)) -> emits run f f' [].
Proof.
  intros Hs Hr out text Ht. exists out, text. rewrite Hr, app_nil_r. auto.
Qed.
Lemma emits_complete (run : fence_acc -> fence_acc) f g :
  vf_state f <> SGround ->
  (forall out text, run (f, out, text) = fence_complete_acc g out text) ->
  exists f' e, emits run f f' e.
Proof.
  intros Hs Hr. unfold fence_complete_acc, fence_complete in Hr.
  destruct (vf_discard g || _); [|destruct (negb _)]; do 2 eexists;
    intros out text Ht; rewrite Hr; rewrite (Ht Hs).
  - exists out, []. rewrite app_nil_r. eauto.
  - exists (out ++ [vf_pending g]), []. rewrite flat_token. eauto.
  - exists out, []. rewrite app_nil_r. eauto.
Qed.
Lemma emits_enter f g b u :
  vf_state f = SGround ->
  exists f' e, emits (fun a => fence_enter_esc (g, a.1.2, a.2 ++ u) b) f f' e.
Proof.
  intros Hs. eexists _, u. intros out text _. cbn.
  destruct (bool_decide _) eqn:E; cbn [negb]; bools.
  - do 2 eexists. split; [done|]. rewrite flat_text. done.
  - do 2 eexists. split; [done|]. rewrite flat_flush, flat_text. done.
Qed.
Lemma emits_text (run : fence_acc -> fence_acc) f f' u :
  vf_state f' = SGround ->
  (forall out text, run (f, out, text) = (f', out, text ++ u)) -> emits run f f' u.
Proof. intros Hs Hr out text _. exists out, (text ++ u). by rewrite Hr, flat_text. Qed.
Lemma emits_ext run run' f f' e :
  (forall out text, run (f, out, text) = run' (f, out, text)) ->
  emits run' f f' e -> emits run f f' e.
Proof. intros Hr He out text Ht. rewrite Hr. by apply He. Qed.

(** One branch of the step, its conditions being known. *)
Ltac branch Hs :=
  intros; cbn [fence_step fst snd]; rewrite Hs; unfold fence_ground;
  repeat match goal with
  | E : ?c = _ |- context [if ?c then _ else _] => rewrite E; cbn [negb]
  | E : ?c = _ |- context [match ?c with Utf8Ok => _ | _ => _ end] => rewrite E
  end; reflexivity.
Ltac stays Hs := do 2 eexists; apply emits_stay; [congruence | branch Hs].
Ltac completes Hs := eapply emits_complete; [congruence | branch Hs].
Ltac texts Hs := do 2 eexists; eapply emits_text; [| branch Hs]; done.

Lemma fence_ground_emits f b :
  vf_state f = SGround -> exists f' e, emits (fun a => fence_step a b) f f' e.
Proof.
  intros Hs. destruct (negb (bool_decide (vf_utf8 f = []))) eqn:Eu.
  - destruct (from_utf8 (vf_utf8 f ++ [b])) eqn:E.
    + texts Hs.
    + exists (fence_set_utf8 f (vf_utf8 f ++ [b])), []. eapply emits_text; [done|].
      intros. rewrite app_nil_r. branch Hs.
    + destruct (b <? 128) eqn:E1; [destruct (b =? 27) eqn:E2|].
      * destruct (emits_enter (fence_set_utf8 f []) (fence_set_utf8 f []) b replacement)
          as (f' & e & H); [done|].
        exists f', e. intros out text Ht. destruct (H out text) as (o & t & Ho & ?); [done|].
        exists o, t. split; [|done]. rewrite <- Ho. branch Hs.
      * exists (fence_set_utf8 f []), (replacement ++ [b]). eapply emits_text; [done|].
        intros. rewrite app_assoc. branch Hs.
      * texts Hs.
  - destruct (b =? 27) eqn:E1.
    { destruct (emits_enter f f b []) as (f' & e & H); [done|].
      exists f', e. intros out text Ht. destruct (H out text) as (o & t & Ho & ?); [done|].
      exists o, t. split; [|done]. rewrite <- Ho. cbn [fst snd]. rewrite app_nil_r. branch Hs. }
    destruct (194 <=? b) eqn:E2; [|destruct (128 <=? b) eqn:E3; [texts Hs|texts Hs]].
    exists (fence_set_utf8 f (vf_utf8 f ++ [b])), []. eapply emits_text; [done|].
    intros. rewrite app_nil_r. branch Hs.
Qed.

Lemma fence_step_emits f b : exists f' e, emits (fun a => fence_step a b) f f' e.
Proof.
  destruct (vf_state f) eqn:Hs; [by apply fence_ground_emits|..].
  - destruct (b =? 91) eqn:E1; [stays Hs|]. destruct (b =? 93) eqn:E2; [stays Hs|].
    destruct ((b =? 80) || (b =? 95) || (b =? 94) || (b =? 88)) eqn:E3; [stays Hs|].
    destruct (in_range 32 47 b) eqn:E4; [stays Hs | completes Hs].
  - destruct (in_range 64 126 b) eqn:E1; [completes Hs|].
    destruct ((b =? 24) || (b =? 26)) eqn:E2; [completes Hs|].
    destruct (1024 <? zlen (vf_pending (fence_push f b))) eqn:E3; stays Hs.
  - destruct (b =? 7) eqn:E1; [completes Hs|]. destruct (b =? 27) eqn:E2; stays Hs.
  - destruct (b =? 92) eqn:E1; [completes Hs | stays Hs].
  - destruct (b =? 27) eqn:E1; stays Hs.
  - destruct (b =? 92) eqn:E1; [completes Hs | stays Hs].
Qed.

Lemma fence_steps_emits bs f :
  exists f' e, emits (fun a => foldl fence_step a bs) f f' e.
Proof.
  revert f. induction bs as [|b bs IH]; intros f.
  - exists f, []. intros out text Ht. exists out, text. rewrite app_nil_r. auto.
  - destruct (fence_step_emits f b) as (f1 & e1 & H1). destruct (IH f1) as (f2 & e2 & H2).
    exists f2, (e1 ++ e2). intros out text Ht.
    destruct (H1 out text Ht) as (o1 & t1 & Ho1 & Hf1 & Ht1).
    destruct (H2 o1 t1 Ht1) as (o2 & t2 & Ho2 & Hf2 & Ht2).
    exists o2, t2. cbn [foldl]. rewrite Ho1, Ho2, Hf2, Hf1, app_assoc. auto.
Qed.

(** The state and the bytes of one read. *)
Definition fence_bytes (f : VtFence) (bs : bytes) : VtFence * bytes :=
  let '(f', out) := fence_push_bytes f bs in (f', concat out).

Lemma fence_bytes_emits bs f f' e :
  emits (fun a => foldl fence_step a bs) f f' e -> fence_bytes f bs = (f', e).
Proof.
  intros H. destruct (H [] []) as (o & t & Ho & Hf & _); [done|].
  unfold fence_bytes, fence_push_bytes. rewrite Ho. cbn [flat concat app] in Hf.
  unfold flat in Hf. cbn in Hf. rewrite <- Hf.
  destruct (bool_decide (t = [])) eqn:E; cbn [negb]; bools.
  - by rewrite E, app_nil_r.
  - rewrite concat_app. cbn. by rewrite app_nil_r.
Qed.
Lemma fence_bytes_app f xs ys :
  fence_bytes f (xs ++ ys) =
  let '(f1, e1) := fence_bytes f xs in
  let '(f2, e2) := fence_bytes f1 ys in (f2, e1 ++ e2).
Proof.
  destruct (fence_steps_emits xs f) as (f1 & e1 & H1).
  destruct (fence_steps_emits ys f1) as (f2 & e2 & H2).
  rewrite (fence_bytes_emits _ _ _ _ H1), (fence_bytes_emits _ _ _ _ H2).
  apply fence_bytes_emits. intros out text Ht. rewrite foldl_app.
  destruct (H1 out text Ht) as (o1 & t1 & -> & Hf1 & Ht1).
  destruct (H2 o1 t1 Ht1) as (o2 & t2 & -> & Hf2 & Ht2).
  exists o2, t2. rewrite Hf2, Hf1, app_assoc. auto.
Qed.

Lemma fence_chunking_aux f reads :
  (let '(f', out) := fence_feed f reads in (f', concat out)) = fence_bytes f (concat reads).
Proof.
  revert f. induction reads as [|bs rest IH]; intros f; [done|].
  cbn [concat fence_feed]. rewrite fence_bytes_app. unfold fence_bytes at 1.
  destruct (fence_push_bytes f bs) as [f1 out1]. specialize (IH f1).
  destruct (fence_feed f1 rest) as [f2 out2]. rewrite <- IH. by rewrite concat_app.
Qed.

(** C12: how the PTY's bytes are split into reads changes neither the bytes the
    terminal receives nor the state of the fence. *)
Theorem fence_chunking_independent f reads :
  (let '(f', out) := fence_feed f reads in (f', concat out)) =
  (let '(f', out) := fence_push_bytes f (concat reads) in (f', concat out)).
Proof. apply fence_chunking_aux. Qed.

(** ** Ordinary output passes unchanged *)
Definition utf8_scalar (c : bytes) : bool :=
  match c with
  | [b0] => in_range 0 127 b0
  | [b0; b1] => in_range 194 223 b0 && is_cont b1
  | [b0; b1; b2] => in_range 224 239 b0 && second3 b0 b1 && is_cont b2
  | [b0; b1; b2; b3] => in_range 240 244 b0 && second4 b0 b1 && is_cont b2 && is_cont b3
  | _ => false
  end.

(** What a well-behaved program prints: characters other than ESC, and CSI
    sequences (colours, cursor movement, modes) of fewer than 1024 bytes. *)
Inductive plain : bytes -> Prop :=
| plain_char c : utf8_scalar c = true -> c <> [27] -> plain c
| plain_csi params final :
    Forall (fun b => 32 <= b <= 63) params -> 64 <= final <= 126 ->
    zlen params <= 1022 -> plain (27 :: 91 :: params ++ [final]).

Definition fence_idle (n : Z) : VtFence :=
  {| vf_state := SGround; vf_pending := []; vf_utf8 := []; vf_discard := false;
     vf_omitted := n |}.

(** Decides the integer tests of the goal by arithmetic. *)
Ltac decide_tests :=
  repeat match goal with
  | |- context [in_range ?a ?b ?c] =>
      first [ replace (in_range a b c) with false by (unfold in_range; lia)
            | replace (in_range a b c) with true by (unfold in_range; lia) ]
  | |- context [Z.eqb ?a ?b] =>
      first [ replace (Z.eqb a b) with false by lia | replace (Z.eqb a b) with true by lia ]
  | |- context [Z.leb ?a ?b] =>
      first [ replace (Z.leb a b) with false by lia | replace (Z.leb a b) with true by lia ]
  | |- context [Z.ltb ?a ?b] =>
      first [ replace (Z.ltb a b) with false by lia | replace (Z.ltb a b) with true by lia ]
  end; cbn [negb andb orb].

Lemma fence_idle_lead n b :
  194 <= b -> fence_step (fence_idle n, [], []) b =
  (fence_set_utf8 (fence_idle n) [b], [], []).
Proof. intros. cbn. decide_tests. done. Qed.
Lemma fence_held_more n u b :
  u <> [] -> from_utf8 (u ++ [b]) = Utf8Partial ->
  fence_step (fence_set_utf8 (fence_idle n) u, [], []) b =
  (fence_set_utf8 (fence_idle n) (u ++ [b]), [], []).
Proof.
  intros Hu He. cbn [fence_step fence_set_utf8 fence_idle vf_state].
  unfold fence_ground. cbn [vf_utf8 fence_set_utf8].
  rewrite bool_decide_eq_false_2, He by done. done.
Qed.
Lemma fence_held_done n u b :
  u <> [] -> from_utf8 (u ++ [b]) = Utf8Ok ->
  fence_step (fence_set_utf8 (fence_idle n) u, [], []) b = (fence_idle n, [], u ++ [b]).
Proof.
  intros Hu He. cbn [fence_step fence_set_utf8 fence_idle vf_state].
  unfold fence_ground. cbn [vf_utf8 fence_set_utf8].
  rewrite bool_decide_eq_false_2, He by done. done.
Qed.

Lemma fence_steps_char n c :
  utf8_scalar c = true -> c <> [27] ->
  foldl fence_step (fence_idle n, [], []) c = (fence_idle n, [], c) /\ c <> [].
Proof.
  intros Hc Hne. unfold utf8_scalar in Hc.
  destruct c as [|b0 [|b1 [|b2 [|b3 [|]]]]]; try done; (split; [|done]); bools;
    repeat match goal with
    | H : in_range _ _ b0 = true |- _ => apply in_range_spec in H
    | H : _ /\ _ |- _ => destruct H
    end; cbn [foldl].
  - assert (b0 <> 27) by congruence. cbn. decide_tests. done.
  - rewrite fence_idle_lead by lia. apply fence_held_done; [done|].
    cbn [app from_utf8]. decide_tests. by rewrite H0.
  - rewrite fence_idle_lead by lia. rewrite fence_held_more; [|done|].
    + apply fence_held_done; [done|]. cbn [app from_utf8]. decide_tests.
      by rewrite H1, H0.
    + cbn [app from_utf8]. decide_tests. by rewrite H1.
  - rewrite fence_idle_lead by lia. rewrite fence_held_more; [rewrite fence_held_more| |].
    + apply fence_held_done; [done|]. cbn [app from_utf8]. decide_tests.
      by rewrite H2, H1, H0.
    + done.
    + cbn [app from_utf8]. decide_tests. by rewrite H2, H1.
    + done.
    + cbn [app from_utf8]. decide_tests. by rewrite H2.
Qed.

(** The fence inside a CSI sequence whose bytes so far are [p]. *)
Definition fence_csi (n : Z) (p : bytes) : VtFence :=
  {| vf_state := SCsi; vf_pending := p; vf_utf8 := []; vf_discard := false;
     vf_omitted := n |}.
Lemma fence_csi_param n p b :
  zlen p < 1024 -> 32 <= b <= 63 ->
  fence_step (fence_csi n p, [], []) b = (fence_csi n (p ++ [b]), [], []).
Proof.
  intros Hp Hb. cbn [fence_step fence_csi vf_state]. unfold fence_push.
  cbn [vf_pending fence_csi]. decide_tests. cbn [vf_pending]. rewrite zlen_snoc.
  decide_tests. done.
Qed.
Lemma fence_csi_params n params p :
  Forall (fun b => 32 <= b <= 63) params -> zlen p + zlen params <= 1024 ->
  foldl fence_step (fence_csi n p, [], []) params = (fence_csi n (p ++ params), [], []).
Proof.
  revert p. induction params as [|b params IH]; intros p Hf Hl; [by rewrite app_nil_r|].
  apply Forall_cons_iff in Hf as [Hb Hf]. rewrite zlen_cons in Hl.
  pose proof (zlen_nonneg params). cbn [foldl]. rewrite fence_csi_param by lia.
  rewrite IH; [by rewrite <- app_assoc | done | rewrite zlen_snoc; lia].
Qed.
Lemma fence_bytes_plain n i : plain i -> fence_bytes (fence_idle n) i = (fence_idle n, i).
Proof.
  intros [c Hc Hne | params final Hp Hf Hl]; unfold fence_bytes, fence_push_bytes.
  - destruct (fence_steps_char n c Hc Hne) as [-> Hn].
    rewrite bool_decide_eq_false_2 by done. cbn. by rewrite app_nil_r.
  - change (27 :: 91 :: params ++ [final]) with ([27; 91] ++ params ++ [final]).
    rewrite !foldl_app.
    replace (foldl fence_step (fence_idle n, [], []) [27; 91])
      with ((fence_csi n [27; 91], [], []) : fence_acc) by reflexivity.
    rewrite fence_csi_params by (try done; unfold zlen at 1; cbn [length]; lia).
    cbn [foldl fence_step fence_csi vf_state]. unfold fence_push.
    assert (zlen ([27; 91] ++ params) <= 1024)
      by (rewrite zlen_app; unfold zlen at 1; cbn [length]; lia).
    cbn [vf_pending fence_csi]. decide_tests. cbn. by rewrite app_nil_r.
Qed.

(** Ordinary output is never altered: any sequence of characters (all of
    Unicode but ESC) and CSI sequences reaches the terminal byte for byte, in
    however many reads it arrives, nothing is counted as omitted and nothing
    is held back. *)
Theorem fence_transparent items reads :
  Forall plain items -> concat reads = concat items ->
  let '(f, out) := fence_feed fence_default reads in
  f = fence_default /\ concat out = concat items.
Proof.
  intros Hp Hr. pose proof (fence_chunking_aux fence_default reads) as Hc.
  rewrite Hr in Hc.
  assert (fence_bytes fence_default (concat items) = (fence_default, concat items)) as Hb.
  { clear Hr Hc. induction Hp as [|i items Hi Hp IH]; [done|]. cbn [concat].
    rewrite fence_bytes_app. change fence_default with (fence_idle 0) at 1.
    rewrite fence_bytes_plain by done. change (fence_idle 0) with fence_default.
    by rewrite IH. }
  rewrite Hb in Hc. destruct (fence_feed _ _) as [f out]. by simplify_eq.
Qed.
Lemma fence_transparent_witness :
  let '(f, out) := fence_feed fence_default [[237; 149]; [156; 27; 91]; [51; 49; 109]] in
  f = fence_default /\ concat out = concat [[237; 149; 156]; [27; 91; 51; 49; 109]].
Proof.
  apply (fence_transparent [[237; 149; 156]; [27; 91; 51; 49; 109]]
           [[237; 149]; [156; 27; 91]; [51; 49; 109]]); [|reflexivity].
  constructor; [apply plain_char; [reflexivity | discriminate]|].
  constructor; [|constructor].
  apply (plain_csi [51; 49] 109); [repeat constructor; lia | lia | vm_compute; discriminate].
Defined.

(** ** Where the fence differs from its description *)
Definition fence_osc (n : Z) (p : bytes) : VtFence :=
  {| vf_state := SOsc; vf_pending := p; vf_utf8 := []; vf_discard := false;
     vf_omitted := n |}.
Lemma fence_osc_body n body p :
  Forall (fun b => 32 <= b <= 126) body -> zlen p + zlen body <= 16384 ->
  foldl fence_step (fence_osc n p, [], []) body = (fence_osc n (p ++ body), [], []).
Proof.
  revert p. induction body as [|b body IH]; intros p Hf Hl; [by rewrite app_nil_r|].
  apply Forall_cons_iff in Hf as [Hb Hf]. rewrite zlen_cons in Hl.
  pose proof (zlen_nonneg body). cbn [foldl fence_step fence_osc vf_state].
  unfold fence_push. cbn [vf_pending fence_osc]. decide_tests.
  specialize (IH (p ++ [b]) Hf). rewrite <- app_assoc, zlen_snoc in IH.
  apply IH. lia.
Qed.
Lemma fence_bytes_ascii n t :
  Forall (fun b => 0 <= b <= 126 /\ b <> 27) t -> fence_bytes (fence_idle n) t = (fence_idle n, t).
Proof.
  induction 1 as [|b t [Hb Hb'] Ht IH]; [done|]. change (b :: t) with ([b] ++ t).
  rewrite fence_bytes_app, fence_bytes_plain, IH; [done|].
  apply plain_char; [cbn; unfold in_range; lia | congruence].
Qed.

(** OSC 52 gets through.  An ESC that ends another sequence does not start
    a new one for the fence, although it does for a terminal: after a bare
    ESC, after an unfinished CSI, and inside another OSC, a complete clipboard
    write [ESC ] 52 ; ... BEL] is passed on unchanged with nothing counted as
    omitted. *)
Theorem fence_osc52_bypass payload :
  Forall (fun b => 32 <= b <= 126) payload -> zlen payload <= 1000 ->
  let osc := osc52 ++ payload ++ [7] in
  fence_bytes fence_default (27 :: osc) = (fence_default, 27 :: osc) /\
  fence_bytes fence_default ([27; 91] ++ osc) = (fence_default, [27; 91] ++ osc) /\
  fence_bytes fence_default ([27; 93; 48; 59] ++ osc) =
    (fence_default, [27; 93; 48; 59] ++ osc).
Proof.
  intros Hp Hl osc. subst osc.
  assert (forall t, Forall (fun b => 0 <= b <= 126 /\ b <> 27) t ->
    Forall (fun b => 0 <= b <= 126 /\ b <> 27) (t ++ payload ++ [7])) as Htext.
  { intros t Ht. rewrite !Forall_app. split; [done|]. split.
    - eapply Forall_impl; [exact Hp|]. cbn. lia.
    - repeat constructor; lia. }
  split; [|split].
  - change (27 :: osc52 ++ payload ++ [7]) with ([27; 27] ++ [93; 53; 50; 59] ++ payload ++ [7]).
    rewrite fence_bytes_app. change (fence_bytes fence_default [27; 27])
      with (fence_idle 0, [27; 27]).
    cbn iota beta. rewrite (fence_bytes_ascii 0); [done|]. apply Htext. repeat constructor; lia.
  - change ([27; 91] ++ osc52 ++ payload ++ [7])
      with ([27; 91; 27; 93] ++ [53; 50; 59] ++ payload ++ [7]).
    rewrite fence_bytes_app. change (fence_bytes fence_default [27; 91; 27; 93])
      with (fence_idle 0, [27; 91; 27; 93]).
    cbn iota beta. rewrite (fence_bytes_ascii 0); [done|]. apply Htext. repeat constructor; lia.
  - unfold fence_bytes, fence_push_bytes. change ([27; 93; 48; 59] ++ osc52 ++ payload ++ [7])
      with ([27; 93; 48; 59; 27; 93] ++ ([53; 50; 59] ++ payload) ++ [7]).
    rewrite !foldl_app.
    replace (foldl fence_step (fence_default, [], []) [27; 93; 48; 59; 27; 93])
      with ((fence_osc 0 [27; 93; 48; 59; 27; 93], [], []) : fence_acc) by reflexivity.
    rewrite (fence_osc_body 0 [53; 50; 59])
      by (first [repeat constructor; lia | vm_compute; discriminate]).
    rewrite (fence_osc_body 0 payload)
      by (first [done | rewrite zlen_app; unfold zlen at 1 2; cbn [length]; lia]).
    cbn [foldl fence_step fence_osc vf_state]. unfold fence_push. cbn [vf_pending fence_osc].
    rewrite <- app_assoc.
    assert (zlen ([27; 93; 48; 59; 27; 93] ++ [53; 50; 59] ++ payload) <= 1100)
      by (rewrite !zlen_app; unfold zlen at 1 2; cbn [length]; lia).
    decide_tests. cbn. by rewrite app_nil_r.
Qed.
Lemma fence_osc52_bypass_witness :
  let osc := osc52 ++ [99; 59; 101] ++ [7] in
  fence_bytes fence_default (27 :: osc) = (fence_default, 27 :: osc) /\
  fence_bytes fence_default ([27; 91] ++ osc) = (fence_default, [27; 91] ++ osc) /\
  fence_bytes fence_default ([27; 93; 48; 59] ++ osc) =
    (fence_default, [27; 93; 48; 59] ++ osc).
Proof.
  apply (fence_osc52_bypass [99; 59; 101]);
    [repeat constructor; lia | vm_compute; discriminate].
Defined.

(** A valid character is lost when it follows a broken one: after a
    two-byte lead, the three bytes of any three-byte character come out as
    three replacement characters. *)
Theorem fence_loses_char_after_bad_lead lead b0 b1 b2 :
  194 <= lead <= 223 -> utf8_scalar [b0; b1; b2] = true ->
  fence_bytes fence_default [lead; b0; b1; b2] =
    (fence_default, replacement ++ replacement ++ replacement).
Proof.
  intros Hlead Hs. cbn in Hs. bools. repeat match goal with H : _ /\ _ |- _ => destruct H end.
  assert (224 <= b0 <= 239 /\ 128 <= b1 <= 191 /\ 128 <= b2 <= 191) as (? & ? & ?).
  { byte_bools; lia. }
  unfold fence_bytes, fence_push_bytes. cbn [foldl].
  change fence_default with (fence_idle 0) at 1. rewrite fence_idle_lead by lia.
  cbn [fence_step fence_set_utf8 fence_idle vf_state]. unfold fence_ground.
  cbn [vf_utf8 fence_set_utf8 app from_utf8]. unfold is_cont. decide_tests.
  rewrite bool_decide_eq_false_2 by done. cbn. decide_tests. cbn. decide_tests. done.
Qed.
Lemma fence_loses_char_after_bad_lead_witness :
  fence_bytes fence_default [195; 226; 130; 172] =
    (fence_default, replacement ++ replacement ++ replacement).
Proof. apply (fence_loses_char_after_bad_lead 195 226 130 172); [lia | reflexivity]. Defined.
