(* ===== verification/Text.v ===== *)
(** * Strings
    The operations of Rust's [str] and [char] the source uses, on the UTF-8
    bytes of a string. *)
From Stdlib Require Import Ascii String.
From stdpp Require Export pretty.
From S2P Require Import Prelude.
#[global] Open Scope Z_scope.

(** Results whose error is a message. *)
Abbreviation sres := (result string).
Definition str_bytes (s : string) : bytes :=
  map (fun a => Z.of_N (N_of_ascii a)) (list_ascii_of_string s).
Definition bytes_str (l : bytes) : string :=
  string_of_list_ascii (map (fun b => ascii_of_N (Z.to_N b)) l).
(** [s.len()]: bytes. *)
Definition str_len (s : string) : Z := Z.of_nat (String.length s).
Definition str_is_empty (s : string) : bool := bool_decide (s = ""%string).

(** The UTF-8 encodings of the characters [char::is_whitespace] accepts. *)
Definition white_space : list bytes :=
  map (fun b => [b]) [9; 10; 11; 12; 13; 32] ++
  [[194; 133]; [194; 160]; [225; 154; 128]] ++
  map (fun b => [226; 128; b]) [128; 129; 130; 131; 132; 133; 134; 135; 136; 137; 138;
                                168; 169; 175] ++
  [[226; 129; 159]; [227; 128; 128]].

Fixpoint strip_bytes (p l : bytes) : option bytes :=
  match p, l with
  | [], _ => Some l
  | y :: p', x :: l' => if x =? y then strip_bytes p' l' else None
  | _ :: _, [] => None
  end.
(** The first of [ps] that is a prefix of [l] is removed. *)
Fixpoint strip_any (ps : list bytes) (l : bytes) : option bytes :=
  match ps with
  | [] => None
  | p :: ps' => match strip_bytes p l with Some r => Some r | None => strip_any ps' l end
  end.
Fixpoint trim_with (fuel : nat) (ps : list bytes) (l : bytes) : bytes :=
  match fuel with
  | O => l
  | S n => match strip_any ps l with Some r => trim_with n ps r | None => l end
  end.
(** [str::trim]; each removed character is at least one byte, so the length is
    enough fuel. *)
Definition trim_bytes (l : bytes) : bytes :=
  let l := trim_with (length l) white_space l in
  rev (trim_with (length l) (map (@rev Z) white_space) (rev l)).
Definition str_trim (s : string) : string := bytes_str (trim_bytes (str_bytes s)).

(** ASCII case mapping and classes. *)
Definition ascii_lower (b : Z) : Z := if in_range 65 90 b then b + 32 else b.
Definition is_ascii_alphabetic (b : Z) : bool := in_range 65 90 b || in_range 97 122 b.
Definition is_ascii_digit (b : Z) : bool := in_range 48 57 b.
Definition is_ascii_alphanumeric (b : Z) : bool := is_ascii_alphabetic b || is_ascii_digit b.
Definition is_ascii_lowercase (b : Z) : bool := in_range 97 122 b.
Definition is_ascii_hexdigit (b : Z) : bool :=
  is_ascii_digit b || in_range 65 70 b || in_range 97 102 b.
(** [a.eq_ignore_ascii_case(b)] *)
Definition eq_ignore_ascii_case (a b : string) : bool :=
  bool_decide (map ascii_lower (str_bytes a) = map ascii_lower (str_bytes b)).
Definition to_ascii_lowercase (a : string) : string :=
  bytes_str (map ascii_lower (str_bytes a)).

Fixpoint str_starts_with (s p : string) : bool :=
  match p, s with
  | EmptyString, _ => true
  | String y p', String x s' => Ascii.eqb x y && str_starts_with s' p'
  | String _ _, EmptyString => false
  end.
(** [s.strip_prefix(p)] *)
Fixpoint str_strip_prefix (s p : string) : option string :=
  match p, s with
  | EmptyString, _ => Some s
  | String y p', String x s' => if Ascii.eqb x y then str_strip_prefix s' p' else None
  | String _ _, EmptyString => None
  end.
Definition str_rev (s : string) : string :=
  string_of_list_ascii (rev (list_ascii_of_string s)).
Definition str_ends_with (s p : string) : bool := str_starts_with (str_rev s) (str_rev p).
Definition str_strip_suffix (s p : string) : option string :=
  match str_strip_prefix (str_rev s) (str_rev p) with
  | Some r => Some (str_rev r)
  | None => None
  end.

(** [s.split(c)] for an ASCII character: at least one piece. *)
Fixpoint split_list {A} (sep : A -> bool) (l cur : list A) : list (list A) :=
  match l with
  | [] => [cur]
  | x :: r => if sep x then cur :: split_list sep r [] else split_list sep r (cur ++ [x])
  end.
Definition str_split (c : ascii) (s : string) : list string :=
  map string_of_list_ascii (split_list (Ascii.eqb c) (list_ascii_of_string s) []).

(** [n.to_string()] of an unsigned integer. *)
Definition dec (n : Z) : string := pretty (Z.to_N n).
Definition hex_digit (n : Z) : Z := if n <? 10 then 48 + n else 87 + n.
Definition hex_bytes (l : bytes) : bytes :=
  concat (map (fun b => [hex_digit (b / 16); hex_digit (b mod 16)]) l).
(** [Uuid]'s [Display]: lower-case hexadecimal in groups of 4-2-2-2-6 bytes. *)
Definition uuid_string (u : Z) : string :=
  let b := be_enc 16 u in
  bytes_str (hex_bytes (slice 0 4 b) ++ [45] ++ hex_bytes (slice 4 6 b) ++ [45] ++
             hex_bytes (slice 6 8 b) ++ [45] ++ hex_bytes (slice 8 10 b) ++ [45] ++
             hex_bytes (slice 10 16 b)).

(** [s.encode_utf16()] of (valid) UTF-8 bytes: a surrogate pair for a four-byte
    character. *)
Fixpoint encode_utf16 (l : bytes) : list Z :=
  match l with
  | [] => []
  | a :: r =>
    if a <? 128 then a :: encode_utf16 r else
    match r with
    | [] => []
    | b :: r =>
      if a <? 224 then (a - 192) * 64 + (b - 128) :: encode_utf16 r else
      match r with
      | [] => []
      | c :: r =>
        if a <? 240 then (a - 224) * 4096 + (b - 128) * 64 + (c - 128) :: encode_utf16 r else
        match r with
        | [] => []
        | d :: r =>
          let cp := (a - 240) * 262144 + (b - 128) * 4096 + (c - 128) * 64 + (d - 128) - 65536 in
          55296 + cp / 1024 :: 56320 + cp mod 1024 :: encode_utf16 r
        end
      end
    end
  end.
Definition utf16_len (l : bytes) : Z := zlen (encode_utf16 l).

(** [s.parse::<uN>()]: decimal digits, an optional [+], no overflow of [max]. *)
Fixpoint parse_digits (max acc : Z) (l : bytes) : option Z :=
  match l with
  | [] => Some acc
  | b :: r =>
    if is_ascii_digit b then
      let acc := acc * 10 + (b - 48) in
      if max <? acc then None else parse_digits max acc r
    else None
  end.
Definition parse_unsigned_bytes (max : Z) (l : bytes) : option Z :=
  match l with
  | [] => None
  | 43 :: [] => None
  | 43 :: r => parse_digits max 0 r
  | l => parse_digits max 0 l
  end.
Definition parse_unsigned (max : Z) (s : string) : option Z :=
  parse_unsigned_bytes max (str_bytes s).

(** [s.split_whitespace()]: the non-empty pieces between white space; each step
    consumes a byte, so the length is enough fuel. *)
Definition emit_piece (cur : bytes) : list bytes :=
  match cur with [] => [] | _ => [cur] end.
Fixpoint split_ws (fuel : nat) (l cur : bytes) : list bytes :=
  match fuel, l with
  | S n, x :: r =>
    match strip_any white_space l with
    | Some r' => emit_piece cur ++ split_ws n r' []
    | None => split_ws n r (cur ++ [x])
    end
  | _, _ => emit_piece cur
  end.
Definition split_whitespace (l : bytes) : list bytes := split_ws (length l) l [].

Definition bytes_starts_with (l p : bytes) : bool := option_is_some (strip_bytes p l).
Definition bytes_ends_with (l p : bytes) : bool := bytes_starts_with (rev l) (rev p).
Definition ascii_upper (b : Z) : Z := if in_range 97 122 b then b - 32 else b.

(** [s.lines()]: pieces between LFs, without one CR before the LF, and without
    an empty last piece. *)
Fixpoint split_lines (l cur : bytes) : list bytes :=
  match l with
  | [] => emit_piece cur
  | x :: r =>
    if x =? 10 then
      (match rev cur with 13 :: c => rev c | _ => cur end) :: split_lines r []
    else split_lines r (cur ++ [x])
  end.
Definition str_lines (l : bytes) : list bytes := split_lines l [].
(** [s.trim_end_matches('\r')] *)
Fixpoint drop_crs (l : bytes) : bytes := match l with 13 :: r => drop_crs r | _ => l end.
Definition trim_end_cr (l : bytes) : bytes := rev (drop_crs (rev l)).
(** [v.join(sep)] *)
Fixpoint join_bytes (sep : bytes) (ls : list bytes) : bytes :=
  match ls with
  | [] => []
  | [l] => l
  | l :: r => l ++ sep ++ join_bytes sep r
  end.

Example uuid_string_runs :
  uuid_string 7 = "00000000-0000-0000-0000-000000000007"%string.
Proof. by vm_compute. Qed.
Example str_trim_runs : str_trim "  a b 	"%string = "a b"%string.
Proof. by vm_compute. Qed.
Example parse_unsigned_runs :
  parse_unsigned u64_max "18446744073709551615" = Some u64_max /\
  parse_unsigned u64_max "18446744073709551616" = None /\
  parse_unsigned u16_max "+22" = Some 22 /\ parse_unsigned u16_max "-1" = None.
Proof. by vm_compute. Qed.
Example encode_utf16_runs :   (* e acute, the euro sign, an emoji *)
  encode_utf16 [97; 195; 169; 226; 130; 172; 240; 159; 152; 128] = [97; 233; 8364; 55357; 56832].
Proof. by vm_compute. Qed.

(** ** Decimal numbers *)
Lemma digit_char x :
  (x < 10)%N -> Z.of_N (N_of_ascii (pretty_N_char x)) = 48 + Z.of_N x.
Proof.
  intros Hx. assert (x = 0 \/ x = 1 \/ x = 2 \/ x = 3 \/ x = 4 \/ x = 5 \/ x = 6 \/ x = 7 \/ x = 8 \/ x = 9)%N
    as Hc by lia. repeat destruct Hc as [->|Hc]; subst; reflexivity.
Qed.
Lemma parse_digits_go max x s :
  Z.of_N x <= max ->
  parse_digits max 0 (str_bytes (pretty_N_go x s)) = parse_digits max (Z.of_N x) (str_bytes s).
Proof.
  revert s. induction (N.lt_wf_0 x) as [x _ IH]. intros s Hx.
  destruct (decide (0 < x)%N) as [Hpos|]; [|by assert (x = 0%N) as -> by lia].
  pose proof (N.div_mod x 10 ltac:(lia)) as Hdm. pose proof (N.mod_lt x 10 ltac:(lia)) as Hm.
  assert (Z.of_N (x / 10) * 10 + (48 + Z.of_N (x mod 10) - 48) = Z.of_N x /\
    48 <= 48 + Z.of_N (x mod 10) <= 57 /\ Z.of_N (x / 10) <= Z.of_N x) as (Heq & Hr & Hle).
  { clear IH. revert Hdm Hm. generalize (x / 10)%N (x mod 10)%N. lia. }
  rewrite pretty_N_go_step by done. rewrite IH; [|apply N.div_lt; lia|lia].
  change (str_bytes (String ?a s)) with (Z.of_N (N_of_ascii a) :: str_bytes s).
  cbn [parse_digits str_bytes list_ascii_of_string map]. rewrite digit_char by done.
  unfold is_ascii_digit. replace (in_range 48 57 (48 + Z.of_N (x mod 10))) with true
    by (symmetry; by apply in_range_spec).
  rewrite Heq.
  by destruct (Z.ltb_spec max (Z.of_N x)); [lia|].
Qed.
(** [n.to_string().parse()] *)
Lemma parse_dec max n : 0 <= n <= max -> parse_unsigned max (dec n) = Some n.
Proof.
  intros Hn. unfold parse_unsigned, dec, pretty, pretty_N. case_decide as Hz.
  { destruct n; [|lia|lia]. change ((if max <? 0 then None else Some 0) = Some 0).
    destruct (Z.ltb_spec max 0); [lia|done]. }
  pose proof (parse_digits_go max (Z.to_N n) "" ltac:(lia)) as Hp.
  rewrite Z2N.id in Hp by lia. change (parse_digits max n (str_bytes "")) with (Some n) in Hp.
  unfold parse_unsigned_bytes. destruct (str_bytes (pretty_N_go (Z.to_N n) "")) as [|b l].
  { injection Hp as Hp. lia. }
  destruct (Z.eq_dec b 43) as [->|Hb]; [done|].
  destruct b as [|p|p]; try exact Hp.
  do 6 (destruct p as [p|p|]; try exact Hp). by destruct Hb.
Qed.
Lemma dec_inj n m : 0 <= n -> 0 <= m -> dec n = dec m -> n = m.
Proof. intros Hn Hm Hd. unfold dec in Hd. apply pretty_N_inj in Hd. lia. Qed.

Lemma str_bytes_of_bytes l : Forall is_byte l -> str_bytes (bytes_str l) = l.
Proof.
  intros Hl. unfold str_bytes, bytes_str. rewrite list_ascii_of_string_of_list_ascii, map_map.
  induction Hl as [|b l Hb Hl IH]; [done|]. cbn. rewrite IH, N_ascii_embedding.
  - rewrite Z2N.id; [done|]. unfold is_byte in Hb. lia.
  - unfold is_byte in Hb. lia.
Qed.
Lemma str_bytes_app a b : str_bytes (a ++ b)%string = str_bytes a ++ str_bytes b.
Proof. induction a as [|x a IH]; [done|]. exact (f_equal (cons _) IH). Qed.
Lemma parse_digits_nonneg max acc l n : parse_digits max acc l = Some n -> 0 <= acc -> 0 <= n.
Proof.
  revert acc. induction l as [|b l IH]; intros acc; cbn [parse_digits]; [by intros [= ->]|].
  destruct (is_ascii_digit b) eqn:Eb; [|done]. case_match; [done|]. intros Hp Ha. apply IH in Hp; [done|].
  unfold is_ascii_digit, in_range in Eb. lia.
Qed.
Lemma parse_unsigned_nonneg max s n : parse_unsigned max s = Some n -> 0 <= n.
Proof.
  unfold parse_unsigned, parse_unsigned_bytes.
  repeat case_match; try done; intros Hp; by eapply parse_digits_nonneg.
Qed.
