(* ===== verification/Paths.v ===== *)
(** * Paths
    The standard library's operations on paths: a path is its components, with the
    root (a drive, or the empty string in front of the first separator) as an ordinary
    first component. *)
From Stdlib Require Import Ascii String.
From S2P Require Import Prelude Text.
#[global] Open Scope Z_scope.

Abbreviation Components := (list string) (only parsing).
(** [Path::parent]; the empty path has none. *)
Definition parent (p : Components) : option Components :=
  match p with [] => None | _ => Some (removelast p) end.
(** [Path::file_name] *)
Definition file_name (p : Components) : option string :=
  match last p with
  | Some name => if bool_decide (name = ".."%string) then None else Some name
  | None => None
  end.
(** The text before and after the last dot. *)
Fixpoint rsplit_dot (s : string) : option (string * string) :=
  match s with
  | EmptyString => None
  | String c r =>
    match rsplit_dot r with
    | Some (before, after) => Some (String c before, after)
    | None => if ascii_dec c "." then Some (EmptyString, r) else None
    end
  end.
(** [Path::extension]: none for a name whose only dot comes first. *)
Definition extension (p : Components) : option string :=
  match file_name p with
  | None => None
  | Some name =>
    match rsplit_dot name with
    | Some (before, after) => if str_is_empty before then None else Some after
    | None => None
    end
  end.
(** The text of a path, with the system's separator. *)
Fixpoint path_text (sep : string) (p : Components) : string :=
  match p with
  | [] => ""
  | [name] => name
  | name :: r => name ++ sep ++ path_text sep r
  end.
Definition executable_suffix (exe : Components) : bool :=
  is_some_and (fun x => eq_ignore_ascii_case x "exe") (extension exe).

Lemma parent_snoc p name : parent (p ++ [name]) = Some p.
Proof. unfold parent. rewrite removelast_last. by destruct p. Qed.
Lemma file_name_snoc p name : name <> ".."%string -> file_name (p ++ [name]) = Some name.
Proof. intros Hn. unfold file_name. rewrite last_snoc. by rewrite bool_decide_eq_false_2. Qed.
#[export] Hint Rewrite parent_snoc : paths.

Example extension_runs :
  extension ["C:"; "rc-agent.EXE"]%string = Some "EXE"%string /\
  extension [".exe"]%string = None /\ extension ["a.b."]%string = Some ""%string /\
  extension [".."]%string = None /\ extension ["rc-agent"]%string = None /\
  path_text "\" ["C:"; "RemoteCodex"; "rc-media.exe"]%string = "C:\RemoteCodex\rc-media.exe"%string.
Proof. by vm_compute. Qed.

(** A path from its text: the pieces between separators. *)
Definition is_separator (b : Z) : bool := (b =? 47) || (b =? 92).
Definition path_of (s : string) : Components :=
  List.filter (fun name => negb (str_is_empty name))
    (map bytes_str (split_list is_separator (str_bytes s) [])).
Example path_of_runs :
  path_of "C:\Program Files/npm\" = ["C:"; "Program Files"; "npm"]%string.
Proof. by vm_compute. Qed.
