(* ===== verification/Terminal.v ===== *)
(** * The terminal model's exports ([crates/rc-agent/src/terminal.rs])
    The emulator itself is third-party code; what it reports (grids of cells,
    cursors, modes, colours) is the record [Term].  Modelled is what the agent
    makes of it: the repaint a client starts from, and the readable text of the
    screen. *)
From Stdlib Require Import String.
From S2P Require Import Prelude Text VtFence.
#[global] Open Scope Z_scope.

(** ** What the emulator reports *)
(** A [char] is its code point. *)
Definition is_control (c : Z) : bool := in_range 0 31 c || in_range 127 159 c.
Definition encode_utf8 (c : Z) : bytes :=
  if c <? 128 then [c] else
  if c <? 2048 then [192 + c / 64; 128 + c mod 64] else
  if c <? 65536 then [224 + c / 4096; 128 + c / 64 mod 64; 128 + c mod 64] else
  [240 + c / 262144; 128 + c / 4096 mod 64; 128 + c / 64 mod 64; 128 + c mod 64].

Record Rgb := { r_ : Z; g_ : Z; b_ : Z }.
Inductive Color : Type := CSpec (rgb : Rgb) | CIndexed (n : Z) | CNamed (n : Z).
(** [Flags]: the bits of a cell's attributes. *)
Definition F_INVERSE : Z := 0.
Definition F_BOLD : Z := 1.
Definition F_ITALIC : Z := 2.
Definition F_UNDERLINE : Z := 3.
Definition F_WRAPLINE : Z := 4.
Definition F_WIDE_CHAR : Z := 5.
Definition F_WIDE_CHAR_SPACER : Z := 6.
Definition F_DIM : Z := 7.
Definition F_HIDDEN : Z := 8.
Definition F_STRIKEOUT : Z := 9.
Definition F_LEADING_WIDE_CHAR_SPACER : Z := 10.
Definition F_DOUBLE_UNDERLINE : Z := 11.
Definition F_UNDERCURL : Z := 12.
Definition F_DOTTED_UNDERLINE : Z := 13.
Definition F_DASHED_UNDERLINE : Z := 14.
Record Cell := {
  cl_c : Z;
  cl_fg : Color;
  cl_bg : Color;
  cl_flags : Z;
  cl_zerowidth : list Z;
  cl_underline : option Color
}.
Definition has (c : Cell) (flag : Z) : bool := Z.testbit (cl_flags c) flag.
Definition is_spacer (c : Cell) : bool :=
  has c F_WIDE_CHAR_SPACER || has c F_LEADING_WIDE_CHAR_SPACER.

Inductive Charset : Type := CsAscii | CsLineDrawing.
Inductive CharsetIndex : Type := G0 | G1 | G2 | G3.
Record Cursor := {
  cu_line : Z;
  cu_column : Z;
  cu_template : Cell;
  cu_charsets : CharsetIndex -> Charset;
  cu_active_charset : CharsetIndex;
  cu_needs_wrap : bool
}.
(** The rows from the oldest line of the scrollback to the last of the screen. *)
Record Grid := {
  gr_rows : list (list Cell);
  gr_screen_lines : Z;
  gr_columns : Z;
  gr_cursor : Cursor;
  gr_saved_cursor : Cursor
}.
Definition history_size (g : Grid) : Z := Z.max 0 (zlen (gr_rows g) - gr_screen_lines g).
(** [grid[Line(row)][Column(col)]]; [None]: out of range, a panic. *)
Definition grid_cell (g : Grid) (row col : Z) : option Cell :=
  if (row + history_size g <? 0) || (col <? 0) then None else
  match gr_rows g !! Z.to_nat (row + history_size g) with
  | Some r => r !! Z.to_nat col
  | None => None
  end.

Inductive CursorShape : Type := ShBlock | ShUnderline | ShBeam | ShHollowBlock | ShHidden.
#[global] Instance CursorShape_eq_dec : EqDecision CursorShape.
Proof. solve_decision. Defined.
(** [TermMode]: its bits. *)
Definition M_SHOW_CURSOR : Z := 0.
Definition M_APP_CURSOR : Z := 1.
Definition M_APP_KEYPAD : Z := 2.
Definition M_MOUSE_REPORT_CLICK : Z := 3.
Definition M_BRACKETED_PASTE : Z := 4.
Definition M_SGR_MOUSE : Z := 5.
Definition M_MOUSE_MOTION : Z := 6.
Definition M_LINE_WRAP : Z := 7.
Definition M_LINE_FEED_NEW_LINE : Z := 8.
Definition M_ORIGIN : Z := 9.
Definition M_INSERT : Z := 10.
Definition M_FOCUS_IN_OUT : Z := 11.
Definition M_ALT_SCREEN : Z := 12.
Definition M_MOUSE_DRAG : Z := 13.
Definition M_UTF8_MOUSE : Z := 14.
Record Term := {
  tm_mode : Z;
  tm_grid : Grid;
  tm_inactive : Grid;
  tm_tab_stops : list Z;
  tm_region : Z * Z;
  tm_shape : CursorShape;
  tm_blinking : bool;
  tm_colors : Z -> option Rgb
}.
Definition in_mode (t : Term) (m : Z) : bool := Z.testbit (tm_mode t) m.
Definition bracketed_paste (t : Term) : bool := in_mode t M_BRACKETED_PASTE.

(** ** Cells *)
Definition num (n : Z) : bytes := str_bytes (dec n).
Definition ESC : Z := 27.
Definition csi (params : bytes) (final : Z) : bytes := ESC :: 91 :: params ++ [final].
Definition semi (l : list Z) : bytes := concat (map (fun n => 59 :: num n) l).
Definition color (c : Color) (fg : bool) : bytes :=
  let base := if fg then 38 else 48 in
  match c with
  | CSpec rgb => semi [base; 2; r_ rgb; g_ rgb; b_ rgb]
  | CIndexed n => semi [base; 5; n]
  | CNamed n => if n <? 16 then semi [base; 5; n] else semi [if fg then 39 else 49]
  end.
Definition style_flags : list (Z * Z) :=
  [(F_BOLD, 1); (F_DIM, 2); (F_ITALIC, 3); (F_INVERSE, 7); (F_HIDDEN, 8); (F_STRIKEOUT, 9)].
Definition underlines : list (Z * Z) :=
  [(F_DASHED_UNDERLINE, 5); (F_DOTTED_UNDERLINE, 4); (F_UNDERCURL, 3); (F_DOUBLE_UNDERLINE, 2);
   (F_UNDERLINE, 1)].
Definition underline_color (c : Color) : bytes :=
  match c with
  | CSpec rgb => semi [58; 2; r_ rgb; g_ rgb; b_ rgb]
  | CIndexed n | CNamed n => semi [58; 5; n]
  end.
Definition style_params (c : Cell) : bytes :=
  num 0 ++ color (cl_fg c) true ++ color (cl_bg c) false ++
  concat (map (fun fn => if has c fn.1 then 59 :: num fn.2 else []) style_flags) ++
  match List.find (fun fc => has c fc.1) underlines with
  | Some (_, code) => 59 :: num 4 ++ 58 :: num code
  | None => []
  end ++
  match cl_underline c with Some u => underline_color u | None => [] end.
Definition style (c : Cell) : bytes := csi (style_params c) 109.
Definition glyph (c : Z) : bytes := if is_control c then [32] else encode_utf8 c.
Definition zero_widths (l : list Z) : bytes :=
  concat (map (fun c => if is_control c then [] else encode_utf8 c) l).
Definition cell_text (c : Cell) : bytes := glyph (cl_c c) ++ zero_widths (cl_zerowidth c).

(** ** Painting a grid *)
(** One cell: the output and the style in force. *)
Definition paint_cell (acc : bytes * bytes) (c : Cell) : bytes * bytes :=
  let '(out, last_style) := acc in
  if is_spacer c then (out, last_style) else
  let st := style c in
  let out := if bool_decide (st = last_style) then out else out ++ st in
  (out ++ cell_text c, st).
Definition paint_columns (g : Grid) (row : Z) (acc : bytes * bytes) : option (bytes * bytes) :=
  foldl (fun acc col =>
    match acc, grid_cell g row col with
    | Some acc, Some c => Some (paint_cell acc c)
    | _, _ => None
    end) (Some acc) (seqZ 0 (gr_columns g)).
Definition wraps (g : Grid) (row : Z) : option bool :=
  if gr_columns g <? 1 then None else
  match grid_cell g row (gr_columns g - 1) with
  | Some c => Some (has c F_WRAPLINE)
  | None => None
  end.
Definition PAINT_LIMIT : Z := 4 * 1024 * 1024.
Fixpoint paint_rows (g : Grid) (rows : list Z) (acc : bytes * bytes) : option bytes :=
  match rows with
  | [] => Some acc.1
  | row :: rest =>
    match paint_columns g row acc with
    | None => None
    | Some (out, st) =>
      match (if row + 1 <? gr_screen_lines g then wraps g row else Some true) with
      | None => None
      | Some w =>
        let out := if w then out else out ++ [13; 10] in
        if PAINT_LIMIT <? zlen out then Some out else paint_rows g rest (out, st)
      end
    end
  end.
Definition paint_start : bytes :=
  csi [] 72 ++ csi [50] 74 ++ csi [63; 55] 104 ++ csi [63; 54] 108 ++ csi [] 114.
Definition paint_grid (g : Grid) (out : bytes) : option bytes :=
  let start := - Z.min (history_size g) 2000 in
  paint_rows g (seqZ start (gr_screen_lines g - start)) (out ++ paint_start, []).

(** ** Cursors *)
Definition emit_ascii_charsets : bytes :=
  [ESC; 40; 66; ESC; 41; 66; ESC; 42; 66; ESC; 43; 66].
Definition emit_charsets (cs : CharsetIndex -> Charset) : bytes :=
  concat (map (fun gi => [ESC; gi.2; match cs gi.1 with CsAscii => 66 | CsLineDrawing => 48 end])
    [(G0, 40); (G1, 41); (G2, 42); (G3, 43)]).
Definition cup (row col : Z) : bytes := csi (num row ++ 59 :: num col) 72.
(** [v.clamp(lo, hi)] panics when [hi < lo]. *)
Definition clamp (lo hi v : Z) : option Z :=
  if hi <? lo then None else Some (Z.min (Z.max v lo) hi).
Definition cursor_position (g : Grid) (cu : Cursor) (origin_top : Z) : option bytes :=
  if gr_columns g <? 1 then None else
  row ← clamp 0 (gr_screen_lines g - 1) (cu_line cu);
  let col := Z.min (cu_column cu) (gr_columns g - 1) in
  let line := Z.max (row - origin_top + 1) 1 in
  previous ← (if 0 <? col then
                match grid_cell g row (col - 1) with
                | Some c => Some (if bool_decide (cl_zerowidth c = []) then None else Some c)
                | None => None
                end
              else Some None);
  match previous with
  | Some previous => Some (cup line col ++ style previous ++ cell_text previous)
  | None =>
    if cu_needs_wrap cu && (col =? gr_columns g - 1) then
      last ← grid_cell g row col;
      let col := if (0 <? col) && has last F_WIDE_CHAR_SPACER then col - 1 else col in
      cell ← grid_cell g row col;
      Some (cup line (col + 1) ++ style cell ++ cell_text cell)
    else Some (cup line (col + 1))
  end.
Definition shift (a : CharsetIndex) : Z := match a with G1 => 14 | _ => 15 end.
Definition restore_one (g : Grid) (cu : Cursor) (origin_top : Z) : option bytes :=
  position ← cursor_position g cu origin_top;
  Some (emit_ascii_charsets ++ position ++ emit_charsets (cu_charsets cu) ++
        csi [48] 109 ++ [shift (cu_active_charset cu)] ++ style (cu_template cu)).
Definition restore_cursor (g : Grid) : option bytes :=
  saved ← restore_one g (gr_saved_cursor g) 0;
  current ← restore_one g (gr_cursor g) 0;
  Some (saved ++ [ESC; 55] ++ current).

(** ** The snapshot *)
Definition private_modes : list (Z * Z) :=
  [(M_APP_CURSOR, 1); (M_SHOW_CURSOR, 25); (M_LINE_WRAP, 7); (M_MOUSE_REPORT_CLICK, 1000);
   (M_MOUSE_DRAG, 1002); (M_MOUSE_MOTION, 1003); (M_FOCUS_IN_OUT, 1004); (M_UTF8_MOUSE, 1005);
   (M_SGR_MOUSE, 1006); (M_BRACKETED_PASTE, 2004)].
Definition private_mode (t : Term) (fn : Z * Z) : bytes :=
  csi (63 :: num fn.2)
    (if (fn.1 =? M_SHOW_CURSOR) && bool_decide (tm_shape t = ShHidden) then 108
     else if in_mode t fn.1 then 104 else 108).
Definition cursor_code (s : CursorShape) (blinking : bool) : Z :=
  match s with
  | ShBlock | ShHollowBlock => if blinking then 1 else 2
  | ShUnderline => if blinking then 3 else 4
  | ShBeam => if blinking then 5 else 6
  | ShHidden => 0  (* not reached *)
  end.
Definition hex2 (n : Z) : bytes := [hex_digit (n / 16); hex_digit (n mod 16)].
Definition palette (index : Z) (c : Rgb) : bytes :=
  let rgb := [59; 114; 103; 98; 58] ++ hex2 (r_ c) ++ [47] ++ hex2 (g_ c) ++ [47] ++ hex2 (b_ c) ++ [7] in
  if index <? 256 then ESC :: 93 :: num 4 ++ 59 :: num index ++ rgb
  else ESC :: 93 :: num (index - 246) ++ rgb.
Definition snapshot_start : bytes :=
  [ESC; 99] ++ csi [63; 50; 53] 108 ++ csi [63; 55] 104 ++ csi [63; 54] 108 ++ csi [48] 109.
(** The tab stops, the region, the modes and the cursor's shape. *)
Definition snapshot_settings (t : Term) : bytes :=
  csi [51] 103 ++
  concat (map (fun col => cup 1 (col + 1) ++ [ESC; 72]) (tm_tab_stops t)) ++
  csi (num ((tm_region t).1 + 1) ++ 59 :: num (tm_region t).2) 114 ++
  concat (map (private_mode t) private_modes) ++
  (if bool_decide (tm_shape t = ShHidden) then []
   else csi (num (cursor_code (tm_shape t) (tm_blinking t)) ++ [32]) 113) ++
  [ESC; if in_mode t M_APP_KEYPAD then 61 else 62] ++
  csi [52] (if in_mode t M_INSERT then 104 else 108) ++
  csi [50; 48] (if in_mode t M_LINE_FEED_NEW_LINE then 104 else 108).
Definition snapshot_colors (t : Term) : bytes :=
  concat (map (fun i => match tm_colors t i with Some c => palette i c | None => [] end)
    (seqZ 0 259)).
Definition snapshot (t : Term) : option bytes :=
  out ← (if in_mode t M_ALT_SCREEN then
           painted ← paint_grid (tm_inactive t) snapshot_start;
           cursor ← restore_cursor (tm_inactive t);
           Some (painted ++ cursor ++ csi [63; 49; 48; 52; 57] 104)
         else Some snapshot_start);
  out ← paint_grid (tm_grid t) (out ++ emit_ascii_charsets);
  cursor ← restore_cursor (tm_grid t);
  origin ← (if in_mode t M_ORIGIN then
              one ← restore_one (tm_grid t) (gr_cursor (tm_grid t)) (tm_region t).1;
              Some (csi [63; 54] 104 ++ one)
            else Some []);
  Some (out ++ snapshot_settings t ++ cursor ++ origin ++ snapshot_colors t).

(** ** The readable projection *)
Inductive Projection : Type :=
| AlternateScreen
| TooLarge
| Screen (lines : list bytes).
Definition PROJECTION_LIMIT : Z := 256 * 1024.
(** One character that is shown: the text and the bytes counted so far. *)
Definition project_char (c : Z) (acc : bytes * Z) : option (bytes * Z) :=
  let s := if is_control c then [32] else encode_utf8 c in
  let n := acc.2 + zlen s in
  if PROJECTION_LIMIT <? n then None else Some (acc.1 ++ s, n).
Fixpoint project_zero (l : list Z) (acc : bytes * Z) : option (bytes * Z) :=
  match l with
  | [] => Some acc
  | c :: r =>
    if is_control c then project_zero r acc
    else match project_char c acc with Some acc => project_zero r acc | None => None end
  end.
Definition project_cell (c : Cell) (acc : bytes * Z) : option (bytes * Z) :=
  if is_spacer c then Some acc else
  if has c F_HIDDEN then
    let spaces := if has c F_WIDE_CHAR then 2 else 1 in
    if PROJECTION_LIMIT <? acc.2 + spaces then None
    else Some (acc.1 ++ repeat 32 (Z.to_nat spaces), acc.2 + spaces)
  else
    match project_char (cl_c c) acc with
    | None => None
    | Some acc => project_zero (cl_zerowidth c) acc
    end.
(** [s.trim_end_matches(' ')] *)
Fixpoint drop_spaces (l : bytes) : bytes := match l with 32 :: r => drop_spaces r | _ => l end.
Definition trim_end_spaces (l : bytes) : bytes := rev (drop_spaces (rev l)).
(** The outer [None]: a panic; the inner: over the limit. *)
Fixpoint project_columns (g : Grid) (row : Z) (cols : list Z) (acc : bytes * Z)
  : option (option (bytes * Z)) :=
  match cols with
  | [] => Some (Some acc)
  | col :: rest =>
    match grid_cell g row col with
    | None => None
    | Some c =>
      match project_cell c acc with
      | None => Some None
      | Some acc => project_columns g row rest acc
      end
    end
  end.
Fixpoint project_rows (g : Grid) (rows : list Z) (lines : list bytes) (n : Z)
  : option Projection :=
  match rows with
  | [] => Some (Screen lines)
  | row :: rest =>
    match project_columns g row (seqZ 0 (gr_columns g)) ([], n) with
    | None => None
    | Some None => Some TooLarge
    | Some (Some (s, n)) => project_rows g rest (lines ++ [trim_end_spaces s]) n
    end
  end.
Definition readable_projection (t : Term) : option Projection :=
  if in_mode t M_ALT_SCREEN then Some AlternateScreen else
  let g := tm_grid t in
  if (150 <? gr_screen_lines g) || (400 <? gr_columns g) then Some TooLarge
  else project_rows g (seqZ 0 (gr_screen_lines g)) [] 0.

(** ** Well-formed reports *)
Definition char_ok (c : Z) : Prop := 0 <= c <= 55295 \/ 57344 <= c <= 1114111.
Definition byte_ok (n : Z) : Prop := 0 <= n <= 255.
Definition rgb_ok (c : Rgb) : Prop := byte_ok (r_ c) /\ byte_ok (g_ c) /\ byte_ok (b_ c).
Definition color_ok (c : Color) : Prop :=
  match c with
  | CSpec rgb => rgb_ok rgb
  | CIndexed n => byte_ok n
  | CNamed n => 0 <= n <= 65535
  end.
Definition cell_ok (c : Cell) : Prop :=
  char_ok (cl_c c) /\ color_ok (cl_fg c) /\ color_ok (cl_bg c) /\
  Forall char_ok (cl_zerowidth c) /\ from_option color_ok True (cl_underline c).
Definition cursor_ok (cu : Cursor) : Prop := 0 <= cu_column cu /\ cell_ok (cu_template cu).
Definition grid_ok (g : Grid) : Prop :=
  1 <= gr_screen_lines g <= zlen (gr_rows g) /\ 2 <= gr_columns g /\ gr_columns g <= 65535 /\
  gr_screen_lines g <= 65535 /\
  Forall (fun r => zlen r = gr_columns g /\ Forall cell_ok r) (gr_rows g) /\
  cursor_ok (gr_cursor g) /\ cursor_ok (gr_saved_cursor g).
Definition term_ok (t : Term) : Prop :=
  grid_ok (tm_grid t) /\ grid_ok (tm_inactive t) /\
  Forall (fun c => 0 <= c <= 65535) (tm_tab_stops t) /\
  0 <= (tm_region t).1 <= 65535 /\ 0 <= (tm_region t).2 <= 65535 /\
  forall i c, tm_colors t i = Some c -> rgb_ok c.

(** ** Numbers *)
Definition digit (b : Z) : Prop := 48 <= b <= 57.
Lemma str_bytes_cons a s : str_bytes (String a s) = Z.of_N (Ascii.N_of_ascii a) :: str_bytes s.
Proof. done. Qed.
Lemma pretty_digit x : (x < 10)%N -> digit (Z.of_N (Ascii.N_of_ascii (pretty_N_char x))).
Proof.
  intros Hx. assert (x = 0 \/ x = 1 \/ x = 2 \/ x = 3 \/ x = 4 \/ x = 5 \/ x = 6 \/ x = 7 \/ x = 8 \/ x = 9)%N
    as Hc by lia. unfold digit. repeat destruct Hc as [->|Hc]; try (vm_compute; split; discriminate).
  subst. vm_compute. split; discriminate.
Qed.
Lemma pretty_go_digits k x s :
  (x < 10 ^ N.of_nat k)%N -> Forall digit (str_bytes s) ->
  Forall digit (str_bytes (pretty_N_go x s)) /\
  zlen (str_bytes (pretty_N_go x s)) <= Z.of_nat k + zlen (str_bytes s).
Proof.
  revert x s. induction k as [|k IH]; intros x s Hx Hs.
  - assert (x = 0%N) as -> by (cbn in Hx; lia). rewrite pretty_N_go_0. split; [done|lia].
  - destruct (decide (0 < x)%N) as [Hpos|]; cycle 1.
    { assert (x = 0%N) as -> by lia. rewrite pretty_N_go_0. split; [done|lia]. }
    rewrite pretty_N_go_step by done.
    destruct (IH (x / 10)%N (String (pretty_N_char (x mod 10)) s)) as [H1 H2].
    + apply N.Div0.div_lt_upper_bound. rewrite Nat2N.inj_succ, N.pow_succ_r' in Hx. exact Hx.
    + rewrite str_bytes_cons. constructor; [|done]. apply pretty_digit. by apply N.mod_lt.
    + split; [done|]. rewrite str_bytes_cons, zlen_cons in H2. lia.
Qed.
Lemma num_digits n : 0 <= n < 10 ^ 6 -> Forall digit (num n) /\ 0 <= zlen (num n) <= 6.
Proof.
  intros Hn. unfold num, dec, pretty, pretty_N. case_decide.
  - change (str_bytes "0") with [48]. split; [|by vm_compute]. apply Forall_singleton. by unfold digit.
  - destruct (pretty_go_digits 6 (Z.to_N n) "") as [H1 H2]; [cbn; lia|constructor|].
    split; [done|]. split; [apply zlen_nonneg|exact H2].
Qed.

(** ** Everything a snapshot writes passes the output fence *)
(** [out] goes through the fence unchanged and leaves it where it was. *)
Definition clean (out : bytes) : Prop :=
  forall n, fence_bytes (fence_idle n) out = (fence_idle n, out).
Lemma clean_nil : clean [].
Proof. done. Qed.
Lemma clean_app a b : clean a -> clean b -> clean (a ++ b).
Proof. intros Ha Hb n. by rewrite fence_bytes_app, Ha, Hb. Qed.
Lemma clean_concat l : Forall clean l -> clean (concat l).
Proof. induction 1; [apply clean_nil|by apply clean_app]. Qed.
Lemma clean_csi params final :
  Forall (fun b => 32 <= b <= 63) params -> 64 <= final <= 126 -> zlen params <= 1000 ->
  clean (csi params final).
Proof. intros Hp Hf Hl n. apply fence_bytes_plain, (plain_csi params final); [done|done|lia]. Qed.
Lemma encode_utf8_scalar c : char_ok c -> utf8_scalar (encode_utf8 c) = true.
Proof.
  unfold char_ok, encode_utf8. intros Hc.
  destruct (Z.ltb_spec c 128); [cbn; unfold in_range; lia|].
  destruct (Z.ltb_spec c 2048); [|destruct (Z.ltb_spec c 65536)];
    unfold utf8_scalar, second3, second4, is_cont, in_range.
  - Z.to_euclidean_division_equations. lia.
  - assert (0 <= c / 64 mod 64 < 64 /\ 0 <= c mod 64 < 64 /\ c = 4096 * (c / 4096) + 64 * (c / 64 mod 64) + c mod 64)
      as (Q1 & Q2 & Q3) by (Z.to_euclidean_division_equations; lia).
    generalize dependent (c / 64 mod 64). generalize dependent (c mod 64). intros m Hm d Hd He.
    generalize dependent (c / 4096). intros q He.
    destruct (Z.eqb_spec (224 + q) 224); [lia|]. destruct (Z.eqb_spec (224 + q) 237); lia.
  - assert (0 <= c / 4096 mod 64 < 64 /\ 0 <= c / 64 mod 64 < 64 /\ 0 <= c mod 64 < 64 /\
      c = 262144 * (c / 262144) + 4096 * (c / 4096 mod 64) + 64 * (c / 64 mod 64) + c mod 64)
      as (Q1 & Q2 & Q3 & Q4) by (Z.to_euclidean_division_equations; lia).
    generalize dependent (c / 4096 mod 64). generalize dependent (c / 64 mod 64).
    generalize dependent (c mod 64). intros m Hm d Hd k Hk He.
    generalize dependent (c / 262144). intros q He.
    destruct (Z.eqb_spec (240 + q) 240); [lia|]. destruct (Z.eqb_spec (240 + q) 244); lia.
Qed.
Lemma clean_char c : char_ok c -> is_control c = false -> clean (encode_utf8 c).
Proof.
  intros Hc Hne n. apply fence_bytes_plain, plain_char; [by apply encode_utf8_scalar|].
  intros He. assert (c = 27) as ->; [|done]. unfold encode_utf8 in He.
  repeat case_match; by simplify_eq.
Qed.
Lemma clean_glyph c : char_ok c -> clean (glyph c).
Proof. intros Hc. unfold glyph. destruct (is_control c) eqn:E; [done|by apply clean_char]. Qed.
Lemma clean_zero_widths l : Forall char_ok l -> clean (zero_widths l).
Proof.
  intros Hl. apply clean_concat, Forall_map. eapply Forall_impl; [exact Hl|].
  intros c Hc. cbn. destruct (is_control c) eqn:E; [apply clean_nil|by apply clean_char].
Qed.
Lemma clean_cell_text c : cell_ok c -> clean (cell_text c).
Proof. intros (Hc & _ & _ & Hz & _). apply clean_app; [by apply clean_glyph|by apply clean_zero_widths]. Qed.

(** Parameters of a sequence, with a bound on their length. *)
Definition params (k : Z) (p : bytes) : Prop := Forall (fun b => 32 <= b <= 63) p /\ zlen p <= k.
Lemma params_app j k p q : params j p -> params k q -> params (j + k) (p ++ q).
Proof. intros [? ?] [? ?]. split; [by apply Forall_app|]. rewrite zlen_app. lia. Qed.
Lemma params_cons k b p : 32 <= b <= 63 -> params k p -> params (1 + k) (b :: p).
Proof. intros ? [? ?]. split; [by constructor|]. rewrite zlen_cons. lia. Qed.
Lemma params_num n : 0 <= n < 10 ^ 6 -> params 6 (num n).
Proof.
  intros [Hd Hl]%num_digits. split; [|lia]. eapply Forall_impl; [exact Hd|]. unfold digit. lia.
Qed.
Lemma params_mono j k p : j <= k -> params j p -> params k p.
Proof. intros ? [? ?]. split; [done|lia]. Qed.
Lemma params_nil k : 0 <= k -> params k [].
Proof. intros. split; [constructor|by rewrite zlen_nil]. Qed.
Lemma params_semi l : Forall (fun n => 0 <= n < 10 ^ 6) l -> params (7 * zlen l) (semi l).
Proof.
  induction 1 as [|n l Hn Hl IH]; [by apply params_nil|]. unfold semi. cbn [map concat].
  rewrite zlen_cons. eapply params_mono; [|apply params_app; [apply params_cons; [lia|by apply params_num]|exact IH]]. lia.
Qed.
Lemma clean_csi_params k p final :
  params k p -> k <= 1000 -> 64 <= final <= 126 -> clean (csi p final).
Proof. intros [Hp Hl] Hk Hf. apply clean_csi; [done|done|lia]. Qed.

Lemma params_color c fg : color_ok c -> params 35 (color c fg).
Proof.
  unfold color_ok, rgb_ok, byte_ok. intros Hc.
  assert (0 <= (if fg then 38 else 48) < 10 ^ 6) as Hb by (destruct fg; lia).
  assert (0 <= (if fg then 39 else 49) < 10 ^ 6) as Hd by (destruct fg; lia).
  destruct c as [rgb|n|n]; cbn [color]; [| |destruct (n <? 16)];
    (eapply params_mono; [|apply params_semi; repeat (constructor; try lia)]);
    rewrite ?zlen_cons, ?zlen_nil; lia.
Qed.
Lemma params_underline c : color_ok c -> params 35 (underline_color c).
Proof.
  unfold color_ok, rgb_ok, byte_ok. intros Hc.
  destruct c as [rgb|n|n]; cbn [underline_color];
    (eapply params_mono; [|apply params_semi; repeat (constructor; try lia)]);
    rewrite ?zlen_cons, ?zlen_nil; lia.
Qed.
Lemma params_flags c l :
  Forall (fun fn => 0 <= fn.2 < 10 ^ 6) l ->
  params (7 * zlen l) (concat (map (fun fn : Z * Z => if has c fn.1 then 59 :: num fn.2 else []) l)).
Proof.
  induction 1 as [|fn l Hn Hl IH]; [by apply params_nil|]. cbn [map concat]. rewrite zlen_cons.
  pose proof (zlen_nonneg l). destruct (has c fn.1).
  - eapply params_mono; [|apply params_app; [apply params_cons; [lia|by apply params_num]|exact IH]]. lia.
  - eapply params_mono; [|exact IH]. lia.
Qed.
Lemma params_style c : cell_ok c -> params 300 (style_params c).
Proof.
  intros (_ & Hf & Hb & _ & Hu). unfold style_params.
  assert (params 14 match List.find (fun fc => has c fc.1) underlines with
    | Some (_, code) => 59 :: num 4 ++ 58 :: num code | None => [] end) as Hul.
  { destruct (List.find _ _) as [[f code]|] eqn:E; [|by apply params_nil].
    apply find_some in E as [Hin _].
    eapply params_mono; [|apply params_cons; [lia|apply params_app; [apply params_num; lia|
      apply params_cons; [lia|apply params_num]]]]; [lia|].
    cbn in Hin. repeat destruct Hin as [[= _ <-]|Hin]; cbn; try lia. }
  assert (params 35 match cl_underline c with Some u => underline_color u | None => [] end) as Huc.
  { destruct (cl_underline c); [by apply params_underline|by apply params_nil]. }
  eapply params_mono; [|apply params_app; [by apply params_num|apply params_app; [by apply params_color|
    apply params_app; [by apply params_color|apply params_app; [apply params_flags|
      apply params_app; [exact Hul|exact Huc]]]]]].
  - vm_compute. discriminate.
  - repeat constructor; cbn; lia.
Qed.
Lemma clean_style c : cell_ok c -> clean (style c).
Proof. intros Hc. eapply clean_csi_params; [by apply params_style| |]; lia. Qed.

(** *** Grids *)
Lemma grid_cell_ok g row col :
  grid_ok g -> - history_size g <= row < gr_screen_lines g -> 0 <= col < gr_columns g ->
  exists c, grid_cell g row col = Some c /\ cell_ok c.
Proof.
  intros (Hs & _ & _ & _ & Hr & _) Hrow Hcol. unfold grid_cell, history_size in *.
  rewrite Z.max_r in * by lia. destruct (Z.ltb_spec (row + (zlen (gr_rows g) - gr_screen_lines g)) 0); [lia|].
  destruct (Z.ltb_spec col 0); [lia|]. cbn [orb].
  destruct (gr_rows g !! _) as [r|] eqn:Er; cycle 1.
  { apply lookup_ge_None in Er. unfold zlen in *. lia. }
  destruct (Forall_lookup_1 _ _ _ _ Hr Er) as [Hl Hc].
  destruct (r !! Z.to_nat col) as [c|] eqn:Ec; cycle 1.
  { apply lookup_ge_None in Ec. unfold zlen in *. lia. }
  exists c. split; [done|]. by eapply Forall_lookup_1.
Qed.
Lemma paint_cell_clean out st c :
  clean out -> cell_ok c -> clean (paint_cell (out, st) c).1.
Proof.
  intros Ho Hc. unfold paint_cell. destruct (is_spacer c); [done|]. cbn [fst].
  apply clean_app; [|by apply clean_cell_text].
  destruct (bool_decide _); [done|]. apply clean_app; [done|by apply clean_style].
Qed.
Lemma paint_columns_clean g row out st :
  grid_ok g -> - history_size g <= row < gr_screen_lines g -> clean out ->
  exists acc, paint_columns g row (out, st) = Some acc /\ clean acc.1.
Proof.
  intros Hg Hrow Ho. unfold paint_columns.
  assert (forall cols acc, Forall (fun c => 0 <= c < gr_columns g) cols -> clean acc.1 ->
    exists acc', foldl (fun acc col => match acc, grid_cell g row col with
      | Some acc, Some c => Some (paint_cell acc c) | _, _ => None end) (Some acc) cols = Some acc' /\
    clean acc'.1) as Hfold.
  { induction cols as [|col cols IH]; intros acc Hf Ha; [by exists acc|].
    apply Forall_cons_iff in Hf as [Hcol Hf].
    destruct (grid_cell_ok g row col Hg Hrow Hcol) as (c & Hc & Hok). cbn [foldl]. rewrite Hc.
    apply IH; [done|]. destruct acc. by apply paint_cell_clean. }
  apply Hfold; [|done]. apply Forall_forall. intros c Hc. apply elem_of_seqZ in Hc. lia.
Qed.
Lemma paint_rows_clean g rows out st :
  grid_ok g -> Forall (fun r => - history_size g <= r < gr_screen_lines g) rows -> clean out ->
  exists out', paint_rows g rows (out, st) = Some out' /\ clean out'.
Proof.
  intros Hg. revert out st. induction rows as [|row rows IH]; intros out st Hr Ho; cbn [paint_rows].
  { by exists out. }
  apply Forall_cons_iff in Hr as [Hrow Hr].
  destruct (paint_columns_clean g row out st Hg Hrow Ho) as ([out1 st1] & -> & Ho1).
  assert (exists w, (if row + 1 <? gr_screen_lines g then wraps g row else Some true) = Some w) as (w & ->).
  { destruct (_ <? _); [|by eexists]. unfold wraps. destruct Hg as (H1 & H2 & H3).
    destruct (Z.ltb_spec (gr_columns g) 1); [lia|].
    destruct (grid_cell_ok g row (gr_columns g - 1)) as (c & -> & _); [done|done|lia|by eexists]. }
  set (out2 := if w then out1 else out1 ++ [13; 10]).
  assert (clean out2) as Ho2 by (destruct w; [done|by apply clean_app]).
  destruct (PAINT_LIMIT <? zlen out2); [by exists out2|by apply IH].
Qed.
Lemma paint_grid_clean g out :
  grid_ok g -> clean out -> exists out', paint_grid g out = Some out' /\ clean out'.
Proof.
  intros Hg Ho. unfold paint_grid. apply paint_rows_clean; [done| |].
  - apply Forall_forall. intros r Hr. apply elem_of_seqZ in Hr. unfold history_size in *.
    destruct Hg as (H1 & _). lia.
  - apply clean_app; [done|]. unfold paint_start. repeat apply clean_app; done.
Qed.
Lemma clean_cup row col : 0 <= row < 10 ^ 6 -> 0 <= col < 10 ^ 6 -> clean (cup row col).
Proof.
  intros Hr Hc. eapply clean_csi_params;
    [apply params_app; [by apply params_num|apply params_cons; [lia|by apply params_num]]| |]; lia.
Qed.
Lemma cursor_position_clean g cu top :
  grid_ok g -> cursor_ok cu -> 0 <= top <= 65535 ->
  exists out, cursor_position g cu top = Some out /\ clean out.
Proof.
  intros Hg [Hcu _] Htop. unfold cursor_position. pose proof Hg as (H1 & H2 & H3 & H4 & _).
  destruct (Z.ltb_spec (gr_columns g) 1); [lia|]. unfold clamp.
  destruct (Z.ltb_spec (gr_screen_lines g - 1) 0); [lia|]. cbn [mbind option_bind].
  set (row := Z.min (Z.max (cu_line cu) 0) (gr_screen_lines g - 1)).
  set (col := Z.min (cu_column cu) (gr_columns g - 1)).
  set (line := Z.max (row - top + 1) 1).
  assert (- history_size g <= row < gr_screen_lines g) as Hrow by (unfold history_size; lia).
  assert (0 <= line < 10 ^ 6) as Hline by lia.
  assert (forall c, 0 <= c < gr_columns g -> clean (cup line (c + 1))) as Hcup
    by (intros; apply clean_cup; lia).
  assert (exists o, (if 0 <? col then
      match grid_cell g row (col - 1) with
      | Some c => Some (if bool_decide (cl_zerowidth c = []) then None else Some c)
      | None => None end else Some None) = Some o /\ from_option cell_ok True o) as (o & -> & Hok).
  { destruct (Z.ltb_spec 0 col); [|by eexists].
    destruct (grid_cell_ok g row (col - 1)) as (c & -> & Hc); [done|done|lia|].
    eexists. split; [done|]. by destruct (bool_decide _). }
  destruct o as [previous|]; cbn [from_option mbind option_bind] in Hok |- *.
  { eexists. split; [done|]. apply clean_app; [apply clean_cup; lia|].
    apply clean_app; [by apply clean_style|by apply clean_cell_text]. }
  destruct (cu_needs_wrap cu && (col =? gr_columns g - 1)); [|eexists; split; [done|]; apply Hcup; lia].
  destruct (grid_cell_ok g row col) as (last & -> & Hlast); [done|done|lia|].
  cbn [mbind option_bind].
  set (col' := if (0 <? col) && has last F_WIDE_CHAR_SPACER then col - 1 else col).
  assert (0 <= col' < gr_columns g) as Hcol'.
  { subst col'. destruct ((0 <? col) && _) eqn:E; [|lia]. bools. lia. }
  destruct (grid_cell_ok g row col') as (c & -> & Hc); [done|done|done|].
  cbn [mbind option_bind]. eexists. split; [done|]. apply clean_app; [by apply Hcup|].
  apply clean_app; [by apply clean_style|by apply clean_cell_text].
Qed.
Lemma emit_charsets_clean cs : clean (emit_charsets cs).
Proof.
  unfold emit_charsets. apply clean_concat. cbn [map fst snd].
  repeat (constructor; [by destruct (cs _)|]). constructor.
Qed.
Lemma restore_one_clean g cu top :
  grid_ok g -> cursor_ok cu -> 0 <= top <= 65535 ->
  exists out, restore_one g cu top = Some out /\ clean out.
Proof.
  intros Hg Hcu Ht. unfold restore_one.
  destruct (cursor_position_clean g cu top Hg Hcu Ht) as (p & -> & Hp). cbn [mbind option_bind].
  eexists. split; [done|]. apply clean_app; [done|]. apply clean_app; [done|].
  apply clean_app; [apply emit_charsets_clean|]. apply clean_app; [done|].
  apply clean_app; [by destruct (cu_active_charset cu)|]. apply clean_style. by destruct Hcu.
Qed.
Lemma restore_cursor_clean g :
  grid_ok g -> exists out, restore_cursor g = Some out /\ clean out.
Proof.
  intros Hg. unfold restore_cursor. pose proof Hg as (_ & _ & _ & _ & _ & Hc & Hs).
  destruct (restore_one_clean g (gr_saved_cursor g) 0) as (a & -> & Ha); [done|done|lia|].
  destruct (restore_one_clean g (gr_cursor g) 0) as (b & -> & Hb); [done|done|lia|].
  cbn [mbind option_bind]. eexists. split; [done|]. apply clean_app; [done|].
  by apply clean_app.
Qed.

(** *** The settings and the colours *)
Lemma clean_osc body :
  Forall (fun b => 32 <= b <= 126) body -> zlen body <= 1000 ->
  starts_with (ESC :: 93 :: body ++ [7]) osc52 = false ->
  starts_with (ESC :: 93 :: body ++ [7]) osc8 = false ->
  clean (ESC :: 93 :: body ++ [7]).
Proof.
  intros Hb Hl H52 H8 n. unfold fence_bytes, fence_push_bytes.
  change (ESC :: 93 :: body ++ [7]) with ([27; 93] ++ body ++ [7]) in *. rewrite !foldl_app.
  replace (foldl fence_step (fence_idle n, [], []) [27; 93])
    with ((fence_osc n [27; 93], [], []) : fence_acc) by reflexivity.
  rewrite fence_osc_body by (first [done|unfold zlen at 1; cbn [length]; lia]).
  cbn [foldl fence_step fence_osc vf_state]. unfold fence_push. cbn [vf_pending fence_osc].
  assert (zlen ([27; 93] ++ body) <= 1002) by (rewrite zlen_app; unfold zlen at 1; cbn [length]; lia).
  decide_tests. unfold fence_complete_acc, fence_complete. cbn [vf_pending vf_discard vf_omitted vf_utf8].
  rewrite <- app_assoc, H52, H8. cbn. by rewrite app_nil_r.
Qed.
Lemma hex2_chars n : byte_ok n -> Forall (fun b => 32 <= b <= 126) (hex2 n).
Proof.
  unfold byte_ok. intros Hn. unfold hex2, hex_digit.
  repeat constructor; case_match; bools; Z.to_euclidean_division_equations; lia.
Qed.
Lemma palette_clean i c : 0 <= i < 259 -> rgb_ok c -> clean (palette i c).
Proof.
  intros Hi (Hr & Hg & Hb). unfold palette.
  set (rgb := [59; 114; 103; 98; 58] ++ hex2 (r_ c) ++ [47] ++ hex2 (g_ c) ++ [47] ++ hex2 (b_ c)).
  assert (Forall (fun b => 32 <= b <= 126) rgb /\ zlen rgb = 13) as [Hrgb Hlen].
  { split; [|done]. unfold rgb. rewrite !Forall_app.
    repeat split; try (by apply hex2_chars); repeat constructor; lia. }
  assert (forall n, 0 <= n < 10 ^ 6 -> Forall (fun b => 32 <= b <= 126) (num n) /\ zlen (num n) <= 6) as Hnum.
  { intros n Hn. destruct (num_digits n Hn) as [H1 H2]. split; [|lia].
    eapply Forall_impl; [exact H1|]. unfold digit. lia. }
  replace ([59; 114; 103; 98; 58] ++ hex2 (r_ c) ++ [47] ++ hex2 (g_ c) ++ [47] ++ hex2 (b_ c) ++ [7])
    with (rgb ++ [7]) by (unfold rgb; by rewrite <- !app_assoc).
  destruct (Z.ltb_spec i 256).
  - destruct (Hnum i ltac:(lia)) as [H1 H2].
    replace (ESC :: 93 :: num 4 ++ 59 :: num i ++ rgb ++ [7])
      with (ESC :: 93 :: ([52; 59] ++ num i ++ rgb) ++ [7]) by (by rewrite <- !app_assoc).
    apply clean_osc; [| |done|done].
    + rewrite !Forall_app. repeat split; [repeat constructor; lia|done|done].
    + rewrite !zlen_app. unfold zlen at 1. cbn [length]. lia.
  - assert (i - 246 = 10 \/ i - 246 = 11 \/ i - 246 = 12) as Hk by lia.
    replace (ESC :: 93 :: num (i - 246) ++ rgb ++ [7])
      with (ESC :: 93 :: (num (i - 246) ++ rgb) ++ [7]) by (by rewrite <- !app_assoc).
    destruct (Hnum (i - 246) ltac:(lia)) as [H1 H2].
    apply clean_osc; [by apply Forall_app|rewrite zlen_app; lia| |];
      repeat destruct Hk as [->|Hk]; try done; by rewrite Hk.
Qed.
Lemma snapshot_colors_clean t :
  (forall i c, tm_colors t i = Some c -> rgb_ok c) -> clean (snapshot_colors t).
Proof.
  intros Hc. apply clean_concat, Forall_map, Forall_forall. intros i Hi%elem_of_seqZ. cbn.
  destruct (tm_colors t i) as [c|] eqn:E; [|apply clean_nil].
  apply palette_clean; [lia|by eapply Hc].
Qed.
Lemma private_mode_clean t fn : 0 <= fn.2 < 10 ^ 6 -> clean (private_mode t fn).
Proof.
  intros Hn. unfold private_mode. eapply clean_csi_params; [apply params_cons; [lia|by apply params_num]|lia|].
  repeat case_match; lia.
Qed.
Lemma private_modes_clean t : clean (concat (map (private_mode t) private_modes)).
Proof.
  apply clean_concat, Forall_map.
  repeat (constructor; [apply private_mode_clean; cbn; lia|]). constructor.
Qed.
Lemma snapshot_settings_clean t : term_ok t -> clean (snapshot_settings t).
Proof.
  intros (_ & _ & Ht & H1 & H2 & _). unfold snapshot_settings.
  apply clean_app; [done|]. apply clean_app.
  { apply clean_concat, Forall_map. eapply Forall_impl; [exact Ht|]. intros c Hc. cbn in Hc |- *.
    apply (clean_app (cup 1 (c + 1)) [ESC; 72]); [apply clean_cup; lia|done]. }
  apply clean_app.
  { eapply clean_csi_params; [apply params_app; [apply params_num|apply params_cons; [|apply params_num]]| |]; lia. }
  apply clean_app; [apply private_modes_clean|]. apply clean_app.
  { case_bool_decide; [apply clean_nil|].
    eapply clean_csi_params; [apply params_app; [apply params_num|apply params_cons; [|by apply (params_nil 0)]]| |]; try lia.
    unfold cursor_code. repeat case_match; lia. }
  apply clean_app; [by destruct (in_mode t M_APP_KEYPAD)|].
  apply clean_app; [by destruct (in_mode t M_INSERT)|by destruct (in_mode t M_LINE_FEED_NEW_LINE)].
Qed.
Lemma alternate_clean t :
  grid_ok (tm_inactive t) ->
  exists out, (if in_mode t M_ALT_SCREEN then
      painted ← paint_grid (tm_inactive t) snapshot_start;
      cursor ← restore_cursor (tm_inactive t);
      Some (painted ++ cursor ++ csi [63; 49; 48; 52; 57] 104)
    else Some snapshot_start) = Some out /\ clean out.
Proof.
  intros Hg. destruct (in_mode t M_ALT_SCREEN); [|by eexists].
  destruct (paint_grid_clean (tm_inactive t) snapshot_start) as (p & -> & Hp); [done|done|].
  destruct (restore_cursor_clean (tm_inactive t) Hg) as (c & -> & Hc). cbn [mbind option_bind].
  eexists. split; [done|]. apply clean_app; [done|]. by apply clean_app.
Qed.
Lemma origin_clean t :
  term_ok t ->
  exists out, (if in_mode t M_ORIGIN then
      one ← restore_one (tm_grid t) (gr_cursor (tm_grid t)) (tm_region t).1;
      Some (csi [63; 54] 104 ++ one)
    else Some []) = Some out /\ clean out.
Proof.
  intros (Hg & _ & _ & Ht & _). destruct (in_mode t M_ORIGIN); [|by eexists].
  destruct (restore_one_clean (tm_grid t) (gr_cursor (tm_grid t)) (tm_region t).1) as (o & -> & Ho);
    [done|by destruct Hg as (_ & _ & _ & _ & _ & ? & _)|done|].
  cbn [mbind option_bind]. eexists. split; [done|]. by apply clean_app.
Qed.
Lemma snapshot_clean t : term_ok t -> exists out, snapshot t = Some out /\ clean out.
Proof.
  intros Hok. pose proof Hok as (Hg & Hi & _ & _ & _ & Hc). unfold snapshot.
  destruct (alternate_clean t Hi) as (a & -> & Ha). cbn [mbind option_bind].
  destruct (paint_grid_clean (tm_grid t) (a ++ emit_ascii_charsets)) as (p & -> & Hp);
    [done|by apply clean_app|].
  destruct (restore_cursor_clean (tm_grid t) Hg) as (r & -> & Hr). cbn [mbind option_bind].
  destruct (origin_clean t Hok) as (o & -> & Ho). cbn [mbind option_bind].
  eexists. split; [done|]. apply clean_app; [done|].
  apply clean_app; [by apply snapshot_settings_clean|]. apply clean_app; [done|].
  apply clean_app; [done|by apply snapshot_colors_clean].
Qed.

(** What [clean] means for a reader: however the bytes are cut into reads, the
    fence passes them on unchanged and ends where it started. *)
Lemma clean_passes out reads :
  clean out -> concat reads = out ->
  let '(f, tokens) := fence_feed fence_default reads in f = fence_default /\ concat tokens = out.
Proof.
  intros Hc Hr. pose proof (fence_chunking_aux fence_default reads) as He.
  rewrite Hr in He. specialize (Hc 0). change (fence_idle 0) with fence_default in Hc.
  rewrite Hc in He. destruct (fence_feed _ _) as [f tokens]. by simplify_eq.
Qed.

(** The repaint a client starts from is always produced (no index is out of
    range, no clamp has an empty range) and stands up to the agent's own output
    fence: however the bytes are cut into reads, the fence passes them on
    unchanged, omits nothing and ends where it started.  So whatever characters,
    zero-width marks and attributes the program left on the screen, the
    repaint holds no OSC 52, no OSC 8, no control string and no unfinished
    sequence. *)
Theorem snapshot_passes_fence t :
  term_ok t ->
  exists out, snapshot t = Some out /\
  forall reads, concat reads = out ->
  let '(f, tokens) := fence_feed fence_default reads in
  f = fence_default /\ concat tokens = out.
Proof.
  intros Ht. destruct (snapshot_clean t Ht) as (out & Hs & Hc). exists out. split; [done|].
  intros reads Hr. by apply clean_passes.
Qed.
Definition sample_cell (c : Z) : Cell :=
  {| cl_c := c; cl_fg := CNamed 256; cl_bg := CIndexed 4; cl_flags := 9; cl_zerowidth := [769];
     cl_underline := Some (CSpec {| r_ := 1; g_ := 2; b_ := 255 |}) |}.
Definition sample_cursor : Cursor :=
  {| cu_line := 0; cu_column := 1; cu_template := sample_cell 32; cu_charsets := fun _ => CsAscii;
     cu_active_charset := G1; cu_needs_wrap := true |}.
Definition sample_grid : Grid :=
  {| gr_rows := [[sample_cell 27; sample_cell 44032]; [sample_cell 65; sample_cell 128512]];
     gr_screen_lines := 1; gr_columns := 2; gr_cursor := sample_cursor;
     gr_saved_cursor := sample_cursor |}.
Definition sample_term : Term :=
  {| tm_mode := 2 ^ M_ORIGIN; tm_grid := sample_grid; tm_inactive := sample_grid;
     tm_tab_stops := [0]; tm_region := (0, 1); tm_shape := ShBeam; tm_blinking := true;
     tm_colors := fun i => if i =? 257 then Some {| r_ := 9; g_ := 10; b_ := 200 |} else None |}.
Lemma sample_term_ok : term_ok sample_term.
Proof.
  assert (forall c, char_ok c -> cell_ok (sample_cell c)) as Hc.
  { intros c Hc. repeat split; cbn; try done; try lia. repeat constructor; unfold char_ok; lia. }
  assert (cursor_ok sample_cursor) as Hcu by (split; [cbn; lia|apply Hc; left; lia]).
  assert (grid_ok sample_grid) as Hg.
  { unfold grid_ok. split; [vm_compute; split; discriminate|].
    do 3 (split; [vm_compute; discriminate|]). split; [|done]. cbn [gr_rows sample_grid gr_columns].
    repeat (constructor; [split; [done|]; repeat (constructor; [apply Hc; unfold char_ok; lia|]); constructor|]).
    constructor. }
  split; [exact Hg|]. split; [exact Hg|]. split; [repeat constructor; lia|].
  split; [cbn; lia|]. split; [cbn; lia|]. intros i c Hi. cbn [tm_colors sample_term] in Hi.
  destruct (i =? 257); [|done]. injection Hi as <-. unfold rgb_ok, byte_ok. cbn. lia.
Qed.
Lemma snapshot_passes_fence_witness :
  exists out, snapshot sample_term = Some out /\
  forall reads, concat reads = out ->
  let '(f, tokens) := fence_feed fence_default reads in
  f = fence_default /\ concat tokens = out.
Proof. apply (snapshot_passes_fence sample_term). apply sample_term_ok. Defined.

(** ** What the projection shows *)
(** A cell's text on the readable screen: hidden text is blanked out. *)
Definition shown (c : Cell) : list Z :=
  if is_spacer c then [] else
  if has c F_HIDDEN then repeat 32 (if has c F_WIDE_CHAR then 2 else 1)%nat
  else (if is_control (cl_c c) then 32 else cl_c c) ::
       List.filter (fun c => negb (is_control c)) (cl_zerowidth c).
Definition utf8 (l : list Z) : bytes := concat (map encode_utf8 l).
Definition shown_row (r : list Cell) : bytes := utf8 (concat (map shown r)).
Definition visible_rows (g : Grid) : list (list Cell) :=
  drop (Z.to_nat (history_size g)) (gr_rows g).
Definition projection_spec (t : Term) : Projection :=
  if in_mode t M_ALT_SCREEN then AlternateScreen else
  let g := tm_grid t in
  let rows := map shown_row (visible_rows g) in
  if (150 <? gr_screen_lines g) || (400 <? gr_columns g) || (PROJECTION_LIMIT <? zlen (concat rows))
  then TooLarge
  else Screen (map trim_end_spaces rows).
(** The rest of a run of the projection from a count within the limit. *)
Definition within (text : bytes) (acc : bytes * Z) : option (bytes * Z) :=
  if PROJECTION_LIMIT <? acc.2 + zlen text then None else Some (acc.1 ++ text, acc.2 + zlen text).
Definition counted (acc : bytes * Z) : Prop := 0 <= acc.2 <= PROJECTION_LIMIT.
Lemma within_nil acc : counted acc -> within [] acc = Some acc.
Proof.
  unfold counted, within. intros Hc. rewrite zlen_nil, Z.add_0_r. decide_tests. rewrite app_nil_r.
  by destruct acc.
Qed.
Lemma within_app a b acc :
  counted acc ->
  within (a ++ b) acc = match within a acc with Some acc' => within b acc' | None => None end.
Proof.
  unfold counted, within. intros Hc. rewrite zlen_app. pose proof (zlen_nonneg a).
  pose proof (zlen_nonneg b). destruct (Z.ltb_spec PROJECTION_LIMIT (acc.2 + zlen a)).
  - decide_tests. done.
  - cbn [fst snd]. rewrite <- Z.add_assoc, app_assoc. done.
Qed.
Lemma within_counted a acc acc' : counted acc -> within a acc = Some acc' -> counted acc'.
Proof.
  unfold counted, within. intros Hc He. pose proof (zlen_nonneg a).
  destruct (Z.ltb_spec PROJECTION_LIMIT (acc.2 + zlen a)); [done|]. simplify_eq. cbn. lia.
Qed.
Lemma project_char_within c acc :
  project_char c acc = within (encode_utf8 (if is_control c then 32 else c)) acc.
Proof. unfold project_char, within. by destruct (is_control c). Qed.
Lemma utf8_cons c l : utf8 (c :: l) = encode_utf8 c ++ utf8 l.
Proof. done. Qed.
Lemma utf8_app a b : utf8 (a ++ b) = utf8 a ++ utf8 b.
Proof. unfold utf8. by rewrite map_app, concat_app. Qed.
Lemma project_zero_within l acc :
  counted acc ->
  project_zero l acc = within (utf8 (List.filter (fun c => negb (is_control c)) l)) acc.
Proof.
  revert acc. induction l as [|c l IH]; intros acc Hc; cbn [project_zero List.filter].
  { by rewrite within_nil. }
  destruct (is_control c) eqn:E; cbn [negb]; [by apply IH|].
  rewrite utf8_cons, within_app, project_char_within, E by done.
  destruct (within (encode_utf8 c) acc) eqn:Ew; [|done]. apply IH. by eapply within_counted.
Qed.
Lemma project_cell_within c acc : counted acc -> project_cell c acc = within (utf8 (shown c)) acc.
Proof.
  intros Hc. unfold project_cell, shown. destruct (is_spacer c); [by rewrite within_nil|].
  destruct (has c F_HIDDEN); [by destruct (has c F_WIDE_CHAR)|].
  rewrite utf8_cons, within_app, project_char_within by done.
  destruct (within (encode_utf8 _) acc) eqn:Ew; [|done].
  apply project_zero_within. by eapply within_counted.
Qed.
Lemma project_columns_within g row r pre post acc :
  grid_cell g row = (fun col => if col <? 0 then None else r !! Z.to_nat col) ->
  r = pre ++ post -> counted acc ->
  project_columns g row (seqZ (zlen pre) (zlen post)) acc = Some (within (shown_row post) acc).
Proof.
  intros Hg. revert pre acc. induction post as [|c post IH]; intros pre acc Hr Hc.
  { cbn. by rewrite within_nil. }
  rewrite zlen_cons. pose proof (zlen_nonneg post). pose proof (zlen_nonneg pre).
  rewrite seqZ_cons by lia. cbn [project_columns]. rewrite Hg. decide_tests.
  assert (r !! Z.to_nat (zlen pre) = Some c) as ->.
  { subst r. apply list_lookup_middle. unfold zlen. lia. }
  rewrite project_cell_within by done. unfold shown_row. cbn [map concat].
  rewrite utf8_app, within_app by done.
  destruct (within (utf8 (shown c)) acc) as [acc'|] eqn:Ew; [|done].
  specialize (IH (pre ++ [c]) acc'). rewrite zlen_snoc in IH.
  replace (Z.succ (zlen pre)) with (zlen pre + 1) by lia.
  replace (Z.pred (1 + zlen post)) with (zlen post) by lia.
  apply IH; [by rewrite <- app_assoc|by eapply within_counted].
Qed.
Lemma visible_row g row :
  grid_ok g -> 0 <= row < gr_screen_lines g ->
  exists r, visible_rows g !! Z.to_nat row = Some r /\ zlen r = gr_columns g /\ Forall cell_ok r /\
  grid_cell g row = (fun col => if col <? 0 then None else r !! Z.to_nat col).
Proof.
  intros (Hs & _ & _ & _ & Hr & _) Hrow. unfold visible_rows, grid_cell, history_size.
  rewrite Z.max_r by lia. rewrite lookup_drop. set (i := (_ + Z.to_nat row)%nat).
  assert (Z.to_nat (row + (zlen (gr_rows g) - gr_screen_lines g)) = i) as -> by (subst i; lia).
  destruct (gr_rows g !! i) as [r|] eqn:Er; cycle 1.
  { apply lookup_ge_None in Er. subst i. unfold zlen in *. lia. }
  destruct (Forall_lookup_1 _ _ _ _ Hr Er) as [Hl Hc]. exists r. repeat split; try done.
  decide_tests. done.
Qed.
Lemma visible_rows_length g : grid_ok g -> zlen (visible_rows g) = gr_screen_lines g.
Proof.
  intros (Hs & _). unfold visible_rows, history_size, zlen in *. rewrite length_drop. lia.
Qed.
Lemma project_rows_spec g rows pre lines n :
  grid_ok g -> visible_rows g = pre ++ rows -> 0 <= n <= PROJECTION_LIMIT ->
  project_rows g (seqZ (zlen pre) (zlen rows)) lines n =
  Some (if PROJECTION_LIMIT <? n + zlen (concat (map shown_row rows)) then TooLarge
        else Screen (lines ++ map trim_end_spaces (map shown_row rows))).
Proof.
  intros Hg. revert pre lines n. induction rows as [|r rows IH]; intros pre lines n Hr Hn.
  { cbn. rewrite Z.add_0_r, app_nil_r. decide_tests. done. }
  pose proof (zlen_nonneg rows). pose proof (zlen_nonneg pre). rewrite zlen_cons.
  assert (0 <= zlen pre < gr_screen_lines g) as Hin.
  { rewrite <- visible_rows_length, Hr, zlen_app, zlen_cons by done. lia. }
  destruct (visible_row g (zlen pre) Hg Hin) as (r' & Hl & Hlen & _ & Hcell).
  assert (r' = r) as ->.
  { rewrite Hr, list_lookup_middle in Hl by (unfold zlen; lia). by simplify_eq. }
  rewrite seqZ_cons by lia. cbn [project_rows]. rewrite <- Hlen.
  rewrite (project_columns_within g (zlen pre) r [] r) by (done || exact Hn).
  unfold within. cbn [fst snd app map concat]. rewrite zlen_app.
  pose proof (zlen_nonneg (shown_row r)). pose proof (zlen_nonneg (concat (map shown_row rows))).
  destruct (Z.ltb_spec PROJECTION_LIMIT (n + zlen (shown_row r))); [decide_tests; done|].
  specialize (IH (pre ++ [r]) (lines ++ [trim_end_spaces (shown_row r)]) (n + zlen (shown_row r))).
  rewrite zlen_snoc in IH. replace (Z.succ (zlen pre)) with (zlen pre + 1) by lia.
  replace (Z.pred (1 + zlen rows)) with (zlen rows) by lia.
  rewrite IH; [|by rewrite <- app_assoc|lia]. by rewrite Z.add_assoc, <- app_assoc.
Qed.

(** Every line is printable text. *)
Definition printable (line : bytes) : Prop :=
  exists l, line = utf8 l /\ Forall (fun c => char_ok c /\ is_control c = false) l.
Lemma shown_printable c :
  cell_ok c -> Forall (fun c => char_ok c /\ is_control c = false) (shown c).
Proof.
  intros (Hc & _ & _ & Hz & _). unfold shown. destruct (is_spacer c); [constructor|].
  assert (char_ok 32 /\ is_control 32 = false) as Hsp by (split; [left; lia|done]).
  destruct (has c F_HIDDEN); [destruct (has c F_WIDE_CHAR); repeat (constructor; [done|]); constructor|].
  constructor; [destruct (is_control (cl_c c)) eqn:E; done|].
  apply Forall_forall. intros z Hin. apply list_elem_of_In, filter_In in Hin as [Hin Hctl].
  apply list_elem_of_In in Hin. rewrite Forall_forall in Hz. split; [by apply Hz|].
  by destruct (is_control z).
Qed.
Lemma encode_utf8_last c :
  char_ok c -> c <> 32 -> exists p b, encode_utf8 c = p ++ [b] /\ b <> 32.
Proof.
  unfold char_ok, encode_utf8. intros Hc Hne. pose proof (Z.mod_pos_bound c 64 ltac:(lia)).
  destruct (Z.ltb_spec c 128); [by exists [], c|].
  destruct (c <? 2048); [|destruct (c <? 65536)].
  - exists [192 + c / 64], (128 + c mod 64). split; [done|lia].
  - exists [224 + c / 4096; 128 + c / 64 mod 64], (128 + c mod 64). split; [done|lia].
  - exists [240 + c / 262144; 128 + c / 4096 mod 64; 128 + c / 64 mod 64], (128 + c mod 64).
    split; [done|lia].
Qed.
Lemma drop_spaces_other b l : b <> 32 -> drop_spaces (b :: l) = b :: l.
Proof.
  intros Hb. cbn [drop_spaces]. destruct b as [|p|p]; try done.
  repeat (destruct p as [p|p|]; try done).
Qed.
Lemma trim_printable line :
  printable line -> printable (trim_end_spaces line) /\ last (trim_end_spaces line) <> Some 32.
Proof.
  intros (l & -> & Hl). induction l as [|c l IH] using rev_ind.
  { split; [by exists []|done]. }
  apply Forall_app in Hl as [Hl Hc]. apply Forall_singleton in Hc as [Hc Hctl].
  unfold trim_end_spaces in *. rewrite utf8_app, rev_app_distr.
  destruct (decide (c = 32)) as [->|Hne]; [by apply IH|].
  destruct (encode_utf8_last c Hc Hne) as (p & b & He & Hb).
  assert (utf8 [c] = p ++ [b]) as Hu by (unfold utf8; cbn; by rewrite app_nil_r).
  rewrite Hu, rev_app_distr. cbn [rev app]. rewrite drop_spaces_other by done. cbn [rev].
  rewrite rev_app_distr, !rev_involutive. split.
  - exists (l ++ [c]). split; [by rewrite utf8_app, Hu, app_assoc|].
    apply Forall_app. split; [done|by apply Forall_singleton].
  - rewrite last_snoc. congruence.
Qed.
Lemma shown_row_printable r : Forall cell_ok r -> printable (shown_row r).
Proof.
  intros Hr. exists (concat (map shown r)). split; [done|].
  apply Forall_concat, Forall_map. eapply Forall_impl; [exact Hr|]. apply shown_printable.
Qed.

Lemma trim_length l : zlen (trim_end_spaces l) <= zlen l.
Proof.
  unfold trim_end_spaces, zlen. rewrite length_rev, <- (length_rev l).
  assert (forall k, (length (drop_spaces k) <= length k)%nat) as Hd; [|specialize (Hd (rev l)); lia].
  induction k as [|b k IH]; [done|]. destruct (decide (b = 32)) as [->|Hb]; [cbn; lia|].
  by rewrite drop_spaces_other.
Qed.
Lemma trim_total rows : zlen (concat (map trim_end_spaces rows)) <= zlen (concat rows).
Proof.
  induction rows as [|r rows IH]; [done|]. cbn [map concat]. rewrite !zlen_app.
  pose proof (trim_length r). lia.
Qed.

(** C38: the readable projection of any report of the emulator: it never
    panics, it is [AlternateScreen] or [TooLarge] exactly when the screen is the
    alternate one, has more than 150 lines or 400 columns, or shows more than
    256 KiB, and otherwise it is every row of the screen (not of the
    scrollback), top to bottom, each the text of its cells less the trailing
    spaces.  No control character of the program's is in it, hidden cells are
    blank, and the whole is at most 150 lines and 256 KiB. *)
Theorem projection_correct t :
  term_ok t ->
  readable_projection t = Some (projection_spec t) /\
  forall lines, projection_spec t = Screen lines ->
    zlen lines = gr_screen_lines (tm_grid t) /\ zlen lines <= 150 /\
    zlen (concat lines) <= 256 * 1024 /\
    Forall (fun line => printable line /\ last line <> Some 32) lines.
Proof.
  intros (Hg & _). unfold readable_projection, projection_spec.
  destruct (in_mode t M_ALT_SCREEN); [done|]. set (g := tm_grid t) in *.
  destruct ((150 <? gr_screen_lines g) || (400 <? gr_columns g)) eqn:Eb; cbn [orb]; [done|].
  pose proof (project_rows_spec g (visible_rows g) [] [] 0 Hg eq_refl ltac:(done)) as Hp.
  rewrite zlen_nil, visible_rows_length, Z.add_0_l in Hp by done. split; [exact Hp|].
  intros lines. destruct (Z.ltb_spec PROJECTION_LIMIT (zlen (concat (map shown_row (visible_rows g)))));
    intros He; [done|]. simplify_eq. bools.
  assert (zlen (map trim_end_spaces (map shown_row (visible_rows g))) = gr_screen_lines g) as Hn.
  { rewrite <- visible_rows_length by done. unfold zlen. by rewrite !length_map. }
  split; [done|]. split; [lia|]. split.
  - etrans; [|exact H]. apply trim_total.
  - apply Forall_map, Forall_map. destruct Hg as (_ & _ & _ & _ & Hok & _).
    eapply Forall_impl; [apply (Forall_drop _ _ _ Hok)|]. intros r [_ Hr].
    by apply trim_printable, shown_row_printable.
Qed.
Lemma projection_correct_witness :
  let t := {| tm_mode := 0; tm_grid := sample_grid; tm_inactive := sample_grid; tm_tab_stops := [];
    tm_region := (0, 1); tm_shape := ShBlock; tm_blinking := false; tm_colors := fun _ => None |} in
  readable_projection t = Some (projection_spec t) /\
  forall lines, projection_spec t = Screen lines ->
    zlen lines = gr_screen_lines (tm_grid t) /\ zlen lines <= 150 /\
    zlen (concat lines) <= 256 * 1024 /\
    Forall (fun line => printable line /\ last line <> Some 32) lines.
Proof.
  intros t. apply (projection_correct t). destruct sample_term_ok as (Hg & _).
  split; [exact Hg|]. split; [exact Hg|]. split; [constructor|]. repeat split; done.
Defined.
