(* ===== verification/Auth.v ===== *)
(** * Authentication and authority
    ([crates/rc-agent/src/auth.rs]): pairing tickets, challenges, access tokens,
    WebSocket tickets, device revocation and the remote block.

    A [CancellationToken] is an identity in the shared set [cancelled]: every
    clone of it observes the cancellation.  The clock, fresh secrets, fresh
    identifiers and the outcome of writing the store are arguments; one critical
    section reads one instant.  SHA-256, base64 and P-256 are parameters. *)
From S2P Require Import Prelude Errors Protocol Text.

(** The n-th allocation, for a device. *)
Abbreviation Token := (Z * Uuid)%type (only parsing).
Abbreviation Digest := Z (only parsing).

Record Principal := {
  p_client_id : Uuid;
  p_scopes : list Scope;
  p_expires : Z;
  p_revoked : Token
}.

#[global] Instance Principal_eq_dec : EqDecision Principal.
Proof. solve_decision. Defined.

Definition principal_require (cancelled : gset Token) (p : Principal) (s : Scope) (now : Z)
  : res unit :=
  if bool_decide (p_revoked p ∈ cancelled) then Err DeviceRevoked
  else if p_expires p <=? now then Err Unauthenticated
  else if negb (bool_decide (s ∈ p_scopes p)) then Err Forbidden
  else Ok tt.

Record Device := {
  d_client_id : Uuid;
  d_public_key : bytes;
  d_label : string;
  d_scopes : list Scope;
  d_revoked : bool
}.
Record PairTicket := { pt_scopes : list Scope; pt_until : Z }.
Record Challenge := { ch_client : Uuid; ch_message : string; ch_until : Z }.
Record Access := { ac_client : Uuid; ac_until : Z }.
Record WsTicket := {
  wt_principal : Principal;
  wt_channel : string;
  wt_session : option Uuid;
  wt_until : Z
}.
Record DeviceState := { ds_device : Device; ds_cancel : Token }.

(** [Auth] with its [Inner]; [cancelled] and [next_token] are the heap of
    cancellation tokens. *)
Record Auth := {
  a_blocked : bool;
  devices : gmap Uuid DeviceState;
  pairs : gmap Digest PairTicket;
  challenges : gmap string Challenge;
  access : gmap Digest Access;
  ws : gmap Digest WsTicket;
  window_start : Z;
  requests : Z;
  cancelled : gset Token;
  next_token : Z
}.

Definition set_blocked (b : bool) (a : Auth) : Auth :=
  {| a_blocked := b; devices := devices a; pairs := pairs a; challenges := challenges a;
     access := access a; ws := ws a; window_start := window_start a;
     requests := requests a; cancelled := cancelled a; next_token := next_token a |}.
Definition set_devices (d : gmap Uuid DeviceState) (a : Auth) : Auth :=
  {| a_blocked := a_blocked a; devices := d; pairs := pairs a; challenges := challenges a;
     access := access a; ws := ws a; window_start := window_start a;
     requests := requests a; cancelled := cancelled a; next_token := next_token a |}.
Definition set_tables (p : gmap Digest PairTicket) (c : gmap string Challenge)
    (t : gmap Digest Access) (w : gmap Digest WsTicket) (a : Auth) : Auth :=
  {| a_blocked := a_blocked a; devices := devices a; pairs := p; challenges := c;
     access := t; ws := w; window_start := window_start a; requests := requests a;
     cancelled := cancelled a; next_token := next_token a |}.
Definition set_window (w r : Z) (a : Auth) : Auth :=
  {| a_blocked := a_blocked a; devices := devices a; pairs := pairs a;
     challenges := challenges a; access := access a; ws := ws a; window_start := w;
     requests := r; cancelled := cancelled a; next_token := next_token a |}.
Definition set_tokens (c : gset Token) (n : Z) (a : Auth) : Auth :=
  {| a_blocked := a_blocked a; devices := devices a; pairs := pairs a;
     challenges := challenges a; access := access a; ws := ws a;
     window_start := window_start a; requests := requests a; cancelled := c;
     next_token := n |}.

(** [Auth::new] from the devices of the store. *)
Definition auth_new (stored : list Device) (remote_blocked : bool) (now : Z) : Auth := {|
  a_blocked := remote_blocked;
  devices := list_to_map
    (map (fun d => (d_client_id d, {| ds_device := d; ds_cancel := (0, d_client_id d) |}))
       (rev stored));
  pairs := ∅; challenges := ∅; access := ∅; ws := ∅;
  window_start := now; requests := 0;
  cancelled := list_to_set
    (map (fun d => (0, d_client_id d)) (base.filter (fun d => d_revoked d = true) stored));
  next_token := 1
|}.

Definition auth_prune (now : Z) (a : Auth) : Auth :=
  set_tables
    (base.filter (fun kv : Digest * PairTicket => now < pt_until kv.2) (pairs a))
    (base.filter (fun kv : string * Challenge => now < ch_until kv.2) (challenges a))
    (base.filter (fun kv : Digest * Access => now < ac_until kv.2) (access a))
    (base.filter (fun kv : Digest * WsTicket => now < wt_until kv.2) (ws a)) a.

Definition anonymous_limit (now : Z) (a : Auth) : Auth * res unit :=
  let a := if secs 60 <=? Z.max 0 (now - window_start a) then set_window now 0 a else a in
  let a := set_window (window_start a) (wrap32 (requests a + 1)) a in
  if 120 <? requests a then (a, Err RateLimited)
  else (auth_prune now a, Ok tt).

Definition ensure_open (a : Auth) : res unit :=
  if a_blocked a then Err Forbidden else Ok tt.

Definition active_devices (a : Auth) : gmap Uuid DeviceState :=
  base.filter (fun kv : Uuid * DeviceState => d_revoked (ds_device kv.2) = false) (devices a).
Definition lookup_active (a : Auth) (client : Uuid) : option DeviceState :=
  option_keep (fun d => negb (d_revoked (ds_device d))) (devices a !! client).

Definition has_owner (a : Auth) : bool :=
  bool_decide (map_Exists (fun _ d => d_revoked (ds_device d) = false /\
    AdminDevices ∈ d_scopes (ds_device d)) (devices a)).

(** [resume_local]: [persisted] says whether the store was written. *)
Definition resume_local (persisted : bool) (a : Auth) : Auth :=
  if negb persisted then a else
  let n := next_token a in
  set_blocked false
    (set_devices
       (map_imap (fun c d =>
          Some (if negb (d_revoked (ds_device d))
                then {| ds_device := ds_device d; ds_cancel := (n, c) |} else d)) (devices a))
       (set_tokens (cancelled a) (n + 1) a)).

Definition revoke_device_flag (d : Device) : Device :=
  {| d_client_id := d_client_id d; d_public_key := d_public_key d; d_label := d_label d;
     d_scopes := d_scopes d; d_revoked := true |}.

Definition auth_revoke (id : Uuid) (saved : bool) (a : Auth) : Auth * res unit :=
  match devices a !! id with
  | None => (a, Err InvalidRequest)
  | Some d =>
    let d' := {| ds_device := revoke_device_flag (ds_device d); ds_cancel := ds_cancel d |} in
    let a := set_devices (<[id := d']> (devices a))
               (set_tokens ({[ds_cancel d]} ∪ cancelled a) (next_token a) a) in
    if negb saved then (a, Err Internal) else
    (set_tables (pairs a) (challenges a)
       (base.filter (fun kv : Digest * Access => ac_client kv.2 <> id) (access a))
       (base.filter (fun kv : Digest * WsTicket => p_client_id (wt_principal kv.2) <> id) (ws a)) a,
     Ok tt)
  end.

(** [block_all]; the flag is set whether or not the store is written. *)
Definition block_all (a : Auth) : Auth :=
  set_tables ∅ ∅ ∅ ∅
    (set_tokens (map_to_set (fun _ d => ds_cancel d) (devices a) ∪ cancelled a)
       (next_token a) (set_blocked true a)).

Section Crypto.
(** SHA-256 of a string, base64url decoding, SEC1 key parsing, parsing and
    verification of a P-256 signature: third-party code. *)
Context (key : string -> Digest) (b64url_decode : string -> option bytes)
  (sec1_key_ok : bytes -> bool) (signature_ok : bytes -> bool)
  (ecdsa_verify : bytes -> string -> bytes -> bool).

(** The fresh secret is [token]; it is returned on success. *)
Definition issue_pair_ticket (scopes : list Scope) (now : Z) (token : string) (a : Auth)
  : Auth * res string :=
  match ensure_open a with
  | Err e => (a, Err e)
  | Ok _ =>
    if bool_decide (scopes = []) then (a, Err InvalidRequest) else
    let a := auth_prune now a in
    if 16 <=? Z.of_nat (size (pairs a)) then (a, Err RateLimited) else
    (set_tables (<[key token := {| pt_scopes := scopes; pt_until := now + secs 300 |}]> (pairs a))
       (challenges a) (access a) (ws a) a, Ok token)
  end.

(** [client_id] is the fresh UUID, [saved] the outcome of [save_device]. *)
Definition auth_pair (ticket public_key label : string) (now : Z) (client_id : Uuid)
    (saved : bool) (a : Auth) : Auth * res Device :=
  match ensure_open a with
  | Err e => (a, Err e)
  | Ok _ =>
    if (128 <? str_len ticket) || str_is_empty (str_trim label) ||
       (160 <? str_len label) || (256 <? str_len public_key)
    then (a, Err InvalidRequest) else
    match b64url_decode public_key with
    | None => (a, Err InvalidRequest)
    | Some raw =>
      if negb (sec1_key_ok raw) then (a, Err InvalidRequest) else
      match anonymous_limit now a with
      | (a, Err e) => (a, Err e)
      | (a, Ok _) =>
        match pairs a !! key ticket with
        | None => (a, Err Unauthenticated)
        | Some p =>
          let a := set_tables (delete (key ticket) (pairs a)) (challenges a) (access a)
                     (ws a) a in
          if 64 <=? Z.of_nat (size (active_devices a)) then (a, Err RateLimited) else
          let d := {| d_client_id := client_id; d_public_key := raw;
                      d_label := str_trim label; d_scopes := pt_scopes p;
                      d_revoked := false |} in
          if negb saved then (a, Err Internal) else
          (set_devices (<[client_id := {| ds_device := d;
                                          ds_cancel := (next_token a, client_id) |}]> (devices a))
             (set_tokens (cancelled a) (next_token a + 1) a), Ok d)
        end
      end
    end
  end.

Definition challenge_message (audience : string) (client : Uuid) (nonce : string)
    (expiry : Z) : string :=
  ("RemoteCodex/v1
" +:+ audience +:+ "
" +:+ uuid_string client +:+ "
" +:+ nonce +:+ "
" +:+ dec expiry)%string.

Definition auth_challenge (audience : string) (client : Uuid) (now unix_ms : Z)
    (id nonce : string) (a : Auth) : Auth * res (string * string) :=
  match ensure_open a with
  | Err e => (a, Err e)
  | Ok _ =>
    match anonymous_limit now a with
    | (a, Err e) => (a, Err e)
    | (a, Ok _) =>
      if negb (is_some_and (fun d => negb (d_revoked (ds_device d))) (devices a !! client))
      then (a, Err Unauthenticated) else
      if 128 <=? Z.of_nat (size (challenges a)) then (a, Err RateLimited) else
      let message := challenge_message audience client nonce (wrap64 (unix_ms + 30000)) in
      (set_tables (pairs a)
         (<[id := {| ch_client := client; ch_message := message;
                     ch_until := now + secs 30 |}]> (challenges a)) (access a) (ws a) a,
       Ok (id, message))
    end
  end.

(** The checks on a challenge's signature, in their order: every failure is
    [Unauthenticated]. *)
Definition check_signature (a : Auth) (challenge : Challenge) (sig : string) : bool :=
  match lookup_active a (ch_client challenge) with
  | None => false
  | Some device =>
    sec1_key_ok (d_public_key (ds_device device)) &&
    match b64url_decode sig with
    | None => false
    | Some bytes =>
      signature_ok bytes &&
      ecdsa_verify (d_public_key (ds_device device)) (ch_message challenge) bytes
    end
  end.

Definition auth_verify (id sig : string) (now : Z) (token : string) (a : Auth)
  : Auth * res string :=
  match ensure_open a with
  | Err e => (a, Err e)
  | Ok _ =>
    if (128 <? str_len id) || (256 <? str_len sig) then (a, Err InvalidRequest) else
    match anonymous_limit now a with
    | (a, Err e) => (a, Err e)
    | (a, Ok _) =>
      match challenges a !! id with
      | None => (a, Err Unauthenticated)
      | Some challenge =>
        let a := set_tables (pairs a) (delete id (challenges a)) (access a) (ws a) a in
        if negb (check_signature a challenge sig) then (a, Err Unauthenticated) else
        if 256 <=? Z.of_nat (size (access a)) then (a, Err RateLimited) else
        (set_tables (pairs a) (challenges a)
           (<[key token := {| ac_client := ch_client challenge;
                              ac_until := now + secs 600 |}]> (access a)) (ws a) a,
         Ok token)
      end
    end
  end.

Definition authorize (token : string) (now : Z) (a : Auth) : res Principal :=
  match ensure_open a with
  | Err e => Err e
  | Ok _ =>
    if 128 <? str_len token then Err Unauthenticated else
    match option_keep (fun t => now <? ac_until t) (access a !! key token) with
    | None => Err Unauthenticated
    | Some t =>
      match lookup_active a (ac_client t) with
      | None => Err DeviceRevoked
      | Some d =>
        Ok {| p_client_id := ac_client t; p_scopes := d_scopes (ds_device d);
              p_expires := ac_until t; p_revoked := ds_cancel d |}
      end
    end
  end.

Definition issue_ws (p : Principal) (channel : string) (session : option Uuid)
    (now : Z) (token : string) (a : Auth) : Auth * res string :=
  if negb (bool_decide (channel ∈ ["control"; "terminal"; "media"]%string))
  then (a, Err InvalidRequest) else
  match principal_require (cancelled a) p TerminalRead now with
  | Err e => (a, Err e)
  | Ok _ =>
    if bool_decide (channel ∈ ["terminal"; "media"]%string) && option_is_none session
    then (a, Err InvalidRequest) else
    let a := auth_prune now a in
    if 128 <=? Z.of_nat (size (ws a)) then (a, Err RateLimited) else
    (set_tables (pairs a) (challenges a) (access a)
       (<[key token := {| wt_principal := p; wt_channel := channel; wt_session := session;
                          wt_until := now + secs 30 |}]> (ws a)) a, Ok token)
  end.

Definition consume_ws (token channel : string) (now : Z) (a : Auth)
  : Auth * res (Principal * option Uuid) :=
  match ensure_open a with
  | Err e => (a, Err e)
  | Ok _ =>
    if 128 <? str_len token then (a, Err Unauthenticated) else
    let a := auth_prune now a in
    match ws a !! key token with
    | None => (a, Err Unauthenticated)
    | Some t =>
      let a := set_tables (pairs a) (challenges a) (access a) (delete (key token) (ws a)) a in
      if negb (bool_decide (wt_channel t = channel)) then (a, Err Forbidden) else
      match principal_require (cancelled a) (wt_principal t) TerminalRead now with
      | Err e => (a, Err e)
      | Ok _ => (a, Ok (wt_principal t, wt_session t))
      end
    end
  end.
End Crypto.

Definition device_principal (client : Uuid) (now : Z) (a : Auth) : res Principal :=
  match ensure_open a with
  | Err e => Err e
  | Ok _ =>
    match lookup_active a client with
    | None => Err DeviceRevoked
    | Some d =>
      Ok {| p_client_id := client; p_scopes := d_scopes (ds_device d);
            p_expires := now + secs 60; p_revoked := ds_cancel d |}
    end
  end.

(** ** Which operations change devices, cancellations and the block *)
Definition auth_core (a : Auth) : bool * gmap Uuid DeviceState * gset Token * Z :=
  (a_blocked a, devices a, cancelled a, next_token a).

(** Every WebSocket ticket of [a'] was one of [a]. *)
Definition ws_from (a a' : Auth) : Prop :=
  forall k t, ws a' !! k = Some t -> ws a !! k = Some t.

Lemma auth_prune_core now a : auth_core (auth_prune now a) = auth_core a.
Proof. done. Qed.
Lemma auth_prune_ws now a : ws_from a (auth_prune now a).
Proof. intros k t [? _]%map_lookup_filter_Some. done. Qed.
Lemma anonymous_limit_core now a a' r :
  anonymous_limit now a = (a', r) -> auth_core a' = auth_core a /\ ws_from a a'.
Proof.
  unfold anonymous_limit. repeat case_match; intros [= <- <-]; (split; [done|]);
    first [by intros k t | intros k t [? _]%map_lookup_filter_Some; done].
Qed.

(** One operation, as seen from outside: the state and the principals handed
    out so far.  A principal presented to [issue_ws] was handed out before, a
    new client identifier is fresh, and the local user resumes a blocked host. *)
Section Runs.
Context (key : string -> Digest) (b64url_decode : string -> option bytes)
  (sec1_key_ok : bytes -> bool) (signature_ok : bytes -> bool)
  (ecdsa_verify : bytes -> string -> bytes -> bool).

Definition world : Type := Auth * list Principal.

Inductive auth_step : world -> world -> Prop :=
| step_issue_pair scopes now token a l :
    auth_step (a, l) (fst (issue_pair_ticket key scopes now token a), l)
| step_pair ticket public_key label now client saved a l :
    devices a !! client = None ->
    auth_step (a, l)
      (fst (auth_pair key b64url_decode sec1_key_ok ticket public_key label now client saved a), l)
| step_challenge audience client now unix_ms id nonce a l :
    auth_step (a, l) (fst (auth_challenge audience client now unix_ms id nonce a), l)
| step_verify id sig now token a l :
    auth_step (a, l)
      (fst (auth_verify key b64url_decode sec1_key_ok signature_ok ecdsa_verify id sig now token a), l)
| step_authorize token now p a l :
    authorize key token now a = Ok p -> auth_step (a, l) (a, p :: l)
| step_device_principal client now p a l :
    device_principal client now a = Ok p -> auth_step (a, l) (a, p :: l)
| step_issue_ws p channel session now token a l :
    p ∈ l -> auth_step (a, l) (fst (issue_ws key p channel session now token a), l)
| step_consume_ws token channel now p session a a' l :
    consume_ws key token channel now a = (a', Ok (p, session)) ->
    auth_step (a, l) (a', p :: l)
| step_consume_ws_err token channel now a a' e l :
    consume_ws key token channel now a = (a', Err e) -> auth_step (a, l) (a', l)
| step_revoke id saved a l : auth_step (a, l) (fst (auth_revoke id saved a), l)
| step_block a l : auth_step (a, l) (block_all a, l)
| step_resume persisted a l :
    a_blocked a = true -> auth_step (a, l) (resume_local persisted a, l).

(** Operations that only touch the tables. *)
Lemma issue_pair_ticket_core scopes now token a :
  auth_core (fst (issue_pair_ticket key scopes now token a)) = auth_core a /\
  ws_from a (fst (issue_pair_ticket key scopes now token a)).
Proof.
  unfold issue_pair_ticket. repeat case_match; (split; [done|]);
    first [by intros k t | apply (auth_prune_ws now)].
Qed.
Lemma auth_challenge_core audience client now unix_ms id nonce a :
  auth_core (fst (auth_challenge audience client now unix_ms id nonce a)) = auth_core a /\
  ws_from a (fst (auth_challenge audience client now unix_ms id nonce a)).
Proof.
  unfold auth_challenge. case_match; [|by split; [|intros k t]].
  destruct (anonymous_limit now a) as [a1 r1] eqn:E.
  apply anonymous_limit_core in E as [? ?].
  repeat case_match; cbn [fst]; (split; [assumption|assumption]).
Qed.
Lemma auth_verify_core id sig now token a :
  let a' := fst (auth_verify key b64url_decode sec1_key_ok signature_ok ecdsa_verify
                   id sig now token a) in
  auth_core a' = auth_core a /\ ws_from a a'.
Proof.
  unfold auth_verify. case_match; [|by split; [|intros k t]].
  case_match; [by split; [|intros k t]|].
  destruct (anonymous_limit now a) as [a1 r1] eqn:E.
  apply anonymous_limit_core in E as [? ?].
  repeat case_match; cbn [fst]; (split; [assumption|assumption]).
Qed.
Lemma issue_ws_core p channel session now token a :
  let a' := fst (issue_ws key p channel session now token a) in
  auth_core a' = auth_core a /\
  (forall k t, ws a' !! k = Some t -> ws a !! k = Some t \/ wt_principal t = p).
Proof.
  unfold issue_ws. repeat case_match; cbn; (split; [done|]); intros k t; try by left.
  - intros [? _]%map_lookup_filter_Some. by left.
  - intros [[_ <-]|[_ Hk]]%lookup_insert_Some; [by right|].
    apply map_lookup_filter_Some in Hk as [? _]. by left.
Qed.
Lemma consume_ws_core token channel now a :
  let a' := fst (consume_ws key token channel now a) in
  auth_core a' = auth_core a /\ ws_from a a' /\
  forall p s, snd (consume_ws key token channel now a) = Ok (p, s) ->
    exists t, ws a !! key token = Some t /\ wt_principal t = p /\ wt_session t = s /\
      wt_channel t = channel /\ now < wt_until t /\ a_blocked a = false /\
      principal_require (cancelled a) p TerminalRead now = Ok tt /\
      ws a' !! key token = None.
Proof.
  unfold consume_ws, ensure_open. destruct (a_blocked a) eqn:Eb;
    [split; [done|]; split; [by intros k t|done]|].
  case_match; [split; [done|]; split; [by intros k t|done]|].
  destruct (ws (auth_prune now a) !! key token) as [t|] eqn:Et;
    [|split; [done|]; split; [apply (auth_prune_ws now)|done]].
  assert (ws_from a (set_tables (pairs (auth_prune now a)) (challenges (auth_prune now a))
    (access (auth_prune now a)) (delete (key token) (ws (auth_prune now a)))
    (auth_prune now a))) as Hws.
  { intros k t'. cbn. intros [_ Hk]%lookup_delete_Some. by apply (auth_prune_ws now). }
  destruct (bool_decide _) eqn:Ec; cbn [negb]; [|done].
  destruct (principal_require _ _ _ _) as [[]|e] eqn:Er; [|done].
  split; [done|]. split; [done|]. cbn. intros p s [= <- <-].
  apply map_lookup_filter_Some in Et as [Et Hu]. bools.
  exists t. repeat split; try done. apply lookup_delete_eq.
Qed.

(** *** Invariant of the runs *)
Record auth_inv (w : world) : Prop := {
  ai_revoked : forall c d, devices w.1 !! c = Some d ->
    d_revoked (ds_device d) = true -> ds_cancel d ∈ cancelled w.1;
  ai_known : forall p, p ∈ w.2 -> is_Some (devices w.1 !! p_client_id p);
  ai_current : forall p, p ∈ w.2 -> p_revoked p ∈ cancelled w.1 \/
    exists d, devices w.1 !! p_client_id p = Some d /\ ds_cancel d = p_revoked p;
  ai_blocked : a_blocked w.1 = true -> forall p, p ∈ w.2 -> p_revoked p ∈ cancelled w.1;
  ai_ws : forall k t, ws w.1 !! k = Some t -> wt_principal t ∈ w.2
}.

Lemma auth_inv_core a a' l :
  auth_core a' = auth_core a ->
  (forall k t, ws a' !! k = Some t -> ws a !! k = Some t \/ wt_principal t ∈ l) ->
  auth_inv (a, l) -> auth_inv (a', l).
Proof.
  intros [= Hb Hd Hc _] Hw [I1 I2 I3 I4 I5]. cbn in *.
  split; cbn; rewrite ?Hb, ?Hd, ?Hc; try done.
  intros k t Ht. destruct (Hw k t Ht); [by eapply I5|done].
Qed.

(** A principal of a current, unrevoked device joins the ones handed out. *)
Lemma auth_inv_grant a l p d :
  auth_inv (a, l) -> a_blocked a = false ->
  devices a !! p_client_id p = Some d -> ds_cancel d = p_revoked p ->
  auth_inv (a, p :: l).
Proof.
  intros [I1 I2 I3 I4 I5] Hb Hd Hc. cbn in *. split; cbn; try done.
  - intros q [->|Hq]%elem_of_cons; [by rewrite Hd|by apply I2].
  - intros q [->|Hq]%elem_of_cons; [right; eauto|by apply I3].
  - congruence.
  - intros k t Ht. right. by eapply I5.
Qed.

Lemma lookup_active_Some a c d :
  lookup_active a c = Some d -> devices a !! c = Some d /\ d_revoked (ds_device d) = false.
Proof.
  unfold lookup_active, option_keep. destruct (devices a !! c); [|done].
  case_match; [|done]. intros [= ->]. by bools.
Qed.
Lemma authorize_Ok token now a p :
  authorize key token now a = Ok p ->
  a_blocked a = false /\ now < p_expires p /\
  exists d, devices a !! p_client_id p = Some d /\ d_revoked (ds_device d) = false /\
    ds_cancel d = p_revoked p /\ p_scopes p = d_scopes (ds_device d).
Proof.
  unfold authorize, ensure_open. destruct (a_blocked a); [done|]. case_match; [done|].
  destruct (access a !! key token) as [t|]; [|done]. cbn [option_keep].
  destruct (now <? ac_until t) eqn:Et; [|done]. destruct (lookup_active _ _) eqn:El; [|done].
  intros [= <-]. apply lookup_active_Some in El as [? ?]. bools. cbn. eauto 10.
Qed.
Lemma device_principal_Ok client now a p :
  device_principal client now a = Ok p ->
  a_blocked a = false /\ p_client_id p = client /\
  exists d, devices a !! p_client_id p = Some d /\ d_revoked (ds_device d) = false /\
    ds_cancel d = p_revoked p /\ p_scopes p = d_scopes (ds_device d).
Proof.
  unfold device_principal, ensure_open. destruct (a_blocked a); [done|].
  destruct (lookup_active _ _) eqn:El; [|done].
  intros [= <-]. apply lookup_active_Some in El as [? ?]. cbn. eauto 10.
Qed.

(** The operations that change devices or cancellations. *)
Ltac unchanged := solve [cbn [fst]; split; [assumption | left; first [assumption | reflexivity]]].

Lemma auth_pair_cases ticket public_key label now client saved a :
  let a' := fst (auth_pair key b64url_decode sec1_key_ok ticket public_key label now
                   client saved a) in
  ws_from a a' /\
  (auth_core a' = auth_core a \/
   exists d n, d_revoked (ds_device d) = false /\ a_blocked a = false /\
     auth_core a' = (false, <[client := d]> (devices a), cancelled a, n)).
Proof.
  assert (ws_from a a) as Hrefl by by intros k t.
  unfold auth_pair, ensure_open. destruct (a_blocked a) eqn:Eb; [unchanged|].
  case_match; [unchanged|]. case_match; [|unchanged]. case_match; [unchanged|].
  destruct (anonymous_limit now a) as [a1 r1] eqn:E.
  apply anonymous_limit_core in E as [Hc Hw].
  destruct r1; [|unchanged]. destruct (pairs a1 !! key ticket) as [t|]; [|unchanged].
  case_match; [unchanged|]. case_match; [unchanged|]. split; [exact Hw|]. right.
  injection Hc as Hb Hd Hcc Hn. cbn. unfold auth_core. cbn.
  rewrite Hb, Hd, Hcc, Hn, Eb.
  do 2 eexists. split; [|split; reflexivity]. done.
Qed.
Lemma auth_revoke_cases id saved a :
  let a' := fst (auth_revoke id saved a) in
  ws_from a a' /\
  (a' = a \/
   exists d, devices a !! id = Some d /\
     auth_core a' =
       (a_blocked a,
        <[id := {| ds_device := revoke_device_flag (ds_device d); ds_cancel := ds_cancel d |}]>
          (devices a), {[ds_cancel d]} ∪ cancelled a, next_token a)).
Proof.
  unfold auth_revoke. destruct (devices a !! id) as [d|]; [|by split; [intros k t|left]].
  case_match; (split; [|right; by exists d]); intros k t; cbn; [done|].
  by intros [? _]%map_lookup_filter_Some.
Qed.

Lemma inv_pair ticket pk label now client saved a l :
  devices a !! client = None -> auth_inv (a, l) ->
  auth_inv (fst (auth_pair key b64url_decode sec1_key_ok ticket pk label now client saved a), l).
Proof.
  intros Hfresh Hinv. destruct (auth_pair_cases ticket pk label now client saved a)
    as [Hw [Hc|(d & n & Hnr & Hbl & Hc)]]; [eapply auth_inv_core; eauto|].
  destruct Hinv as [I1 I2 I3 I4 I5]. injection Hc as Hb Hd Hcc Hn. cbn in *.
  split; cbn; rewrite ?Hb, ?Hd, ?Hcc; try done.
  - intros c d'. destruct (decide (client = c)) as [<-|Hne].
    + rewrite lookup_insert_eq. intros [= <-]. congruence.
    + rewrite lookup_insert_ne by done. apply I1.
  - intros p Hp. destruct (decide (client = p_client_id p)) as [->|Hne].
    + rewrite lookup_insert_eq. done.
    + rewrite lookup_insert_ne by done. by apply I2.
  - intros p Hp. destruct (I2 p Hp) as [d0 Hd0].
    rewrite lookup_insert_ne by congruence. by apply I3.
  - intros k t Ht. eapply I5. by apply Hw.
Qed.
Lemma inv_consume token channel now p session a a' l :
  consume_ws key token channel now a = (a', Ok (p, session)) -> auth_inv (a, l) -> auth_inv (a', p :: l).
Proof.
  intros Hc Hinv. destruct (consume_ws_core token channel now a) as (Hcore & Hw & Hp).
  rewrite Hc in *. cbn in *. destruct (Hp p session eq_refl) as (t & Ht & Hpt & _ & _ & _ & Hbl & _).
  destruct Hinv as [I1 I2 I3 I4 I5]. pose proof (I5 _ _ Ht) as Hin. rewrite Hpt in Hin.
  cbn in *. injection Hcore as Hb Hd Hcc Hn.
  split; cbn; rewrite ?Hb, ?Hd, ?Hcc; try done.
  - intros q [->|Hq]%elem_of_cons; auto.
  - intros q [->|Hq]%elem_of_cons; auto.
  - intros ? q [->|Hq]%elem_of_cons; auto.
  - intros k t' Ht'. right. eapply I5. by apply Hw.
Qed.
Lemma inv_revoke id saved a l : auth_inv (a, l) -> auth_inv (fst (auth_revoke id saved a), l).
Proof.
  intros Hinv. destruct (auth_revoke_cases id saved a) as [Hw [-> |(d & Hd & Hc)]]; [done|].
  destruct Hinv as [I1 I2 I3 I4 I5]. injection Hc as Hb Hdd Hcc Hn. cbn in *.
  split; cbn; rewrite ?Hb, ?Hdd, ?Hcc.
  - intros c d'. destruct (decide (id = c)) as [<-|Hne].
    + rewrite lookup_insert_eq. intros [= <-] _. cbn. set_solver.
    + rewrite lookup_insert_ne by done. intros ??. apply elem_of_union_r. eauto.
  - intros p Hp. destruct (decide (id = p_client_id p)) as [->|Hne].
    + by rewrite lookup_insert_eq.
    + rewrite lookup_insert_ne by done. by apply I2.
  - intros p Hp. destruct (I3 p Hp) as [?|(d' & Hd' & Hpd)]; [left; set_solver|].
    destruct (decide (id = p_client_id p)) as [->|Hne].
    + left. simplify_map_eq. set_solver.
    + right. rewrite lookup_insert_ne by done. eauto.
  - intros Hbl p Hp. apply elem_of_union_r. auto.
  - intros k t Ht. eapply I5. by apply Hw.
Qed.
Lemma inv_block a l : auth_inv (a, l) -> auth_inv (block_all a, l).
Proof.
  intros [I1 I2 I3 I4 I5]. cbn in *.
  assert (forall p, p ∈ l -> p_revoked p ∈
    (map_to_set (fun _ d => ds_cancel d) (devices a) ∪ cancelled a : gset Token)) as Hall.
  { intros p Hp. destruct (I3 p Hp) as [?|(d & Hd & Hpd)]; [set_solver|].
    apply elem_of_union_l, elem_of_map_to_set. eauto. }
  split; cbn; try done; [|by left; apply Hall].
  intros c d Hd _. apply elem_of_union_l, elem_of_map_to_set. eauto.
Qed.
Lemma inv_resume persisted a l :
  a_blocked a = true -> auth_inv (a, l) -> auth_inv (resume_local persisted a, l).
Proof.
  intros Hb Hinv. unfold resume_local. destruct persisted; cbn [negb]; [|done].
  destruct Hinv as [I1 I2 I3 I4 I5]. cbn in *. split; cbn; try done.
  - intros c d. rewrite map_lookup_imap. destruct (devices a !! c) as [d0|] eqn:Ed; [|done].
    cbn. destruct (d_revoked (ds_device d0)) eqn:Er; cbn; intros [= <-]; cbn; [eauto|congruence].
  - intros p Hp. rewrite map_lookup_imap. destruct (I2 p Hp) as [d ->]. by cbn.
  - intros p Hp. left. by apply I4.
Qed.
Lemma auth_step_inv w w' : auth_inv w -> auth_step w w' -> auth_inv w'.
Proof.
  intros Hinv Hstep.
  destruct Hstep as [scopes now token a l|ticket pk label now client saved a l Hfresh
    |audience client now um id nonce a l|id sig now token a l|token now p a l Hp
    |client now p a l Hp|p channel session now token a l Hp
    |token channel now p session a a' l Hc|token channel now a a' e l Hc
    |id saved a l|a l|persisted a l Hb].
  - destruct (issue_pair_ticket_core scopes now token a). eapply auth_inv_core; eauto.
  - by apply inv_pair.
  - destruct (auth_challenge_core audience client now um id nonce a). eapply auth_inv_core; eauto.
  - destruct (auth_verify_core id sig now token a). eapply auth_inv_core; eauto.
  - apply authorize_Ok in Hp as (? & _ & d & ? & _ & ? & _). by eapply auth_inv_grant.
  - apply device_principal_Ok in Hp as (? & _ & d & ? & _ & ? & _). by eapply auth_inv_grant.
  - destruct (issue_ws_core p channel session now token a) as [? Hw].
    eapply auth_inv_core; [done| |done]. intros k t Ht. destruct (Hw k t Ht) as [?| ->]; auto.
  - by eapply inv_consume.
  - destruct (consume_ws_core token channel now a) as (Hcore & Hw & _).
    rewrite Hc in *. eapply auth_inv_core; eauto.
  - by apply inv_revoke.
  - by apply inv_block.
  - by apply inv_resume.
Qed.

Lemma auth_new_inv stored blocked t0 : auth_inv (auth_new stored blocked t0, []).
Proof.
  split; cbn; try (intros p Hp; by apply elem_of_nil in Hp).
  - intros c d Hd%elem_of_list_to_map_2 Hr.
    apply list_elem_of_fmap in Hd as (d0 & [= -> ->] & Hd0). cbn in *.
    apply elem_of_list_to_set, list_elem_of_fmap. exists d0. split; [done|].
    apply list_elem_of_filter. split; [done|]. apply list_elem_of_In. apply list_elem_of_In in Hd0. by apply in_rev.
  - intros _ p Hp. by apply elem_of_nil in Hp.
  - intros k t Ht. by rewrite lookup_empty in Ht.
Qed.
Lemma auth_reachable_inv stored blocked t0 w :
  steps auth_step (auth_new stored blocked t0, []) w -> auth_inv w.
Proof.
  intros Hs. eapply (steps_invariant auth_step auth_inv); [|done|apply auth_new_inv].
  intros; by eapply auth_step_inv.
Qed.

(** Cancellations are for ever. *)
Lemma auth_step_cancelled w w' : auth_step w w' -> cancelled w.1 ⊆ cancelled w'.1.
Proof.
  destruct 1 as [scopes now token a l|ticket pk label now client saved a l Hfresh
    |audience client now um id nonce a l|id sig now token a l|token now p a l Hp
    |client now p a l Hp|p channel session now token a l Hp
    |token channel now p session a a' l Hc|token channel now a a' e l Hc
    |id saved a l|a l|persisted a l Hb]; cbn; try done.
  - destruct (issue_pair_ticket_core scopes now token a) as [[= _ _ -> _] _]. done.
  - destruct (auth_pair_cases ticket pk label now client saved a)
      as [_ [[= _ _ -> _]|(d & n & _ & _ & [= _ _ -> _])]]; done.
  - destruct (auth_challenge_core audience client now um id nonce a) as [[= _ _ -> _] _]. done.
  - destruct (auth_verify_core id sig now token a) as [[= _ _ -> _] _]. done.
  - destruct (issue_ws_core p channel session now token a) as [[= _ _ -> _] _]. done.
  - destruct (consume_ws_core token channel now a) as [[= _ _ Hx _] _].
    rewrite Hc in Hx. cbn in Hx. by rewrite Hx.
  - destruct (consume_ws_core token channel now a) as [[= _ _ Hx _] _].
    rewrite Hc in Hx. cbn in Hx. by rewrite Hx.
  - destruct (auth_revoke_cases id saved a) as [_ [-> |(d & _ & [= _ _ -> _])]]; set_solver.
  - set_solver.
  - unfold resume_local. by destruct persisted.
Qed.
Lemma auth_steps_cancelled w w' : steps auth_step w w' -> cancelled w.1 ⊆ cancelled w'.1.
Proof. induction 1; [done|]. etrans; [by eapply auth_step_cancelled|done]. Qed.

(** A revoked device stays revoked, and all its principals cancelled. *)
Definition locked_out (id : Uuid) (w : world) : Prop :=
  (exists d, devices w.1 !! id = Some d /\ d_revoked (ds_device d) = true) /\
  forall p, p ∈ w.2 -> p_client_id p = id -> p_revoked p ∈ cancelled w.1.

Lemma auth_step_revoked w w' id d :
  auth_step w w' -> devices w.1 !! id = Some d -> d_revoked (ds_device d) = true ->
  exists d', devices w'.1 !! id = Some d' /\ d_revoked (ds_device d') = true.
Proof.
  destruct 1 as [scopes now token a l|ticket pk label now client saved a l Hfresh
    |audience client now um i nonce a l|i sig now token a l|token now p a l Hp
    |client now p a l Hp|p channel session now token a l Hp
    |token channel now p session a a' l Hc|token channel now a a' e l Hc
    |i saved a l|a l|persisted a l Hb]; cbn; intros Hd Hr; try by eauto.
  - destruct (issue_pair_ticket_core scopes now token a) as [[= _ -> _ _] _]. eauto.
  - destruct (auth_pair_cases ticket pk label now client saved a)
      as [_ [[= _ -> _ _]|(d' & n & _ & _ & [= _ -> _ _])]]; [eauto|].
    rewrite lookup_insert_ne by congruence. eauto.
  - destruct (auth_challenge_core audience client now um i nonce a) as [[= _ -> _ _] _]. eauto.
  - destruct (auth_verify_core i sig now token a) as [[= _ -> _ _] _]. eauto.
  - destruct (issue_ws_core p channel session now token a) as [[= _ -> _ _] _]. eauto.
  - destruct (consume_ws_core token channel now a) as [[= _ Hx _ _] _].
    rewrite Hc in Hx. cbn in Hx. rewrite Hx. eauto.
  - destruct (consume_ws_core token channel now a) as [[= _ Hx _ _] _].
    rewrite Hc in Hx. cbn in Hx. rewrite Hx. eauto.
  - destruct (auth_revoke_cases i saved a) as [_ [-> |(d' & Hd' & [= _ -> _ _])]]; [eauto|].
    destruct (decide (i = id)) as [->|Hne]; [rewrite lookup_insert_eq; eauto|].
    rewrite lookup_insert_ne by done. eauto.
  - unfold resume_local. destruct persisted; cbn; [|eauto].
    rewrite map_lookup_imap, Hd. cbn. rewrite Hr. cbn. eauto.
Qed.

Lemma locked_out_step id w w' :
  auth_inv w -> auth_step w w' -> locked_out id w -> locked_out id w'.
Proof.
  intros Hinv Hstep [(d & Hd & Hr) Hl].
  pose proof (auth_step_cancelled _ _ Hstep) as Hcan.
  split; [by eapply auth_step_revoked|].
  intros p Hp Hid. destruct (decide (p ∈ w.2)) as [Hold|Hnew]; [by apply Hcan, Hl|].
  exfalso. destruct Hstep as [| | | |token now q a l Hq|client now q a l Hq|
    |token channel now q session a a' l Hc| | | |]; cbn in *; try done.
  - apply elem_of_cons in Hp as [-> |?]; [|done].
    apply authorize_Ok in Hq as (_ & _ & d' & Hd' & Hr' & _). simplify_map_eq. congruence.
  - apply elem_of_cons in Hp as [-> |?]; [|done].
    apply device_principal_Ok in Hq as (_ & _ & d' & Hd' & Hr' & _). simplify_map_eq. congruence.
  - apply elem_of_cons in Hp as [-> |?]; [|done]. apply Hnew.
    destruct (consume_ws_core token channel now a) as (_ & _ & Hq). rewrite Hc in Hq.
    destruct (Hq q session eq_refl) as (t & Ht & <- & _).
    exact (ai_ws _ Hinv _ _ Ht).
Qed.

(** Revocation is final.  Once [revoke] has been called for a known
    device, whether or not the store could be written, every principal of that
    device, handed out before or after, in whatever connection it is held,
    fails every permission check with [DeviceRevoked], whatever happens
    later. *)
Theorem revoked_device_locked_out stored blocked t0 a l id saved a2 l2 p scope now :
  steps auth_step (auth_new stored blocked t0, []) (a, l) ->
  is_Some (devices a !! id) ->
  steps auth_step (fst (auth_revoke id saved a), l) (a2, l2) ->
  p ∈ l2 -> p_client_id p = id ->
  principal_require (cancelled a2) p scope now = Err DeviceRevoked.
Proof.
  intros Hs [d Hd] Hs2 Hp Hid.
  assert (auth_inv (a, l)) as Hinv by by eapply auth_reachable_inv.
  assert (auth_inv (fst (auth_revoke id saved a), l)) as Hinv'
    by (eapply auth_step_inv; [done | constructor]).
  assert (locked_out id (fst (auth_revoke id saved a), l)) as Hlock.
  { pose proof (auth_step_inv _ _ Hinv (step_revoke id saved a l)) as [I1 I2 I3 _ _].
    cbn in *.
    assert (exists d', devices (fst (auth_revoke id saved a)) !! id = Some d' /\
      d_revoked (ds_device d') = true) as (d' & Hd' & Hr').
    { unfold auth_revoke. rewrite Hd. by case_match; cbn; rewrite lookup_insert_eq; eauto. }
    split; [by eauto|]. cbn. intros q Hq Hqid.
    destruct (I3 q Hq) as [?|(d'' & Hd'' & <-)]; [done|].
    rewrite Hqid, Hd' in Hd''. simplify_eq. by eapply I1. }
  assert (auth_inv (a2, l2) /\ locked_out id (a2, l2)) as [_ [_ Hall]].
  { eapply (steps_invariant auth_step (fun w => auth_inv w /\ locked_out id w));
      [|exact Hs2|done].
    intros w w' [Hi Hl] Hst. split; [by eapply auth_step_inv | by eapply locked_out_step]. }
  unfold principal_require. rewrite bool_decide_eq_true_2; [done|]. by apply Hall.
Qed.

(** Blocking remote access cuts off everyone at once and for good: every
    principal handed out before [block_all] fails every later permission
    check, also after the host has been resumed. *)
Theorem block_all_final stored blocked t0 a l a2 l2 p scope now :
  steps auth_step (auth_new stored blocked t0, []) (a, l) ->
  steps auth_step (block_all a, l) (a2, l2) ->
  p ∈ l -> principal_require (cancelled a2) p scope now = Err DeviceRevoked.
Proof.
  intros Hs Hs2 Hp.
  pose proof (auth_step_inv _ _ (auth_reachable_inv _ _ _ _ Hs) (step_block a l)) as Hinv.
  pose proof (ai_blocked _ Hinv eq_refl p Hp) as Hc.
  apply auth_steps_cancelled in Hs2. cbn in *.
  unfold principal_require. rewrite bool_decide_eq_true_2; [done|]. by apply Hs2.
Qed.

Lemma anonymous_limit_tables now a a' :
  anonymous_limit now a = (a', Ok tt) ->
  devices a' = devices a /\ access a' = access (auth_prune now a) /\
  challenges a' = challenges (auth_prune now a) /\ pairs a' = pairs (auth_prune now a).
Proof. unfold anonymous_limit. repeat case_match; intros [= <-]; done. Qed.

(** C14: an access token is only ever given for a valid signature: [verify]
    succeeds only on a pending, unexpired challenge, for a known device that
    is not revoked, with a signature of that very challenge's message under
    the device's registered key; the new token authorizes that device only,
    for ten minutes; and a challenge that reaches the check is used up whether
    or not the signature is right, so no second attempt on it is possible. *)
Theorem verify_requires_signature id sig now token a :
  let '(a', r) := auth_verify key b64url_decode sec1_key_ok signature_ok ecdsa_verify
                    id sig now token a in
  (forall tok, r = Ok tok ->
     tok = token /\ a_blocked a = false /\
     exists c d s,
       challenges a !! id = Some c /\ now < ch_until c /\
       devices a !! ch_client c = Some d /\ d_revoked (ds_device d) = false /\
       b64url_decode sig = Some s /\
       ecdsa_verify (d_public_key (ds_device d)) (ch_message c) s = true /\
       access a' = <[key token := {| ac_client := ch_client c;
                                     ac_until := now + secs 600 |}]>
                     (access (auth_prune now a))) /\
  (is_ok r = true \/ r = Err Unauthenticated -> challenges a' !! id = None).
Proof.
  unfold auth_verify, ensure_open. destruct (a_blocked a) eqn:Eb; [by split; [|intros [|]]|].
  destruct ((128 <? str_len id) || (256 <? str_len sig)); [by split; [|intros [|]]|].
  destruct (anonymous_limit now a) as [a1 [[]|e]] eqn:El;
    [|split; [done|]; intros [?|?]; [done|];
      unfold anonymous_limit in El; repeat case_match; simplify_eq].
  apply anonymous_limit_tables in El as (Hd & Ha & Hc & _).
  destruct (challenges a1 !! id) as [c|] eqn:Ec; [|split; [done|done]].
  destruct (check_signature _ _ _ _ _ _ _) eqn:Es; cbn [negb];
    [|split; [done|]; intros _; apply lookup_delete_eq].
  unfold check_signature, lookup_active in Es. cbn in Es.
  destruct (256 <=? _); [split; [done|by intros [?|?]]|].
  split; [|intros _; apply lookup_delete_eq].
  intros tok [= <-]. split; [done|]. split; [done|].
  rewrite Hd in Es. rewrite Hc in Ec. apply map_lookup_filter_Some in Ec as [Ec Ht].
  destruct (devices a !! ch_client c) as [d|] eqn:Edd; [|done]. cbn in Es.
  destruct (negb (d_revoked (ds_device d))) eqn:Er; [|done]. bools.
  destruct (b64url_decode sig) as [s|] eqn:Esig; [|done]. bools.
  exists c, d, s. cbn. by rewrite Ha.
Qed.

(** C15: a WebSocket ticket admits one connection, to the channel and resource
    it was issued for: [consume_ws] succeeds only for a pending unexpired
    ticket of that channel whose principal may still read terminals, on a
    host that is not blocked, and the ticket is gone afterwards. *)
Theorem consume_ws_single_use token channel now a a' p session :
  consume_ws key token channel now a = (a', Ok (p, session)) ->
  (exists t, ws a !! key token = Some t /\ wt_principal t = p /\ wt_session t = session /\
     wt_channel t = channel /\ now < wt_until t) /\
  a_blocked a = false /\ principal_require (cancelled a) p TerminalRead now = Ok tt /\
  ws a' !! key token = None /\
  forall channel' now', is_ok (snd (consume_ws key token channel' now' a')) = false.
Proof.
  intros Hc. destruct (consume_ws_core token channel now a) as (_ & _ & Hp).
  rewrite Hc in Hp. destruct (Hp p session eq_refl)
    as (t & Ht & Hpt & Hst & Hch & Hu & Hb & Hr & Hn).
  cbn in Hn. split; [by eauto 10|]. split; [done|]. split; [done|]. split; [done|].
  intros channel' now'. unfold consume_ws. destruct (ensure_open a'); [|done].
  destruct (128 <? _); [done|]. destruct (ws (auth_prune now' a') !! key token) eqn:E; [|done].
  apply map_lookup_filter_Some in E as [? _]. congruence.
Qed.

(** A redundant resume weakens revocation.  [resume_local] replaces the
    cancellation token of every active device even when the host was not
    blocked; principals handed out before keep the old token, which
    [revoke] then never cancels, so a revoked device's open connections keep
    their authority until their token expires. *)
Theorem redundant_resume_breaks_revocation a id d p scope now :
  a_blocked a = false -> devices a !! id = Some d -> d_revoked (ds_device d) = false ->
  ds_cancel d ∉ cancelled a -> fst (ds_cancel d) < next_token a ->
  device_principal id now a = Ok p -> scope ∈ d_scopes (ds_device d) ->
  let '(a', r) := auth_revoke id true (resume_local true a) in
  r = Ok tt /\ principal_require (cancelled a') p scope now = Ok tt.
Proof.
  intros Hb Hd Hr Hc Hn Hp Hs. unfold device_principal, ensure_open, lookup_active in Hp.
  rewrite Hb, Hd in Hp. cbn in Hp. rewrite Hr in Hp. simplify_eq/=.
  unfold auth_revoke, resume_local. cbn. rewrite map_lookup_imap, Hd. cbn.
  rewrite Hr. cbn. split; [done|]. unfold principal_require. cbn.
  rewrite bool_decide_eq_false_2.
  - replace (now + secs 60 <=? now) with false by (unfold secs; lia).
    by rewrite bool_decide_eq_true_2.
  - rewrite elem_of_union, elem_of_singleton. intros [He|?]; [|done].
    rewrite He in Hn. cbn in Hn. lia.
Qed.

(** *** Capacity *)
Definition auth_cap (a : Auth) : Prop :=
  (size (pairs a) <= 16)%nat /\ (size (challenges a) <= 128)%nat /\
  (size (access a) <= 256)%nat /\ (size (ws a) <= 128)%nat /\
  (size (active_devices a) <= 64)%nat.

Lemma active_devices_insert a c d :
  (size (active_devices (set_devices (<[c := d]> (devices a)) a)) <=
     S (size (active_devices a)))%nat.
Proof.
  unfold active_devices. cbn. rewrite map_filter_insert. case_decide.
  - apply size_insert_le.
  - etrans; [apply map_subseteq_size, map_filter_subseteq_mono, delete_subseteq|]. lia.
Qed.
Lemma active_devices_core a a' : devices a' = devices a -> active_devices a' = active_devices a.
Proof. unfold active_devices. by intros ->. Qed.

Lemma auth_prune_cap now a : auth_cap a -> auth_cap (auth_prune now a).
Proof.
  intros (H1 & H2 & H3 & H4 & H5).
  repeat split; cbn; [etrans; [apply size_filter_le|done]..|exact H5].
Qed.
Lemma anonymous_limit_cap now a a' r :
  anonymous_limit now a = (a', r) -> auth_cap a -> auth_cap a'.
Proof.
  unfold anonymous_limit. intros E Hc. repeat case_match; simplify_eq; try exact Hc;
    apply auth_prune_cap; exact Hc.
Qed.

Lemma cap_tables p c t w a :
  auth_cap a -> (size p <= 16)%nat -> (size c <= 128)%nat -> (size t <= 256)%nat ->
  (size w <= 128)%nat -> auth_cap (set_tables p c t w a).
Proof. intros (_ & _ & _ & _ & H) ????. by repeat split. Qed.

Lemma issue_pair_ticket_cap scopes now token a :
  auth_cap a -> auth_cap (fst (issue_pair_ticket key scopes now token a)).
Proof.
  intros Hcap. unfold issue_pair_ticket. destruct (ensure_open a); [|done].
  destruct (bool_decide _); [done|]. apply (auth_prune_cap now) in Hcap.
  destruct (16 <=? _) eqn:E; [done|]. bools. destruct Hcap as (H1 & H2 & H3 & H4 & H5).
  apply cap_tables; [by repeat split| |done..]. etrans; [apply size_insert_le|]. lia.
Qed.
Lemma auth_pair_cap ticket public_key label now client saved a :
  devices a !! client = None -> auth_cap a ->
  auth_cap (fst (auth_pair key b64url_decode sec1_key_ok ticket public_key label now
                   client saved a)).
Proof.
  intros Hf Hcap. unfold auth_pair. destruct (ensure_open a); [|done].
  destruct (_ || _); [done|]. destruct (b64url_decode _); [|done].
  destruct (negb _); [done|]. destruct (anonymous_limit now a) as [a1 r1] eqn:El.
  apply anonymous_limit_cap in El; [|done]. destruct r1; [|done].
  destruct (pairs a1 !! key ticket) as [t|]; [|done]. destruct El as (H1 & H2 & H3 & H4 & H5).
  set (acc := set_tables _ _ _ _ a1).
  assert (auth_cap acc) as Hcap2.
  { apply cap_tables; [by repeat split| |done..]. etrans; [apply size_delete_le|done]. }
  destruct (64 <=? _) eqn:E; [done|]. destruct (negb saved); [done|]. bools.
  destruct Hcap2 as (G1 & G2 & G3 & G4 & G5). repeat split; try done.
  etrans; [apply (active_devices_insert acc)|]. lia.
Qed.
Lemma auth_challenge_cap audience client now um id nonce a :
  auth_cap a -> auth_cap (fst (auth_challenge audience client now um id nonce a)).
Proof.
  intros Hcap. unfold auth_challenge. destruct (ensure_open a); [|done].
  destruct (anonymous_limit now a) as [a1 r1] eqn:El.
  apply anonymous_limit_cap in El; [|done]. destruct r1; [|done].
  destruct (negb _); [done|]. destruct (128 <=? _) eqn:E; [done|]. bools.
  destruct El as (H1 & H2 & H3 & H4 & H5).
  apply cap_tables; [by repeat split|done| |done..]. etrans; [apply size_insert_le|]. lia.
Qed.
Lemma auth_verify_cap id sig now token a :
  auth_cap a ->
  auth_cap (fst (auth_verify key b64url_decode sec1_key_ok signature_ok ecdsa_verify
                   id sig now token a)).
Proof.
  intros Hcap. unfold auth_verify. destruct (ensure_open a); [|done].
  destruct (_ || _); [done|]. destruct (anonymous_limit now a) as [a1 r1] eqn:El.
  apply anonymous_limit_cap in El; [|done]. destruct r1; [|done].
  destruct (challenges a1 !! id) as [c|]; [|done]. destruct El as (H1 & H2 & H3 & H4 & H5).
  set (acc := set_tables _ _ _ _ a1).
  assert (auth_cap acc) as Hcap2.
  { apply cap_tables; [by repeat split|done| |done..]. etrans; [apply size_delete_le|done]. }
  destruct (negb _); [done|]. destruct (256 <=? _) eqn:E; [done|]. bools.
  destruct Hcap2 as (G1 & G2 & G3 & G4 & G5).
  apply cap_tables; [by repeat split|done..| |done]. etrans; [apply size_insert_le|]. lia.
Qed.
Lemma issue_ws_cap p channel session now token a :
  auth_cap a -> auth_cap (fst (issue_ws key p channel session now token a)).
Proof.
  intros Hcap. unfold issue_ws. destruct (negb _); [done|].
  destruct (principal_require _ _ _ _); [|done]. destruct (_ && _); [done|].
  apply (auth_prune_cap now) in Hcap. destruct (128 <=? _) eqn:E; [done|]. bools.
  destruct Hcap as (H1 & H2 & H3 & H4 & H5).
  apply cap_tables; [by repeat split|done..|]. etrans; [apply size_insert_le|]. lia.
Qed.
Lemma consume_ws_cap token channel now a :
  auth_cap a -> auth_cap (fst (consume_ws key token channel now a)).
Proof.
  intros Hcap. unfold consume_ws. destruct (ensure_open a); [|done].
  destruct (128 <? _); [done|]. apply (auth_prune_cap now) in Hcap.
  destruct (ws _ !! _); [|done].
  set (acc := set_tables _ _ _ _ (auth_prune now a)).
  assert (auth_cap acc) as Hcap2.
  { destruct Hcap as (H1 & H2 & H3 & H4 & H5).
    apply cap_tables; [by repeat split|done..|]. etrans; [apply size_delete_le|done]. }
  destruct (negb _); [done|]. by destruct (principal_require _ _ _ _).
Qed.
Lemma auth_revoke_cap id saved a : auth_cap a -> auth_cap (fst (auth_revoke id saved a)).
Proof.
  intros Hcap. unfold auth_revoke. destruct (devices a !! id) as [d|] eqn:Ed; [|done].
  set (acc := set_devices _ _). assert (auth_cap acc) as Hcap2.
  { destruct Hcap as (H1 & H2 & H3 & H4 & H5). repeat split; try done.
    etrans; [|exact H5]. apply map_subseteq_size. unfold active_devices, acc. cbn.
    rewrite map_filter_insert_False by done.
    apply map_filter_subseteq_mono, delete_subseteq. }
  destruct (negb saved); [done|]. destruct Hcap2 as (H1 & H2 & H3 & H4 & H5).
  apply cap_tables; [by repeat split|done..| |]; (etrans; [apply size_filter_le|done]).
Qed.
Lemma resume_local_cap persisted a : auth_cap a -> auth_cap (resume_local persisted a).
Proof.
  intros (H1 & H2 & H3 & H4 & H5). unfold resume_local.
  destruct persisted; cbn [negb]; repeat split; try done.
  etrans; [|exact H5]. rewrite <- !size_dom. apply subseteq_size.
  intros c. unfold active_devices. cbn. rewrite !elem_of_dom.
  intros [d [Hd Hr]%map_lookup_filter_Some]. rewrite map_lookup_imap in Hd.
  destruct (devices a !! c) as [d0|] eqn:E; [|done]. cbn in Hd.
  exists d0. apply map_lookup_filter_Some. split; [done|]. cbn in *.
  destruct (d_revoked (ds_device d0)) eqn:Er; cbn in Hd; [|done].
  simplify_eq. cbn in Hr. congruence.
Qed.

Lemma auth_step_cap w w' : auth_step w w' -> auth_cap w.1 -> auth_cap w'.1.
Proof.
  destruct 1; cbn [fst];
    eauto using issue_pair_ticket_cap, auth_pair_cap, auth_challenge_cap, auth_verify_cap,
      issue_ws_cap, auth_revoke_cap, resume_local_cap.
  - intros Hcap. apply (consume_ws_cap token channel now) in Hcap. by rewrite H in Hcap.
  - intros Hcap. apply (consume_ws_cap token channel now) in Hcap. by rewrite H in Hcap.
  - intros (_ & _ & _ & _ & H5). repeat split; cbn; (done || (rewrite map_size_empty; lia)).
Qed.

(** Memory is bounded whatever remote peers send: from a store with at
    most 64 active devices, at most 16 pairing tickets, 128 challenges, 256
    access tokens, 128 WebSocket tickets and 64 active devices ever exist. *)
Theorem auth_tables_bounded stored blocked t0 a l :
  (size (active_devices (auth_new stored blocked t0)) <= 64)%nat ->
  steps auth_step (auth_new stored blocked t0, []) (a, l) ->
  (size (pairs a) <= 16)%nat /\ (size (challenges a) <= 128)%nat /\
  (size (access a) <= 256)%nat /\ (size (ws a) <= 128)%nat /\
  (size (active_devices a) <= 64)%nat.
Proof.
  intros Hsz Hs. change (auth_cap (a, l).1).
  eapply (steps_invariant auth_step (fun w => auth_cap w.1)); [|exact Hs|].
  - intros; by eapply auth_step_cap.
  - repeat split; cbn; (exact Hsz || (rewrite map_size_empty; lia)).
Qed.
End Runs.

(** ** Concrete runs *)
Definition sample_device : Device :=
  {| d_client_id := 5; d_public_key := [4]; d_label := "laptop"; d_scopes := Scope_owner;
     d_revoked := false |}.
Definition sample_principal : Principal :=
  {| p_client_id := 5; p_scopes := Scope_owner; p_expires := secs 61; p_revoked := (0, 5) |}.
Definition sample_auth : Auth := auth_new [sample_device] false 0.
Definition sample_key (s : string) : Z := be_dec (str_bytes s).
Definition sample_b64 (s : string) : option bytes := Some (str_bytes s).
Definition sample_sig (k : bytes) (m : string) (s : bytes) : bool := bool_decide (s = k).

Lemma sample_run :
  steps (auth_step sample_key sample_b64 (fun _ => true) (fun _ => true) sample_sig)
    (sample_auth, []) (sample_auth, [sample_principal]).
Proof.
  apply steps_one. apply (step_device_principal _ _ _ _ _ 5 (secs 1)). by vm_compute.
Qed.

Lemma revoked_device_locked_out_witness :
  principal_require (cancelled (fst (auth_revoke 5 false sample_auth))) sample_principal
    TerminalWrite 0 = Err DeviceRevoked.
Proof.
  apply (revoked_device_locked_out sample_key sample_b64 (fun _ => true) (fun _ => true)
           sample_sig [sample_device] false 0 sample_auth [sample_principal] 5 false
           _ [sample_principal]);
    [apply sample_run | by eexists | apply steps_refl | by left | reflexivity].
Defined.
Lemma block_all_final_witness :
  principal_require (cancelled (resume_local true (block_all sample_auth))) sample_principal
    TerminalWrite 0 = Err DeviceRevoked.
Proof.
  apply (block_all_final sample_key sample_b64 (fun _ => true) (fun _ => true)
           sample_sig [sample_device] false 0 sample_auth [sample_principal]
           _ [sample_principal]);
    [apply sample_run | by apply steps_one; constructor | by left].
Defined.
Lemma redundant_resume_breaks_revocation_witness :
  let '(a', r) := auth_revoke 5 true (resume_local true sample_auth) in
  r = Ok tt /\ principal_require (cancelled a') sample_principal TerminalWrite (secs 1) = Ok tt.
Proof.
  apply (redundant_resume_breaks_revocation sample_auth 5
           {| ds_device := sample_device; ds_cancel := (0, 5) |} sample_principal);
    [by vm_compute | by vm_compute | done | apply (bool_decide_unpack _); by vm_compute
    | by vm_compute | by vm_compute | apply (bool_decide_unpack _); by vm_compute].
Defined.
Definition sample_ticketed : Auth :=
  fst (issue_ws sample_key sample_principal "control" None (secs 1) "tok" sample_auth).
Lemma consume_ws_single_use_witness :
  let '(a', r) := consume_ws sample_key "tok" "control" (secs 2) sample_ticketed in
  (exists t, ws sample_ticketed !! sample_key "tok" = Some t /\
     wt_principal t = sample_principal /\ wt_session t = None /\
     wt_channel t = "control"%string /\ secs 2 < wt_until t) /\
  a_blocked sample_ticketed = false /\
  principal_require (cancelled sample_ticketed) sample_principal TerminalRead (secs 2) = Ok tt /\
  ws a' !! sample_key "tok" = None /\
  forall channel' now', is_ok (snd (consume_ws sample_key "tok" channel' now' a')) = false.
Proof.
  destruct (consume_ws sample_key "tok" "control" (secs 2) sample_ticketed) as [a' r] eqn:E.
  apply (consume_ws_single_use sample_key "tok" "control" (secs 2)).
  rewrite E. f_equal. apply (f_equal snd) in E. vm_compute in E. by vm_compute.
Defined.

Lemma auth_tables_bounded_witness :
  (size (pairs sample_auth) <= 16)%nat /\ (size (challenges sample_auth) <= 128)%nat /\
  (size (access sample_auth) <= 256)%nat /\ (size (ws sample_auth) <= 128)%nat /\
  (size (active_devices sample_auth) <= 64)%nat.
Proof.
  apply (auth_tables_bounded sample_key sample_b64 (fun _ => true) (fun _ => true)
           sample_sig [sample_device] false 0 sample_auth [sample_principal]);
    [vm_compute; lia | apply sample_run].
Defined.
