(* ===== verification/AuthRace.v ===== *)
(** * Authentication under interleaving
    ([crates/rc-agent/src/auth.rs], its callers in [local.rs], [tray.rs], [http.rs]).

    Most operations of [Auth] read the block flag before they take the mutex, and
    [block_all] and [resume_local] store the flag, write the store and change the
    tables in separate steps.  Here every call is a thread with its own program
    counter: a call past its check waits in [r_calls], a block or resume under way
    in [r_cmds], and a step of the program is a step of any of them.  [Auth] has the
    same operations as atomic ones; [call_split] relates the two. *)
From S2P Require Import Prelude Errors Protocol Text Auth.

(** ** Blocking and resuming, statement by statement *)
Definition block_flag (a : Auth) : Auth := set_blocked true a.
Definition block_lock (a : Auth) : Auth :=
  set_tables ∅ ∅ ∅ ∅
    (set_tokens (map_to_set (fun _ d => ds_cancel d) (devices a) ∪ cancelled a)
       (next_token a) a).
Definition resume_lock (a : Auth) : Auth :=
  let n := next_token a in
  set_devices
    (map_imap (fun c d =>
       Some (if negb (d_revoked (ds_device d))
             then {| ds_device := ds_device d; ds_cancel := (n, c) |} else d)) (devices a))
    (set_tokens (cancelled a) (n + 1) a).
Definition resume_flag (a : Auth) : Auth := set_blocked false a.

(** ** Calls past their check *)

(** What a call that has read an open flag still does: the operation with the
    answer it read, on the state it finds when it gets the mutex. *)
Definition late {B} (f : Auth -> Auth * B) (a : Auth) : Auth * B :=
  let '(a', r) := f (set_blocked false a) in (set_blocked (a_blocked a) a', r).

(** [issue_ws] checks the channel, the principal and the resource, then locks. *)
Definition issue_ws_checks (cancelled : gset Token) (p : Principal) (channel : string)
    (session : option Uuid) (now : Z) : res unit :=
  if negb (bool_decide (channel ∈ ["control"; "terminal"; "media"]%string))
  then Err InvalidRequest else
  match principal_require cancelled p TerminalRead now with
  | Err e => Err e
  | Ok _ =>
    if bool_decide (channel ∈ ["terminal"; "media"]%string) && option_is_none session
    then Err InvalidRequest else Ok tt
  end.
Definition issue_ws_lock (key : string -> Digest) (p : Principal) (channel : string)
    (session : option Uuid) (now : Z) (token : string) (a : Auth) : Auth * res string :=
  let a := auth_prune now a in
  if 128 <=? Z.of_nat (size (ws a)) then (a, Err RateLimited) else
  (set_tables (pairs a) (challenges a) (access a)
     (<[key token := {| wt_principal := p; wt_channel := channel; wt_session := session;
                        wt_until := now + secs 30 |}]> (ws a)) a, Ok token).

Inductive Call :=
| CIssuePair (scopes : list Scope)
| CPair (ticket public_key label : string)
| CChallenge (client : Uuid)
| CVerify (id sig : string)
| CAuthorize (token : string)
| CDevicePrincipal (client : Uuid)
| CIssueWs (p : Principal) (channel : string) (session : option Uuid)
| CConsumeWs (token channel : string).

Inductive Answer :=
| AToken (r : res string)
| ADevice (r : res Device)
| AChallenge (r : res (string * string))
| APrincipal (r : res Principal)
| AWs (r : res (Principal * option Uuid)).

(** The clock, the random values and the outcome of the store during a call. *)
Record Draw := {
  dr_now : Z; dr_unix_ms : Z; dr_secret : string; dr_nonce : string;
  dr_client : Uuid; dr_saved : bool
}.

(** The block and resume commands under way, by the statement reached. *)
Inductive Stage := BlockFlagged | BlockPersisted | ResumePersisted | ResumeLocked.

(** The state of [Auth], the persisted block, the principals handed out, the
    calls past their check, the commands under way. *)
Record Race := {
  r_auth : Auth; r_store : bool; r_out : list Principal;
  r_calls : list Call; r_cmds : list Stage
}.

Definition race_new (stored : list Device) (blocked : bool) (t0 : Z) : Race :=
  {| r_auth := auth_new stored blocked t0; r_store := blocked; r_out := [];
     r_calls := []; r_cmds := [] |}.

Definition answer_err (c : Call) (e : ErrorCode) : Answer :=
  match c with
  | CIssuePair _ | CVerify _ _ | CIssueWs _ _ _ => AToken (Err e)
  | CPair _ _ _ => ADevice (Err e)
  | CChallenge _ => AChallenge (Err e)
  | CAuthorize _ | CDevicePrincipal _ => APrincipal (Err e)
  | CConsumeWs _ _ => AWs (Err e)
  end.

(** The principal an answer hands out. *)
Definition granted (r : Answer) : list Principal :=
  match r with
  | APrincipal (Ok p) => [p]
  | AWs (Ok (p, _)) => [p]
  | _ => []
  end.

Definition answer {A B} (g : A -> B) (x : Auth * A) : Auth * B := (fst x, g (snd x)).

(** The part of a call before the mutex. *)
Definition call_begin (c : Call) (now : Z) (a : Auth) : res unit :=
  match c with
  | CIssueWs p channel session => issue_ws_checks (cancelled a) p channel session now
  | _ => ensure_open a
  end.

Section Race.
Context (key : string -> Digest) (b64url_decode : string -> option bytes)
  (sec1_key_ok : bytes -> bool) (signature_ok : bytes -> bool)
  (ecdsa_verify : bytes -> string -> bytes -> bool) (audience : string).

(** The whole call, as the operation of [Auth]. *)
Definition call_atomic (c : Call) (d : Draw) (a : Auth) : Auth * Answer :=
  match c with
  | CIssuePair scopes => answer AToken (issue_pair_ticket key scopes (dr_now d) (dr_secret d) a)
  | CPair ticket public_key label =>
    answer ADevice (auth_pair key b64url_decode sec1_key_ok ticket public_key label (dr_now d)
                      (dr_client d) (dr_saved d) a)
  | CChallenge client =>
    answer AChallenge (auth_challenge audience client (dr_now d) (dr_unix_ms d) (dr_secret d)
                         (dr_nonce d) a)
  | CVerify id sig =>
    answer AToken (auth_verify key b64url_decode sec1_key_ok signature_ok ecdsa_verify id sig
                     (dr_now d) (dr_secret d) a)
  | CAuthorize token => answer APrincipal (a, authorize key token (dr_now d) a)
  | CDevicePrincipal client => answer APrincipal (a, device_principal client (dr_now d) a)
  | CIssueWs p channel session =>
    answer AToken (issue_ws key p channel session (dr_now d) (dr_secret d) a)
  | CConsumeWs token channel => answer AWs (consume_ws key token channel (dr_now d) a)
  end.

(** The part of a call under the mutex. *)
Definition call_lock (c : Call) (d : Draw) (a : Auth) : Auth * Answer :=
  match c with
  | CIssueWs p channel session =>
    answer AToken (issue_ws_lock key p channel session (dr_now d) (dr_secret d) a)
  | _ => late (call_atomic c d) a
  end.

(** A new secret is not the ticket of a call that has already begun, and a new
    client identifier is not in use. *)
Definition fresh_draw (c : Call) (d : Draw) (a : Auth) (calls : list Call) : Prop :=
  match c with
  | CIssuePair _ => forall t pk l, CPair t pk l ∈ calls -> key t <> key (dr_secret d)
  | CPair _ _ _ => devices a !! dr_client d = None
  | _ => True
  end.

(** A principal presented to [issue_ws] was handed out before. *)
Definition presented (c : Call) (out : list Principal) : Prop :=
  match c with CIssueWs p _ _ => p ∈ out | _ => True end.

(** Steps.  The local user resumes a blocked host; when [serial] holds, a block or
    resume starts only while no other one is under way. *)
Context (serial : bool).
Definition may_start (cmds : list Stage) : Prop := serial = true -> cmds = [].

Inductive race_step : Race -> Race -> Prop :=
| race_begin c now a st out calls cmds :
    call_begin c now a = Ok tt -> presented c out ->
    race_step (Build_Race a st out calls cmds) (Build_Race a st out (c :: calls) cmds)
| race_finish c d a a' r st out cs1 cs2 cmds :
    fresh_draw c d a (cs1 ++ cs2) -> call_lock c d a = (a', r) ->
    race_step (Build_Race a st out (cs1 ++ c :: cs2) cmds)
      (Build_Race a' st (granted r ++ out) (cs1 ++ cs2) cmds)
| race_revoke id saved a st out calls cmds :
    race_step (Build_Race a st out calls cmds)
      (Build_Race (fst (auth_revoke id saved a)) st out calls cmds)
| race_block a st out calls cmds :
    may_start cmds ->
    race_step (Build_Race a st out calls cmds)
      (Build_Race (block_flag a) st out calls (BlockFlagged :: cmds))
| race_block_persist (ok : bool) a st out calls ss1 ss2 :
    race_step (Build_Race a st out calls (ss1 ++ BlockFlagged :: ss2))
      (Build_Race a (ok || st) out calls (ss1 ++ BlockPersisted :: ss2))
| race_block_lock a st out calls ss1 ss2 :
    race_step (Build_Race a st out calls (ss1 ++ BlockPersisted :: ss2))
      (Build_Race (block_lock a) st out calls (ss1 ++ ss2))
| race_resume a st out calls cmds :
    a_blocked a = true -> may_start cmds ->
    race_step (Build_Race a st out calls cmds)
      (Build_Race a false out calls (ResumePersisted :: cmds))
| race_resume_lock a st out calls ss1 ss2 :
    race_step (Build_Race a st out calls (ss1 ++ ResumePersisted :: ss2))
      (Build_Race (resume_lock a) st out calls (ss1 ++ ResumeLocked :: ss2))
| race_resume_flag a st out calls ss1 ss2 :
    race_step (Build_Race a st out calls (ss1 ++ ResumeLocked :: ss2))
      (Build_Race (resume_flag a) st out calls (ss1 ++ ss2)).

Lemma issue_ws_steps p channel session now token a :
  issue_ws key p channel session now token a =
  match issue_ws_checks (cancelled a) p channel session now with
  | Err e => (a, Err e)
  | Ok _ => issue_ws_lock key p channel session now token a
  end.
Proof.
  unfold issue_ws, issue_ws_checks, issue_ws_lock.
  destruct (negb (bool_decide _)); [done|]. destruct (principal_require _ _ _ _); [|done].
  by destruct (bool_decide _ && option_is_none session).
Qed.

(** ** What a call does to the state *)

(** No pairing ticket of [a'] is new. *)
Definition pairs_from (a a' : Auth) : Prop :=
  forall k, pairs a !! k = None -> pairs a' !! k = None.

Lemma pairs_from_prune now a : pairs_from a (auth_prune now a).
Proof. intros k Hk. apply map_lookup_filter_None. by left. Qed.
Lemma pairs_from_limit now a : pairs_from a (fst (anonymous_limit now a)).
Proof.
  intros k Hk. unfold anonymous_limit. repeat case_match; cbn; try done;
    apply map_lookup_filter_None; by left.
Qed.

(** A call adds at most the device of a pending pairing ticket, the WebSocket
    ticket of its principal or one pairing ticket, and hands out principals of
    WebSocket tickets and of current devices. *)
Record call_effect (c : Call) (d : Draw) (a a' : Auth) (r : Answer) : Prop := {
  ce_core : auth_core a' = auth_core a \/
    exists t pk l dv n, c = CPair t pk l /\ pairs a !! key t <> None /\
      d_revoked (ds_device dv) = false /\
      auth_core a' = (a_blocked a, <[dr_client d := dv]> (devices a), cancelled a, n);
  ce_ws : forall k t, ws a' !! k = Some t ->
    ws a !! k = Some t \/ exists ch s, c = CIssueWs (wt_principal t) ch s;
  ce_pairs : forall k, pairs a !! k = None ->
    pairs a' !! k = None \/ (k = key (dr_secret d) /\ exists sc, c = CIssuePair sc);
  ce_grant : forall p, p ∈ granted r -> ~ (exists q ch s, c = CIssueWs q ch s) /\
    ((exists k t, ws a !! k = Some t /\ wt_principal t = p) \/
     exists dv, devices a !! p_client_id p = Some dv /\ ds_cancel dv = p_revoked p)
}.

(** A call that changes neither devices nor cancellations, and hands out nothing. *)
Lemma quiet_effect c d a a' r :
  auth_core a' = auth_core a -> ws_from a a' -> granted r = [] ->
  (forall k, pairs a !! k = None ->
    pairs a' !! k = None \/ (k = key (dr_secret d) /\ exists sc, c = CIssuePair sc)) ->
  call_effect c d a a' r.
Proof.
  intros Hc Hw Hg Hp. split; [by left|by left; apply Hw|done|].
  rewrite Hg. by intros p Hp'%elem_of_nil.
Qed.

Lemma issue_pair_effect scopes d a :
  let x := issue_pair_ticket key scopes (dr_now d) (dr_secret d) a in
  call_effect (CIssuePair scopes) d a (fst x) (AToken (snd x)).
Proof.
  intros x. destruct (issue_pair_ticket_core key scopes (dr_now d) (dr_secret d) a) as [Hc Hw].
  apply quiet_effect; [done|done|done|]. intros k Hk. subst x. unfold issue_pair_ticket.
  repeat case_match; cbn [fst]; try by left.
  - left. by apply pairs_from_prune.
  - destruct (decide (key (dr_secret d) = k)) as [<-|Hne]; [right; eauto|left].
    cbn. rewrite lookup_insert_ne by done. by apply pairs_from_prune.
Qed.
Lemma auth_pair_pairs ticket pk label now client saved a :
  let a' := fst (auth_pair key b64url_decode sec1_key_ok ticket pk label now client saved a) in
  pairs_from a a' /\ (auth_core a' = auth_core a \/ pairs a !! key ticket <> None).
Proof.
  assert (pairs_from a a) as Hrefl by by intros k.
  unfold auth_pair. case_match; [|by auto]. case_match; [by auto|]. case_match; [|by auto].
  case_match; [by auto|]. pose proof (pairs_from_limit now a) as Hl.
  destruct (anonymous_limit now a) as [a1 r1] eqn:E. cbn in Hl.
  apply anonymous_limit_core in E as [Hc _]. destruct r1; [|by auto].
  destruct (pairs a1 !! key ticket) as [t|] eqn:Et; [|by auto].
  assert (pairs a !! key ticket <> None) as Hin by (intros Hn; apply Hl in Hn; congruence).
  assert (forall k, pairs a !! k = None -> delete (key ticket) (pairs a1) !! k = None) as Hd.
  { intros k Hk. apply lookup_delete_None. right. by apply Hl. }
  by repeat case_match; cbn [fst]; split; (exact Hd || by right).
Qed.
Lemma pair_effect ticket pk label d a :
  let x := auth_pair key b64url_decode sec1_key_ok ticket pk label (dr_now d) (dr_client d)
             (dr_saved d) a in
  call_effect (CPair ticket pk label) d a (fst x) (ADevice (snd x)).
Proof.
  intros x. destruct (auth_pair_cases key b64url_decode sec1_key_ok ticket pk label (dr_now d)
    (dr_client d) (dr_saved d) a) as [Hw Hc].
  destruct (auth_pair_pairs ticket pk label (dr_now d) (dr_client d) (dr_saved d) a) as [Hp Hk].
  split; cbn; [|by left; apply Hw|by left; apply Hp|by intros p Hp'%elem_of_nil].
  destruct Hc as [?|(dv & n & Hr & Hb & Hc)]; [by left|]. destruct Hk as [?|Hk]; [by left|].
  right. exists ticket, pk, label, dv, n. by rewrite Hb.
Qed.
Lemma challenge_effect client d a :
  let x := auth_challenge audience client (dr_now d) (dr_unix_ms d) (dr_secret d) (dr_nonce d) a in
  call_effect (CChallenge client) d a (fst x) (AChallenge (snd x)).
Proof.
  intros x. destruct (auth_challenge_core audience client (dr_now d) (dr_unix_ms d) (dr_secret d)
    (dr_nonce d) a) as [Hc Hw].
  apply quiet_effect; [done|done|done|]. intros k Hk. left. subst x. unfold auth_challenge.
  case_match; [|done]. pose proof (pairs_from_limit (dr_now d) a k Hk) as Hl.
  destruct (anonymous_limit (dr_now d) a) as [a1 r1]. by repeat case_match.
Qed.
Lemma verify_effect id sig d a :
  let x := auth_verify key b64url_decode sec1_key_ok signature_ok ecdsa_verify id sig
             (dr_now d) (dr_secret d) a in
  call_effect (CVerify id sig) d a (fst x) (AToken (snd x)).
Proof.
  intros x. destruct (auth_verify_core key b64url_decode sec1_key_ok signature_ok ecdsa_verify
    id sig (dr_now d) (dr_secret d) a) as [Hc Hw].
  apply quiet_effect; [done|done|done|]. intros k Hk. left. subst x. unfold auth_verify.
  case_match; [|done]. case_match; [done|].
  pose proof (pairs_from_limit (dr_now d) a k Hk) as Hl.
  destruct (anonymous_limit (dr_now d) a) as [a1 r1]. by repeat case_match.
Qed.
Lemma consume_effect token channel d a :
  let x := consume_ws key token channel (dr_now d) a in
  call_effect (CConsumeWs token channel) d a (fst x) (AWs (snd x)).
Proof.
  intros x. destruct (consume_ws_core key token channel (dr_now d) a) as (Hc & Hw & Hp).
  split; [by left|by left; apply Hw| |].
  - intros k Hk. left. subst x. pose proof (pairs_from_prune (dr_now d) a k Hk).
    unfold consume_ws. by repeat case_match.
  - intros p. subst x. cbn. destruct (snd _) as [[q s]|e]; [|by intros ?%elem_of_nil].
    intros ->%list_elem_of_singleton. split; [by intros (?&?&?&?)|]. left.
    destruct (Hp q s eq_refl) as (t & Ht & Hq & _). eauto.
Qed.
Lemma issue_ws_effect p channel session d a :
  let x := issue_ws_lock key p channel session (dr_now d) (dr_secret d) a in
  call_effect (CIssueWs p channel session) d a (fst x) (AToken (snd x)).
Proof.
  intros x. subst x. unfold issue_ws_lock. case_match; split; cbn; try by left.
  - intros k t [? _]%map_lookup_filter_Some. by left.
  - left. by apply (pairs_from_prune (dr_now d)).
  - by intros q ?%elem_of_nil.
  - intros k t [[_ <-]|[_ Hk]]%lookup_insert_Some; [right; eauto|].
    apply map_lookup_filter_Some in Hk as [? _]. by left.
  - left. by apply (pairs_from_prune (dr_now d)).
  - by intros q ?%elem_of_nil.
Qed.
Lemma grant_effect c d a r :
  ~ (exists q ch s, c = CIssueWs q ch s) ->
  (forall p, r = Ok p -> exists dv, devices a !! p_client_id p = Some dv /\ ds_cancel dv = p_revoked p) ->
  call_effect c d a a (APrincipal r).
Proof.
  intros Hc Hr. split; [by left|by left|by left|]. intros p. cbn.
  destruct r as [q|e]; [|by intros ?%elem_of_nil]. intros ->%list_elem_of_singleton. eauto.
Qed.

Lemma atomic_effect c d a :
  (forall p ch s, c <> CIssueWs p ch s) ->
  call_effect c d a (fst (call_atomic c d a)) (snd (call_atomic c d a)).
Proof.
  intros Hc. destruct c; cbn [call_atomic answer fst snd].
  - apply issue_pair_effect.
  - apply pair_effect.
  - apply challenge_effect.
  - apply verify_effect.
  - apply grant_effect; [by intros (?&?&?&?)|].
    intros p (_ & _ & dv & Hd & _ & Ht & _)%authorize_Ok. eauto.
  - apply grant_effect; [by intros (?&?&?&?)|].
    intros p (_ & _ & dv & Hd & _ & Ht & _)%device_principal_Ok. eauto.
  - by edestruct Hc.
  - apply consume_effect.
Qed.

(** The part under the mutex, on a state whose flag the call does not read again. *)
Lemma late_effect c d (f : Auth -> Auth * Answer) a :
  call_effect c d (set_blocked false a) (fst (f (set_blocked false a)))
    (snd (f (set_blocked false a))) ->
  call_effect c d a (fst (late f a)) (snd (late f a)).
Proof.
  unfold late. destruct (f (set_blocked false a)) as [a' r]. cbn. intros [C W P G].
  split; [|exact W|exact P|exact G].
  unfold auth_core in *. cbn in *.
  destruct C as [[= _ -> -> ->]|(t & pk & l & dv & n & -> & Hp & Hr & [= _ -> -> ->])];
    [by left|right]. exists t, pk, l, dv, n. done.
Qed.
Lemma call_lock_effect c d a a' r :
  call_lock c d a = (a', r) -> call_effect c d a a' r.
Proof.
  intros E. replace a' with (fst (call_lock c d a)) by by rewrite E.
  replace r with (snd (call_lock c d a)) by by rewrite E. clear E.
  destruct c; try (apply late_effect; by apply atomic_effect). apply issue_ws_effect.
Qed.

(** On an open host nothing distinguishes the two readings of the flag. *)
Lemma late_open (f : Auth -> Auth * Answer) a :
  a_blocked a = false -> a_blocked (fst (f a)) = false -> late f a = f a.
Proof.
  intros Hb Hb'. unfold late.
  replace (set_blocked false a) with a by (destruct a; cbn in *; by subst).
  destruct (f a) as [a' r]. rewrite Hb. destruct a'; cbn in *. by subst.
Qed.
Lemma atomic_open c d a :
  (forall p ch s, c <> CIssueWs p ch s) ->
  call_atomic c d a =
  match ensure_open a with
  | Err e => (a, answer_err c e)
  | Ok _ => late (call_atomic c d) a
  end.
Proof.
  intros Hc. unfold ensure_open. destruct (a_blocked a) eqn:Hb.
  - destruct c; cbn [call_atomic];
      unfold issue_pair_ticket, auth_pair, auth_challenge, auth_verify, authorize,
        device_principal, consume_ws, ensure_open; rewrite ?Hb; try done. by edestruct Hc.
  - symmetry. apply late_open; [done|].
    destruct (ce_core _ _ _ _ _ (atomic_effect c d a Hc))
      as [[= -> _ _ _]|(? & ? & ? & ? & ? & _ & _ & _ & [= -> _ _ _])]; done.
Qed.

(** ** Serialised commands *)

(** The cut-off: every principal handed out is cancelled, and no call that is past
    its check can hand out another one. *)
Definition sealed (a : Auth) (out : list Principal) (calls : list Call) : Prop :=
  (forall p, p ∈ out -> p_revoked p ∈ cancelled a) /\
  ((forall c, c ∈ calls -> exists p ch s, c = CIssueWs p ch s) \/
   ((forall i dv, devices a !! i = Some dv -> ds_cancel dv ∈ cancelled a) /\
    (forall t pk l, CPair t pk l ∈ calls -> pairs a !! key t = None))).

Record race_inv (w : Race) : Prop := {
  ri_known : forall p, p ∈ r_out w -> is_Some (devices (r_auth w) !! p_client_id p);
  ri_current : forall p, p ∈ r_out w -> p_revoked p ∈ cancelled (r_auth w) \/
    exists dv, devices (r_auth w) !! p_client_id p = Some dv /\ ds_cancel dv = p_revoked p;
  ri_ws : forall k t, ws (r_auth w) !! k = Some t -> wt_principal t ∈ r_out w;
  ri_calls : forall c, c ∈ r_calls w -> presented c (r_out w);
  ri_cmds : (length (r_cmds w) <= 1)%nat;
  ri_resume : ResumePersisted ∈ r_cmds w -> a_blocked (r_auth w) = true;
  ri_sealed : a_blocked (r_auth w) = true ->
    (forall s, s ∈ r_cmds w -> s = ResumePersisted) ->
    sealed (r_auth w) (r_out w) (r_calls w)
}.

Lemma lone_stage (ss1 ss2 : list Stage) s :
  (length (ss1 ++ s :: ss2) <= 1)%nat -> ss1 = [] /\ ss2 = [].
Proof. rewrite length_app. cbn. intros H. split; apply length_zero_iff_nil; lia. Qed.

(** What a call hands out was handed out before or belongs to a current device. *)
Lemma effect_granted c d a a' r out p :
  (forall k t, ws a !! k = Some t -> wt_principal t ∈ out) ->
  call_effect c d a a' r -> p ∈ granted r ++ out ->
  p ∈ out \/ exists dv, devices a !! p_client_id p = Some dv /\ ds_cancel dv = p_revoked p.
Proof.
  intros Hws E [Hp|Hp]%elem_of_app; [|by left].
  destruct (ce_grant _ _ _ _ _ E p Hp) as [_ [(k & t & Ht & <-)|Hd]]; [left|by right].
  by apply (Hws k).
Qed.

(** A call leaves the flag and the cancellations alone, and the known devices. *)
Lemma effect_stable c d a a' r calls :
  call_effect c d a a' r -> fresh_draw c d a calls ->
  a_blocked a' = a_blocked a /\ cancelled a' = cancelled a /\
  (forall i dv, devices a !! i = Some dv -> devices a' !! i = Some dv).
Proof.
  intros E F. destruct (ce_core _ _ _ _ _ E)
    as [[= -> -> -> _]|(t & pk & l & dv & n & -> & _ & _ & [= -> -> -> _])]; [done|].
  cbn in F. split; [done|]. split; [done|]. intros i dv' Hi.
  rewrite lookup_insert_ne by congruence. done.
Qed.

Lemma effect_sealed c d a a' r out cs1 cs2 :
  (forall k t, ws a !! k = Some t -> wt_principal t ∈ out) -> call_effect c d a a' r ->
  fresh_draw c d a (cs1 ++ cs2) ->
  sealed a out (cs1 ++ c :: cs2) -> sealed a' (granted r ++ out) (cs1 ++ cs2).
Proof.
  intros Hws E F [Hout Hcut].
  destruct (effect_stable _ _ _ _ _ _ E F) as (_ & Hcan & _).
  assert (forall c', c' ∈ cs1 ++ cs2 -> c' ∈ cs1 ++ c :: cs2) as Hsub.
  { intros c'. rewrite !elem_of_app, elem_of_cons. tauto. }
  assert (c ∈ cs1 ++ c :: cs2) as Hc by (apply elem_of_app; right; left).
  destruct Hcut as [Hex|[Hdev Hpair]]; split.
  - intros p [Hp|Hp]%elem_of_app; rewrite Hcan; [|by apply Hout].
    destruct (ce_grant _ _ _ _ _ E p Hp) as [Hne _]. by destruct Hne; apply Hex.
  - left. eauto.
  - intros p Hp. rewrite Hcan.
    destruct (effect_granted _ _ _ _ _ _ _ Hws E Hp) as [?|(dv & Hd & <-)]; eauto.
  - right. split.
    + intros i dv. rewrite Hcan. destruct (ce_core _ _ _ _ _ E)
        as [[= _ -> _ _]|(t & pk & l & dv' & n & -> & Hne & _)]; [apply Hdev|].
      by destruct Hne; eapply Hpair.
    + intros t pk l Ht. destruct (ce_pairs _ _ _ _ _ E (key t)) as [?|[Hk (sc & ->)]]; [eauto|done|].
      by destruct (F t pk l Ht).
Qed.

Lemma inv_begin c now a st out calls cmds :
  race_inv (Build_Race a st out calls cmds) -> call_begin c now a = Ok tt -> presented c out ->
  race_inv (Build_Race a st out (c :: calls) cmds).
Proof.
  intros [I1 I2 I3 I4 I5 I6 I7] Hb Hp. split; cbn in *; try done.
  - by intros c' [->|?]%elem_of_cons; [|apply I4].
  - intros Hbl Hs. destruct (I7 Hbl Hs) as [Hout Hcut]. split; [done|].
    assert (exists p ch s, c = CIssueWs p ch s) as (p & ch & s & ->).
    { unfold call_begin, ensure_open in Hb. rewrite Hbl in Hb. destruct c; eauto; done. }
    destruct Hcut as [Hex|[Hdev Hpair]]; [left|right; split; [done|]].
    + intros c' [->|?]%elem_of_cons; eauto.
    + intros t pk l [?|?]%elem_of_cons; [done|eauto].
Qed.
Lemma inv_finish c d a a' r st out cs1 cs2 cmds :
  race_inv (Build_Race a st out (cs1 ++ c :: cs2) cmds) ->
  fresh_draw c d a (cs1 ++ cs2) -> call_lock c d a = (a', r) ->
  race_inv (Build_Race a' st (granted r ++ out) (cs1 ++ cs2) cmds).
Proof.
  intros [I1 I2 I3 I4 I5 I6 I7] F E%call_lock_effect. cbn in *.
  destruct (effect_stable _ _ _ _ _ _ E F) as (Hbl & Hcan & Hdev).
  pose proof (fun p => effect_granted _ _ _ _ _ _ p I3 E) as Hg.
  assert (c ∈ cs1 ++ c :: cs2) as Hc by (apply elem_of_app; right; left).
  split; cbn; rewrite ?Hbl, ?Hcan; try done.
  - intros p Hp. destruct (Hg p Hp) as [Ho|(dv & Hd & _)]; [|by eauto].
    destruct (I1 p Ho) as [dv Hd]. eauto.
  - intros p Hp. destruct (Hg p Hp) as [Ho|(dv & Hd & Ht)]; [|by eauto].
    destruct (I2 p Ho) as [?|(dv & Hd & Ht)]; eauto.
  - intros k t Ht. apply elem_of_app. right.
    destruct (ce_ws _ _ _ _ _ E k t Ht) as [?|(ch & s & ->)]; [by eapply I3|apply (I4 _ Hc)].
  - intros c' Hc'. assert (presented c' out) as Hpr.
    { apply I4. rewrite elem_of_app, elem_of_cons. apply elem_of_app in Hc'. tauto. }
    destruct c'; try done. apply elem_of_app. by right.
  - intros Hb Hs. eapply effect_sealed; eauto.
Qed.
Lemma inv_revoke_race id saved a st out calls cmds :
  race_inv (Build_Race a st out calls cmds) ->
  race_inv (Build_Race (fst (auth_revoke id saved a)) st out calls cmds).
Proof.
  intros I. destruct (auth_revoke_cases id saved a) as [Hw [-> |(dv & Hdv & Hc)]]; [done|].
  assert (forall k, pairs a !! k = None -> pairs (fst (auth_revoke id saved a)) !! k = None) as Hp.
  { intros k. unfold auth_revoke. by repeat case_match. }
  destruct I as [I1 I2 I3 I4 I5 I6 I7]. injection Hc as Hb Hd Hcan _. cbn in *.
  assert (forall i, devices (fst (auth_revoke id saved a)) !! i = devices a !! i \/
    (i = id /\ exists dv', devices (fst (auth_revoke id saved a)) !! i = Some dv' /\
      ds_cancel dv' = ds_cancel dv)) as Hlook.
  { intros i. rewrite Hd. destruct (decide (id = i)) as [<-|?];
      [rewrite lookup_insert_eq; right; eauto|rewrite lookup_insert_ne by done; by left]. }
  split; cbn; rewrite ?Hb, ?Hcan; try done.
  - intros p Hpo. destruct (Hlook (p_client_id p)) as [->|(_ & dv' & -> & _)]; [by apply I1|done].
  - intros p Hpo. destruct (I2 p Hpo) as [?|(dv' & Hd' & Ht)]; [left; set_solver|].
    destruct (Hlook (p_client_id p)) as [->|(Hid & _)]; [right; eauto|]. left.
    rewrite Hid, Hdv in Hd'. set_solver.
  - intros k t Ht. eapply I3. by apply Hw.
  - intros Hbl Hs. destruct (I7 Hbl Hs) as [Hout Hcut].
    split; [intros p Hpo; rewrite Hcan; apply elem_of_union_r; eauto|].
    destruct Hcut as [Hex|[Hdev Hpair]]; [by left|right]. split; [|eauto].
    intros i dv' Hi. rewrite Hcan. destruct (Hlook i) as [Heq|(-> & dv2 & Hi2 & Ht)].
    + rewrite Heq in Hi. apply elem_of_union_r. eauto.
    + rewrite Hi2 in Hi. simplify_eq. set_solver.
Qed.

Lemma inv_block_flag a st out calls :
  race_inv (Build_Race a st out calls []) ->
  race_inv (Build_Race (block_flag a) st out calls [BlockFlagged]).
Proof.
  intros [I1 I2 I3 I4 I5 I6 I7]. split; cbn in *; try done.
  intros _ Hs. by specialize (Hs BlockFlagged (list_elem_of_here _ _)).
Qed.
Lemma inv_block_persist (b : bool) a st out calls :
  race_inv (Build_Race a st out calls [BlockFlagged]) ->
  race_inv (Build_Race a (b || st) out calls [BlockPersisted]).
Proof.
  intros [I1 I2 I3 I4 I5 I6 I7]. split; cbn in *; try done.
  - by intros ?%list_elem_of_singleton.
  - intros _ Hs. by specialize (Hs BlockPersisted (list_elem_of_here _ _)).
Qed.
Lemma inv_block_lock a st out calls :
  race_inv (Build_Race a st out calls [BlockPersisted]) ->
  race_inv (Build_Race (block_lock a) st out calls []).
Proof.
  intros [I1 I2 I3 I4 I5 I6 I7]. cbn in *.
  assert (forall p, p ∈ out -> p_revoked p ∈ cancelled (block_lock a)) as Hall.
  { intros p Hp. cbn. destruct (I2 p Hp) as [?|(d & Hd & <-)]; [set_solver|].
    apply elem_of_union_l, elem_of_map_to_set. eauto. }
  split; cbn; try done; [by intros p Hp; left; apply Hall|lia|by intros ?%elem_of_nil|].
  intros _ _. split; [exact Hall|]. right. split; [|done].
  intros i dv Hi. apply elem_of_union_l, elem_of_map_to_set. eauto.
Qed.
Lemma inv_resume_start a st out calls :
  a_blocked a = true -> race_inv (Build_Race a st out calls []) ->
  race_inv (Build_Race a false out calls [ResumePersisted]).
Proof.
  intros Hb [I1 I2 I3 I4 I5 I6 I7]. split; cbn in *; try done.
  intros _ _. apply I7; [done|]. by intros s ?%elem_of_nil.
Qed.
Lemma inv_resume_lock a st out calls :
  race_inv (Build_Race a st out calls [ResumePersisted]) ->
  race_inv (Build_Race (resume_lock a) st out calls [ResumeLocked]).
Proof.
  intros [I1 I2 I3 I4 I5 I6 I7]. cbn in *.
  destruct I7 as [Hout _]; [apply I6; by left|by intros s ?%list_elem_of_singleton|].
  split; cbn; try done.
  - intros p Hp. rewrite map_lookup_imap. destruct (I1 p Hp) as [d ->]. by cbn.
  - intros p Hp. left. by apply Hout.
  - by intros ?%list_elem_of_singleton.
  - intros _ Hs. by specialize (Hs ResumeLocked (list_elem_of_here _ _)).
Qed.
Lemma inv_resume_flag a st out calls :
  race_inv (Build_Race a st out calls [ResumeLocked]) ->
  race_inv (Build_Race (resume_flag a) st out calls []).
Proof. intros [I1 I2 I3 I4 I5 I6 I7]. split; cbn in *; try done; [lia|by intros ?%elem_of_nil]. Qed.

(** No step adds a device to a sealed host. *)
Lemma sealed_step_devices w w' :
  sealed (r_auth w) (r_out w) (r_calls w) -> r_cmds w = [] -> race_step w w' ->
  dom (devices (r_auth w')) = dom (devices (r_auth w)).
Proof.
  intros [_ Hcut] Hc Hst.
  destruct Hst as [|c d a a' r st out cs1 cs2 cmds F E|id saved a st out calls cmds
    | |ok a st out calls ss1 ss2|a st out calls ss1 ss2| |a st out calls ss1 ss2
    |a st out calls ss1 ss2]; cbn in *; try done; try by destruct ss1.
  - apply call_lock_effect in E.
    assert (c ∈ cs1 ++ c :: cs2) as Hin by (apply elem_of_app; right; left).
    destruct (ce_core _ _ _ _ _ E) as [[= _ -> _ _]|(t & pk & l & dv & n & -> & Hne & _)]; [done|].
    destruct Hcut as [Hex|[_ Hp]]; [by destruct (Hex _ Hin) as (?&?&?&?)|].
    by destruct Hne; eapply Hp.
  - destruct (auth_revoke_cases id saved a) as [_ [-> |(dv & Hd & [= _ -> _ _])]]; [done|].
    rewrite dom_insert_L. apply elem_of_dom_2 in Hd. set_solver.
Qed.

Lemma race_step_inv w w' : serial = true -> race_inv w -> race_step w w' -> race_inv w'.
Proof.
  intros Hser I Hstep. pose proof (ri_cmds _ I) as Hlen.
  destruct Hstep as [c now a st out calls cmds|c d a a' r st out cs1 cs2 cmds
    |id saved a st out calls cmds|a st out calls cmds Hs|ok a st out calls ss1 ss2
    |a st out calls ss1 ss2|a st out calls cmds Hb Hs|a st out calls ss1 ss2
    |a st out calls ss1 ss2]; cbn in Hlen; try apply lone_stage in Hlen as [-> ->];
    rewrite ?(Hs Hser) in *; cbn [app] in *.
  - by eapply inv_begin.
  - by eapply inv_finish.
  - by apply inv_revoke_race.
  - by apply inv_block_flag.
  - by apply inv_block_persist.
  - by apply inv_block_lock.
  - by eapply inv_resume_start.
  - by apply inv_resume_lock.
  - by apply inv_resume_flag.
Qed.
Lemma race_new_inv stored blocked t0 : race_inv (race_new stored blocked t0).
Proof.
  split; cbn; try (intros p Hp; by apply elem_of_nil in Hp).
  - intros k t Ht. by rewrite lookup_empty in Ht.
  - lia.
  - by intros ?%elem_of_nil.
  - intros _ _. split; [by intros p ?%elem_of_nil|]. left. by intros c ?%elem_of_nil.
Qed.
Lemma race_reachable_inv stored blocked t0 w :
  serial = true -> steps race_step (race_new stored blocked t0) w -> race_inv w.
Proof.
  intros Hser Hs. eapply (steps_invariant race_step race_inv);
    [|exact Hs|apply race_new_inv]. intros; by eapply race_step_inv.
Qed.
End Race.

(** ** What blocking promises *)
Section Promise.
Context (key : string -> Digest) (b64url_decode : string -> option bytes)
  (sec1_key_ok : bytes -> bool) (signature_ok : bytes -> bool)
  (ecdsa_verify : bytes -> string -> bytes -> bool) (audience : string).
Notation call_atomic := (call_atomic key b64url_decode sec1_key_ok signature_ok ecdsa_verify audience).
Notation call_lock := (call_lock key b64url_decode sec1_key_ok signature_ok ecdsa_verify audience).
Notation race_step := (race_step key b64url_decode sec1_key_ok signature_ok ecdsa_verify audience).

(** A call that nothing interrupts between its check and its critical section is
    the operation of [Auth], its error answers included. *)
Theorem call_split c d a :
  call_atomic c d a =
  match call_begin c (dr_now d) a with
  | Err e => (a, answer_err c e)
  | Ok _ => call_lock c d a
  end.
Proof.
  destruct c; try by apply atomic_open.
  cbn [call_begin AuthRace.call_atomic AuthRace.call_lock]. rewrite issue_ws_steps.
  by destruct (issue_ws_checks _ _ _ _ _).
Qed.


(** Run without interruption, the statements are the operations of [Auth]. *)
Lemma block_all_steps a : block_all a = block_lock (block_flag a).
Proof. done. Qed.
Lemma resume_local_steps a : resume_local true a = resume_flag (resume_lock a).
Proof. done. Qed.

(** A pairing ticket can outlive a block.  A call of [issue_pair_ticket] that read
    the flag before [block_all] and gets the mutex after it stores its ticket in the
    cleared table; the ticket is pending when the host is resumed. *)
Theorem pairing_ticket_survives_block scopes d a st out :
  a_blocked a = false -> scopes <> [] ->
  exists a1 a2,
    steps (race_step true) (Build_Race a st out [] []) (Build_Race a1 true out [] []) /\
    a_blocked a1 = true /\
    steps (race_step true) (Build_Race a1 true out [] []) (Build_Race a2 false out [] []) /\
    a_blocked a2 = false /\
    pairs a2 = {[key (dr_secret d) :=
                  {| pt_scopes := scopes; pt_until := dr_now d + secs 300 |}]}.
Proof.
  intros Hb Hsc.
  set (a0 := block_lock (block_flag a)).
  exists (fst (call_lock (CIssuePair scopes) d a0)).
  exists (resume_flag (resume_lock (fst (call_lock (CIssuePair scopes) d a0)))).
  assert (call_lock (CIssuePair scopes) d a0 =
    (set_tables {[key (dr_secret d) :=
       {| pt_scopes := scopes; pt_until := dr_now d + secs 300 |}]} ∅ ∅ ∅ a0,
     AToken (Ok (dr_secret d)))) as E.
  { unfold AuthRace.call_lock, late. cbn. unfold issue_pair_ticket. cbn.
    rewrite bool_decide_eq_false_2 by done.
    rewrite !map_filter_empty, map_size_empty. done. }
  rewrite E. cbn [fst]. split; [|split; [done|split; [|done]]].
  - eapply steps_trans; [apply (race_begin _ _ _ _ _ _ _ (CIssuePair scopes) 0); [|done]|].
    { cbn. unfold ensure_open. by rewrite Hb. }
    eapply steps_trans; [by apply race_block|].
    eapply steps_trans; [apply (race_block_persist _ _ _ _ _ _ _ true _ _ _ _ [] [])|].
    eapply steps_trans; [apply (race_block_lock _ _ _ _ _ _ _ _ _ _ _ [] [])|].
    apply steps_one.
    apply (race_finish _ _ _ _ _ _ _ (CIssuePair scopes) d a0 _ (AToken (Ok (dr_secret d)))
             true out [] [] []); [by intros t pk l ?%elem_of_nil|exact E].
  - eapply steps_trans; [by apply race_resume|].
    eapply steps_trans; [apply (race_resume_lock _ _ _ _ _ _ _ _ _ _ _ [] [])|].
    apply steps_one, (race_resume_flag _ _ _ _ _ _ _ _ _ _ _ [] []).
Qed.

(** A block that meets a resume under way is lost.  The resume has renewed the
    tokens when the whole block runs, and then stores the flag: the host is open in
    memory and blocked in the store, and every device it knows is cancelled, a state
    that neither order of the two commands gives. *)
Theorem block_during_resume_is_lost a out :
  a_blocked a = true ->
  exists a',
    steps (race_step false) (Build_Race a true out [] []) (Build_Race a' true out [] []) /\
    a_blocked a' = false /\ dom (devices a') = dom (devices a) /\
    forall i dv, devices a' !! i = Some dv -> ds_cancel dv ∈ cancelled a'.
Proof.
  intros Hb. exists (resume_flag (block_lock (block_flag (resume_lock a)))). split.
  - eapply steps_trans; [by apply race_resume|].
    eapply steps_trans; [apply (race_resume_lock _ _ _ _ _ _ _ _ _ _ _ [] [])|].
    eapply steps_trans; [by apply race_block|].
    eapply steps_trans; [apply (race_block_persist _ _ _ _ _ _ _ true _ _ _ _ [] [ResumeLocked])|].
    eapply steps_trans; [apply (race_block_lock _ _ _ _ _ _ _ _ _ _ _ [] [ResumeLocked])|].
    apply steps_one, (race_resume_flag _ _ _ _ _ _ _ _ _ _ _ [] []).
  - split; [done|]. split.
    + cbn. apply dom_imap_L. intros i. rewrite elem_of_dom. unfold is_Some. naive_solver.
    + intros i dv Hi. cbn. apply elem_of_union_l, elem_of_map_to_set. eauto.
Qed.
End Promise.

(** ** Concrete runs *)
Definition sample_draw : Draw :=
  {| dr_now := secs 1; dr_unix_ms := 1000; dr_secret := "s"; dr_nonce := "n";
     dr_client := 9; dr_saved := true |}.

(** A call that read the open flag before the block finishes after it: its principal
    is cancelled. *)
Definition sample_sealed : Auth := block_lock (block_flag sample_auth).
Lemma pairing_ticket_survives_block_witness :
  exists a1 a2,
    steps (race_step sample_key sample_b64 (fun _ => true) (fun _ => true) sample_sig "host" true)
      (Build_Race sample_auth false [] [] []) (Build_Race a1 true [] [] []) /\
    a_blocked a1 = true /\
    steps (race_step sample_key sample_b64 (fun _ => true) (fun _ => true) sample_sig "host" true)
      (Build_Race a1 true [] [] []) (Build_Race a2 false [] [] []) /\
    a_blocked a2 = false /\
    pairs a2 = {[sample_key "s" := {| pt_scopes := Scope_owner; pt_until := secs 301 |}]}.
Proof.
  apply (pairing_ticket_survives_block sample_key sample_b64 (fun _ => true) (fun _ => true)
    sample_sig "host" Scope_owner sample_draw); [by vm_compute|by vm_compute].
Defined.
Lemma block_during_resume_is_lost_witness :
  exists a',
    steps (race_step sample_key sample_b64 (fun _ => true) (fun _ => true) sample_sig "host" false)
      (Build_Race (block_all sample_auth) true [] [] []) (Build_Race a' true [] [] []) /\
    a_blocked a' = false /\ dom (devices a') = dom (devices (block_all sample_auth)) /\
    forall i dv, devices a' !! i = Some dv -> ds_cancel dv ∈ cancelled a'.
Proof. apply (block_during_resume_is_lost sample_key). reflexivity. Defined.

(** The ticket that outlived the block pairs a new device of the owner's scopes. *)
Example surviving_ticket_pairs :
  let resumed := resume_flag (resume_lock (fst (call_lock sample_key sample_b64 (fun _ => true)
    (fun _ => true) sample_sig "host" (CIssuePair Scope_owner) sample_draw sample_sealed))) in
  snd (call_atomic sample_key sample_b64 (fun _ => true) (fun _ => true) sample_sig "host"
         (CPair "s" "k" "phone") sample_draw resumed) =
  ADevice (Ok {| d_client_id := 9; d_public_key := str_bytes "k"; d_label := "phone";
                 d_scopes := Scope_owner; d_revoked := false |}).
Proof. by vm_compute. Qed.
