(* ===== verification/Store.v ===== *)
(** * The store ([crates/rc-agent/src/store.rs], [schema.sql])
    The tables of the SQLite file with the statements that read and write them, and
    the agent's authority over restarts.

    A statement, and a transaction, happens as a whole or fails and changes
    nothing: [io] says whether the database did its work.  The text of a [Uuid],
    of a scope list and of a session's metadata is read back by other crates; what
    the program relies on is the class [Codec].  [created_at] and [at] are texts
    whose order is that of time; they are numbers of seconds here. *)
From Stdlib Require Import Ascii String.
From stdpp Require Import sorting strings.
From S2P Require Import Prelude Errors Protocol Text Lease Auth.
#[global] Open Scope Z_scope.

#[global] Arguments uuid_string : simpl never.

(** ** What the program relies on from [uuid] and [serde_json] *)
Class Codec := {
  json : Type;
  uuid_parse : string -> option Uuid;
  scopes_to_json : list Scope -> string;
  scopes_from_json : string -> option (list Scope);
  info_to_json : SessionInfo -> string;
  info_from_json : string -> option SessionInfo;
  value_from_json : string -> option json;
  value_set_state : string -> json -> json
}.
Class CodecLaws `{Codec} := {
  uuid_round : forall u, in_u 128 u -> uuid_parse (uuid_string u) = Some u;
  scopes_round : forall l, scopes_from_json (scopes_to_json l) = Some l;
  info_round : forall i, info_from_json (info_to_json i) = Some i;
  (** Any text that is a session's metadata is some JSON value. *)
  info_value : forall s i, info_from_json s = Some i -> is_Some (value_from_json s)
}.

(** ** The tables *)
Record DeviceRow := {
  dr_public_key : bytes;
  dr_label : string;
  dr_scopes : string;
  dr_revoked : bool
}.
Record SessionRow := { sr_metadata : string; sr_lifecycle : string; sr_created : Z }.
Record AuditRow := {
  au_id : Z;
  au_at : Z;
  au_client : option string;
  au_action : string;
  au_resource : option string
}.
(** A table is a map from its primary key; [db_audit_seq] is the number the
    [AUTOINCREMENT] column counts from. *)
Record Store := {
  db_settings : gmap string string;
  db_slots : gmap string string;
  db_devices : gmap string DeviceRow;
  db_projects : gmap string string;
  db_sessions : gmap string SessionRow;
  db_audit : list AuditRow;
  db_audit_seq : Z
}.
Definition store_empty : Store :=
  {| db_settings := ∅; db_slots := ∅; db_devices := ∅; db_projects := ∅; db_sessions := ∅;
     db_audit := []; db_audit_seq := 0 |}.

Inductive StoreError : Type :=
| DatabaseFailed | BadRow | ProjectMismatch | SessionNotFound | OriginBound.

Definition with_settings (t : gmap string string) (db : Store) : Store :=
  {| db_settings := t; db_slots := db_slots db; db_devices := db_devices db;
     db_projects := db_projects db; db_sessions := db_sessions db; db_audit := db_audit db;
     db_audit_seq := db_audit_seq db |}.
Definition with_slots (t : gmap string string) (db : Store) : Store :=
  {| db_settings := db_settings db; db_slots := t; db_devices := db_devices db;
     db_projects := db_projects db; db_sessions := db_sessions db; db_audit := db_audit db;
     db_audit_seq := db_audit_seq db |}.
Definition with_devices (t : gmap string DeviceRow) (db : Store) : Store :=
  {| db_settings := db_settings db; db_slots := db_slots db; db_devices := t;
     db_projects := db_projects db; db_sessions := db_sessions db; db_audit := db_audit db;
     db_audit_seq := db_audit_seq db |}.
Definition with_projects (t : gmap string string) (db : Store) : Store :=
  {| db_settings := db_settings db; db_slots := db_slots db; db_devices := db_devices db;
     db_projects := t; db_sessions := db_sessions db; db_audit := db_audit db;
     db_audit_seq := db_audit_seq db |}.
Definition with_sessions (t : gmap string SessionRow) (db : Store) : Store :=
  {| db_settings := db_settings db; db_slots := db_slots db; db_devices := db_devices db;
     db_projects := db_projects db; db_sessions := t; db_audit := db_audit db;
     db_audit_seq := db_audit_seq db |}.
Definition with_audit (l : list AuditRow) (seq : Z) (db : Store) : Store :=
  {| db_settings := db_settings db; db_slots := db_slots db; db_devices := db_devices db;
     db_projects := db_projects db; db_sessions := db_sessions db; db_audit := l;
     db_audit_seq := seq |}.

Section Store.
Context `{Codec}.

(** ** Opening *)
Definition lifecycle_live (l : string) : bool :=
  bool_decide (l ∈ ["starting"; "running"; "closing"]%string).
Definition lose_session (r : SessionRow) : SessionRow :=
  if lifecycle_live (sr_lifecycle r)
  then {| sr_metadata := sr_metadata r; sr_lifecycle := "lost"; sr_created := sr_created r |}
  else r.
(** The schema leaves existing tables alone. *)
Definition store_open (io : bool) (db : Store) : Store * result StoreError () :=
  if negb io then (db, Err DatabaseFailed) else
  (with_sessions (lose_session <$> db_sessions db) db, Ok tt).

(** ** Devices *)
Definition read_device (r : string * DeviceRow) : option Device :=
  match uuid_parse r.1, scopes_from_json (dr_scopes r.2) with
  | Some id, Some scopes =>
    Some {| d_client_id := id; d_public_key := dr_public_key r.2; d_label := dr_label r.2;
            d_scopes := scopes; d_revoked := dr_revoked r.2 |}
  | _, _ => None
  end.
Definition store_devices (io : bool) (db : Store) : result StoreError (list Device) :=
  if negb io then Err DatabaseFailed else
  ok_or (mapM read_device (map_to_list (db_devices db))) BadRow.

(** On a conflict only the scopes and the flag change. *)
Definition save_device (io : bool) (d : Device) (db : Store) : Store * result StoreError () :=
  if negb io then (db, Err DatabaseFailed) else
  let k := uuid_string (d_client_id d) in
  let row := match db_devices db !! k with
    | None => {| dr_public_key := d_public_key d; dr_label := d_label d;
                 dr_scopes := scopes_to_json (d_scopes d); dr_revoked := d_revoked d |}
    | Some r => {| dr_public_key := dr_public_key r; dr_label := dr_label r;
                   dr_scopes := scopes_to_json (d_scopes d); dr_revoked := d_revoked d |}
    end in
  (with_devices (<[k := row]> (db_devices db)) db, Ok tt).

(** ** Projects *)
(** [COLLATE NOCASE] folds ASCII letters. *)
Definition find_project (cwd : string) (db : Store) : option string :=
  fst <$> head (base.filter (fun kv : string * string => eq_ignore_ascii_case kv.2 cwd = true)
                 (map_to_list (db_projects db))).
(** [fresh] is the new UUID; inserting a second row under a primary key fails. *)
Definition project_for_cwd (io : bool) (cwd : string) (requested : option Uuid) (fresh : Uuid)
    (db : Store) : Store * result StoreError Uuid :=
  if negb io then (db, Err DatabaseFailed) else
  match find_project cwd db with
  | Some existing =>
    match uuid_parse existing with
    | None => (db, Err BadRow)
    | Some id =>
      if is_some_and (fun r => negb (r =? id)) requested then (db, Err ProjectMismatch)
      else (db, Ok id)
    end
  | None =>
    let id := match requested with Some r => r | None => fresh end in
    match db_projects db !! uuid_string id with
    | Some _ => (db, Err DatabaseFailed)
    | None => (with_projects (<[uuid_string id := cwd]> (db_projects db)) db, Ok id)
    end
  end.

(** ** Sessions *)
Definition lifecycle_text (l : Lifecycle) : string :=
  match l with
  | Starting => "starting" | Running => "running" | Closing => "closing"
  | Exited => "exited" | Lost => "lost"
  end.
Definition save_session (io : bool) (s : SessionInfo) (now : Z) (db : Store)
  : Store * result StoreError () :=
  if negb io then (db, Err DatabaseFailed) else
  let k := uuid_string (si_session_id s) in
  let created := match db_sessions db !! k with Some r => sr_created r | None => now end in
  (with_sessions (<[k := {| sr_metadata := info_to_json s;
                            sr_lifecycle := lifecycle_text (si_state s);
                            sr_created := created |}]> (db_sessions db)) db, Ok tt).
Definition with_label (label : string) (m : SessionInfo) : SessionInfo :=
  {| si_session_id := si_session_id m; si_project_id := si_project_id m; si_label := label;
     si_initial_cwd := si_initial_cwd m; si_profile := si_profile m;
     si_agent_epoch := si_agent_epoch m; si_generation := si_generation m;
     si_state := si_state m; si_cols := si_cols m; si_rows := si_rows m;
     si_output_seq := si_output_seq m; si_pid := si_pid m;
     si_process_created := si_process_created m; si_program_path := si_program_path m;
     si_last_activity_at := si_last_activity_at m;
     si_composer_allowed := si_composer_allowed m; si_lease := si_lease m |}.
Definition rename_session_label (io : bool) (id : Uuid) (label : string) (db : Store)
  : Store * result StoreError () :=
  if negb io then (db, Err DatabaseFailed) else
  match db_sessions db !! uuid_string id with
  | None => (db, Err SessionNotFound)
  | Some r =>
    match info_from_json (sr_metadata r) with
    | None => (db, Err BadRow)
    | Some info =>
      (with_sessions (<[uuid_string id :=
         {| sr_metadata := info_to_json (with_label label info);
            sr_lifecycle := sr_lifecycle r; sr_created := sr_created r |}]> (db_sessions db)) db,
       Ok tt)
    end
  end.
(** [ORDER BY created_at DESC LIMIT 100]; rows of one second come in some order. *)
Definition newer_first (a b : SessionRow) : Prop := sr_created b <= sr_created a.
#[global] Instance newer_first_dec a b : Decision (newer_first a b) := Z_le_dec _ _.
Definition recent_sessions (db : Store) : list SessionRow :=
  take 100 (merge_sort newer_first (map_to_list (db_sessions db)).*2).
Definition history (io : bool) (db : Store) : result StoreError (list json) :=
  if negb io then Err DatabaseFailed else
  ok_or (mapM (fun r => value_set_state (sr_lifecycle r) <$> value_from_json (sr_metadata r))
           (recent_sessions db)) BadRow.

(** ** Settings, preview slots, the audit log *)
Definition remote_blocked (io : bool) (db : Store) : result StoreError bool :=
  if negb io then Err DatabaseFailed else
  Ok (bool_decide (db_settings db !! "remote_blocked"%string = Some "true"%string)).
Definition set_remote_blocked (io : bool) (value : bool) (db : Store)
  : Store * result StoreError () :=
  if negb io then (db, Err DatabaseFailed) else
  (with_settings (<["remote_blocked"%string := (if value then "true" else "false")%string]>
     (db_settings db)) db, Ok tt).
Definition reserve_preview_slot (io : bool) (origin : string) (project : Uuid) (db : Store)
  : Store * result StoreError () :=
  if negb io then (db, Err DatabaseFailed) else
  match db_slots db !! origin with
  | Some old => if bool_decide (old <> uuid_string project) then (db, Err OriginBound) else (db, Ok tt)
  | None => (with_slots (<[origin := uuid_string project]> (db_slots db)) db, Ok tt)
  end.

(** [MAX(event_id)], 0 of an empty table. *)
Definition max_event (l : list AuditRow) : Z := foldr Z.max 0 (map au_id l).
(** The rows the clean-up keeps: seven days, and the newest of 10 000. *)
Definition audit_kept (now top : Z) (r : AuditRow) : Prop :=
  now - 7 * 86400 <= au_at r /\ top - 10000 <= au_id r.
#[global] Instance audit_kept_dec now top r : Decision (audit_kept now top r).
Proof. unfold audit_kept. apply _. Defined.
Definition i64_max : Z := 9223372036854775807.
(** The event and the clean-up are two statements ([io1], [io2]). *)
Definition audit (io1 io2 : bool) (client : option Uuid) (action : string)
    (resource : option Uuid) (now later : Z) (db : Store) : Store * result StoreError () :=
  if negb io1 || (i64_max <=? db_audit_seq db) then (db, Err DatabaseFailed) else
  let id := db_audit_seq db + 1 in
  let rows := db_audit db ++ [{| au_id := id; au_at := now; au_client := uuid_string <$> client;
                                 au_action := action; au_resource := uuid_string <$> resource |}] in
  if negb io2 then (with_audit rows id db, Err DatabaseFailed) else
  (with_audit (base.filter (audit_kept later (max_event rows)) rows) id db, Ok tt).

(** ** Well-typed tables *)
(** Every value of every column is the text of a value of the program; one folder,
    in any case, has one project; the log counts upwards. *)
Record store_typed (db : Store) : Prop := {
  ty_devices : forall k r, db_devices db !! k = Some r ->
    exists id scopes, in_u 128 id /\ k = uuid_string id /\
      scopes_from_json (dr_scopes r) = Some scopes;
  ty_projects : forall k cwd, db_projects db !! k = Some cwd ->
    exists id, in_u 128 id /\ k = uuid_string id;
  ty_folders : forall k1 k2 c1 c2, db_projects db !! k1 = Some c1 ->
    db_projects db !! k2 = Some c2 -> eq_ignore_ascii_case c1 c2 = true -> k1 = k2;
  ty_sessions : forall k r, db_sessions db !! k = Some r ->
    is_Some (info_from_json (sr_metadata r)) /\ exists l, sr_lifecycle r = lifecycle_text l;
  ty_audit : StronglySorted Z.lt (map au_id (db_audit db));
  ty_audit_ids : Forall (fun r => 1 <= au_id r <= db_audit_seq db) (db_audit db);
  ty_audit_seq : 0 <= db_audit_seq db
}.

(** The calls, with every outcome of the database. *)
Inductive store_step : Store -> Store -> Prop :=
| st_open io db : store_step db (store_open io db).1
| st_save_device io d db :
    in_u 128 (d_client_id d) -> store_step db (save_device io d db).1
| st_project io cwd requested fresh db :
    (forall r, requested = Some r -> in_u 128 r) -> in_u 128 fresh ->
    store_step db (project_for_cwd io cwd requested fresh db).1
| st_save_session io s now db : store_step db (save_session io s now db).1
| st_rename io id label db : store_step db (rename_session_label io id label db).1
| st_blocked io value db : store_step db (set_remote_blocked io value db).1
| st_reserve io origin project db :
    store_step db (reserve_preview_slot io origin project db).1
| st_audit io1 io2 client action resource now later db :
    store_step db (audit io1 io2 client action resource now later db).1.

Lemma nocase_spec a b :
  eq_ignore_ascii_case a b = true <->
  map ascii_lower (str_bytes a) = map ascii_lower (str_bytes b).
Proof. unfold eq_ignore_ascii_case. apply bool_decide_eq_true. Qed.
Lemma nocase_sym a b : eq_ignore_ascii_case a b = true -> eq_ignore_ascii_case b a = true.
Proof. rewrite !nocase_spec. done. Qed.
Lemma nocase_trans a b c :
  eq_ignore_ascii_case a b = true -> eq_ignore_ascii_case b c = true ->
  eq_ignore_ascii_case a c = true.
Proof. rewrite !nocase_spec. congruence. Qed.
Lemma nocase_refl a : eq_ignore_ascii_case a a = true.
Proof. by apply nocase_spec. Qed.

Lemma find_project_Some cwd db k :
  find_project cwd db = Some k ->
  exists c, db_projects db !! k = Some c /\ eq_ignore_ascii_case c cwd = true.
Proof.
  unfold find_project. destruct (base.filter _ _) as [|[k' c] l] eqn:E; [done|].
  intros [= <-]. exists c.
  assert ((k', c) ∈ base.filter (fun kv : string * string => eq_ignore_ascii_case kv.2 cwd = true)
    (map_to_list (db_projects db))) as [? ?%elem_of_map_to_list]%list_elem_of_filter
    by (rewrite E; left). done.
Qed.
Lemma find_project_None cwd db k c :
  find_project cwd db = None -> db_projects db !! k = Some c ->
  eq_ignore_ascii_case c cwd = false.
Proof.
  unfold find_project. destruct (base.filter _ _) as [|x l] eqn:E; [|done].
  intros _ Hk%elem_of_map_to_list. apply not_true_iff_false. intros Hc.
  assert ((k, c) ∈ base.filter (fun kv : string * string => eq_ignore_ascii_case kv.2 cwd = true)
    (map_to_list (db_projects db))) as Hin by by apply list_elem_of_filter.
  rewrite E in Hin. by apply elem_of_nil in Hin.
Qed.
Lemma find_project_unique cwd db k c :
  store_typed db -> db_projects db !! k = Some c -> eq_ignore_ascii_case c cwd = true ->
  find_project cwd db = Some k.
Proof.
  intros Ht Hk Hc. destruct (find_project cwd db) as [k'|] eqn:E.
  - apply find_project_Some in E as (c' & Hk' & Hc'). f_equal.
    eapply (ty_folders db Ht k' k); [done..|]. eapply nocase_trans; [done|]. by apply nocase_sym.
  - by rewrite (find_project_None cwd db k c E Hk) in Hc.
Qed.

Lemma max_event_spec l :
  Forall (fun r => au_id r <= max_event l) l /\ 0 <= max_event l.
Proof.
  unfold max_event. induction l as [|r l [IH1 IH2]]; cbn; [split; [constructor|lia]|].
  split; [|lia]. constructor; [lia|]. eapply Forall_impl; [exact IH1|]. cbn. lia.
Qed.
Lemma max_event_le l top : 0 <= top -> Forall (fun r => au_id r <= top) l -> max_event l <= top.
Proof. intros H0 Hl. unfold max_event. induction Hl; cbn; lia. Qed.
Lemma max_event_snoc l r :
  Forall (fun x => au_id x <= au_id r) l -> 0 <= au_id r -> max_event (l ++ [r]) = au_id r.
Proof.
  intros Hl Hr. unfold max_event. induction Hl as [|x l Hx Hl IH]; cbn; [lia|].
  rewrite IH. lia.
Qed.
Lemma sorted_map_filter (P : AuditRow -> Prop) `{!forall x, Decision (P x)} l :
  StronglySorted Z.lt (map au_id l) -> StronglySorted Z.lt (map au_id (base.filter P l)).
Proof.
  induction l as [|r l IH]; [done|]. cbn [map]. intros [Hs Hf]%StronglySorted_inv.
  rewrite filter_cons. case_decide; [|by apply IH].
  cbn [map]. constructor; [by apply IH|]. apply Forall_forall. intros x Hx%list_elem_of_fmap.
  destruct Hx as (y & -> & [_ Hy]%list_elem_of_filter).
  rewrite Forall_forall in Hf. apply Hf, list_elem_of_fmap. eauto.
Qed.
Lemma sorted_length (lo hi : Z) (l : list Z) :
  lo <= hi + 1 -> StronglySorted Z.lt l -> Forall (fun x => lo <= x <= hi) l ->
  zlen l <= hi + 1 - lo.
Proof.
  intros Hlo Hs. revert lo Hlo. induction Hs as [|x l Hs IH Hf]; intros lo Hlo Hl.
  - rewrite zlen_nil. lia.
  - apply Forall_cons in Hl as [Hx Hl]. rewrite zlen_cons.
    assert (zlen l <= hi + 1 - (x + 1)); [|lia].
    apply IH; [lia|]. apply Forall_forall. intros y Hy.
    rewrite Forall_forall in Hl, Hf. specialize (Hl y Hy). specialize (Hf y Hy). lia.
Qed.

(** *** Every call keeps them *)
Context `{!CodecLaws}.

Ltac done_typed T := destruct T as [T1 T2 T3 T4 T5 T6 T7]; split; cbn; try done.

Lemma typed_open io db : store_typed db -> store_typed (store_open io db).1.
Proof.
  intros T. destruct io; cbn; [|done]. done_typed T. intros k r.
  rewrite lookup_fmap, fmap_Some. intros (r0 & Hr & ->). destruct (T4 k r0 Hr) as [Hi [l Hl]].
  unfold lose_session. case_match; [|eauto]. split; [done|]. by exists Lost.
Qed.
Lemma typed_save_device io d db :
  in_u 128 (d_client_id d) -> store_typed db -> store_typed (save_device io d db).1.
Proof.
  intros Hd T. destruct io; cbn; [|done]. done_typed T. intros k r.
  intros [[<- <-]|[_ Hk]]%lookup_insert_Some; [|eauto].
  exists (d_client_id d), (d_scopes d). split; [done|]. split; [done|].
  case_match; apply scopes_round.
Qed.
Lemma typed_project io cwd requested fresh db :
  (forall r, requested = Some r -> in_u 128 r) -> in_u 128 fresh ->
  store_typed db -> store_typed (project_for_cwd io cwd requested fresh db).1.
Proof.
  intros Hr Hf T. unfold project_for_cwd. destruct io; cbn [negb]; [|done].
  destruct (find_project cwd db) as [e|] eqn:E; [by repeat case_match|].
  destruct (db_projects db !! _) as [c|] eqn:Ek; [done|]. cbn [fst]. done_typed T.
  - intros k c. intros [[<- <-]|[_ Hk]]%lookup_insert_Some; [|eauto].
    eexists. split; [|done]. destruct requested; eauto.
  - assert (forall k c, db_projects db !! k = Some c -> eq_ignore_ascii_case c cwd = true -> False)
      as Hno by (intros k c Hk; by rewrite (find_project_None cwd db k c E Hk)).
    intros k1 k2 c1 c2. intros [[<- <-]|[_ H1]]%lookup_insert_Some
      [[<- <-]|[_ H2]]%lookup_insert_Some Heq; [done| | |eauto].
    + destruct (Hno _ _ H2). by apply nocase_sym.
    + by destruct (Hno _ _ H1).
Qed.
Lemma typed_save_session io s now db : store_typed db -> store_typed (save_session io s now db).1.
Proof.
  intros T. destruct io; cbn; [|done]. done_typed T. intros k r.
  intros [[<- <-]|[_ Hk]]%lookup_insert_Some; [|eauto]. cbn.
  rewrite info_round. eauto.
Qed.
Lemma typed_rename io id label db :
  store_typed db -> store_typed (rename_session_label io id label db).1.
Proof.
  intros T. unfold rename_session_label. destruct io; cbn [negb]; [|done].
  destruct (db_sessions db !! _) as [r|] eqn:E; [|done].
  destruct (info_from_json _) as [i|]; [|done]. cbn [fst]. done_typed T. intros k r'.
  intros [[<- <-]|[_ Hk]]%lookup_insert_Some; [|eauto]. cbn. rewrite info_round.
  split; [eauto|]. apply (T4 _ _ E).
Qed.
Lemma typed_audit io1 io2 client action resource now later db :
  store_typed db ->
  store_typed (audit io1 io2 client action resource now later db).1.
Proof.
  intros T. unfold audit. pose proof (ty_audit_seq db T). destruct (negb io1 || _); [done|].
  set (r := {| au_id := db_audit_seq db + 1 |}).
  assert (Forall (fun r => 1 <= au_id r <= db_audit_seq db + 1) (db_audit db ++ [r])) as Hb.
  { apply Forall_app. split; [|constructor; [cbn; lia|constructor]].
    eapply Forall_impl; [apply (ty_audit_ids db T)|]. cbn. lia. }
  assert (StronglySorted Z.lt (map au_id (db_audit db ++ [r]))) as Hs.
  { rewrite map_app. apply StronglySorted_app. split; [|split; [apply (ty_audit db T)|repeat constructor]].
    intros x y Hx Hy%list_elem_of_singleton. subst. apply list_elem_of_fmap in Hx as (z & -> & Hz).
    pose proof (ty_audit_ids db T) as Hf. rewrite Forall_forall in Hf. specialize (Hf z Hz). cbn. lia. }
  destruct io2; cbn [negb fst]; done_typed T; try lia.
  - by apply sorted_map_filter.
  - apply Forall_forall. intros x [_ Hx]%list_elem_of_filter.
    rewrite Forall_forall in Hb. by apply Hb.
Qed.
Lemma typed_empty : store_typed store_empty.
Proof. split; cbn; try (intros * Hk; by rewrite lookup_empty in Hk); first [constructor | lia]. Qed.
Lemma typed_step db db' : store_typed db -> store_step db db' -> store_typed db'.
Proof.
  intros T Hs. destruct Hs; eauto using typed_open, typed_save_device, typed_project,
    typed_save_session, typed_rename, typed_audit.
  - destruct io; [|done]. by done_typed T.
  - unfold reserve_preview_slot. repeat case_match; try done. by done_typed T.
Qed.
Lemma typed_reachable db : steps store_step store_empty db -> store_typed db.
Proof. intros Hs. eapply steps_invariant; [apply typed_step|done|apply typed_empty]. Qed.

(** *** Reading them back *)
Lemma mapM_Some_all {A B} (f : A -> option B) l :
  (forall x, x ∈ l -> is_Some (f x)) -> is_Some (mapM f l).
Proof.
  intros Hf. apply mapM_is_Some. by apply Forall_forall.
Qed.
Lemma uuid_string_inj u v :
  in_u 128 u -> in_u 128 v -> uuid_string u = uuid_string v -> u = v.
Proof. intros Hu%uuid_round Hv%uuid_round E. rewrite E in Hu. congruence. Qed.

Lemma read_device_typed db k r :
  store_typed db -> db_devices db !! k = Some r ->
  exists d, read_device (k, r) = Some d /\ in_u 128 (d_client_id d) /\
    k = uuid_string (d_client_id d) /\ d_public_key d = dr_public_key r /\
    d_label d = dr_label r /\ scopes_from_json (dr_scopes r) = Some (d_scopes d) /\
    d_revoked d = dr_revoked r.
Proof.
  intros T Hr. destruct (ty_devices db T k r Hr) as (id & sc & Hid & -> & Hs).
  unfold read_device. cbn [fst snd]. rewrite uuid_round, Hs by done. eexists. split; [done|].
  repeat (split; [done|]). done.
Qed.
(** The devices a well-typed store lists are its rows, one each. *)
Lemma store_devices_spec db :
  store_typed db ->
  exists ds, store_devices true db = Ok ds /\ NoDup (d_client_id <$> ds) /\
    forall d, d ∈ ds <-> exists k r, db_devices db !! k = Some r /\ read_device (k, r) = Some d.
Proof.
  intros T. unfold store_devices. cbn [negb].
  destruct (mapM_Some_all read_device (map_to_list (db_devices db))) as [ds Hds].
  { intros [k r] Hk%elem_of_map_to_list.
    destruct (read_device_typed db k r T Hk) as (d & -> & _). eauto. }
  rewrite Hds. exists ds. split; [done|]. apply mapM_Some in Hds. split.
  - assert (NoDup (map_to_list (db_devices db)).*1) as Hnd by apply NoDup_fst_map_to_list.
    assert (forall x, x ∈ map_to_list (db_devices db) -> db_devices db !! x.1 = Some x.2) as Hin
      by (intros [k r]; by rewrite elem_of_map_to_list).
    revert Hnd Hin. induction Hds as [|[k r] d l ds Hd Hds IH]; [constructor|].
    cbn [fmap list_fmap]. intros [Hk Hnd]%NoDup_cons Hin. apply NoDup_cons.
    split; [|apply IH; [done|]; intros x Hx; apply Hin; by right].
    intros (d' & Heq & Hd')%list_elem_of_fmap. apply Hk.
    apply list_elem_of_lookup_1 in Hd' as [i Hi].
    destruct (Forall2_lookup_r _ _ _ _ _ Hds Hi) as ([k' r'] & Hk' & Hr').
    apply list_elem_of_lookup_2 in Hk'.
    destruct (read_device_typed db k r T) as (e & He & _ & -> & _); [by apply (Hin (k, r)); left|].
    destruct (read_device_typed db k' r' T) as (e' & He' & _ & -> & _);
      [by apply (Hin (k', r')); right|].
    apply list_elem_of_fmap. exists (uuid_string (d_client_id e'), r'). cbn in *. split; [|done].
    simplify_eq. by rewrite Heq.
  - intros d. split.
    + intros [i Hi]%list_elem_of_lookup_1.
      destruct (Forall2_lookup_r _ _ _ _ _ Hds Hi) as ([k r] & Hk & Hr).
      exists k, r. split; [|done]. apply elem_of_map_to_list. by eapply list_elem_of_lookup_2.
    + intros (k & r & Hk%elem_of_map_to_list & Hr).
      apply list_elem_of_lookup_1 in Hk as [i Hi].
      destruct (Forall2_lookup_l _ _ _ _ _ Hds Hi) as (d' & Hd' & Hrd).
      simplify_eq/=. by eapply list_elem_of_lookup_2.
Qed.

(** The rows of the history: a sorted selection of all of them. *)
Lemma recent_sessions_spec db :
  length (recent_sessions db) = Nat.min 100 (size (db_sessions db)) /\
  recent_sessions db ⊆ (map_to_list (db_sessions db)).*2 /\
  forall r r', r ∈ recent_sessions db -> r' ∈ (map_to_list (db_sessions db)).*2 ->
    r' ∈ recent_sessions db \/ sr_created r' <= sr_created r.
Proof.
  unfold recent_sessions. set (l := (map_to_list (db_sessions db)).*2).
  pose proof (merge_sort_Permutation newer_first l) as Hp.
  assert (StronglySorted newer_first (merge_sort newer_first l)) as Hs.
  { apply Sorted_StronglySorted; [intros a b c; unfold newer_first; lia|].
    apply Sorted_merge_sort. intros a b. unfold newer_first. lia. }
  rewrite <- (take_drop 100 (merge_sort newer_first l)) in Hs.
  apply StronglySorted_app in Hs as (Hs & _ & _).
  split; [|split].
  - rewrite length_take, Hp. unfold l. by rewrite length_fmap, length_map_to_list.
  - intros r Hr. rewrite <- Hp. apply subseteq_take in Hr; done.
  - intros r r' Hr Hr'. rewrite <- Hp in Hr'.
    rewrite <- (take_drop 100 (merge_sort newer_first l)) in Hr'.
    apply elem_of_app in Hr' as [?|Hr']; [by left|right]. by apply (Hs r r').
Qed.
Lemma history_spec db :
  store_typed db ->
  exists h, history true db = Ok h /\ length h = Nat.min 100 (size (db_sessions db)) /\
    forall r r', r ∈ recent_sessions db -> r' ∈ (map_to_list (db_sessions db)).*2 ->
      r' ∈ recent_sessions db \/ sr_created r' <= sr_created r.
Proof.
  intros T. destruct (recent_sessions_spec db) as (Hl & Hsub & Hold).
  unfold history. cbn [negb].
  destruct (mapM_Some_all (fun r => value_set_state (sr_lifecycle r) <$>
    value_from_json (sr_metadata r)) (recent_sessions db)) as [h Hh].
  { intros r ([k r'] & -> & Hk%elem_of_map_to_list)%Hsub%list_elem_of_fmap.
    destruct (ty_sessions db T k r' Hk) as [[i Hi] _]. cbn.
    destruct (info_value _ _ Hi) as [v ->]. cbn. eauto. }
  rewrite Hh. exists h. split; [done|]. split; [|done]. apply length_mapM in Hh. congruence.
Qed.

(** ** The store's promises *)
(** C16: whatever sequence of calls is made on a new store, with any of their
    database work failing, what they leave reads back as values of the program: the
    device list and the history are produced and name every row once, no later
    lookup meets a row it cannot read, the history holds at most 100 sessions and
    none older than one it leaves out, and after opening the store no session is
    recorded as alive. *)
Theorem store_reads_back db :
  steps store_step store_empty db ->
  (exists ds, store_devices true db = Ok ds /\ NoDup (d_client_id <$> ds) /\
     length ds = size (db_devices db)) /\
  (exists h, history true db = Ok h /\ length h = Nat.min 100 (size (db_sessions db)) /\
     forall r r', r ∈ recent_sessions db -> r' ∈ (map_to_list (db_sessions db)).*2 ->
       r' ∈ recent_sessions db \/ sr_created r' <= sr_created r) /\
  (forall cwd requested fresh,
     (project_for_cwd true cwd requested fresh db).2 <> Err BadRow) /\
  (forall id label, (rename_session_label true id label db).2 <> Err BadRow) /\
  (forall k r, db_sessions (store_open true db).1 !! k = Some r ->
     sr_lifecycle r = "exited"%string \/ sr_lifecycle r = "lost"%string).
Proof.
  intros T%typed_reachable. split; [|split; [|split; [|split]]].
  - destruct (store_devices_spec db T) as (ds & Hds & Hnd & _). exists ds. split; [done|].
    split; [done|]. unfold store_devices in Hds. cbn in Hds.
    destruct (mapM _ _) as [l|] eqn:E; [|done]. cbn in Hds. simplify_eq.
    apply length_mapM in E. by rewrite <- E, length_map_to_list.
  - by apply history_spec.
  - intros cwd req fresh. unfold project_for_cwd. cbn [negb].
    destruct (find_project cwd db) as [k|] eqn:E; [|by case_match].
    apply find_project_Some in E as (c & Hc & _).
    destruct (ty_projects db T k c Hc) as (id & Hid & ->). rewrite uuid_round by done.
    by case_match.
  - intros id label. unfold rename_session_label. cbn [negb].
    destruct (db_sessions db !! _) as [r|] eqn:E; [|done].
    destruct (ty_sessions db T _ _ E) as [[i ->] _]. done.
  - intros k r. cbn. rewrite lookup_fmap, fmap_Some. intros (r0 & Hr & ->).
    destruct (ty_sessions db T k r0 Hr) as [_ [l Hl]]. unfold lose_session, lifecycle_live.
    rewrite Hl. destruct l; cbn; auto.
Qed.

(** A row of the projects table is there for ever, and so is a reserved origin. *)
Lemma store_step_keeps db db' :
  store_step db db' ->
  db_projects db ⊆ db_projects db' /\ db_slots db ⊆ db_slots db'.
Proof.
  destruct 1 as [io db|io d db|io cwd req fresh db|io s now db|io id label db|io v db
    |io o p db|io1 io2 cl a r now later db];
    unfold store_open, save_device, project_for_cwd, save_session, rename_session_label,
      set_remote_blocked, reserve_preview_slot, audit;
    repeat case_match; cbn; (split; [|try done]); try done; by apply insert_subseteq.
Qed.
Lemma store_steps_keep db db' :
  steps store_step db db' ->
  db_projects db ⊆ db_projects db' /\ db_slots db ⊆ db_slots db'.
Proof.
  induction 1 as [|a b c Hs Hss [IH1 IH2]]; [done|].
  apply store_step_keeps in Hs as [? ?]. split; by etrans.
Qed.
(** What an answer of [project_for_cwd] leaves in the table. *)
Lemma project_for_cwd_row io cwd requested fresh db db1 id :
  store_typed db -> (forall r, requested = Some r -> in_u 128 r) -> in_u 128 fresh ->
  project_for_cwd io cwd requested fresh db = (db1, Ok id) ->
  in_u 128 id /\ (forall r, requested = Some r -> r = id) /\
  exists c, db_projects db1 !! uuid_string id = Some c /\ eq_ignore_ascii_case c cwd = true.
Proof.
  intros T Hr Hf. unfold project_for_cwd. destruct io; cbn [negb]; [|done].
  destruct (find_project cwd db) as [k|] eqn:E.
  - apply find_project_Some in E as (c & Hc & Hcc).
    destruct (ty_projects db T k c Hc) as (u & Hu & ->). rewrite uuid_round by done.
    destruct (is_some_and _ _) eqn:Er; [done|]. intros [= <- <-]. split; [done|].
    split; [|eauto]. intros r ->. cbn in Er. bools. lia.
  - case_match; [done|]. intros [= <- <-]. split; [destruct requested; eauto|].
    split; [by intros r ->|]. exists cwd. cbn. split; [apply lookup_insert_eq|apply nocase_refl].
Qed.

(** C17: a folder keeps its project, and an origin keeps the project it was
    reserved for.  Once [project_for_cwd] has answered [id] for a folder, then after
    any further calls, reopening the store included, the same folder, its name in
    any case of ASCII letters, gets [id] again, or an error if another project is
    asked for; and no other folder ever gets [id].  Once an origin is reserved, every
    later reservation that succeeds is for the same project. *)
Theorem bindings_are_permanent db :
  steps store_step store_empty db ->
  (forall io cwd requested fresh db1 id db',
     (forall r, requested = Some r -> in_u 128 r) -> in_u 128 fresh ->
     project_for_cwd io cwd requested fresh db = (db1, Ok id) -> steps store_step db1 db' ->
     (forall cwd' requested' fresh', eq_ignore_ascii_case cwd' cwd = true ->
        (project_for_cwd true cwd' requested' fresh' db').2 =
        if is_some_and (fun r => negb (r =? id)) requested' then Err ProjectMismatch else Ok id) /\
     (forall io' cwd' requested' fresh' db2,
        (forall r, requested' = Some r -> in_u 128 r) -> in_u 128 fresh' ->
        project_for_cwd io' cwd' requested' fresh' db' = (db2, Ok id) ->
        eq_ignore_ascii_case cwd' cwd = true)) /\
  (forall io origin project db1 db',
     in_u 128 project -> reserve_preview_slot io origin project db = (db1, Ok tt) ->
     steps store_step db1 db' -> forall io' project' db2,
     in_u 128 project' -> reserve_preview_slot io' origin project' db' = (db2, Ok tt) ->
     project' = project).
Proof.
  intros Hreach. pose proof (typed_reachable db Hreach) as T. split.
  - intros io cwd req fresh db1 id db' Hr Hf Hp Hs.
    destruct (project_for_cwd_row _ _ _ _ _ _ _ T Hr Hf Hp) as (Hid & _ & c & Hc & Hcc).
    assert (store_typed db') as T'.
    { eapply steps_invariant; [apply typed_step|exact Hs|].
      pose proof (typed_project io cwd req fresh db Hr Hf T) as Tp. by rewrite Hp in Tp. }
    pose proof (lookup_weaken _ _ _ _ Hc (proj1 (store_steps_keep _ _ Hs))) as Hc'. split.
    + intros cwd' req' fresh' Heq. unfold project_for_cwd. cbn [negb].
      assert (eq_ignore_ascii_case c cwd' = true) as Hc2
        by (eapply nocase_trans; [exact Hcc|by apply nocase_sym]).
      rewrite (find_project_unique cwd' db' _ c T' Hc' Hc2), uuid_round by done.
      by case_match.
    + intros io' cwd' req' fresh' db2 Hr' Hf' Hp'.
      destruct (project_for_cwd_row _ _ _ _ _ _ _ T' Hr' Hf' Hp') as (_ & _ & c2 & Hc2 & Heq).
      pose proof (store_step_keeps _ _ (st_project io' cwd' req' fresh' db' Hr' Hf')) as [Hk _].
      rewrite Hp' in Hk. pose proof (lookup_weaken _ _ _ _ Hc' Hk) as Hc2'. cbn in Hc2'.
      simplify_eq. eapply nocase_trans; [apply nocase_sym, Heq|exact Hcc].
  - intros io o p db1 db' Hp Hres Hs io' p' db2 Hp' Hres'.
    assert (db_slots db1 !! o = Some (uuid_string p)) as Ho.
    { revert Hres. unfold reserve_preview_slot. destruct io; cbn [negb]; [|done].
      destruct (db_slots db !! o) as [old|] eqn:Eo; [|intros [= <-]; apply lookup_insert_eq].
      case_bool_decide as E; [done|]. intros [= <-]. congruence. }
    pose proof (lookup_weaken _ _ _ _ Ho (proj2 (store_steps_keep _ _ Hs))) as Ho'.
    revert Hres'. unfold reserve_preview_slot. destruct io'; cbn [negb]; [|done].
    rewrite Ho'. case_bool_decide as E; [done|]. intros _.
    apply uuid_string_inj; [done|done|]. congruence.
Qed.

(** The audit log.  After any calls, a call of [audit] whose database work
    succeeds leaves at most 10 001 events, numbered upwards without repetition, the
    newest of them the event just logged; every event dropped is more than seven
    days old or more than 10 000 events back, and nothing else of the log changed.
    A failing clean-up still keeps the event. *)
Theorem audit_log_bounded db client action resource now later :
  steps store_step store_empty db -> later <= now + 7 * 86400 ->
  db_audit_seq db < i64_max ->
  let e := {| au_id := db_audit_seq db + 1; au_at := now; au_client := uuid_string <$> client;
              au_action := action; au_resource := uuid_string <$> resource |} in
  (exists db', audit true true client action resource now later db = (db', Ok tt) /\
     zlen (db_audit db') <= 10001 /\ StronglySorted Z.lt (map au_id (db_audit db')) /\
     e ∈ db_audit db' /\ max_event (db_audit db') = au_id e /\
     forall r, r ∈ db_audit db' <->
       (r ∈ db_audit db \/ r = e) /\
       ~ (au_at r < later - 7 * 86400) /\ ~ (au_id r < au_id e - 10000)) /\
  db_audit (audit true false client action resource now later db).1 = db_audit db ++ [e].
Proof.
  intros T%typed_reachable Hlater Hseq e.
  pose proof (typed_audit true true client action resource now later db T) as Ta.
  pose proof (ty_audit_ids db T) as Hids. pose proof (ty_audit_seq db T) as Hs0.
  assert (max_event (db_audit db ++ [e]) = au_id e) as Hmax.
  { apply max_event_snoc; [|cbn; lia]. eapply Forall_impl; [exact Hids|]. cbn. lia. }
  revert Ta. unfold audit. cbn [negb orb].
  rewrite (proj2 (Z.leb_gt i64_max (db_audit_seq db)) Hseq). cbn [negb fst].
  fold e. rewrite Hmax. intros Ta. split; [|done]. eexists. split; [reflexivity|].
  cbn [db_audit with_audit].
  assert (forall r, r ∈ base.filter (audit_kept later (au_id e)) (db_audit db ++ [e]) <->
    (r ∈ db_audit db \/ r = e) /\ ~ (au_at r < later - 7 * 86400) /\
    ~ (au_id r < au_id e - 10000)) as Hin.
  { intros r. rewrite list_elem_of_filter, elem_of_app, list_elem_of_singleton.
    unfold audit_kept. intuition lia. }
  assert (e ∈ base.filter (audit_kept later (au_id e)) (db_audit db ++ [e])) as He.
  { apply Hin. split; [by right|]. cbn. lia. }
  split; [|split; [apply (ty_audit _ Ta)|split; [done|split; [|exact Hin]]]].
  - replace (zlen _) with (zlen (map au_id (base.filter (audit_kept later (au_id e))
      (db_audit db ++ [e])))) by (unfold zlen; by rewrite length_map).
    pose proof (sorted_length (au_id e - 10000) (au_id e)) as Hl.
    etrans; [apply Hl; [lia|apply (ty_audit _ Ta)|]|lia].
    apply Forall_forall. intros x (r & -> & [Hr Hk]%Hin)%list_elem_of_fmap.
    destruct Hr as [Hr| ->]; [|lia]. rewrite Forall_forall in Hids. specialize (Hids r Hr).
    cbn in *. lia.
  - destruct (max_event_spec (base.filter (audit_kept later (au_id e)) (db_audit db ++ [e])))
      as [Hf _]. rewrite Forall_forall in Hf. specialize (Hf e He).
    apply Z.le_antisymm; [|done]. apply max_event_le; [cbn; lia|].
    apply Forall_forall. intros r [[Hr| ->] _]%Hin; [|lia].
    rewrite Forall_forall in Hids. specialize (Hids r Hr). cbn. lia.
Qed.
End Store.

(** ** A concrete codec *)
(** [Uuid]s in their canonical form; other values as the bits of their code. *)
Fixpoint unhex (l : bytes) : bytes :=
  match l with
  | a :: b :: r => ((if a <? 58 then a - 48 else a - 87) * 16 +
                    (if b <? 58 then b - 48 else b - 87)) :: unhex r
  | _ => []
  end.
Definition strict_uuid_parse (s : string) : option Uuid :=
  let u := be_dec (unhex (base.filter (fun b => b <> 45) (str_bytes s))) in
  if decide (uuid_string u = s) then Some u else None.

Lemma hex_digit_range n : 0 <= n < 16 -> 48 <= hex_digit n <= 102 /\ hex_digit n <> 45.
Proof. unfold hex_digit. destruct (Z.ltb_spec n 10); lia. Qed.
Lemma unhex_hex l r : Forall is_byte l -> unhex (hex_bytes l ++ r) = l ++ unhex r.
Proof.
  induction 1 as [|b l Hb Hl IH]; [done|]. unfold hex_bytes in *. cbn. rewrite IH. f_equal.
  unfold is_byte in Hb. unfold hex_digit.
  pose proof (Z.div_mod b 16). pose proof (Z.mod_pos_bound b 16). assert (0 <= b / 16 < 16)
    by (split; [apply Z.div_pos; lia|apply Z.div_lt_upper_bound; lia]).
  destruct (Z.ltb_spec (b / 16) 10), (Z.ltb_spec (b mod 16) 10);
    repeat (match goal with |- context [?x <? 58] => destruct (Z.ltb_spec x 58) end); lia.
Qed.
Lemma hex_bytes_range l :
  Forall is_byte l -> Forall is_byte (hex_bytes l) /\ base.filter (fun b => b <> 45) (hex_bytes l) = hex_bytes l.
Proof.
  induction 1 as [|b l Hb Hl [IH1 IH2]]; [done|]. unfold hex_bytes in *. cbn [map concat app].
  unfold is_byte in Hb.
  assert (0 <= b / 16 < 16) as H1
    by (split; [apply Z.div_pos; lia|apply Z.div_lt_upper_bound; lia]).
  assert (0 <= b mod 16 < 16) as H2 by (apply Z.mod_pos_bound; lia).
  apply hex_digit_range in H1 as [? ?], H2 as [? ?]. split.
  - constructor; [unfold is_byte; lia|]. by constructor; [unfold is_byte; lia|].
  - cbn [app]. rewrite !filter_cons, !decide_True by done. by rewrite IH2.
Qed.
Lemma slice_drop {A} (a b : nat) (l : list A) :
  (a <= b)%nat -> slice a b l ++ drop b l = drop a l.
Proof.
  intros Hab. unfold slice. replace (drop b l) with (drop (b - a) (drop a l)).
  - apply take_drop.
  - rewrite drop_drop. f_equal. lia.
Qed.
Lemma strict_uuid_round u : in_u 128 u -> strict_uuid_parse (uuid_string u) = Some u.
Proof.
  intros Hu. unfold strict_uuid_parse.
  assert (forall b, Forall is_byte b -> length b = 16%nat ->
    unhex (base.filter (fun x => x <> 45)
      (hex_bytes (slice 0 4 b) ++ [45] ++ hex_bytes (slice 4 6 b) ++ [45] ++
       hex_bytes (slice 6 8 b) ++ [45] ++ hex_bytes (slice 8 10 b) ++ [45] ++
       hex_bytes (slice 10 16 b))) = b /\
    Forall is_byte (hex_bytes (slice 0 4 b) ++ [45] ++ hex_bytes (slice 4 6 b) ++ [45] ++
       hex_bytes (slice 6 8 b) ++ [45] ++ hex_bytes (slice 8 10 b) ++ [45] ++
       hex_bytes (slice 10 16 b))) as Hb.
  { intros b Hb Hlen.
    assert (forall i j, Forall is_byte (slice i j b)) as Hs
      by (intros; unfold slice; by apply Forall_take, Forall_drop).
    pose proof (fun i j => hex_bytes_range _ (Hs i j)) as Hr.
    rewrite !filter_app. split.
    - rewrite !(proj2 (Hr _ _)). change (base.filter (fun x => x <> 45) [45]) with (@nil Z).
      cbn [app]. rewrite !unhex_hex by apply Hs.
      rewrite <- (app_nil_r (hex_bytes (slice 10 16 b))), unhex_hex by apply Hs.
      change (unhex []) with (@nil Z). rewrite <- (drop_ge b 16) by lia.
      rewrite !slice_drop by lia. apply drop_0.
    - repeat first [apply Forall_app; split | apply (proj1 (Hr _ _)) | constructor; [unfold is_byte; lia|constructor]]. }
  destruct (Hb (be_enc 16 u) (be_enc_bytes 16 u) (be_enc_length 16 u)) as [H1 H2].
  replace (str_bytes (uuid_string u)) with
    (let b := be_enc 16 u in
     hex_bytes (slice 0 4 b) ++ [45] ++ hex_bytes (slice 4 6 b) ++ [45] ++
     hex_bytes (slice 6 8 b) ++ [45] ++ hex_bytes (slice 8 10 b) ++ [45] ++
     hex_bytes (slice 10 16 b)) by (unfold uuid_string; by rewrite str_bytes_of_bytes).
  cbv zeta. rewrite H1, be_dec_enc by (unfold in_u in Hu; exact Hu).
  by rewrite decide_True.
Qed.

#[global] Program Instance Scope_countable : Countable Scope :=
  inj_countable' (fun s => match s with
    | TerminalRead => 0 | TerminalWrite => 1 | TerminalCreate => 2 | TerminalClose => 3
    | PreviewRead => 4 | WindowView => 5 | WindowControl => 6 | DesktopView => 7
    | DesktopControl => 8 | AdminDevices => 9 | AdminSettings => 10 end)
   (fun n => nth (Z.to_nat n) [TerminalRead; TerminalWrite; TerminalCreate; TerminalClose;
     PreviewRead; WindowView; WindowControl; DesktopView; DesktopControl; AdminDevices]
     AdminSettings) _.
Next Obligation. by intros []. Qed.
#[global] Program Instance Lifecycle_countable : Countable Lifecycle :=
  inj_countable' (fun l => match l with
    | Starting => 0 | Running => 1 | Closing => 2 | Exited => 3 | Lost => 4 end)
   (fun n => nth (Z.to_nat n) [Starting; Running; Closing; Exited] Lost) _.
Next Obligation. by intros []. Qed.
#[global] Program Instance LeaseView_countable : Countable LeaseView :=
  inj_countable' (fun v => (lv_client_id v, lv_connection_id v, lv_epoch v, lv_remaining_ms v))
    (fun '(a, b, c, d) => {| lv_client_id := a; lv_connection_id := b; lv_epoch := c;
                             lv_remaining_ms := d |}) _.
Next Obligation. by intros []. Qed.
Definition info_code (i : SessionInfo) : positive :=
  encode (si_session_id i, si_project_id i, si_label i, si_initial_cwd i, si_profile i,
    si_agent_epoch i, si_generation i, si_state i,
    (si_cols i, si_rows i, si_output_seq i, si_pid i, si_process_created i, si_program_path i,
     si_last_activity_at i, si_composer_allowed i, si_lease i)).
Definition info_decode (p : positive) : option SessionInfo :=
  '(a, b, c, d, e, f, g, h, (k, l, m, n, o, q, r, t, u)) ← decode p;
  Some {| si_session_id := a; si_project_id := b; si_label := c; si_initial_cwd := d;
          si_profile := e; si_agent_epoch := f; si_generation := g; si_state := h; si_cols := k;
          si_rows := l; si_output_seq := m; si_pid := n; si_process_created := o;
          si_program_path := q; si_last_activity_at := r; si_composer_allowed := t;
          si_lease := u |}.
Lemma info_code_round i : info_decode (info_code i) = Some i.
Proof. unfold info_decode, info_code. rewrite decode_encode. by destruct i. Qed.

Fixpoint pos_text (p : positive) : string :=
  match p with
  | xH => "" | xO p => String "0" (pos_text p) | xI p => String "1" (pos_text p)
  end.
Fixpoint text_pos (s : string) : positive :=
  match s with
  | "" => xH
  | String c s => if Ascii.eqb c "0" then xO (text_pos s) else xI (text_pos s)
  end%string.
Lemma text_pos_round p : text_pos (pos_text p) = p.
Proof. induction p; cbn; congruence. Qed.

#[global] Instance sample_codec : Codec := {|
  json := string * string;
  uuid_parse := strict_uuid_parse;
  scopes_to_json l := pos_text (encode l);
  scopes_from_json s := decode (text_pos s);
  info_to_json i := pos_text (info_code i);
  info_from_json s := info_decode (text_pos s);
  value_from_json s := Some (s, ""%string);
  value_set_state l v := (v.1, l)
|}.
#[global] Instance sample_codec_laws : CodecLaws.
Proof.
  split; cbn; intros.
  - by apply strict_uuid_round.
  - by rewrite text_pos_round, decode_encode.
  - by rewrite text_pos_round, info_code_round.
  - eauto.
Qed.

(** ** A concrete store: a device, a folder's project, a preview slot, an event *)
Definition demo_device : Device :=
  {| d_client_id := 5; d_public_key := [4; 1]; d_label := "laptop"; d_scopes := Scope_owner;
     d_revoked := false |}.
Definition demo_with_device : Store := (save_device true demo_device store_empty).1.
Definition demo_with_project : Store :=
  (project_for_cwd true "C:\Work" None 9 demo_with_device).1.
Definition demo_with_slot : Store :=
  (reserve_preview_slot true "https://p.test:8443" 9 demo_with_project).1.
Definition demo_store : Store :=
  (audit true true (Some 5) "pair" None 100 100 demo_with_slot).1.
Lemma demo_with_device_reached : steps store_step store_empty demo_with_device.
Proof. apply steps_one, (st_save_device true demo_device). by vm_compute. Qed.
Lemma demo_project_reached : steps store_step store_empty demo_with_project.
Proof.
  eapply steps_app; [apply demo_with_device_reached|]. apply steps_one, st_project; [done|].
  by vm_compute.
Qed.
Lemma demo_store_reached : steps store_step store_empty demo_store.
Proof.
  eapply steps_app; [apply demo_project_reached|].
  eapply steps_trans; [apply st_reserve|]. apply steps_one, st_audit.
Qed.
Lemma store_reads_back_witness :
  exists ds, store_devices true demo_store = Ok ds /\ NoDup (d_client_id <$> ds) /\
    length ds = 1%nat.
Proof. exact (proj1 (store_reads_back demo_store demo_store_reached)). Defined.
Example demo_devices_run : store_devices true demo_store = Ok [demo_device].
Proof. by vm_compute. Qed.
Lemma bindings_are_permanent_witness :
  (project_for_cwd true "c:\WORK" None 11 demo_store).2 = Ok 9 /\
  forall project db2, in_u 128 project ->
    reserve_preview_slot true "https://p.test:8443" project demo_store = (db2, Ok tt) -> project = 9.
Proof.
  assert (in_u 128 9) as H9 by by vm_compute.
  assert (steps store_step demo_with_slot demo_store) as Hs by apply steps_one, st_audit.
  split.
  - refine (proj1 (proj1 (bindings_are_permanent demo_with_device demo_with_device_reached) true
      "C:\Work"%string None 9 demo_with_project 9 demo_store _ _ _ _) "c:\WORK"%string None 11 _).
    + done.
    + done.
    + by vm_compute.
    + eapply steps_trans; [apply st_reserve|exact Hs].
    + by vm_compute.
  - intros project db2 Hp. refine (proj2 (bindings_are_permanent demo_with_project
      demo_project_reached) true _ 9 demo_with_slot demo_store H9 _ Hs true project db2 Hp).
    by vm_compute.
Defined.
Lemma audit_log_bounded_witness :
  exists db', audit true true None "block" None 200 201 demo_store = (db', Ok tt) /\
    zlen (db_audit db') <= 10001 /\ map au_id (db_audit db') = [1; 2].
Proof.
  destruct (audit_log_bounded demo_store None "block" None 200 201 demo_store_reached)
    as [(db' & Hdb & Hl & _) _]; [lia|by vm_compute|].
  exists db'. split; [exact Hdb|]. split; [exact Hl|]. injection Hdb as <-. by vm_compute.
Defined.
