(* ===== verification/Restart.v ===== *)
(** * The agent's authority over restarts
    ([crates/rc-agent/src/auth.rs] on [crates/rc-agent/src/store.rs])
    The operations of [Auth] that write the store, with the writes they make, and
    the start of a process from the store another one left.  Any write may fail; a
    process may end between any two operations. *)
From Stdlib Require Import String.
From stdpp Require Import strings.
From S2P Require Import Prelude Errors Protocol Text Lease Auth Store.
#[global] Open Scope Z_scope.

#[local] Opaque uuid_string.

Section Restart.
Context `{Codec}.
Context (key : string -> Digest) (b64url_decode : string -> option bytes)
  (sec1_key_ok : bytes -> bool) (signature_ok : bytes -> bool)
  (ecdsa_verify : bytes -> string -> bytes -> bool).

(** An agent process and its store. *)
Definition Agent : Type := Auth * Store.

(** [Store::open], then [Auth::new]. *)
Definition agent_start (io : bool) (now : Z) (db : Store) : Store * result StoreError Auth :=
  match store_open io db with
  | (db, Err e) => (db, Err e)
  | (db, Ok _) =>
    match store_devices io db with
    | Err e => (db, Err e)
    | Ok stored =>
      match remote_blocked io db with
      | Err e => (db, Err e)
      | Ok blocked => (db, Ok (auth_new stored blocked now))
      end
    end
  end.

(** [pair] saves the device before it enters it. *)
Definition pair_stored (io : bool) (ticket public_key label : string) (now : Z) (client : Uuid)
    (w : Agent) : Agent * res Device :=
  let run saved := auth_pair key b64url_decode sec1_key_ok ticket public_key label now client
                     saved w.1 in
  match run true with
  | (a, Err e) => ((a, w.2), Err e)
  | (a, Ok d) =>
    match save_device io d w.2 with
    | (db, Ok _) => ((a, db), Ok d)
    | (db, Err _) => let '(a, r) := run false in ((a, db), r)
    end
  end.
(** [revoke] cancels the device before it saves it. *)
Definition revoke_stored (io : bool) (id : Uuid) (w : Agent) : Agent * res () :=
  match devices w.1 !! id with
  | None => let '(a, r) := auth_revoke id false w.1 in ((a, w.2), r)
  | Some d =>
    let '(db, saved) := save_device io (revoke_device_flag (ds_device d)) w.2 in
    let '(a, r) := auth_revoke id (is_ok saved) w.1 in ((a, db), r)
  end.
Definition block_stored (io : bool) (w : Agent) : Agent :=
  (block_all w.1, (set_remote_blocked io true w.2).1).
Definition resume_stored (io : bool) (w : Agent) : Agent :=
  let '(db, r) := set_remote_blocked io false w.2 in (resume_local (is_ok r) w.1, db).

(** One operation of the agent or another use of its store.  In a [reliable] run no
    write of the store fails. *)
Inductive agent_task (reliable : bool) : Agent -> Agent -> Prop :=
| as_pair io ticket pk label now client a db :
    (reliable = true -> io = true) -> in_u 128 client -> devices a !! client = None ->
    agent_task reliable (a, db) (pair_stored io ticket pk label now client (a, db)).1
| as_revoke io id a db :
    (reliable = true -> io = true) ->
    agent_task reliable (a, db) (revoke_stored io id (a, db)).1
| as_block io a db :
    (reliable = true -> io = true) -> agent_task reliable (a, db) (block_stored io (a, db))
| as_resume io a db :
    (reliable = true -> io = true) -> agent_task reliable (a, db) (resume_stored io (a, db))
| as_tables a a' l l' db :
    auth_step key b64url_decode sec1_key_ok signature_ok ecdsa_verify (a, l) (a', l') ->
    auth_core a' = auth_core a -> agent_task reliable (a, db) (a', db)
| as_store a db db' :
    store_step db db' -> db_devices db' = db_devices db -> db_settings db' = db_settings db ->
    agent_task reliable (a, db) (a, db').
(** The same, or a restart. *)
Inductive agent_step (reliable : bool) : Agent -> Agent -> Prop :=
| as_task w w' : agent_task reliable w w' -> agent_step reliable w w'
| as_restart now a db a' db' :
    agent_start true now db = (db', Ok a') -> agent_step reliable (a, db) (a', db').

(** ** The store mirrors the process *)
(** The stored device is the one in memory, except that a revocation may be
    missing from the store, and is not in a reliable run. *)
Definition stored_as (reliable : bool) (stored d : Device) : Prop :=
  d_client_id stored = d_client_id d /\ d_public_key stored = d_public_key d /\
  d_label stored = d_label d /\ d_scopes stored = d_scopes d /\
  (d_revoked stored = true -> d_revoked d = true) /\
  (reliable = true -> d_revoked stored = d_revoked d).
Definition stored_blocked (db : Store) : Prop :=
  db_settings db !! "remote_blocked"%string = Some "true"%string.
Record mirror (reliable : bool) (w : Agent) : Prop := {
  mi_typed : store_typed w.2;
  mi_blocked : stored_blocked w.2 -> a_blocked w.1 = true;
  mi_unblocked : reliable = true -> a_blocked w.1 = true -> stored_blocked w.2;
  mi_devices : forall c d, devices w.1 !! c = Some d ->
    in_u 128 c /\ d_client_id (ds_device d) = c /\
    exists r s, db_devices w.2 !! uuid_string c = Some r /\
      read_device (uuid_string c, r) = Some s /\ stored_as reliable s (ds_device d);
  mi_rows : forall k r, db_devices w.2 !! k = Some r ->
    exists c, k = uuid_string c /\ is_Some (devices w.1 !! c)
}.

Lemma stored_as_refl reliable d : stored_as reliable d d.
Proof. by repeat split. Qed.
Lemma auth_pair_result ticket pk label now client saved a a' r :
  auth_pair key b64url_decode sec1_key_ok ticket pk label now client saved a = (a', r) ->
  match r with
  | Ok d => saved = true /\ d_client_id d = client /\ d_revoked d = false /\
      a_blocked a' = a_blocked a /\ cancelled a' = cancelled a /\
      exists t, devices a' = <[client := {| ds_device := d; ds_cancel := t |}]> (devices a)
  | Err _ => auth_core a' = auth_core a
  end.
Proof.
  unfold auth_pair, ensure_open. destruct (a_blocked a) eqn:Eb; [by intros [= <- <-]|].
  case_match; [by intros [= <- <-]|]. case_match; [|by intros [= <- <-]].
  case_match; [by intros [= <- <-]|].
  destruct (anonymous_limit now a) as [a1 r1] eqn:E.
  apply anonymous_limit_core in E as [Hc _]. destruct r1; [|by intros [= <- <-]].
  destruct (pairs a1 !! key ticket) as [t|]; [|by intros [= <- <-]].
  case_match; [by intros [= <- <-]|]. case_match; [by intros [= <- <-]|]. intros [= <- <-].
  injection Hc as Hb Hd Hcc Hn. cbn. rewrite Hb, Hd, Hcc, Eb. bools.
  repeat (split; [first [done | by destruct saved]|]). eauto.
Qed.
Context `{!CodecLaws}.

(** Saving a device stores it, provided a row that is there has its key and label. *)
Lemma save_device_row io d db :
  in_u 128 (d_client_id d) ->
  let k := uuid_string (d_client_id d) in
  (forall r s, db_devices db !! k = Some r -> read_device (k, r) = Some s ->
     d_public_key s = d_public_key d /\ d_label s = d_label d) ->
  store_typed db -> io = true ->
  exists r, (save_device io d db).1 = with_devices (<[k := r]> (db_devices db)) db /\
    read_device (k, r) = Some d /\ (save_device io d db).2 = Ok tt.
Proof.
  intros Hd k Hold T ->. unfold save_device. cbn [negb fst snd]. eexists. split; [done|].
  split; [|done]. unfold read_device. cbn [fst snd]. subst k. rewrite uuid_round by done.
  destruct (db_devices db !! _) as [r|] eqn:E; cbn; rewrite scopes_round.
  - destruct (read_device_typed db _ r T E) as (s & Hs & _ & _ & H1 & H2 & _).
    destruct (Hold r s eq_refl Hs) as [H3 H4]. rewrite <- H1, <- H2, H3, H4. by destruct d.
  - by destruct d.
Qed.

(** *** Starting *)
Lemma auth_new_lookup stored blocked now c x :
  NoDup (d_client_id <$> stored) ->
  devices (auth_new stored blocked now) !! c = Some x <->
  exists d, d ∈ stored /\ d_client_id d = c /\ x = {| ds_device := d; ds_cancel := (0, c) |}.
Proof.
  intros Hnd. unfold auth_new. cbn [devices].
  set (f := fun d => (d_client_id d, {| ds_device := d; ds_cancel := (0, d_client_id d) |})).
  change (map f (rev stored)) with (f <$> rev stored).
  assert (NoDup (f <$> rev stored).*1) as Hf.
  { rewrite <- list_fmap_compose. change (fst ∘ f) with d_client_id.
    by rewrite <- Permutation_rev. }
  rewrite <- elem_of_list_to_map by exact Hf. rewrite list_elem_of_fmap. unfold f. split.
  - intros (d & [= -> ->] & Hd). exists d. apply list_elem_of_In, in_rev, list_elem_of_In in Hd.
    done.
  - intros (d & Hd & <- & ->). exists d. split; [done|].
    apply list_elem_of_In. rewrite <- in_rev. by apply list_elem_of_In.
Qed.
(** A well-typed store starts an agent: its devices are the rows. *)
Lemma agent_start_spec now db :
  store_typed db ->
  exists a, agent_start true now db = ((store_open true db).1, Ok a) /\
    a_blocked a = bool_decide (stored_blocked db) /\
    (access a = ∅ /\ ws a = ∅ /\ pairs a = ∅ /\ challenges a = ∅) /\
    (forall c d, devices a !! c = Some d ->
       d_revoked (ds_device d) = true -> ds_cancel d ∈ cancelled a) /\
    forall c x, devices a !! c = Some x <->
      in_u 128 c /\ exists r d, db_devices db !! uuid_string c = Some r /\
        read_device (uuid_string c, r) = Some d /\
        x = {| ds_device := d; ds_cancel := (0, c) |}.
Proof.
  intros T. unfold agent_start. cbn [store_open negb].
  destruct (store_devices_spec (store_open true db).1 (typed_open true db T))
    as (ds & Hds & Hnd & Hin). cbn [store_open negb fst] in Hds. rewrite Hds.
  change (db_devices (store_open true db).1) with (db_devices db) in Hin.
  unfold remote_blocked. cbn [negb]. eexists. split; [done|].
  split; [done|]. split; [done|]. split.
  { intros c d Hd Hr. apply auth_new_lookup in Hd as (d0 & Hd0 & <- & ->); [|done].
    apply elem_of_list_to_set, list_elem_of_fmap. exists d0. split; [done|].
    by apply list_elem_of_filter. }
  intros c x. rewrite auth_new_lookup by done. split.
  - intros (d & (k & r & Hk & Hr)%Hin & <- & ->).
    destruct (read_device_typed db k r T Hk) as (d' & Hd' & Hu & -> & _).
    rewrite Hr in Hd'. injection Hd' as <-. split; [exact Hu|]. by exists r, d.
  - intros (Hu & r & d & Hk & Hr & ->). exists d. split; [apply Hin; by exists (uuid_string c), r|].
    destruct (read_device_typed db _ r T Hk) as (d' & Hd' & Hu' & He & _).
    rewrite Hr in Hd'. injection Hd' as <-. split; [|done]. symmetry. by apply uuid_string_inj.
Qed.

(** *** Steps keep the mirror *)
Lemma mirror_same reliable a db a' db' :
  mirror reliable (a, db) -> store_typed db' -> db_devices db' = db_devices db ->
  (forall c, ds_device <$> devices a' !! c = ds_device <$> devices a !! c) ->
  (stored_blocked db' -> a_blocked a' = true) ->
  (reliable = true -> a_blocked a' = true -> stored_blocked db') ->
  mirror reliable (a', db').
Proof.
  intros [M1 M2 M3 M4 M5] T Hdb Hd Hb Hu. split; cbn; try done.
  - intros c d Hc. specialize (Hd c). rewrite Hc in Hd. symmetry in Hd.
    apply fmap_Some in Hd as (d0 & Hd0 & Heq). rewrite Heq. rewrite Hdb. by apply M4.
  - intros k r. rewrite Hdb. intros (c & -> & Hc)%M5. exists c. split; [done|].
    cbn in Hc. apply (fmap_is_Some ds_device). rewrite Hd. by apply fmap_is_Some.
Qed.
Lemma mirror_insert reliable a db a' c d r s :
  mirror reliable (a, db) -> in_u 128 c -> d_client_id (ds_device d) = c ->
  read_device (uuid_string c, r) = Some s -> stored_as reliable s (ds_device d) ->
  a_blocked a' = a_blocked a -> devices a' = <[c := d]> (devices a) ->
  store_typed (with_devices (<[uuid_string c := r]> (db_devices db)) db) ->
  mirror reliable (a', with_devices (<[uuid_string c := r]> (db_devices db)) db).
Proof.
  intros [M1 M2 M3 M4 M5] Hc Hid Hr Hs Hb Hd T. split; cbn; rewrite ?Hb, ?Hd; try done.
  - intros c' d'. intros [[<- <-]|[Hne Hc']]%lookup_insert_Some.
    + split; [done|]. split; [done|]. rewrite lookup_insert_eq. eauto.
    + destruct (M4 c' d' Hc') as (Hu & Hi & r' & s' & Hr' & ?). split; [done|]. split; [done|].
      exists r', s'. split; [|done]. rewrite lookup_insert_ne; [done|].
      intros E. apply Hne. by apply uuid_string_inj.
  - intros k r'. intros [[<- <-]|[Hne Hk]]%lookup_insert_Some.
    + exists c. by rewrite lookup_insert_eq.
    + destruct (M5 k r' Hk) as (c' & -> & [x Hx]). exists c'. split; [done|].
      rewrite lookup_insert_ne; [eauto|]. by intros ->.
Qed.
Lemma mirror_restart reliable now a db a' db' :
  mirror reliable (a, db) -> agent_start true now db = (db', Ok a') ->
  mirror reliable (a', db').
Proof.
  intros [M1 M2 M3 M4 M5] Hs. cbn [fst snd] in *.
  destruct (agent_start_spec now db M1) as (a0 & Ha & Hb & _ & _ & Hd). rewrite Ha in Hs.
  simplify_eq. split; cbn.
  - by apply (typed_open true).
  - rewrite Hb. by intros ?%(bool_decide_eq_true_2 (stored_blocked db)).
  - rewrite Hb. intros _. apply bool_decide_eq_true_1.
  - intros c x (Hu & r & d & Hr & Hd' & ->)%Hd. split; [done|]. cbn.
    destruct (read_device_typed db _ r M1 Hr) as (d2 & Hd2 & Hu2 & He & _).
    rewrite Hd' in Hd2. injection Hd2 as <-.
    split; [symmetry; exact (uuid_string_inj _ _ Hu Hu2 He)|]. exists r, d. split; [done|]. split; [done|]. apply stored_as_refl.
  - intros k r Hk. destruct (read_device_typed db k r M1 Hk) as (d & Hr & Hu & -> & _).
    exists (d_client_id d). split; [done|]. exists {| ds_device := d; ds_cancel := (0, d_client_id d) |}.
    apply Hd. eauto 10.
Qed.
Lemma mirror_core reliable a db a' :
  mirror reliable (a, db) -> auth_core a' = auth_core a -> mirror reliable (a', db).
Proof.
  intros M [= Hb Hd _ _]. eapply mirror_same; [exact M|apply M|done|by rewrite Hd|..];
    rewrite Hb; apply M.
Qed.
(** Saving a device under a new or its own row, with the memory that follows it. *)
Lemma mirror_save reliable a db a' d t :
  mirror reliable (a, db) -> in_u 128 (d_client_id d) -> a_blocked a' = a_blocked a ->
  devices a' = <[d_client_id d := {| ds_device := d; ds_cancel := t |}]> (devices a) ->
  (forall y, devices a !! d_client_id d = Some y ->
     d_public_key (ds_device y) = d_public_key d /\ d_label (ds_device y) = d_label d) ->
  (save_device true d db).2 = Ok tt /\ mirror reliable (a', (save_device true d db).1).
Proof.
  intros M Hu Hb Hd Hold. pose proof (mi_typed _ _ M) as T. cbn [snd] in T.
  destruct (save_device_row true d db Hu) as (r & Hdb & Hr & Hok); [|done|done|].
  { intros r s Hk Hs. destruct (mi_rows _ _ M _ _ Hk) as (c & Hc & [y Hy]). cbn [fst] in Hy.
    destruct (mi_devices _ _ M c y Hy) as (Huc & Hid & r' & s' & Hr' & Hs' & Hst).
    assert (c = d_client_id d) as -> by (symmetry; exact (uuid_string_inj _ _ Hu Huc Hc)).
    cbn [snd] in Hr'. rewrite Hk in Hr'. injection Hr' as <-. rewrite Hs in Hs'.
    injection Hs' as <-. destruct Hst as (_ & -> & -> & _). by apply Hold. }
  split; [exact Hok|]. pose proof (typed_save_device true d db Hu T) as T'. rewrite Hdb in *.
  eapply (mirror_insert _ _ _ _ _ {| ds_device := d; ds_cancel := t |});
    [exact M|exact Hu|done|exact Hr| |done|exact Hd|exact T'].
  apply stored_as_refl.
Qed.
Lemma mirror_pair reliable io ticket pk label now client a db :
  in_u 128 client -> devices a !! client = None -> mirror reliable (a, db) ->
  mirror reliable (pair_stored io ticket pk label now client (a, db)).1.
Proof.
  intros Hu Hfresh M. unfold pair_stored. cbn [fst snd].
  destruct (auth_pair _ _ _ _ _ _ _ _ true a) as [a1 [d|e]] eqn:E1; apply auth_pair_result in E1;
    [|by eapply mirror_core].
  destruct E1 as (_ & <- & _ & Hb & _ & t & Hd). destruct io.
  - destruct (mirror_save reliable a db a1 d t M Hu Hb Hd)
      as [Hok Hm]; [by rewrite Hfresh|]. by destruct (save_device true d db) as [db' [[]|]].
  - cbn [save_device negb].
    destruct (auth_pair _ _ _ _ _ _ _ _ false a) as [a2 [d2|e2]] eqn:E2;
      apply auth_pair_result in E2; [by destruct E2|by eapply mirror_core].
Qed.
Lemma auth_revoke_result id saved a d :
  devices a !! id = Some d ->
  let x := {| ds_device := revoke_device_flag (ds_device d); ds_cancel := ds_cancel d |} in
  exists a' r, auth_revoke id saved a = (a', r) /\ (is_ok r = saved) /\
    a_blocked a' = a_blocked a /\ devices a' = <[id := x]> (devices a) /\
    ds_cancel d ∈ cancelled a'.
Proof.
  intros Hd x. unfold auth_revoke. rewrite Hd.
  destruct saved; do 2 eexists; (split; [reflexivity|]); repeat (split; [done|]); cbn; set_solver.
Qed.
Lemma mirror_revoke reliable io id a db :
  (reliable = true -> io = true) -> mirror reliable (a, db) ->
  mirror reliable (revoke_stored io id (a, db)).1.
Proof.
  intros Hio M. unfold revoke_stored. cbn [fst snd].
  destruct (devices a !! id) as [d|] eqn:Ed; [|unfold auth_revoke; by rewrite Ed].
  destruct (mi_devices _ _ M id d Ed) as (Hu & Hid & r & s & Hr & Hs & Hst). cbn [snd] in Hr.
  destruct io.
  - destruct (auth_revoke_result id true a d Ed) as (a' & res & Ea & _ & Hb & Hd & _).
    rewrite <- Hid in Hd.
    destruct (mirror_save reliable a db a' (revoke_device_flag (ds_device d))
      (ds_cancel d) M) as [Hok Hm]; [by cbn; rewrite Hid|exact Hb|exact Hd| |].
    { cbn. rewrite Hid, Ed. by intros y [= <-]. }
    destruct (save_device true _ db) as [db' [[]|]]; [|done]. cbn [is_ok]. by rewrite Ea.
  - cbn [save_device negb is_ok].
    destruct (auth_revoke_result id false a d Ed) as (a' & res & Ea & _ & Hb & Hd & _).
    rewrite Ea. destruct M as [M1 M2 M3 M4 M5]. destruct reliable; [by discriminate Hio|].
    split; cbn [fst snd] in *; rewrite ?Hb, ?Hd; try done.
    + intros c x [[<- <-]|[Hne Hc]]%lookup_insert_Some; [|by apply M4].
      cbn. split; [done|]. split; [done|]. exists r, s. split; [done|]. split; [done|].
      destruct Hst as (? & ? & ? & ? & ? & _). by repeat split.
    + intros k r' (c & -> & Hc)%M5. exists c. split; [done|].
      destruct (decide (id = c)) as [<-|]; [by rewrite lookup_insert_eq|].
      by rewrite lookup_insert_ne.
Qed.
Lemma mirror_block reliable io a db :
  (reliable = true -> io = true) -> mirror reliable (a, db) ->
  mirror reliable (block_stored io (a, db)).
Proof.
  intros Hio M. unfold block_stored. pose proof (mi_typed _ _ M) as T. cbn [fst snd] in *.
  eapply mirror_same; [exact M| |by destruct io|done|done|].
  - eapply typed_step; [exact T|apply st_blocked].
  - intros ->%Hio _. unfold stored_blocked. cbn. by rewrite lookup_insert_eq.
Qed.
Lemma mirror_resume reliable io a db :
  (reliable = true -> io = true) -> mirror reliable (a, db) ->
  mirror reliable (resume_stored io (a, db)).
Proof.
  intros Hio M. unfold resume_stored. pose proof (mi_typed _ _ M) as T. cbn [fst snd] in *.
  destruct io; [|exact M]. cbn [set_remote_blocked negb is_ok].
  eapply mirror_same; [exact M| |done| | |done].
  - eapply (typed_step _ _ T (st_blocked true false db)).
  - intros c. cbn. rewrite map_lookup_imap. destruct (devices a !! c) as [d|]; [|done].
    cbn. by case_match.
  - unfold stored_blocked. cbn. by rewrite lookup_insert_eq.
Qed.
Lemma mirror_step reliable w w' : mirror reliable w -> agent_step reliable w w' -> mirror reliable w'.
Proof.
  intros M Hs. destruct Hs as [w w' [io ticket pk label now client a db Hio Hu Hf|io id a db Hio
    |io a db Hio|io a db Hio|a a' l l' db Hs Hc|a db db' Hs Hd Hset]|now a db a' db' Hs].
  - by apply mirror_pair.
  - by apply mirror_revoke.
  - by apply mirror_block.
  - by apply mirror_resume.
  - by eapply mirror_core.
  - eapply mirror_same; [exact M| |done|done|..]; unfold stored_blocked; rewrite ?Hset;
      [eapply typed_step; [apply (mi_typed _ _ M)|done]|apply M..].
  - by eapply mirror_restart.
Qed.
Lemma mirror_new reliable now : mirror reliable (auth_new [] false now, store_empty).
Proof.
  split; cbn; try done; [apply typed_empty|..]; intros * Hk; by rewrite lookup_empty in Hk.
Qed.
Lemma mirror_reachable reliable now w :
  steps (agent_step reliable) (auth_new [] false now, store_empty) w -> mirror reliable w.
Proof.
  intros Hs. eapply steps_invariant; [apply mirror_step|exact Hs|apply mirror_new].
Qed.

(** *** A stored revocation *)
Definition revoked_for_good (id : Uuid) (w : Agent) : Prop :=
  (exists d, devices w.1 !! id = Some d /\ d_revoked (ds_device d) = true) /\
  exists r, db_devices w.2 !! uuid_string id = Some r /\ dr_revoked r = true.
Lemma save_device_keeps_revoked io d db id r :
  in_u 128 id -> in_u 128 (d_client_id d) -> (d_client_id d = id -> d_revoked d = true) ->
  db_devices db !! uuid_string id = Some r -> dr_revoked r = true ->
  exists r', db_devices (save_device io d db).1 !! uuid_string id = Some r' /\ dr_revoked r' = true.
Proof.
  intros Hi Hd Hr Hk Hrev. destruct io; cbn; [|eauto].
  destruct (decide (d_client_id d = id)) as [E|E].
  - rewrite E, lookup_insert_eq. eexists. split; [done|]. case_match; by apply Hr.
  - rewrite lookup_insert_ne; [eauto|]. intros He. apply E. by apply uuid_string_inj.
Qed.
(** A device map that keeps the entry of [id] revoked. *)
Lemma revoked_keep id a db a' db' :
  revoked_for_good id (a, db) -> db_devices db' = db_devices db ->
  (forall d, devices a !! id = Some d -> d_revoked (ds_device d) = true ->
     exists d', devices a' !! id = Some d' /\ d_revoked (ds_device d') = true) ->
  revoked_for_good id (a', db').
Proof. intros [(d & Hd & Hr) Hrow] Hdb Hk. split; cbn; [by eapply Hk|by rewrite Hdb]. Qed.
Lemma revoked_pair id io ticket pk label now client a db :
  mirror false (a, db) -> in_u 128 client -> devices a !! client = None ->
  revoked_for_good id (a, db) ->
  revoked_for_good id (pair_stored io ticket pk label now client (a, db)).1.
Proof.
  intros M Hu Hf D. pose proof D as [(d0 & Hd0 & Hr0) (r0 & Hrow & Hrr)]. cbn [fst snd] in *.
  assert (client <> id) as Hne by congruence.
  destruct (mi_devices _ _ M id d0 Hd0) as (Hid & _). unfold pair_stored. cbn [fst snd].
  assert (forall a', auth_core a' = auth_core a -> revoked_for_good id (a', db)) as Hcore.
  { intros a' [= _ Hd _ _]. eapply revoked_keep; [exact D|done|]. rewrite Hd. eauto. }
  destruct (auth_pair _ _ _ _ _ _ _ _ true a) as [a1 [d|e]] eqn:E1; apply auth_pair_result in E1;
    [|by apply Hcore].
  destruct E1 as (_ & Hcl & _ & _ & _ & t & Hd).
  destruct (save_device_keeps_revoked io d db id r0) as (r' & Hr' & Hrev);
    [done|by rewrite Hcl|by rewrite Hcl|done|done|]. destruct io; cbn in Hr' |- *.
  - split; cbn; [|eauto]. rewrite Hd, lookup_insert_ne by done. eauto.
  - destruct (auth_pair _ _ _ _ _ _ _ _ false a) as [a2 [d2|e2]] eqn:E2;
      apply auth_pair_result in E2; [by destruct E2|by apply Hcore].
Qed.
Lemma revoked_revoke id io id' a db :
  mirror false (a, db) -> revoked_for_good id (a, db) ->
  revoked_for_good id (revoke_stored io id' (a, db)).1.
Proof.
  intros M D. unfold revoke_stored. cbn [fst snd].
  destruct (devices a !! id') as [d|] eqn:Ed; [|unfold auth_revoke; by rewrite Ed].
  destruct D as [(d0 & Hd0 & Hr0) (r0 & Hrow & Hrr)]. cbn [fst snd] in *.
  destruct (mi_devices _ _ M id d0 Hd0) as (Hid & _).
  destruct (mi_devices _ _ M id' d Ed) as (Hid' & Hcl & _).
  destruct (save_device_keeps_revoked io (revoke_device_flag (ds_device d)) db id r0)
    as (r' & Hr' & Hrev); [done|by cbn; rewrite Hcl|done|done|done|].
  destruct (save_device io _ db) as [db' res]. cbn [fst] in Hr'.
  destruct (auth_revoke_result id' (is_ok res) a d Ed) as (a' & res' & Ea & _ & _ & Hd & _).
  rewrite Ea. split; cbn; [|eauto]. rewrite Hd.
  destruct (decide (id' = id)) as [->|]; [rewrite lookup_insert_eq; eauto|].
  rewrite lookup_insert_ne by done. eauto.
Qed.
Lemma revoked_restart id now a db a' db' :
  mirror false (a, db) -> revoked_for_good id (a, db) ->
  agent_start true now db = (db', Ok a') -> revoked_for_good id (a', db').
Proof.
  intros M [(d0 & Hd0 & Hr0) (r0 & Hrow & Hrr)] Hs. cbn [fst snd] in *.
  destruct (agent_start_spec now db (mi_typed _ _ M)) as (a0 & Ha & _ & _ & _ & Hd).
  rewrite Ha in Hs. injection Hs as <- <-. split; cbn [fst snd]; [|by exists r0].
  destruct (read_device_typed db _ r0 (mi_typed _ _ M) Hrow) as (d & Hr & _ & _ & _ & _ & _ & Hrev).
  exists {| ds_device := d; ds_cancel := (0, id) |}. split; [|cbn; congruence].
  apply Hd. split; [by apply (mi_devices _ _ M id d0)|by exists r0, d].
Qed.
Lemma revoked_step id w w' :
  mirror false w -> revoked_for_good id w -> agent_step false w w' -> revoked_for_good id w'.
Proof.
  intros M D Hs. destruct Hs as [w w' [io ticket pk label now client a db Hio Hu Hf|io id' a db Hio
    |io a db Hio|io a db Hio|a a' l l' db Hs Hc|a db db' Hs Hd Hset]|now a db a' db' Hs].
  - by apply revoked_pair.
  - by apply revoked_revoke.
  - eapply revoked_keep; [exact D|by destruct io|eauto].
  - unfold resume_stored. cbn [fst snd]. destruct io; [|exact D]. cbn [set_remote_blocked negb is_ok].
    eapply revoked_keep; [exact D|done|]. intros d Hd Hr. cbn. rewrite map_lookup_imap, Hd. cbn.
    rewrite Hr. cbn. eauto.
  - injection Hc as _ Hd _ _. eapply revoked_keep; [exact D|done|]. rewrite Hd. eauto.
  - eapply revoked_keep; [exact D|done|eauto].
  - by eapply revoked_restart.
Qed.

(** An acknowledged revocation is in memory and in the store, and stays there. *)
Lemma revoke_stored_final io id w w1 :
  mirror false w -> revoke_stored io id w = (w1, Ok tt) -> mirror false w1 /\ revoked_for_good id w1.
Proof.
  intros M Hrev. destruct w as [a db].
  pose proof (mirror_revoke false io id a db (fun e => False_rect _ (diff_false_true e)) M) as M1.
  rewrite Hrev in M1. split; [exact M1|]. revert Hrev. unfold revoke_stored. cbn [fst snd].
  destruct (devices a !! id) as [d|] eqn:Ed; [|unfold auth_revoke; by rewrite Ed].
  destruct (mi_devices _ _ M id d Ed) as (Hu & Hid & _).
  destruct (save_device io (revoke_device_flag (ds_device d)) db) as [db' res] eqn:Edb.
  destruct (auth_revoke_result id (is_ok res) a d Ed) as (a' & res' & Ea & Hok & _ & Hd & _).
  rewrite Ea. intros [= <- ->]. destruct io; [|by cbn in Edb; simplify_eq].
  injection Edb as <- <-. split; cbn.
  - rewrite Hd, lookup_insert_eq. eauto.
  - rewrite Hid, lookup_insert_eq. eexists. split; [done|]. cbn; by repeat case_match.
Qed.
Lemma revoked_steps id w w' :
  mirror false w /\ revoked_for_good id w -> steps (agent_step false) w w' ->
  mirror false w' /\ revoked_for_good id w'.
Proof.
  intros HD Hs. eapply (steps_invariant (agent_step false) (fun w => mirror false w /\ revoked_for_good id w));
    [|exact Hs|exact HD]. intros x y [Mx Dx] Hxy. split; [by eapply mirror_step|by eapply revoked_step].
Qed.
(** What a revoked device is refused. *)
Lemma revoked_refused id a d :
  devices a !! id = Some d -> d_revoked (ds_device d) = true ->
  (forall token now p, authorize key token now a = Ok p -> p_client_id p <> id) /\
  (forall now, is_err (device_principal id now a) = true) /\
  (forall audience now ms cid nonce, is_err (auth_challenge audience id now ms cid nonce a).2 = true).
Proof.
  intros Hd Hr. split; [|split].
  - intros token now p (_ & _ & d' & Hd' & Hr' & _)%authorize_Ok E. rewrite E in *. congruence.
  - intros now. unfold device_principal, lookup_active. case_match; [|done]. rewrite Hd. cbn. by rewrite Hr.
  - intros audience now ms cid nonce. unfold auth_challenge. case_match; [|done].
    destruct (anonymous_limit now a) as [a1 [[]|]] eqn:E; [|done].
    apply anonymous_limit_core in E as [[= _ Hdd _ _] _]. rewrite Hdd, Hd. cbn. by rewrite Hr.
Qed.


(** A revocation that was acknowledged is final.  Once [revoke] has returned
    [Ok] for a device, then after any further operations, with any writes failing,
    over any number of restarts, the device is still known and revoked, in memory and
    in the store: no access token is accepted for it, no principal is made for it,
    and no challenge is issued to it. *)
Theorem revocation_survives_restarts now w w1 w2 io id :
  steps (agent_step false) (auth_new [] false now, store_empty) w ->
  revoke_stored io id w = (w1, Ok tt) -> steps (agent_step false) w1 w2 ->
  (exists d, devices w2.1 !! id = Some d /\ d_revoked (ds_device d) = true) /\
  (forall token now' p, authorize key token now' w2.1 = Ok p -> p_client_id p <> id) /\
  (forall now', is_err (device_principal id now' w2.1) = true) /\
  (forall audience now' ms cid nonce,
     is_err (auth_challenge audience id now' ms cid nonce w2.1).2 = true).
Proof.
  intros Hw Hrev Hs. pose proof (mirror_reachable _ _ _ Hw) as M.
  destruct (revoked_steps id w1 w2 (revoke_stored_final _ _ _ _ M Hrev) Hs) as [_ [(d & Hd & Hr) _]].
  split; [eauto|]. by apply (revoked_refused id w2.1 d).
Qed.
End Restart.

(** ** A concrete run: pair a device, revoke it, restart *)
Abbreviation demo_step := (agent_step sample_key sample_b64 (fun _ => true) (fun _ => true) sample_sig).
Definition demo_fresh : Agent := (auth_new [] false 0, store_empty).
Definition demo_ticketed : Agent :=
  ((issue_pair_ticket sample_key Scope_owner 1 "ticket" demo_fresh.1).1, demo_fresh.2).
Definition demo_paired : Agent :=
  (pair_stored sample_key sample_b64 (fun _ => true) true "ticket" "key" "laptop" 2 5 demo_ticketed).1.
Definition demo_revoked : Agent := (revoke_stored true 5 demo_paired).1.
Lemma demo_paired_reached reliable : steps (demo_step reliable) demo_fresh demo_paired.
Proof.
  eapply steps_trans.
  - apply as_task. refine (as_tables _ _ _ _ _ _ _ demo_ticketed.1 [] [] store_empty
      (step_issue_pair _ _ _ _ _ Scope_owner 1 "ticket" demo_fresh.1 []) _).
    exact (proj1 (issue_pair_ticket_core sample_key Scope_owner 1 "ticket" demo_fresh.1)).
  - apply steps_one, as_task. exact (as_pair _ _ _ _ _ _ true "ticket" "key" "laptop" 2 5 demo_ticketed.1
      store_empty (fun _ => eq_refl) (conj (Z.lt_le_incl 0 5 eq_refl) eq_refl) eq_refl).
Qed.
Lemma revocation_survives_restarts_witness :
  exists a db, agent_start true 20 demo_revoked.2 = (db, Ok a) /\
    forall now, is_err (device_principal 5 now a) = true.
Proof.
  destruct (agent_start true 20 demo_revoked.2) as [db [a|e]] eqn:E; [|by vm_compute in E].
  exists a, db. split; [reflexivity|].
  apply (revocation_survives_restarts sample_key sample_b64 (fun _ => true) (fun _ => true)
    sample_sig 0 demo_paired demo_revoked (a, db) true 5 (demo_paired_reached false)).
  - by vm_compute.
  - apply steps_one. rewrite (surjective_pairing demo_revoked). by eapply as_restart.
Defined.
(** A revocation whose write fails is reported as an error, and a restart undoes it. *)
Example failed_revocation_is_lost :
  let '(w, r) := revoke_stored false 5 demo_paired in
  r = Err Internal /\ is_err (device_principal 5 3 w.1) = true /\
  match agent_start true 9 w.2 with
  | (_, Ok a) => is_ok (device_principal 5 10 a) = true
  | _ => False
  end.
Proof. by vm_compute. Qed.
