(* ===== verification/Autostart.v ===== *)
(** * Autostart and the settings lock
    ([crates/rc-platform-windows/src/autostart.rs], [transaction.rs])
    The command line of the agent's autostart entry, the per-user registry value
    that holds it, and the calls that read and change it.  The registry's answers
    are an oracle; no other program changes the value during a call.  Text is the
    list of its [char]s. *)
From S2P Require Import Prelude Errors Text.
#[global] Open Scope Z_scope.

Abbreviation chars := (list Z) (only parsing).
Abbreviation sresult := (result string) (only parsing).

(** ** UTF-16 *)
Definition is_scalar (c : Z) : Prop := 0 <= c <= 55295 \/ 57344 <= c <= 1114111.
Definition char_utf16 (c : Z) : list Z :=
  if c <? 65536 then [c]
  else [55296 + (c - 65536) / 1024; 56320 + (c - 65536) mod 1024].
(** [s.encode_utf16()] *)
Definition chars_utf16 (s : chars) : list Z := concat (map char_utf16 s).
(** [String::from_utf16] *)
Fixpoint from_utf16 (l : list Z) : option chars :=
  match l with
  | [] => Some []
  | u :: r =>
    if (u <? 55296) || (57343 <? u) then option_map (cons u) (from_utf16 r) else
    match r with
    | v :: r' =>
      if (u <? 56320) && in_range 56320 57343 v
      then option_map (cons (65536 + (u - 55296) * 1024 + (v - 56320))) (from_utf16 r')
      else None
    | [] => None
    end
  end.

Lemma char_utf16_cases c :
  is_scalar c ->
  (char_utf16 c = [c] /\ c < 65536 /\ (c < 55296 \/ 57343 < c)) \/
  exists u v, char_utf16 c = [u; v] /\ 55296 <= u < 56320 /\ 56320 <= v <= 57343 /\
    c = 65536 + (u - 55296) * 1024 + (v - 56320).
Proof.
  unfold is_scalar, char_utf16. intros Hc. destruct (Z.ltb_spec c 65536); [left; split; [done|lia]|].
  right. do 2 eexists. split; [done|].
  pose proof (Z.div_mod (c - 65536) 1024). pose proof (Z.mod_pos_bound (c - 65536) 1024).
  assert (0 <= (c - 65536) / 1024 < 1024)
    by (split; [apply Z.div_pos; lia|apply Z.div_lt_upper_bound; lia]). lia.
Qed.
Lemma from_utf16_encode s r :
  Forall is_scalar s -> from_utf16 (chars_utf16 s ++ r) = option_map (app s) (from_utf16 r).
Proof.
  unfold chars_utf16. induction 1 as [|c s Hc Hs IH]; cbn [map concat app].
  { by destruct (from_utf16 r). }
  rewrite <- app_assoc.
  destruct (char_utf16_cases c Hc) as [(-> & _ & Hr)|(u & v & -> & Hu & Hv & ->)]; cbn [app from_utf16].
  - replace ((c <? 55296) || (57343 <? c)) with true by (symmetry; apply orb_true_iff; lia).
    rewrite IH. by destruct (from_utf16 r).
  - replace ((u <? 55296) || (57343 <? u)) with false by (symmetry; apply orb_false_iff; lia).
    unfold in_range. replace ((u <? 56320) && ((56320 <=? v) && (v <=? 57343))) with true
      by (symmetry; rewrite !andb_true_iff; lia).
    rewrite IH. by destruct (from_utf16 r).
Qed.
(** Decoding loses nothing: the units are those of the text. *)
Lemma from_utf16_exact n l s :
  (length l <= n)%nat -> Forall (fun u => 0 <= u < 65536) l -> from_utf16 l = Some s ->
  chars_utf16 s = l /\ Forall is_scalar s.
Proof.
  revert l s. induction n as [|n IH]; intros [|u l] s Hn Hl; cbn in Hn; try lia;
    [by intros [= <-]..|]. apply Forall_cons in Hl as [Hu Hl]. cbn [from_utf16].
  destruct ((u <? 55296) || (57343 <? u)) eqn:E.
  - destruct (from_utf16 l) as [s'|] eqn:El; [|done]. intros [= <-].
    destruct (IH l s') as [H1 H2]; [lia|done|done|]. apply orb_true_iff in E.
    unfold chars_utf16 in *. cbn. rewrite H1. unfold char_utf16.
    destruct (Z.ltb_spec u 65536); [|lia]. split; [done|]. constructor; [|done]. unfold is_scalar. lia.
  - destruct l as [|v l]; [done|]. destruct (_ && _) eqn:Ev; [|done].
    apply andb_true_iff in Ev as [Eu [Hv1 Hv2]%in_range_spec].
    destruct (from_utf16 l) as [s'|] eqn:El; [|done]. intros [= <-].
    apply Forall_cons in Hl as [_ Hl]. destruct (IH l s') as [H1 H2]; [cbn in Hn; lia|done|done|].
    apply orb_false_iff in E. assert (55296 <= u < 56320) as Hur by lia.
    set (c := 65536 + (u - 55296) * 1024 + (v - 56320)).
    assert (is_scalar c) as Hc by (unfold is_scalar, c; lia).
    split; [|by constructor]. unfold chars_utf16 in *. cbn. rewrite H1. unfold char_utf16.
    destruct (Z.ltb_spec c 65536); [unfold c in *; lia|]. cbn. unfold c. f_equal; [|f_equal].
    + rewrite <- (Z.div_unique (65536 + (u - 55296) * 1024 + (v - 56320) - 65536) 1024 (u - 55296)
        (v - 56320)); lia.
    + rewrite <- (Z.mod_unique (65536 + (u - 55296) * 1024 + (v - 56320) - 65536) 1024 (u - 55296)
        (v - 56320)); lia.
Qed.

(** ** The command *)
Inductive AutostartStatus : Type := Disabled | Enabled | Conflict.
#[global] Instance AutostartStatus_eq_dec : EqDecision AutostartStatus.
Proof. solve_decision. Defined.

(** A path: whether it is absolute, and its text if that is Unicode. *)
Record Path := { pa_absolute : bool; pa_text : option chars }.
(** The quote, CR, LF and NUL. *)
Definition unsupported (c : Z) : bool := bool_decide (c ∈ [34; 13; 10; 0]).
Definition command_text (agent config : chars) : chars :=
  [34] ++ agent ++ [34] ++ str_bytes " --config " ++ [34] ++ config ++ [34] ++ str_bytes " run".
Definition command (agent config : Path) : sresult chars :=
  if negb (pa_absolute agent) || negb (pa_absolute config)
  then Err "Agent and config paths must be absolute"%string else
  match pa_text agent with
  | None => Err "Agent path is not Unicode"%string
  | Some a =>
    match pa_text config with
    | None => Err "Config path is not Unicode"%string
    | Some c =>
      if existsb unsupported (a ++ c)
      then Err "Autostart paths contain an unsupported character"%string
      else Ok (command_text a c)
    end
  end.
Definition classify (stored : option chars) (expected : chars) : AutostartStatus :=
  match stored with
  | None => Disabled
  | Some value => if bool_decide (value = expected) then Enabled else Conflict
  end.
Definition may_remove (stored : option chars) (expected : chars) : bool :=
  bool_decide (stored = Some expected).

(** ** The registry *)
(** A value: its type, its size in bytes, the units read from it. *)
Record RegValue := { rg_kind : Z; rg_bytes : Z; rg_units : list Z }.
Definition REG_SZ : Z := 1.
(** Whether the key opens and whether the call on it succeeds. *)
Record RegIo := { ri_open : bool; ri_call : bool }.
Definition wide (s : chars) : list Z := chars_utf16 s ++ [0].
Definition reg_ok (io : RegIo) : bool := ri_open io && ri_call io.

Definition registry_read (io : RegIo) (v : option RegValue) : sresult (option chars) :=
  if negb (ri_open io) then Err "Could not open per-user autostart key"%string else
  match v with
  | None => Ok None
  | Some r =>
    if negb (ri_call io) then Err "Could not query autostart value"%string else
    if negb (rg_kind r =? REG_SZ) || (rg_bytes r <? 2) || (32 * 1024 <? rg_bytes r) ||
       negb (rg_bytes r mod 2 =? 0)
    then Err "Autostart value has an unsupported type or size"%string else
    match last (rg_units r) with
    | Some 0 =>
      match from_utf16 (removelast (rg_units r)) with
      | Some s => Ok (Some s)
      | None => Err "Autostart value is not valid UTF-16"%string
      end
    | _ => Err "Autostart value is not terminated"%string
    end
  end.
Definition reg_string (s : chars) : RegValue :=
  {| rg_kind := REG_SZ; rg_bytes := wrap32 (zlen (wide s) * 2); rg_units := wide s |}.
Definition registry_write (io : RegIo) (value : chars) (v : option RegValue)
  : option RegValue * sresult () :=
  if reg_ok io then (Some (reg_string value), Ok tt)
  else (v, Err "Could not set autostart value"%string).
(** Deleting a value that is not there succeeds. *)
Definition registry_delete (io : RegIo) (v : option RegValue) : option RegValue * sresult () :=
  if negb (ri_open io) then (v, Err "Could not open per-user autostart key"%string) else
  match v with
  | None => (None, Ok tt)
  | Some _ => if ri_call io then (None, Ok tt) else (v, Err "Could not remove autostart value"%string)
  end.

(** ** The calls; [io1] to [io3] are the registry's answers in order *)
Definition autostart_status (agent config : Path) (io : RegIo) (v : option RegValue)
  : sresult AutostartStatus :=
  match command agent config with
  | Err e => Err e
  | Ok expected =>
    match registry_read io v with
    | Err e => Err e
    | Ok stored => Ok (classify stored expected)
    end
  end.
Definition set_enabled (agent config : Path) (enabled : bool) (io1 io2 io3 : RegIo)
    (v : option RegValue) : option RegValue * sresult AutostartStatus :=
  match command agent config with
  | Err e => (v, Err e)
  | Ok expected =>
    match registry_read io1 v with
    | Err e => (v, Err e)
    | Ok stored =>
      let '(v, r) :=
        if enabled then
          match classify stored expected with
          | Disabled => registry_write io2 expected v
          | Enabled => (v, Ok tt)
          | Conflict => (v, Err "A different autostart value is present; it was preserved"%string)
          end
        else if may_remove stored expected then registry_delete io2 v
        else match stored with
             | Some _ => (v, Err "The autostart value does not exactly match RemoteCodex"%string)
             | None => (v, Ok tt)
             end in
      match r with
      | Err e => (v, Err e)
      | Ok _ => (v, autostart_status agent config io3 v)
      end
    end
  end.

(** ** The settings lock *)
Record TransactionGuard := { tg_abandoned : bool }.
Definition WAIT_OBJECT_0 : Z := 0.
Definition WAIT_ABANDONED_0 : Z := 128.
Definition WAIT_TIMEOUT : Z := 258.
Definition classify_wait (state : Z) : sresult bool :=
  if state =? WAIT_OBJECT_0 then Ok false
  else if state =? WAIT_ABANDONED_0 then Ok true
  else if state =? WAIT_TIMEOUT then Err "RemoteCodex settings are busy"%string
  else Err "Could not acquire the RemoteCodex settings lock"%string.
(** The guard and whether the mutex handle stays open: the user's name, the security
    descriptor, the mutex and the wait may fail. *)
Definition transaction_acquire (sid security created : bool) (wait : Z)
  : bool * sresult TransactionGuard :=
  if negb sid then (false, Err "current_user_sid_string"%string) else
  if negb security then (false, Err "LocalSecurity"%string) else
  if negb created
  then (false, Err "Could not create the RemoteCodex settings transaction lock"%string) else
  match classify_wait wait with
  | Ok abandoned => (true, Ok {| tg_abandoned := abandoned |})
  | Err e => (false, Err e)
  end.
Lemma transaction_handle_owned sid security created wait :
  (transaction_acquire sid security created wait).1 =
  is_ok (transaction_acquire sid security created wait).2.
Proof. unfold transaction_acquire. by repeat case_match. Qed.

(** ** The entry is the agent's own, or is left alone *)
(** What the call stores, and what it recognises. *)
Definition own_value (expected : chars) (v : option RegValue) : Prop :=
  exists r, v = Some r /\ rg_kind r = REG_SZ /\ rg_units r = wide expected.
(** The registry hands out 16-bit units. *)
Definition reg_wf (v : option RegValue) : Prop :=
  forall r, v = Some r -> Forall (fun u => 0 <= u < 65536) (rg_units r).

Lemma chars_utf16_range s : Forall is_scalar s -> Forall (fun u => 0 <= u < 65536) (chars_utf16 s).
Proof.
  unfold chars_utf16. induction 1 as [|c s Hc Hs IH]; [constructor|]. cbn.
  apply Forall_app. split; [|exact IH].
  destruct (char_utf16_cases c Hc) as [(-> & Hlt & _)|(u & v & -> & Hu & Hv & _)];
    unfold is_scalar in Hc; repeat (apply Forall_cons; split; [lia|]); constructor.
Qed.
Lemma last_removelast {A} (l : list A) x : last l = Some x -> l = removelast l ++ [x].
Proof.
  intros Hl. destruct l as [|y l]; [done|]. rewrite last_cons in Hl.
  pose proof (app_removelast_last y (l := y :: l) ltac:(done)) as E.
  rewrite E at 1. f_equal. f_equal. rewrite <- (last_cons) in Hl.
  rewrite E, last_snoc in Hl. congruence.
Qed.
(** Reading succeeds with a text exactly on a string value of acceptable size. *)
Lemma registry_read_Some io v s :
  reg_wf v -> registry_read io v = Ok (Some s) ->
  own_value s v /\ Forall is_scalar s.
Proof.
  intros Hwf. unfold registry_read. destruct (negb (ri_open io)); [done|].
  destruct v as [r|]; [|done]. destruct (negb (ri_call io)); [done|].
  destruct (_ || _) eqn:E; [done|]. destruct (last (rg_units r)) as [[| |]|] eqn:El; try done.
  destruct (from_utf16 _) as [s'|] eqn:Es; [|done]. intros [= <-].
  apply last_removelast in El. pose proof (Hwf r eq_refl) as Hr. rewrite El in Hr.
  apply Forall_app in Hr as [Hr _].
  destruct (from_utf16_exact _ _ _ (le_n _) Hr Es) as [H1 H2]. split; [|done].
  exists r. split; [done|]. apply orb_false_iff in E as [[[Ek _]%orb_false_iff _]%orb_false_iff _].
  split; [by bools|]. unfold wide. by rewrite H1.
Qed.
Lemma registry_read_own io s r :
  Forall is_scalar s -> zlen (wide s) <= 16384 -> own_value s (Some r) ->
  rg_bytes r = zlen (wide s) * 2 -> reg_ok io = true -> registry_read io (Some r) = Ok (Some s).
Proof.
  intros Hs Hl (r' & [= <-] & Hk & Hu) Hb [Ho Hc]%andb_true_iff. unfold registry_read.
  rewrite Ho, Hc, Hk, Hb, Hu. cbn [negb orb]. unfold wide in *.
  rewrite zlen_snoc in *. pose proof (zlen_nonneg (chars_utf16 s)).
  rewrite (Z.eqb_refl REG_SZ), Z_mod_mult. cbn [negb orb Z.eqb].
  rewrite (proj2 (Z.ltb_ge _ 2)), (proj2 (Z.ltb_ge (32 * 1024) _)) by lia. cbn [orb].
  rewrite last_snoc, removelast_last, <- (app_nil_r (chars_utf16 s)), from_utf16_encode by done.
  cbn. by rewrite app_nil_r.
Qed.
Lemma own_value_inj s t v :
  Forall is_scalar s -> Forall is_scalar t -> own_value s v -> own_value t v -> s = t.
Proof.
  intros Hs Ht (r & -> & _ & Hr) (r' & [= <-] & _ & Hr'). rewrite Hr in Hr'.
  apply app_inj_2 in Hr' as [Hr' _]; [|done].
  pose proof (from_utf16_encode s [] Hs) as E1. pose proof (from_utf16_encode t [] Ht) as E2.
  rewrite Hr' in E1. rewrite E1 in E2. cbn in E2. rewrite !app_nil_r in E2. congruence.
Qed.
(** What a successful read says of the value. *)
Lemma registry_read_Ok io v stored :
  reg_wf v -> registry_read io v = Ok stored ->
  match stored with None => v = None | Some s => own_value s v /\ Forall is_scalar s end.
Proof.
  intros Hwf Hr. destruct stored as [s|]; [by eapply registry_read_Some|].
  revert Hr. unfold registry_read. by repeat case_match.
Qed.
Lemma reg_string_own t : own_value t (Some (reg_string t)).
Proof. by eexists. Qed.
Lemma reg_string_wf t : Forall is_scalar t -> reg_wf (Some (reg_string t)).
Proof.
  intros Ht r [= <-]. cbn. apply Forall_app. split; [by apply chars_utf16_range|].
  apply Forall_cons. split; [lia|constructor].
Qed.

(** The command's text determines the two paths. *)
Lemma quote_split (a b r r' : chars) :
  34 ∉ a -> 34 ∉ b -> a ++ 34 :: r = b ++ 34 :: r' -> a = b /\ r = r'.
Proof.
  revert b. induction a as [|x a IH]; intros [|y b] Ha Hb E; cbn in E; simplify_eq; [done|..].
  - destruct Hb. by left.
  - destruct Ha. by left.
  - apply not_elem_of_cons in Ha as [_ Ha], Hb as [_ Hb].
    destruct (IH b Ha Hb) as [-> ->]; done.
Qed.
Lemma command_Ok agent config t :
  command agent config = Ok t ->
  exists a c, pa_absolute agent = true /\ pa_absolute config = true /\
    pa_text agent = Some a /\ pa_text config = Some c /\ t = command_text a c /\
    forall x, x ∈ a ++ c -> x <> 34 /\ x <> 13 /\ x <> 10 /\ x <> 0.
Proof.
  unfold command. destruct (negb (pa_absolute agent) || _) eqn:E; [done|].
  destruct (pa_text agent) as [a|]; [|done]. destruct (pa_text config) as [c|]; [|done].
  destruct (existsb unsupported _) eqn:Ex; [done|]. intros [= <-]. exists a, c.
  apply orb_false_iff in E as [E1%negb_false_iff E2%negb_false_iff].
  repeat (split; [done|]). intros x Hx.
  assert (unsupported x = false) as Hu.
  { apply not_true_iff_false. intros Hu. apply not_true_iff_false in Ex. apply Ex, existsb_exists.
    exists x. split; [by apply list_elem_of_In|done]. }
  unfold unsupported in Hu. apply bool_decide_eq_false_1 in Hu. set_solver.
Qed.
Lemma command_text_inj a c a' c' :
  34 ∉ a -> 34 ∉ c -> 34 ∉ a' -> 34 ∉ c' ->
  command_text a c = command_text a' c' -> a = a' /\ c = c'.
Proof.
  unfold command_text. intros Ha Hc Ha' Hc' E. apply app_inv_head in E.
  apply quote_split in E as [-> E]; [|done..]. do 2 apply app_inv_head in E.
  by apply quote_split in E as [-> _].
Qed.
Lemma basic_scalar l : forallb (in_range 0 55295) l = true -> Forall is_scalar l.
Proof.
  intros Hl. apply Forall_forall. intros x Hx. rewrite forallb_forall in Hl.
  apply list_elem_of_In, Hl, in_range_spec in Hx. by left.
Qed.
Lemma command_scalar agent config t :
  (forall x, pa_text agent = Some x -> Forall is_scalar x) ->
  (forall x, pa_text config = Some x -> Forall is_scalar x) ->
  command agent config = Ok t -> Forall is_scalar t.
Proof.
  intros Ha Hc (a & c & _ & _ & Ea & Ec & -> & _)%command_Ok. unfold command_text.
  repeat (apply Forall_app; split); first [by apply Ha | by apply Hc | by apply basic_scalar].
Qed.

Section Calls.
Context (agent config : Path) (t : chars) (Ht : command agent config = Ok t)
  (Hsc : Forall is_scalar t).

Lemma status_value io v s :
  reg_wf v -> autostart_status agent config io v = Ok s ->
  match s with
  | Disabled => v = None
  | Enabled => own_value t v
  | Conflict => exists x, x <> t /\ Forall is_scalar x /\ own_value x v
  end.
Proof using Ht Hsc.
  intros Hwf. unfold autostart_status. rewrite Ht.
  destruct (registry_read io v) as [stored|] eqn:E; [|done].
  apply registry_read_Ok in E; [|done]. intros [= <-]. unfold classify.
  destruct stored as [x|]; [|done]. destruct E as [Hown Hx].
  case_bool_decide; [by subst|]. eauto.
Qed.
(** The value after the call, before the last look at it. *)
Lemma set_enabled_cases enabled io1 io2 io3 v :
  reg_wf v ->
  let '(v', r) := set_enabled agent config enabled io1 io2 io3 v in
  (v' = v /\ is_err r = true) \/
  (r = autostart_status agent config io3 v' /\
   if enabled then (v' = v /\ own_value t v) \/ (v = None /\ v' = Some (reg_string t))
   else v' = None /\ (v = None \/ own_value t v)).
Proof using Ht.
  intros Hwf. unfold set_enabled. rewrite Ht.
  destruct (registry_read io1 v) as [stored|] eqn:Er; [|by left].
  apply registry_read_Ok in Er; [|done].
  unfold classify, may_remove, registry_write, registry_delete. destruct enabled.
  - destruct stored as [x|].
    + case_bool_decide as Ex; [|by left]. subst x. right. split; [done|]. left. by destruct Er.
    + subst v. destruct (reg_ok io2); [|by left]. right. auto.
  - case_bool_decide as Ex.
    + subst stored. destruct Er as [Hown _]. destruct (negb (ri_open io2)); [by left|].
      pose proof Hown as (rv & -> & _). destruct (ri_call io2); [|by left]. right. auto.
    + destruct stored; [by left|]. subst v. right. auto.
Qed.
Lemma set_enabled_wf enabled io1 io2 io3 v :
  reg_wf v -> reg_wf (set_enabled agent config enabled io1 io2 io3 v).1.
Proof using Ht Hsc.
  intros Hwf. pose proof (set_enabled_cases enabled io1 io2 io3 v Hwf) as Hc.
  destruct (set_enabled _ _ _ _ _ _ v) as [v' r]. cbn.
  destruct Hc as [[-> _]|[_ Hc]]; [done|]. destruct enabled.
  - destruct Hc as [[-> _]|[_ ->]]; [done|]. by apply reg_string_wf.
  - by destruct Hc as [-> _].
Qed.
(** With a working registry and a command the value can hold, the call succeeds. *)
Lemma set_enabled_succeeds enabled io1 io2 io3 v :
  reg_wf v -> zlen (wide t) <= 16384 ->
  reg_ok io1 = true -> reg_ok io2 = true -> reg_ok io3 = true ->
  v = None \/ registry_read io1 v = Ok (Some t) ->
  is_ok (set_enabled agent config enabled io1 io2 io3 v).2 = true.
Proof using Ht Hsc.
  intros Hwf Hl H1 H2 H3 Hv.
  assert (registry_read io3 (Some (reg_string t)) = Ok (Some t)) as Hread.
  { apply registry_read_own; [done|done|apply reg_string_own| |done]. cbn.
    pose proof (zlen_nonneg (wide t)). apply wrap32_small. unfold u32_max. lia. }
  apply andb_true_iff in H1 as [O1 C1], H3 as [O3 C3].
  pose proof H2 as [O2 C2]%andb_true_iff.
  unfold set_enabled. rewrite Ht. destruct Hv as [->|Hr].
  - unfold registry_read at 1. rewrite O1. cbn [negb]. unfold classify at 1, may_remove, registry_write.
    rewrite H2. destruct enabled; cbn; unfold autostart_status; rewrite Ht; [by rewrite Hread|].
    unfold registry_read. by rewrite O3.
  - rewrite Hr. pose proof (registry_read_Ok io1 v _ Hwf Hr) as [Hown _].
    pose proof Hown as (rv & -> & _).
    unfold classify at 1, may_remove. rewrite !bool_decide_eq_true_2 by done.
    assert (registry_read io3 (Some rv) = Ok (Some t)) as Hr3.
    { revert Hr. unfold registry_read. by rewrite O1, C1, O3, C3. }
    destruct enabled; cbn [snd]; unfold autostart_status; rewrite Ht; [by rewrite Hr3|].
    unfold registry_delete. rewrite O2, C2. cbn. unfold registry_read. by rewrite O3.
Qed.
End Calls.

(** The autostart entry is the agent's own or is left alone.  Whatever the
    registry answers, switching autostart on or off changes the value only from absent
    to the agent's command, or from that command to absent; any other value, of any
    type, stays as it is.  An [Ok] answer is the requested state and is true of the
    value; with a working registry and a command the value can hold, the call succeeds
    if the value is absent or the agent's own.  A value that is the agent's own starts
    this agent with this configuration and no other. *)
Theorem autostart_owns_only_its_entry agent config t enabled io1 io2 io3 v v' r :
  command agent config = Ok t ->
  (forall x, pa_text agent = Some x \/ pa_text config = Some x -> Forall is_scalar x) ->
  reg_wf v -> set_enabled agent config enabled io1 io2 io3 v = (v', r) ->
  (v' = v \/ if enabled then v = None /\ v' = Some (reg_string t) else own_value t v /\ v' = None) /\
  (forall s, r = Ok s -> s = (if enabled then Enabled else Disabled) /\
     if enabled then own_value t v' else v' = None) /\
  (zlen (wide t) <= 16384 -> reg_ok io1 = true -> reg_ok io2 = true -> reg_ok io3 = true ->
     v = None \/ registry_read io1 v = Ok (Some t) -> is_ok r = true) /\
  (forall agent' config', command agent' config' = Ok t ->
     pa_text agent' = pa_text agent /\ pa_text config' = pa_text config).
Proof.
  intros Ht Hp Hwf Hs.
  assert (Forall is_scalar t) as Hsc by (eapply command_scalar; [| |exact Ht]; auto).
  pose proof (set_enabled_cases agent config t Ht enabled io1 io2 io3 v Hwf) as Hc.
  pose proof (set_enabled_wf agent config t Ht Hsc enabled io1 io2 io3 v Hwf) as Hwf'.
  pose proof (set_enabled_succeeds agent config t Ht Hsc enabled io1 io2 io3 v Hwf) as Hok.
  rewrite Hs in Hc, Hwf', Hok. cbn [fst snd] in Hwf', Hok. split; [|split; [|split; [exact Hok|]]].
  - destruct Hc as [[-> _]|[_ Hc]]; [by left|]. destruct enabled.
    + destruct Hc as [[-> _]|Hc]; auto.
    + destruct Hc as [-> [->|Hown]]; auto.
  - intros s ->. destruct Hc as [[_ ?]|[Hst Hc]]; [done|]. symmetry in Hst.
    apply (status_value agent config t Ht Hsc) in Hst; [|done]. destruct enabled.
    + assert (own_value t v') as Hown
        by (destruct Hc as [[-> ?]|[_ ->]]; [done|apply reg_string_own]).
      destruct s; [by subst; destruct Hown as (? & ? & _)|done|].
      destruct Hst as (x & Hne & Hx & Hox). destruct Hne. by eapply own_value_inj.
    + destruct Hc as [-> _]. split; [|done]. destruct s; [done|..].
      * by destruct Hst as (? & ? & _).
      * by destruct Hst as (? & _ & _ & ? & ? & _).
  - intros agent' config' (a' & c' & _ & _ & Ea' & Ec' & Ht' & Hq')%command_Ok.
    apply command_Ok in Ht as (a & c & _ & _ & Ea & Ec & -> & Hq).
    rewrite Ea, Ec, Ea', Ec'.
    destruct (command_text_inj a c a' c') as [-> ->]; [..|exact Ht'|done];
      intros Hin; [apply (Hq 34)|apply (Hq 34)|apply (Hq' 34)|apply (Hq' 34)]; set_solver.
Qed.

(** ** A concrete entry *)
Definition demo_agent : Path := {| pa_absolute := true; pa_text := Some (str_bytes "C:\rc-agent.exe") |}.
Definition demo_config : Path := {| pa_absolute := true; pa_text := Some (str_bytes "C:\agent.toml") |}.
Definition io_ok : RegIo := {| ri_open := true; ri_call := true |}.
Definition demo_text : chars := command_text (str_bytes "C:\rc-agent.exe") (str_bytes "C:\agent.toml").
Lemma autostart_owns_only_its_entry_witness :
  exists v', set_enabled demo_agent demo_config true io_ok io_ok io_ok None = (v', Ok Enabled) /\
    own_value demo_text v'.
Proof.
  destruct (set_enabled demo_agent demo_config true io_ok io_ok io_ok None) as [v' r] eqn:E.
  assert (r = Ok Enabled) as -> by (by vm_compute in E; simplify_eq).
  exists v'. split; [reflexivity|].
  refine (proj2 (proj1 (proj2 (autostart_owns_only_its_entry demo_agent demo_config demo_text true io_ok io_ok
    io_ok None v' (Ok Enabled) eq_refl _ _ E)) Enabled eq_refl)).
  - by intros x [[= <-]|[= <-]]; apply basic_scalar.
  - by intros r.
Defined.
Example autostart_runs :
  let v := Some {| rg_kind := REG_SZ; rg_bytes := 4; rg_units := [97; 0] |} in
  set_enabled demo_agent demo_config true io_ok io_ok io_ok v =
    (v, Err "A different autostart value is present; it was preserved"%string) /\
  (set_enabled demo_agent demo_config false io_ok io_ok io_ok (Some (reg_string demo_text))) =
    (None, Ok Disabled) /\
  from_utf16 [55357; 56832] = Some [128512] /\ from_utf16 [55357] = None.
Proof. by vm_compute. Qed.
