(* ===== verification/Profiles.v ===== *)
(** * Launch profiles ([crates/rc-agent/src/profiles.rs])
    Which programs a session may run, where they are found, and the bounded search for
    the managed program's native executable.  Paths are normalised; what the file
    system and the environment answer are arguments. *)
From Stdlib Require Import Ascii String.
From S2P Require Import Prelude Errors Text Paths.
#[global] Open Scope Z_scope.

Record LaunchProfile := {
  lp_id : string;
  lp_label : string;
  lp_program : string;
  lp_args : list string;
  lp_managed_codex : bool
}.
Record ProfileInfo := {
  pf_id : string;
  pf_label : string;
  pf_program_path : string;
  pf_args : list string;
  pf_managed_codex : bool;
  pf_composer_allowed : bool
}.
Definition profile_info (p : LaunchProfile) : ProfileInfo :=
  {| pf_id := lp_id p; pf_label := lp_label p; pf_program_path := lp_program p;
     pf_args := lp_args p; pf_managed_codex := lp_managed_codex p;
     pf_composer_allowed := lp_managed_codex p |}.

Definition profile_find (installed : list LaunchProfile) (name : string)
  : option LaunchProfile :=
  List.find (fun profile => bool_decide (lp_id profile = name)) installed.
Definition profile_resolve (installed : list LaunchProfile) (name : string)
  : res LaunchProfile := ok_or (profile_find installed name) InvalidRequest.

(** ** The machine *)
Record Machine := {
  mh_is_file : Components -> bool;
  mh_is_dir : Components -> bool;
  mh_read_dir : Components -> option (list (option string));   (* [None]: a bad entry *)
  mh_system_root : option string;
  mh_search_path : option string;
  mh_app_data : option string
}.
Section Machine.
Context (mc : Machine).

Definition is_codex_exe (path : Components) : bool :=
  mh_is_file mc path &&
  is_some_and (fun name => eq_ignore_ascii_case name "codex.exe") (file_name path) &&
  existsb (fun c => eq_ignore_ascii_case c "vendor") path.
(** The first fitting file below [root], directories in the order they are listed. *)
Fixpoint find_native_codex (depth : nat) (root : Components) : option Components :=
  match depth with
  | O => None
  | S depth =>
    if negb (mh_is_dir mc root) then None else
    match mh_read_dir mc root with
    | None => None
    | Some entries =>
      (fix scan (entries : list (option string)) : option Components :=
         match entries with
         | [] => None
         | None :: entries => scan entries
         | Some name :: entries =>
           let path := root ++ [name] in
           if is_codex_exe path then Some path else
           if mh_is_dir mc path then
             match find_native_codex depth path with
             | Some found => Some found
             | None => scan entries
             end
           else scan entries
         end) entries
    end
  end.
Definition resolve_on_path (name : string) : option Components :=
  match mh_search_path mc with
  | None => None
  | Some text =>
    List.find (mh_is_file mc)
      (map (fun entry => path_of entry ++ [name])
         (List.filter (fun entry => negb (str_is_empty entry)) (str_split ";"%char text)))
  end.
(** The directory of the shim, and where its native package belongs. *)
Definition codex_dir : option Components :=
  shim ← (match resolve_on_path "codex.ps1" with
          | Some p => Some p
          | None => option_map (fun v => path_of v ++ ["npm"; "codex.ps1"]%string) (mh_app_data mc)
          end);
  parent shim.
Definition native_package (dir : Components) : Components :=
  dir ++ ["node_modules"; "@openai"; "codex"; "node_modules"; "@openai"; "codex-win32-x64"]%string.
Definition resolve_codex : option Components :=
  dir ← codex_dir; find_native_codex 8 (native_package dir).

Definition launch (id label : string) (program : Components) (args : list string) (managed : bool)
  : LaunchProfile :=
  {| lp_id := id; lp_label := label; lp_program := path_text "\" program; lp_args := args;
     lp_managed_codex := managed |}.
Definition installed : list LaunchProfile :=
  let root := path_of (default "C:\Windows"%string (mh_system_root mc)) in
  let cmd := root ++ ["System32"; "cmd.exe"]%string in
  let powershell := root ++ ["System32"; "WindowsPowerShell"; "v1.0"; "powershell.exe"]%string in
  (if mh_is_file mc cmd then [launch "cmd" "CMD" cmd ["/D"%string] false] else []) ++
  (if mh_is_file mc powershell
   then [launch "powershell" "Windows PowerShell" powershell ["-NoLogo"%string] false] else []) ++
  (match resolve_on_path "pwsh.exe" with
   | Some pwsh => [launch "pwsh" "PowerShell 7" pwsh ["-NoLogo"%string] false]
   | None => []
   end) ++
  (match resolve_codex with
   | Some codex => [launch "codex" "Managed Codex" codex [] true]
   | None => []
   end).
Definition profiles_available : list ProfileInfo := map profile_info installed.

(** ** The search *)
(** What directory listings lead to from [root]: the names on the way. *)
Inductive listed : Components -> list string -> Prop :=
| listed_here root name entries :
    mh_is_dir mc root = true -> mh_read_dir mc root = Some entries -> Some name ∈ entries ->
    listed root [name]
| listed_below root name rest entries :
    mh_is_dir mc root = true -> mh_read_dir mc root = Some entries -> Some name ∈ entries ->
    listed (root ++ [name]) rest -> listed root (name :: rest).
Lemma listed_dir root rest : listed root rest -> mh_is_dir mc root = true.
Proof. by destruct 1. Qed.

Lemma find_native_codex_sound depth root p :
  find_native_codex depth root = Some p ->
  exists rest, p = root ++ rest /\ listed root rest /\ (length rest <= depth)%nat /\
    is_codex_exe p = true.
Proof.
  revert root. induction depth as [|depth IH]; intros root Hf; [done|]. cbn [find_native_codex] in Hf.
  destruct (mh_is_dir mc root) eqn:Ed; [|done]. destruct (mh_read_dir mc root) as [entries|] eqn:Er; [|done].
  cbn [negb] in Hf.
  match type of Hf with ?f entries = _ => enough (forall l, l ⊆ entries -> f l = Some p ->
    exists rest, p = root ++ rest /\ listed root rest /\ (length rest <= S depth)%nat /\
      is_codex_exe p = true) as Hl by (by apply (Hl entries)) end.
  clear Hf. induction l as [|[name|] l IHl]; intros Hsub Hf; [done| |].
  - destruct (is_codex_exe (root ++ [name])) eqn:Ec.
    { injection Hf as <-. exists [name]. split; [done|]. split; [|split; [cbn; lia|done]].
      by eapply listed_here; [..|apply Hsub; left]. }
    destruct (mh_is_dir mc (root ++ [name])) eqn:En; [|apply IHl; [set_solver|done]].
    destruct (find_native_codex depth (root ++ [name])) as [q|] eqn:Eq; [|apply IHl; [set_solver|done]].
    injection Hf as <-. destruct (IH _ Eq) as (rest & -> & Hl & Hd & Hc).
    exists (name :: rest). rewrite <- app_assoc in *. split; [done|].
    split; [by eapply listed_below; [..|apply Hsub; left|]|]. split; [cbn; lia|done].
  - apply IHl; [set_solver|done].
Qed.
Lemma find_native_codex_complete root rest :
  listed root rest -> is_codex_exe (root ++ rest) = true ->
  forall depth, (length rest <= depth)%nat -> is_Some (find_native_codex depth root).
Proof.
  induction 1 as [root name entries Hd Hr Hin|root name rest entries Hd Hr Hin Hl IH];
    intros Hc [|depth] Hle; cbn in Hle; try lia; cbn [find_native_codex]; rewrite Hd, Hr; cbn [negb];
    clear Hr; induction entries as [|[n|] l IHl]; try (by apply not_elem_of_nil in Hin).
  - destruct (is_codex_exe (root ++ [n])) eqn:Ec; [done|]. apply elem_of_cons in Hin as [[= <-]|Hin];
      [congruence|]. destruct (mh_is_dir mc (root ++ [n])); [|by apply IHl].
    destruct (find_native_codex depth _); [done|by apply IHl].
  - apply elem_of_cons in Hin as [[=]|Hin]. by apply IHl.
  - destruct (is_codex_exe (root ++ [n])) eqn:Ec; [done|].
    apply elem_of_cons in Hin as [[= <-]|Hin].
    + rewrite (listed_dir _ _ Hl). rewrite <- app_assoc in IH.
      by destruct (IH Hc depth ltac:(lia)) as [q ->].
    + destruct (mh_is_dir mc (root ++ [n])); [|by apply IHl].
      destruct (find_native_codex depth _); [done|by apply IHl].
  - apply elem_of_cons in Hin as [[=]|Hin]. by apply IHl.
Qed.

(** ** What a name resolves to *)
Lemma resolve_on_path_file name p : resolve_on_path name = Some p -> mh_is_file mc p = true.
Proof.
  unfold resolve_on_path. destruct (mh_search_path mc); [|done]. intros Hf.
  apply find_some in Hf. apply Hf.
Qed.
(** How a profile came to be installed. *)
Definition profile_origin (p : LaunchProfile) : Prop :=
  lp_managed_codex p = bool_decide (lp_id p = "codex"%string) /\
  exists program, lp_program p = path_text "\" program /\ mh_is_file mc program = true /\
    (lp_id p = "codex"%string -> exists dir rest, codex_dir = Some dir /\
       program = native_package dir ++ rest /\ listed (native_package dir) rest /\
       (length rest <= 8)%nat /\ is_codex_exe program = true).
Lemma installed_origin p : p ∈ installed -> profile_origin p.
Proof.
  unfold installed. rewrite !elem_of_app. intros [Hp|[Hp|[Hp|Hp]]].
  - destruct (mh_is_file mc _) eqn:E; [|by apply not_elem_of_nil in Hp].
    apply list_elem_of_singleton in Hp as ->. split; [done|].
    eexists. split; [done|]. split; [exact E|done].
  - destruct (mh_is_file mc _) eqn:E; [|by apply not_elem_of_nil in Hp].
    apply list_elem_of_singleton in Hp as ->. split; [done|].
    eexists. split; [done|]. split; [exact E|done].
  - destruct (resolve_on_path _) as [pwsh|] eqn:E; [|by apply not_elem_of_nil in Hp].
    apply list_elem_of_singleton in Hp as ->. split; [done|]. exists pwsh.
    split; [done|]. split; [by eapply resolve_on_path_file|done].
  - destruct resolve_codex as [codex|] eqn:E; [|by apply not_elem_of_nil in Hp].
    apply list_elem_of_singleton in Hp as ->. split; [done|]. exists codex. split; [done|].
    unfold resolve_codex in E. destruct codex_dir as [dir|]; [|done]. cbn [mbind option_bind] in E.
    destruct (find_native_codex_sound _ _ _ E) as (rest & -> & Hl & Hd & Hc).
    split; [|intros _; by exists dir, rest].
    unfold is_codex_exe in Hc. by apply andb_true_iff in Hc as [[? _]%andb_true_iff _].
Qed.
Lemma installed_codex codex :
  resolve_codex = Some codex ->
  profile_find installed "codex" = Some (launch "codex" "Managed Codex" codex [] true).
Proof.
  intros Hc. unfold profile_find, installed. rewrite Hc.
  destruct (mh_is_file mc _), (mh_is_file mc _), (resolve_on_path _); reflexivity.
Qed.

(** What a client can start.  A requested name is only ever resolved to an installed
    profile of that name whose program is a file, and only the profile codex is
    managed.  Its program is never a script or shim: it is a file named codex.exe below
    a vendor directory, found at most eight levels deep in the native package beside
    the shim.  And the search misses nothing: when codex is refused although there is a
    shim, no such file is in the directories that can be listed. *)
Theorem profiles_resolve_exact name :
  match profile_resolve installed name with
  | Ok p => lp_id p = name /\ p ∈ installed /\ profile_origin p
  | Err e =>
    e = InvalidRequest /\ Forall (fun p => lp_id p <> name) installed /\
    (name = "codex"%string -> forall dir rest, codex_dir = Some dir ->
       listed (native_package dir) rest -> (length rest <= 8)%nat ->
       is_codex_exe (native_package dir ++ rest) = false)
  end.
Proof.
  unfold profile_resolve, profile_find.
  destruct (List.find _ installed) as [p|] eqn:Ef; cbn [ok_or].
  - apply find_some in Ef as [Hin Hn]. apply bool_decide_eq_true_1 in Hn.
    apply list_elem_of_In in Hin. split; [done|]. split; [done|]. by apply installed_origin.
  - split; [done|]. split.
    { apply Forall_forall. intros p Hp Hn. apply list_elem_of_In in Hp.
      pose proof (find_none _ _ Ef p Hp) as Hno. by apply bool_decide_eq_false_1 in Hno. }
    intros -> dir rest Hdir Hl Hd. apply not_true_iff_false. intros Hc.
    destruct (find_native_codex_complete _ _ Hl Hc 8 Hd) as [codex Hfind].
    assert (resolve_codex = Some codex) as Hr.
    { unfold resolve_codex. by rewrite Hdir. }
    pose proof (installed_codex codex Hr) as Hi. unfold profile_find in Hi. congruence.
Qed.
End Machine.

Definition demo_machine : Machine :=
  let package := native_package ["C:"; "npm"]%string in
  let bin := package ++ ["vendor"; "x86_64"]%string in
  {| mh_is_file := fun p => bool_decide (p ∈ [["C:"; "Windows"; "System32"; "cmd.exe"]%string;
        ["C:"; "npm"; "codex.ps1"]%string; bin ++ ["Codex.exe"%string]]);
     mh_is_dir := fun p => bool_decide (p ∈ [package; package ++ ["vendor"%string]; bin]);
     mh_read_dir := fun p =>
       if bool_decide (p = package) then Some [None; Some "vendor"%string]
       else if bool_decide (p = bin) then Some [Some "Codex.exe"%string]
       else Some [Some "x86_64"%string];
     mh_system_root := None; mh_search_path := Some ";C:\tools;C:\npm\"%string; mh_app_data := None |}.
Example profiles_run :
  map lp_id (installed demo_machine) = ["cmd"; "codex"]%string /\
  map lp_program (installed demo_machine) =
    ["C:\Windows\System32\cmd.exe";
     "C:\npm\node_modules\@openai\codex\node_modules\@openai\codex-win32-x64\vendor\x86_64\Codex.exe"]%string.
Proof. by vm_compute. Qed.
