(* ===== verification/SessionInput.v ===== *)
(** * The input path of a session
    ([crates/rc-agent/src/session.rs]): accepting keyboard input and pastes
    under the lease and the replay guard, and the writer thread that delivers
    accepted jobs to the PTY. *)
From S2P Require Import Prelude Errors Protocol Lease Ledger Text Auth.

Record InputState := { is_lease : Lease; is_ledger : InputLedger }.

Record InputJob := {
  j_p : Principal;
  j_connection : Uuid;
  j_epoch : Z;
  j_id : Uuid;
  j_data : bytes;
  j_received : Z;
  j_bulk : bool;
  j_bracketed : bool;
  j_append_enter : bool
}.

(** The two bounded channels to the writer thread; [q_open] while it runs. *)
Record Queues := {
  q_normal : list InputJob;
  q_interrupt : list InputJob;
  q_open : bool
}.
Definition NORMAL_CAP : Z := 64.
Definition INTERRUPT_CAP : Z := 8.

Definition queues_new : Queues := {| q_normal := []; q_interrupt := []; q_open := true |}.

(** [try_send] *)
Definition try_send_normal (q : Queues) (j : InputJob) : option Queues :=
  if q_open q && (zlen (q_normal q) <? NORMAL_CAP)
  then Some {| q_normal := q_normal q ++ [j]; q_interrupt := q_interrupt q; q_open := q_open q |}
  else None.
Definition try_send_interrupt (q : Queues) (j : InputJob) : option Queues :=
  if q_open q && (zlen (q_interrupt q) <? INTERRUPT_CAP)
  then Some {| q_normal := q_normal q; q_interrupt := q_interrupt q ++ [j]; q_open := q_open q |}
  else None.

Definition set_ledger (g : InputLedger) (st : InputState) : InputState :=
  {| is_lease := is_lease st; is_ledger := g |}.
Definition set_lease (l : Lease) (st : InputState) : InputState :=
  {| is_lease := l; is_ledger := is_ledger st |}.

(** [enqueue]: [now0] and [now] are the two readings of the clock. *)
Definition enqueue (cancelled : gset Token) (p : Principal) (c : Uuid) (lease : Z)
    (id : Uuid) (seq : Z) (data : bytes) (received now0 now : Z)
    (s : InputState * Queues) : (InputState * Queues) * res unit :=
  let '(st, q) := s in
  match principal_require cancelled p TerminalWrite now0 with
  | Err e => (s, Err e)
  | Ok _ =>
    match lease_verify (is_lease st) (p_client_id p) c lease now with
    | Err e => (s, Err e)
    | Ok _ =>
      match ledger_accept (is_ledger st) c lease id seq (zlen data) with
      | (g, Err e) => ((set_ledger g st, q), Err e)
      | (g, Ok _) =>
        let priority := bool_decide (data = [3]) in
        let job := {| j_p := p; j_connection := c; j_epoch := lease; j_id := id;
                      j_data := data; j_received := received; j_bulk := false;
                      j_bracketed := false; j_append_enter := false |} in
        match (if priority then try_send_interrupt q job else try_send_normal q job) with
        | None => ((set_ledger (ledger_finish g id "rejected") st, q), Err RateLimited)
        | Some q' => ((set_ledger g st, q'), Ok tt)
        end
      end
    end
  end.

(** [text.replace("\r\n", "\r").replace('\n', "\r")] *)
Fixpoint replace_crlf (l : bytes) : bytes :=
  match l with
  | [] => []
  | b :: r =>
    match r with
    | c :: r' =>
      if (b =? 13) && (c =? 10) then 13 :: replace_crlf r' else b :: replace_crlf r
    | [] => [b]
    end
  end.
Definition replace_lf (l : bytes) : bytes := map (fun b => if b =? 10 then 13 else b) l.

(** Control characters a paste may not hold: all but tab, LF and CR; DEL. *)
Definition paste_forbidden (b : Z) : bool :=
  (b <? 32) && negb ((b =? 9) || (b =? 10) || (b =? 13)) || (b =? 127).

Definition enqueue_paste (cancelled : gset Token) (bracketed : bool) (p : Principal) (c : Uuid)
    (lease : Z) (id : Uuid) (seq : Z) (text : bytes) (append_enter : bool)
    (received now0 now : Z) (s : InputState * Queues) : (InputState * Queues) * res unit :=
  let '(st, q) := s in
  match principal_require cancelled p TerminalWrite now0 with
  | Err e => (s, Err e)
  | Ok _ =>
    if bool_decide (text = []) || (MAX_PASTE <? zlen text) || existsb paste_forbidden text
    then (s, Err InvalidRequest) else
    let data := replace_lf (replace_crlf text) in
    match lease_verify (is_lease st) (p_client_id p) c lease now with
    | Err e => (s, Err e)
    | Ok _ =>
      match ledger_accept_paste (is_ledger st) c lease id seq (zlen data) with
      | (g, Err e) => ((set_ledger g st, q), Err e)
      | (g, Ok _) =>
        let job := {| j_p := p; j_connection := c; j_epoch := lease; j_id := id;
                      j_data := data; j_received := received; j_bulk := true;
                      j_bracketed := bracketed; j_append_enter := append_enter |} in
        match try_send_normal q job with
        | None => ((set_ledger (ledger_finish g id "rejected") st, q), Err RateLimited)
        | Some q' => ((set_ledger g st, q'), Ok tt)
        end
      end
    end
  end.

(** ** The writer thread

    Other threads run between its steps.  Its k-th step observes the moment
    [env k]: the cancelled tokens, whether the session runs, the lease, the
    clock, whether a PTY write succeeds ([None]) or fails after delivering some
    bytes, and what the interrupt channel holds. *)
Record Moment := {
  mo_cancelled : gset Token;
  mo_running : bool;
  mo_lease : Lease;
  mo_now : Z;
  mo_write : option nat;
  mo_irq : option InputJob
}.

(** The [permitted] closure. *)
Definition writer_permitted (job : InputJob) (m : Moment) : res unit :=
  match principal_require (mo_cancelled m) (j_p job) TerminalWrite (mo_now m) with
  | Err e => Err e
  | Ok _ =>
    if negb (mo_running m) then Err SessionLost
    else lease_verify (mo_lease m) (p_client_id (j_p job)) (j_connection job) (j_epoch job)
           (mo_now m)
  end.

(** One call of [write_all]: its step, what it was for and what the PTY got. *)
Inductive WriteKind : Type := WPrefix | WData | WSuffix | WEnter | WQuery.
#[global] Instance WriteKind_eq_dec : EqDecision WriteKind.
Proof. solve_decision. Defined.
Record Write := { w_step : nat; w_kind : WriteKind; w_bytes : bytes }.

Definition write_all (env : nat -> Moment) (k : nat) (kind : WriteKind) (data : bytes)
  : Write * res unit :=
  match mo_write (env k) with
  | None => ({| w_step := k; w_kind := kind; w_bytes := data |}, Ok tt)
  | Some n => ({| w_step := k; w_kind := kind; w_bytes := take n data |},
               Err InputDeliveryUnknown)
  end.

Definition paste_open : bytes := [27; 91; 50; 48; 48; 126].   (* ESC [ 200 ~ *)
Definition paste_close : bytes := [27; 91; 50; 48; 49; 126].  (* ESC [ 201 ~ *)

(** [data.chunks(n)]; the length is enough fuel. *)
Fixpoint chunks_fuel (fuel n : nat) (l : bytes) : list bytes :=
  match fuel, l with
  | _, [] => []
  | O, _ => []
  | S f, _ => take n l :: chunks_fuel f n (drop n l)
  end.
Definition chunks (n : nat) (l : bytes) : list bytes := chunks_fuel (length l) n l.
Definition CHUNK : nat := Z.to_nat 8192.

(** The [for chunk in job.data.chunks(8192)] loop from step [k]: the next step,
    the writes, the result and the urgent job taken. *)
Fixpoint write_chunks (env : nat -> Moment) (k : nat) (job : InputJob) (cs : list bytes)
  : nat * list Write * res unit * option InputJob :=
  match cs with
  | [] => (k, [], Ok tt, None)
  | c :: rest =>
    let irq := if j_bulk job then mo_irq (env k) else None in
    let k := if j_bulk job then S k else k in
    match irq with
    | Some stop => (k, [], Err InputCanceled, Some stop)
    | None =>
      match writer_permitted job (env k) with
      | Err e => (S k, [], Err e, None)
      | Ok _ =>
        match write_all env (S k) WData c with
        | (w, Err e) => (S (S k), [w], Err e, None)
        | (w, Ok _) =>
          let '(k', ws, r, u) := write_chunks env (S (S k)) job rest in
          (k', w :: ws, r, u)
        end
      end
    end
  end.

(** The first closure: permission, the paste prefix, the chunks; the flag is
    [prefix_written]. *)
Definition write_body (env : nat -> Moment) (k : nat) (job : InputJob)
  : nat * list Write * res unit * option InputJob * bool :=
  match writer_permitted job (env k) with
  | Err e => (S k, [], Err e, None, false)
  | Ok _ =>
    if j_bracketed job then
      match write_all env (S k) WPrefix paste_open with
      | (w, Err e) => (S (S k), [w], Err e, None, false)
      | (w, Ok _) =>
        let '(k', ws, r, u) := write_chunks env (S (S k)) job (chunks CHUNK (j_data job)) in
        (k', w :: ws, r, u, true)
      end
    else
      let '(k', ws, r, u) := write_chunks env (S k) job (chunks CHUNK (j_data job)) in
      (k', ws, r, u, false)
  end.

(** [result.and(suffix)] *)
Definition result_and {A E} (r1 r2 : result E A) : result E A :=
  match r1 with Ok _ => r2 | Err e => Err e end.

(** [write_job] up to the reply. *)
(** The closing delimiter of an opened paste, and the Enter after a delivered job. *)
Definition write_close (env : nat -> Moment) (k : nat) (prefix_written : bool)
  : nat * list Write * res unit :=
  if prefix_written then let '(w, r) := write_all env k WSuffix paste_close in (S k, [w], r)
  else (k, [], Ok tt).
Definition write_enter (env : nat -> Moment) (k : nat) (job : InputJob) (result : res unit)
  : nat * list Write * res unit :=
  if is_ok result && j_append_enter job then
    match writer_permitted job (env k) with
    | Err e => (S k, [], Err e)
    | Ok _ => let '(w, r) := write_all env (S k) WEnter [13] in (S (S k), [w], r)
    end
  else (k, [], result).
Definition write_one (env : nat -> Moment) (k : nat) (job : InputJob)
  : nat * list Write * res unit * option InputJob :=
  let '(k, ws, result, urgent, prefix_written) := write_body env k job in
  let '(k, ws2, suffix) := write_close env k prefix_written in
  let '(k, ws3, result) := write_enter env k job (result_and result suffix) in
  (k, ws ++ ws2 ++ ws3, result, urgent).

(** What the clients are told: the result for an input identifier. *)
Definition Reply : Type := Uuid * res unit.

(** The ledger outcome of a finished job. *)
Definition job_outcome (r : res unit) : string :=
  if is_ok r then "written" else "delivery_unknown".

(** The loop cancelling what is queued behind an interrupt. *)
Definition cancel_queued (g : InputLedger) (pending : list InputJob)
  : InputLedger * list Reply :=
  (foldl (fun g j => ledger_finish g (j_id j) "rejected") g pending,
   map (fun j => (j_id j, Err InputCanceled)) pending).

(** The whole of [write_job]: [drained] is what the normal channel holds when an
    urgent job has interrupted a paste.  The recursion is for the urgent job. *)
Fixpoint write_job (fuel : nat) (env : nat -> Moment) (k : nat) (job : InputJob)
    (drained : list InputJob) (g : InputLedger)
  : option (nat * list Write * InputLedger * list Reply) :=
  match fuel with
  | O => None
  | S n =>
    let '(k, ws, result, urgent) := write_one env k job in
    let g := ledger_finish g (j_id job) (job_outcome result) in
    let replies := [(j_id job, result)] in
    match urgent with
    | None => Some (k, ws, g, replies)
    | Some stop =>
      let '(g, replies2) := cancel_queued g drained in
      match write_job n env k stop [] g with
      | None => None
      | Some (k', ws', g', replies3) =>
        Some (k', ws ++ ws', g', replies ++ replies2 ++ replies3)
      end
    end
  end.

(** [writer_loop]: one round on a ready channel, in the order of
    [select_biased!]. *)
Inductive WriterEvent : Type :=
| EvStop
| EvInterrupt (job : InputJob) (queued : list InputJob) (drained : list InputJob)
| EvQuery (q : bytes)
| EvNormal (job : InputJob) (drained : list InputJob).

Definition writer_round (env : nat -> Moment) (k : nat) (ev : WriterEvent) (g : InputLedger)
  : option (nat * list Write * InputLedger * list Reply * bool) :=
  match ev with
  | EvStop => Some (k, [], g, [], false)
  | EvInterrupt job queued drained =>
    let '(g, r1) := cancel_queued g queued in
    match write_job 2 env k job drained g with
    | None => None
    | Some (k, ws, g, r2) => Some (k, ws, g, r1 ++ r2, true)
    end
  | EvQuery q =>
    let '(w, _) := write_all env k WQuery q in Some (S k, [w], g, [], true)
  | EvNormal job drained =>
    match write_job 2 env k job drained g with
    | None => None
    | Some (k, ws, g, r) => Some (k, ws, g, r, true)
    end
  end.

(** ** What the writer delivers *)
Definition delivered (ws : list Write) : bytes := concat (map w_bytes ws).

Lemma chunks_fuel_concat fuel n l :
  (0 < n)%nat -> (length l <= fuel)%nat -> concat (chunks_fuel fuel n l) = l.
Proof.
  intros Hn. revert l. induction fuel as [|f IH]; intros l Hl; [by destruct l; simpl in *; [|lia]|].
  destruct l as [|x l]; [done|]. cbn [chunks_fuel concat].
  rewrite IH by (rewrite length_drop; simpl in *; lia). apply take_drop.
Qed.
Lemma chunks_concat l : concat (chunks CHUNK l) = l.
Proof. apply chunks_fuel_concat; [vm_compute; lia | done]. Qed.

(** Every write of [kind] in [ws] directly follows a successful check. *)
Definition checked (env : nat -> Moment) (job : InputJob) (w : Write) : Prop :=
  exists k, w_step w = S k /\ writer_permitted job (env k) = Ok tt.

Lemma write_chunks_spec env cs k job k' ws r u :
  write_chunks env k job cs = (k', ws, r, u) ->
  (forall w, w ∈ ws -> w_kind w = WData /\ checked env job w) /\
  (exists rest, concat cs = delivered ws ++ rest /\ (r = Ok tt -> rest = [])) /\
  (forall j, u = Some j -> j_bulk job = true /\ r = Err InputCanceled /\
     exists n, mo_irq (env n) = Some j).
Proof.
  revert k k' ws r u. induction cs as [|c cs IH]; intros k k' ws r u.
  { intros [= <- <- <- <-]. split; [by intros w ?%elem_of_nil|].
    split; [by exists []|done]. }
  cbn [write_chunks]. set (k1 := if j_bulk job then S k else k).
  destruct (if j_bulk job then mo_irq (env k) else None) as [stop|] eqn:Ei.
  { intros [= <- <- <- <-]. split; [by intros w ?%elem_of_nil|].
    split; [by exists (concat (c :: cs))|]. intros j [= <-].
    destruct (j_bulk job); [|done]. eauto. }
  destruct (writer_permitted job (env k1)) as [[]|e] eqn:Ep.
  2:{ intros [= <- <- <- <-]. split; [by intros w ?%elem_of_nil|].
      split; [by exists (concat (c :: cs))|done]. }
  unfold write_all. destruct (mo_write (env (S k1))) as [n|].
  { intros [= <- <- <- <-]. split; [|split; [|done]].
    - intros w ->%list_elem_of_singleton. split; [done|]. by exists k1.
    - exists (drop n c ++ concat cs). unfold delivered. cbn. split; [|done].
      by rewrite app_nil_r, app_assoc, take_drop. }
  destruct (write_chunks env (S (S k1)) job cs) as [[[k2 ws2] r2] u2] eqn:Ec.
  intros [= <- <- <- <-]. destruct (IH _ _ _ _ _ Ec) as (Hw & (rest & Hr & Hok) & Hu).
  split; [|split; [|done]].
  - intros w [->|Hin]%elem_of_cons; [split; [done|]; by exists k1|]. by apply Hw.
  - exists rest. cbn. rewrite Hr. unfold delivered. cbn. by rewrite <- app_assoc.
Qed.

Definition paste_prefix (job : InputJob) : bytes := if j_bracketed job then paste_open else [].
Definition paste_suffix (job : InputJob) : bytes := if j_bracketed job then paste_close else [].
Definition enter_suffix (job : InputJob) : bytes := if j_append_enter job then [13] else [].

Lemma write_body_spec env k job k' ws r u pw :
  write_body env k job = (k', ws, r, u, pw) ->
  (forall w, w ∈ ws -> checked env job w /\ (w_kind w = WData \/ w_kind w = WPrefix)) /\
  (exists p d rest, delivered ws = p ++ d /\ paste_prefix job = p ++ drop (length p) (paste_prefix job) /\
     j_data job = d ++ rest /\ (d <> [] \/ pw = true \/ r = Ok tt -> p = paste_prefix job) /\
     (r = Ok tt -> rest = [])) /\
  (pw = true -> j_bracketed job = true) /\ (r = Ok tt -> pw = j_bracketed job) /\
  (forall j, u = Some j -> j_bulk job = true /\ r = Err InputCanceled /\
     exists n, mo_irq (env n) = Some j).
Proof.
  unfold write_body. destruct (writer_permitted job (env k)) as [[]|e] eqn:Ep.
  2:{ intros [= <- <- <- <- <-]. split; [by intros w ?%elem_of_nil|].
      split; [|done]. exists [], [], (j_data job). split; [done|]. split; [done|]. split; [done|].
      split; [by intros [|[|]]|done]. }
  unfold paste_prefix. destruct (j_bracketed job) eqn:Eb.
  - unfold write_all. destruct (mo_write (env (S k))) as [n|].
    { intros [= <- <- <- <- <-]. split; [|split; [|done]].
      - intros w ->%list_elem_of_singleton. split; [by exists k|by right].
      - exists (take n paste_open), [], (j_data job). unfold delivered. cbn.
        split; [done|]. split; [|split; [done|]; split; [by intros [|[|]]|done]].
        rewrite length_take. rewrite <- (take_drop n paste_open) at 1. f_equal.
        destruct (decide (n <= length paste_open)%nat); [by rewrite Nat.min_l|].
        rewrite Nat.min_r by lia. rewrite !drop_ge by lia. done. }
    destruct (write_chunks env (S (S k)) job _) as [[[k2 ws2] r2] u2] eqn:Ec.
    intros [= <- <- <- <- <-].
    destruct (write_chunks_spec _ _ _ _ _ _ _ _ Ec) as (Hw & (rest & Hr & Hok) & Hu).
    rewrite chunks_concat in Hr. split; [|split; [|done]].
    + intros w [->|Hin]%elem_of_cons; [split; [by exists k|by right]|].
      destruct (Hw w Hin). auto.
    + exists paste_open, (delivered ws2), rest. unfold delivered. cbn. repeat split; done.
  - destruct (write_chunks env (S k) job _) as [[[k2 ws2] r2] u2] eqn:Ec.
    intros [= <- <- <- <- <-].
    destruct (write_chunks_spec _ _ _ _ _ _ _ _ Ec) as (Hw & (rest & Hr & Hok) & Hu).
    rewrite chunks_concat in Hr. split; [|split; [|done]].
    + intros w Hin. destruct (Hw w Hin). auto.
    + exists [], (delivered ws2), rest. repeat split; done.
Qed.

Lemma delivered_app a b : delivered (a ++ b) = delivered a ++ delivered b.
Proof. unfold delivered. by rewrite map_app, concat_app. Qed.

Lemma write_all_prefix env k kind b w r :
  write_all env k kind b = (w, r) ->
  w_kind w = kind /\ w_step w = k /\ w_bytes w `prefix_of` b /\ (r = Ok tt -> w_bytes w = b).
Proof.
  unfold write_all. destruct (mo_write (env k)) as [n|]; intros [= <- <-]; cbn.
  - repeat split; [|done]. exists (drop n b). by rewrite take_drop.
  - done.
Qed.

Lemma write_close_spec env k written k' ws r :
  write_close env k written = (k', ws, r) ->
  (forall w, w ∈ ws -> w_kind w = WSuffix /\ w_bytes w `prefix_of` paste_close) /\
  delivered ws `prefix_of` (if written then paste_close else []) /\
  (r = Ok tt -> delivered ws = if written then paste_close else []).
Proof.
  unfold write_close. destruct written.
  - destruct (write_all env k WSuffix paste_close) as [w rw] eqn:Ew.
    apply write_all_prefix in Ew as (Hk & _ & Hpf & Hok). intros [= <- <- <-].
    unfold delivered. cbn. rewrite app_nil_r. split; [|split; [done|auto]].
    by intros w' ->%list_elem_of_singleton.
  - intros [= <- <- <-]. split; [by intros w ?%elem_of_nil|done].
Qed.
Lemma write_enter_spec env k job r0 k' ws r :
  write_enter env k job r0 = (k', ws, r) ->
  (forall w, w ∈ ws -> checked env job w) /\
  delivered ws `prefix_of` enter_suffix job /\
  (r = Ok tt -> r0 = Ok tt /\ delivered ws = enter_suffix job).
Proof.
  unfold write_enter, enter_suffix. destruct r0 as [[]|e0]; cbn [is_ok andb].
  2:{ intros [= <- <- <-]. split; [by intros w ?%elem_of_nil|]. split; [apply prefix_nil|done]. }
  destruct (j_append_enter job).
  2:{ intros [= <- <- <-]. split; [by intros w ?%elem_of_nil|]. done. }
  destruct (writer_permitted job (env k)) as [[]|] eqn:Epm.
  2:{ intros [= <- <- <-]. split; [by intros w ?%elem_of_nil|]. split; [apply prefix_nil|done]. }
  destruct (write_all env (S k) WEnter [13]) as [w rw] eqn:Ew.
  apply write_all_prefix in Ew as (Hk & Hstep & Hpf & Hok). intros [= <- <- <-].
  unfold delivered. cbn. rewrite app_nil_r. split; [|split; [done|auto]].
  intros w' ->%list_elem_of_singleton. by exists k.
Qed.
Lemma write_one_spec env k job k' ws r u :
  write_one env k job = (k', ws, r, u) ->
  (forall w, w ∈ ws -> checked env job w \/ w_kind w = WSuffix /\ w_bytes w `prefix_of` paste_close) /\
  (exists p d q e, delivered ws = p ++ d ++ q ++ e /\
     p `prefix_of` paste_prefix job /\ d `prefix_of` j_data job /\
     q `prefix_of` paste_suffix job /\ e `prefix_of` enter_suffix job /\
     (r = Ok tt -> p = paste_prefix job /\ d = j_data job /\ q = paste_suffix job /\
                   e = enter_suffix job)) /\
  (forall j, u = Some j -> j_bulk job = true /\ exists n, mo_irq (env n) = Some j).
Proof.
  unfold write_one. destruct (write_body env k job) as [[[[k1 ws1] r1] u1] pw] eqn:Eb.
  destruct (write_body_spec _ _ _ _ _ _ _ _ Eb) as
    (Hw & (p & d & rest & Hdel & Hp & Hd & Hpre & Hrest) & Hpw & Hpw' & Hu).
  destruct (write_close env k1 pw) as [[k2 ws2] sfx] eqn:Es.
  apply write_close_spec in Es as (Hw2 & Hq & Hsfx).
  destruct (write_enter env k2 job (result_and r1 sfx)) as [[k3 ws3] r3] eqn:E3.
  apply write_enter_spec in E3 as (Hw3 & He & Hok3). intros [= <- <- <- <-].
  assert (r3 = Ok tt -> r1 = Ok tt /\ sfx = Ok tt) as Hboth.
  { intros [Hr _]%Hok3. by destruct r1 as [[]|], sfx as [[]|]. }
  split; [|split].
  - intros w [Hin|[Hin|Hin]%elem_of_app]%elem_of_app;
      [destruct (Hw w Hin); by left | right; auto | left; auto].
  - exists p, d, (delivered ws2), (delivered ws3). unfold paste_suffix.
    rewrite !delivered_app, Hdel, <- app_assoc. repeat split; try done.
    + by exists (drop (length p) (paste_prefix job)).
    + by exists rest.
    + destruct pw; [by rewrite Hpw|]. etrans; [exact Hq|apply prefix_nil].
    + destruct (Hboth ltac:(done)) as [-> _]. apply Hpre. auto.
    + destruct (Hboth ltac:(done)) as [-> _]. rewrite Hd, Hrest by done. by rewrite app_nil_r.
    + destruct (Hboth ltac:(done)) as [Hr Hs]. rewrite (Hsfx Hs).
      destruct pw; [by rewrite Hpw|]. by rewrite <- Hpw'.
    + by destruct (Hok3 ltac:(done)).
  - intros j Hj. destruct (Hu j Hj) as (? & _ & ?). done.
Qed.

(** C9: nothing is written without permission: each write of a job (the paste
    prefix, every chunk of at most 8192 bytes, the final Enter) immediately
    follows a check that the principal is valid, the session runs and the job's
    connection holds the lease under the job's epoch.  The only exception is the
    agent's own closing delimiter of a bracketed paste. *)
Theorem writer_checks_every_write env k job k' ws r u :
  write_one env k job = (k', ws, r, u) ->
  forall w, w ∈ ws ->
    (exists n, w_step w = S n /\ writer_permitted job (env n) = Ok tt /\
       holds (mo_lease (env n)) (p_client_id (j_p job)) (j_connection job) (j_epoch job)
         (mo_now (env n)) /\ mo_running (env n) = true) \/
    (w_kind w = WSuffix /\ w_bytes w `prefix_of` paste_close).
Proof.
  intros H w Hw. destruct (write_one_spec _ _ _ _ _ _ _ H) as (Hall & _).
  destruct (Hall w Hw) as [(n & Hn & Hperm)|?]; [left|by right].
  exists n. split; [done|]. split; [done|]. unfold writer_permitted in Hperm.
  destruct (principal_require _ _ _ _); [|done].
  destruct (mo_running (env n)); [|done]. cbn in Hperm.
  by apply lease_verify_holds in Hperm.
Qed.

(** C13: what the PTY receives of a job is, in order and at most once, a prefix
    of the paste opener, a prefix of the job's data, a prefix of the paste
    closer and a prefix of Enter; and when the client is told the input was
    written, all of each, nothing more and nothing less. *)
Theorem writer_delivers_once env k job k' ws r u :
  write_one env k job = (k', ws, r, u) ->
  (exists p d q e, delivered ws = p ++ d ++ q ++ e /\
     p `prefix_of` paste_prefix job /\ d `prefix_of` j_data job /\
     q `prefix_of` paste_suffix job /\ e `prefix_of` enter_suffix job) /\
  (r = Ok tt ->
   delivered ws = paste_prefix job ++ j_data job ++ paste_suffix job ++ enter_suffix job).
Proof.
  intros H. destruct (write_one_spec _ _ _ _ _ _ _ H)
    as (_ & (p & d & q & e & -> & Hp & Hd & Hq & He & Hok) & _).
  split; [by exists p, d, q, e|]. intros Hr. by destruct (Hok Hr) as (-> & -> & -> & ->).
Qed.

(** Jobs of the interrupt channel are never pastes. *)
Definition irq_not_bulk (env : nat -> Moment) : Prop :=
  forall k j, mo_irq (env k) = Some j -> j_bulk j = false.


(** ** Order of accepted inputs *)
Record Accepted := { acc_connection : Uuid; acc_epoch : Z; acc_seq : Z; acc_id : Uuid }.
Definition acc_lt (a b : Accepted) : Prop :=
  acc_epoch a < acc_epoch b \/ (acc_epoch a = acc_epoch b /\ acc_seq a < acc_seq b).

(** The session's inputs as the threads interleave: every locked section is one
    step, the clock does not go back, and the writer may take jobs off the
    queues and record outcomes at any time.  The log lists what was queued. *)
Record InputWorld := {
  iw_state : InputState * Queues;
  iw_log : list Accepted;
  iw_clock : Z
}.

Inductive input_step : InputWorld -> InputWorld -> Prop :=
| input_lease w now op :
    iw_clock w <= now ->
    input_step w
      {| iw_state := (set_lease (lease_apply (is_lease (iw_state w).1) now op) (iw_state w).1,
                      (iw_state w).2);
         iw_log := iw_log w; iw_clock := now |}
| input_enqueue w cancelled p c lease id seq data received now0 now s' r :
    iw_clock w <= now ->
    enqueue cancelled p c lease id seq data received now0 now (iw_state w) = (s', r) ->
    input_step w
      {| iw_state := s'; iw_clock := now;
         iw_log := iw_log w ++
           if is_ok r then [{| acc_connection := c; acc_epoch := lease; acc_seq := seq;
                               acc_id := id |}] else [] |}
| input_paste w cancelled bracketed p c lease id seq text enter received now0 now s' r :
    iw_clock w <= now ->
    enqueue_paste cancelled bracketed p c lease id seq text enter received now0 now
      (iw_state w) = (s', r) ->
    input_step w
      {| iw_state := s'; iw_clock := now;
         iw_log := iw_log w ++
           if is_ok r then [{| acc_connection := c; acc_epoch := lease; acc_seq := seq;
                               acc_id := id |}] else [] |}
| input_finish w id status :
    input_step w
      {| iw_state := (set_ledger (ledger_finish (is_ledger (iw_state w).1) id status)
                        (iw_state w).1, (iw_state w).2);
         iw_log := iw_log w; iw_clock := iw_clock w |}
| input_take w q' :
    q_interrupt q' `suffix_of` q_interrupt (iw_state w).2 ->
    input_step w
      {| iw_state := ((iw_state w).1, q'); iw_log := iw_log w; iw_clock := iw_clock w |}.

Definition input_new : InputWorld :=
  {| iw_state := ({| is_lease := lease_default; is_ledger := ledger_default |}, queues_new);
     iw_log := []; iw_clock := 0 |}.

(** Both ways to enqueue come down to the same acceptance. *)
Definition accept_effect (st st' : InputState) (client c : Uuid) (lease seq now : Z) : Prop :=
  is_lease st' = is_lease st /\ holds (is_lease st) client c lease now /\
  (forall s, highest (is_ledger st) !! (c, lease) = Some s -> s < seq) /\
  highest (is_ledger st') !! (c, lease) = Some seq.

Lemma ledger_finish_highest g id s : highest (ledger_finish g id s) = highest g.
Proof. unfold ledger_finish. by case_match. Qed.

Lemma ledger_accept_limit_cases g c l id seq n max g' r :
  ledger_accept_limit g c l id seq n max = (g', r) ->
  (exists e, r = Err e /\ g' = g) \/
  (r = Ok tt /\ (forall s, highest g !! (c, l) = Some s -> s < seq) /\
   highest g' !! (c, l) = Some seq).
Proof.
  unfold ledger_accept_limit. destruct (_ || (MAX_JS_INTEGER <? seq)); [intros [= <- <-]; eauto|].
  destruct (bool_decide _ || _) eqn:E; [intros [= <- <-]; eauto|]. bools.
  destruct (ledger_evict _ _ _) as [ids' o']. intros [= <- <-]. right. split; [done|].
  split; [|cbn; by rewrite lookup_insert_eq].
  intros s Hs. rewrite Hs in *. cbn in *. by bools.
Qed.

Lemma enqueue_effect cancelled p c lease id seq data received now0 now st q st' q' r :
  enqueue cancelled p c lease id seq data received now0 now (st, q) = ((st', q'), r) ->
  (st' = st /\ r <> Ok tt \/ accept_effect st st' (p_client_id p) c lease seq now) /\
  (Forall (fun j => j_bulk j = false) (q_interrupt q) ->
   Forall (fun j => j_bulk j = false) (q_interrupt q')).
Proof.
  unfold enqueue. destruct (principal_require _ _ _ _); [|by intros [= <- <- <-]; auto].
  destruct (lease_verify _ _ _ _ _) as [[]|] eqn:Ev; [|by intros [= <- <- <-]; auto].
  apply lease_verify_holds in Ev.
  destruct (ledger_accept _ _ _ _ _ _) as [g r0] eqn:Eg.
  destruct (ledger_accept_limit_cases _ _ _ _ _ _ _ _ _ Eg) as [(e & -> & ->)|(-> & Hlt & Hhi)].
  { intros [= <- <- <-]. split; [left; by destruct st|done]. }
  destruct (if bool_decide _ then _ else _) as [q1|] eqn:Eq.
  - intros [= <- <- <-]. split; [right; by repeat split|]. intros HF.
    destruct (bool_decide _); unfold try_send_interrupt, try_send_normal in Eq; case_match; [|done| |done];
      simplify_eq; cbn; [|done]. apply Forall_app. by split; [|constructor].
  - intros [= <- <- <-]. split; [right|done]. repeat split; try done. cbn.
    by rewrite ledger_finish_highest.
Qed.
Lemma enqueue_paste_effect cancelled br p c lease id seq text enter received now0 now st q st' q' r :
  enqueue_paste cancelled br p c lease id seq text enter received now0 now (st, q) = ((st', q'), r) ->
  (st' = st /\ r <> Ok tt \/ accept_effect st st' (p_client_id p) c lease seq now) /\
  q_interrupt q' = q_interrupt q.
Proof.
  unfold enqueue_paste. destruct (principal_require _ _ _ _); [|by intros [= <- <- <-]; auto].
  destruct (_ || existsb _ _); [by intros [= <- <- <-]; auto|].
  destruct (lease_verify _ _ _ _ _) as [[]|] eqn:Ev; [|by intros [= <- <- <-]; auto].
  apply lease_verify_holds in Ev.
  destruct (ledger_accept_paste _ _ _ _ _ _) as [g r0] eqn:Eg.
  destruct (ledger_accept_limit_cases _ _ _ _ _ _ _ _ _ Eg) as [(e & -> & ->)|(-> & Hlt & Hhi)].
  { intros [= <- <- <-]. split; [left; by destruct st|done]. }
  unfold try_send_normal. case_match; intros [= <- <- <-].
  - split; [right; by repeat split|]. by case_match; simplify_eq.
  - split; [right|done]. repeat split; try done. cbn. by rewrite ledger_finish_highest.
Qed.

(** What is known of the last accepted input. *)
Definition last_known (st : InputState) (a : Accepted) (t : Z) : Prop :=
  exists l0 client t0,
    t0 <= t /\ holds l0 client (acc_connection a) (acc_epoch a) t0 /\
    lease_continues l0 t0 (is_lease st) /\
    (ls_epoch (is_lease st) = acc_epoch a ->
     exists s, highest (is_ledger st) !! (acc_connection a, acc_epoch a) = Some s /\
       acc_seq a <= s).

Record input_inv (w : InputWorld) : Prop := {
  ii_order : forall i j a b, (i < j)%nat -> iw_log w !! i = Some a -> iw_log w !! j = Some b ->
    acc_lt a b;
  ii_last : forall a, last (iw_log w) = Some a -> last_known (iw_state w).1 a (iw_clock w);
  ii_irq : Forall (fun j => j_bulk j = false) (q_interrupt (iw_state w).2)
}.

Lemma acc_lt_trans a b c : acc_lt a b -> acc_lt b c -> acc_lt a c.
Proof. unfold acc_lt. lia. Qed.

Lemma holds_epoch l c k e t : holds l c k e t -> ls_epoch l = e.
Proof. by intros (o & _ & _ & _ & _ & ?). Qed.

(** The key step: the next acceptance is above the last one. *)
Lemma accept_after_last st st' a t client c lease seq now :
  last_known st a t -> t <= now -> accept_effect st st' client c lease seq now ->
  acc_lt a {| acc_connection := c; acc_epoch := lease; acc_seq := seq; acc_id := 0 |} /\
  (lease = acc_epoch a -> c = acc_connection a).
Proof.
  intros (l0 & cl & t0 & Ht0 & Hh0 & Hc & Hhi) Ht (_ & Hh & Hlt & _). unfold acc_lt. cbn.
  pose proof (holds_epoch _ _ _ _ _ Hh0) as He0. pose proof (holds_epoch _ _ _ _ _ Hh) as He.
  destruct Hc as [Hgt|[Heq Howner]]; [split; lia|].
  destruct Hh as (o & Ho & Hlive & Hcl & Hcon & _).
  destruct (Howner o Ho) as [Hexp|(o0 & Ho0 & _ & _ & Hcon0 & _)]; [lia|].
  destruct Hh0 as (o0' & Ho0' & _ & _ & Hcon0' & _). simplify_eq.
  assert (acc_connection a = ow_connection o) as Hconn by congruence.
  destruct (Hhi ltac:(lia)) as (s & Hs & Hle).
  rewrite Hconn in Hs. replace (acc_epoch a) with (ls_epoch (is_lease st)) in Hs by lia.
  specialize (Hlt s Hs). split; [right; lia|done].
Qed.

(** Every step moves the lease as the lease's own operations do. *)
Lemma last_known_lease st a t now op :
  last_known st a t -> t <= now ->
  last_known (set_lease (lease_apply (is_lease st) now op) st) a now.
Proof.
  intros (l0 & cl & t0 & Ht0 & Hh & Hc & Hhi) Ht. exists l0, cl, t0.
  split; [lia|]. split; [done|]. split; [apply lease_continues_apply; [lia|done]|].
  cbn. intros He. apply Hhi. apply holds_epoch in Hh.
  pose proof (lease_continues_apply (is_lease st) now (is_lease st) now op ltac:(lia)
    (lease_continues_refl _ _)) as [?|[? _]]; destruct Hc as [?|[? _]]; lia.
Qed.
Lemma last_known_later st a t now : last_known st a t -> t <= now -> last_known st a now.
Proof. intros (l0 & cl & t0 & ? & ?) Ht. exists l0, cl, t0. split; [lia|done]. Qed.

Lemma last_known_accept st st' client c lease seq id now :
  accept_effect st st' client c lease seq now ->
  last_known st' {| acc_connection := c; acc_epoch := lease; acc_seq := seq; acc_id := id |} now.
Proof.
  intros (Hl & Hh & _ & Hhi). exists (is_lease st'), client, now. rewrite Hl.
  split; [lia|]. split; [done|]. split; [apply lease_continues_refl|].
  intros _. exists seq. split; [exact Hhi|cbn; lia].
Qed.
(** An acceptance that is not logged (its job could not be queued). *)
Lemma last_known_after_accept st st' a t client c lease seq now :
  last_known st a t -> t <= now -> accept_effect st st' client c lease seq now ->
  last_known st' a now.
Proof.
  intros Hk Ht Hacc. destruct (accept_after_last _ _ _ _ _ _ _ _ _ Hk Ht Hacc) as [Hlt Hconn].
  destruct Hk as (l0 & cl & t0 & Ht0 & Hh0 & Hc & _). destruct Hacc as (Hl & Hh & _ & Hhi).
  exists l0, cl, t0. rewrite Hl. split; [lia|]. split; [done|]. split; [done|].
  apply holds_epoch in Hh. intros He. exists seq. unfold acc_lt in Hlt. cbn in Hlt.
  rewrite <- Hconn by lia. rewrite <- He, Hh. split; [done|]. lia.
Qed.

Lemma input_inv_accept w st' q' client c lease seq id now logged :
  input_inv w -> iw_clock w <= now ->
  accept_effect (iw_state w).1 st' client c lease seq now ->
  Forall (fun j => j_bulk j = false) (q_interrupt q') ->
  input_inv {| iw_state := (st', q'); iw_clock := now;
               iw_log := iw_log w ++ if (logged : bool) then
                 [{| acc_connection := c; acc_epoch := lease; acc_seq := seq; acc_id := id |}]
                 else [] |}.
Proof.
  intros [Ho Hl _] Ht Hacc Hq. destruct logged; cbn.
  2:{ rewrite app_nil_r. split; cbn; [done| |done].
      intros a Ha. eapply last_known_after_accept; eauto. }
  split; cbn; [|intros a; rewrite last_snoc; intros [= <-]; by eapply last_known_accept|done].
  set (new := {| acc_connection := c; acc_epoch := lease; acc_seq := seq; acc_id := id |}).
  intros i j a b Hij Ha Hb.
  apply lookup_app_Some in Hb as [Hb|[Hj Hb]].
  { apply (Ho i j); [done| |done]. apply lookup_lt_Some in Hb.
    by rewrite lookup_app_l in Ha by lia. }
  apply list_lookup_singleton_Some in Hb as [Hj0 <-].
  rewrite lookup_app_l in Ha by lia.
  destruct (last (iw_log w)) as [z|] eqn:Ez; [|apply last_None in Ez; by rewrite Ez in Ha].
  assert (acc_lt z new) as Hz.
  { destruct (accept_after_last _ _ _ _ _ _ _ _ _ (Hl z eq_refl) Ht Hacc) as [Hlt _]. exact Hlt. }
  rewrite last_lookup in Ez. destruct (decide (i = pred (length (iw_log w)))) as [->|Hne].
  - by rewrite Ez in Ha; simplify_eq.
  - eapply acc_lt_trans; [|exact Hz]. apply (Ho i (pred (length (iw_log w)))); [lia|done|done].
Qed.

Lemma input_step_inv w w' : input_inv w -> input_step w w' -> input_inv w'.
Proof.
  intros Hinv Hstep. pose proof Hinv as [Ho Hl Hq].
  destruct Hstep as [w now op Ht|w cancelled p c lease id seq data received now0 now s' r Ht He
    |w cancelled br p c lease id seq text enter received now0 now s' r Ht He|w id status|w q' Hs].
  - split; cbn; [done| |done]. intros a Ha. apply last_known_lease with (t := iw_clock w); auto.
  - destruct (iw_state w) as [st q] eqn:Es. destruct s' as [st' q1].
    apply enqueue_effect in He as [[[-> Hr]|Hacc] Hqq].
    + destruct r as [[]|]; [done|]. cbn. rewrite app_nil_r. split; cbn; [done| |auto].
      intros a Ha. apply (last_known_later _ _ (iw_clock w)); auto.
    + eapply input_inv_accept; eauto. by rewrite Es.
  - destruct (iw_state w) as [st q] eqn:Es. destruct s' as [st' q1].
    apply enqueue_paste_effect in He as [[[-> Hr]|Hacc] Hqq].
    + destruct r as [[]|]; [done|]. cbn. rewrite app_nil_r. split; cbn; [done| |by rewrite Hqq].
      intros a Ha. apply (last_known_later _ _ (iw_clock w)); auto.
    + eapply input_inv_accept; eauto; [by rewrite Es|by rewrite Hqq].
  - split; cbn; [done| |done]. intros a Ha.
    destruct (Hl a Ha) as (l0 & cl & t0 & ? & ? & ? & Hhi). exists l0, cl, t0. cbn.
    by rewrite ledger_finish_highest.
  - split; cbn; [done|done|]. destruct Hs as [k Hk]. rewrite Hk in Hq.
    by apply Forall_app in Hq as [_ ?].
Qed.

(** C1: no input is replayed.  Whatever clients send, however lease changes,
    pastes, retries, evictions from the outcome table and the writer interleave,
    the inputs queued for the PTY carry strictly increasing pairs of lease epoch
    and sequence number: an old input can never be queued a second time.  And
    only single keyboard inputs, never pastes, enter the interrupt queue. *)
Theorem accepted_inputs_strictly_increase w :
  steps input_step input_new w ->
  (forall i j a b, (i < j)%nat -> iw_log w !! i = Some a -> iw_log w !! j = Some b ->
     acc_epoch a < acc_epoch b \/ (acc_epoch a = acc_epoch b /\ acc_seq a < acc_seq b)) /\
  Forall (fun j => j_bulk j = false) (q_interrupt (iw_state w).2).
Proof.
  intros Hs. assert (input_inv w) as [Ho _ Hq].
  { eapply (steps_invariant input_step input_inv); [|exact Hs|].
    - intros; by eapply input_step_inv.
    - split; cbn; [by intros i j a b _ ?|done|done]. }
  split; [exact Ho|exact Hq].
Qed.

(** ** What a paste may contain *)
Lemma replace_lf_crlf_elem b l :
  b ∈ replace_lf (replace_crlf l) -> b = 13 \/ (b ∈ l /\ b <> 10).
Proof.
  unfold replace_lf. intros (b0 & -> & Hb0)%list_elem_of_fmap.
  assert (b0 ∈ l) as Hin.
  { remember (length l) as n eqn:En. assert (length l <= n)%nat as Hn by lia. clear En.
    revert l Hn Hb0. induction n as [|n IH]; intros l Hn Hb0.
    - destruct l; simpl in *; [done|lia].
    - assert (forall x r, replace_crlf (x :: r) = x :: replace_crlf r \/
        exists r', x = 13 /\ r = 10 :: r' /\ replace_crlf (x :: r) = 13 :: replace_crlf r') as Hstep.
      { intros x [|y r]; [by left|]. cbn [replace_crlf].
        destruct ((x =? 13) && (y =? 10)) eqn:E; [bools; subst; right; by exists r|by left]. }
      destruct l as [|x r]; [done|]. simpl in Hn.
      destruct (Hstep x r) as [Hs|(r' & -> & -> & Hs)]; rewrite Hs in Hb0;
        apply elem_of_cons in Hb0 as [->|Hb0]; [by left| |by left|].
      + right. apply (IH r); [lia|done].
      + right. right. apply (IH r'); [simpl in Hn; lia|done]. }
  destruct (b0 =? 10) eqn:E; bools; [by left|right; done].
Qed.

(** A queued paste cannot leave its brackets or smuggle keys: its data has
    no ESC, no DEL and no control character but tab and CR, and line ends have
    all become CR. *)
Theorem paste_is_plain cancelled br p c lease id seq text enter received now0 now st q s' :
  enqueue_paste cancelled br p c lease id seq text enter received now0 now (st, q) = (s', Ok tt) ->
  exists job, q_normal s'.2 = q_normal q ++ [job] /\ j_id job = id /\ j_bracketed job = br /\
    1 <= zlen (j_data job) <= MAX_PASTE /\
    forall b, b ∈ j_data job -> b <> 127 /\ (32 <= b \/ b = 9 \/ b = 13).
Proof.
  unfold enqueue_paste. destruct (principal_require _ _ _ _); [|done].
  destruct (_ || existsb _ _) eqn:Ev; [done|]. bools.
  destruct (lease_verify _ _ _ _ _) as [[]|]; [|done].
  destruct (ledger_accept_paste _ _ _ _ _ _) as [g [[]|]] eqn:Eg; [|done].
  unfold try_send_normal. destruct (_ && _); [|done]. intros [= <-]. cbn.
  eexists. split; [done|]. cbn. split; [done|]. split; [done|]. split.
  - unfold ledger_accept_paste, ledger_accept_limit in Eg.
    destruct (_ || (MAX_JS_INTEGER <? seq)) eqn:E; [done|]. bools.
    pose proof (zlen_nonneg (replace_lf (replace_crlf text))). lia.
  - intros b [->|[Hb Hne]]%replace_lf_crlf_elem; [lia|].
    assert (paste_forbidden b = false) as Hf.
    { destruct (paste_forbidden b) eqn:Ef; [|done]. rewrite <- H0. symmetry.
      apply existsb_exists. exists b. split; [by apply list_elem_of_In|done]. }
    unfold paste_forbidden in Hf. bools. lia.
Qed.

(** ** Concrete runs *)
Definition sample_moment : Moment :=
  {| mo_cancelled := ∅; mo_running := true;
     mo_lease := fst (lease_acquire lease_default 5 9 false 0); mo_now := 1;
     mo_write := None; mo_irq := None |}.
Definition sample_job : InputJob :=
  {| j_p := sample_principal; j_connection := 9; j_epoch := 1; j_id := 77;
     j_data := [104; 105]; j_received := 0; j_bulk := true; j_bracketed := true;
     j_append_enter := true |}.
Definition sample_write : nat * list Write * res unit * option InputJob :=
  Eval vm_compute in write_one (fun _ => sample_moment) 0 sample_job.
Lemma writer_checks_every_write_witness :
  (exists n, w_step {| w_step := 1; w_kind := WPrefix; w_bytes := paste_open |} = S n /\
     writer_permitted sample_job sample_moment = Ok tt /\
     holds (mo_lease sample_moment) 5 9 1 1 /\ mo_running sample_moment = true) \/
  (WPrefix = WSuffix /\ paste_open `prefix_of` paste_close).
Proof.
  apply (writer_checks_every_write (fun _ => sample_moment) 0 sample_job
           (fst (fst (fst sample_write))) (snd (fst (fst sample_write)))
           (snd (fst sample_write)) (snd sample_write)); [by vm_compute | by left].
Defined.
Lemma writer_delivers_once_witness :
  (exists p d q e, delivered (snd (fst (fst sample_write))) = p ++ d ++ q ++ e /\
     p `prefix_of` paste_prefix sample_job /\ d `prefix_of` j_data sample_job /\
     q `prefix_of` paste_suffix sample_job /\ e `prefix_of` enter_suffix sample_job) /\
  (Ok tt = (Ok tt : res unit) ->
   delivered (snd (fst (fst sample_write))) =
     paste_prefix sample_job ++ j_data sample_job ++ paste_suffix sample_job ++
     enter_suffix sample_job).
Proof.
  apply (writer_delivers_once (fun _ => sample_moment) 0 sample_job
           (fst (fst (fst sample_write))) (snd (fst (fst sample_write)))
           (Ok tt) (snd sample_write)). by vm_compute.
Defined.

Definition sample_input : InputState :=
  {| is_lease := mo_lease sample_moment; is_ledger := ledger_default |}.
Lemma accepted_inputs_strictly_increase_witness :
  let w := {| iw_state := fst (enqueue ∅ sample_principal 9 1 77 3 [104] 1 1 1
                                 (sample_input, queues_new));
              iw_log := [{| acc_connection := 9; acc_epoch := 1; acc_seq := 3; acc_id := 77 |}];
              iw_clock := 1 |} in
  (forall i j a b, (i < j)%nat -> iw_log w !! i = Some a -> iw_log w !! j = Some b ->
     acc_epoch a < acc_epoch b \/ (acc_epoch a = acc_epoch b /\ acc_seq a < acc_seq b)) /\
  Forall (fun j => j_bulk j = false) (q_interrupt (iw_state w).2).
Proof.
  intros w. apply accepted_inputs_strictly_increase.
  eapply steps_trans; [apply (input_lease input_new 0 (OpAcquire 5 9 false)); cbn; lia|].
  eapply steps_trans; [|apply steps_refl].
  refine (input_enqueue _ ∅ sample_principal 9 1 77 3 [104] 1 1 1 _ (Ok tt) _ _);
    [cbn; lia | by vm_compute].
Defined.
Lemma paste_is_plain_witness :
  let s' := fst (enqueue_paste ∅ true sample_principal 9 1 77 3 [104; 13; 10; 105] true 1 1 1
                   (sample_input, queues_new)) in
  exists job, q_normal s'.2 = q_normal queues_new ++ [job] /\ j_id job = 77 /\
    j_bracketed job = true /\ 1 <= zlen (j_data job) <= MAX_PASTE /\
    forall b, b ∈ j_data job -> b <> 127 /\ (32 <= b \/ b = 9 \/ b = 13).
Proof.
  intros s'. apply (paste_is_plain ∅ true sample_principal 9 1 77 3 [104; 13; 10; 105] true 1 1 1
    sample_input queues_new s'). by vm_compute.
Defined.
