(* ===== verification/SessionOutput.v ===== *)
(** * The output path of a session
    ([crates/rc-agent/src/session.rs]): the reader thread feeds PTY bytes
    through the fence to the terminal model and to the numbered stream of
    frames; resizes are events of the same stream. *)
From S2P Require Import Prelude Errors Protocol Text Frame Ring VtFence.

(** A read of [n] bytes yields at most [n + 1] tokens. *)
Lemma fence_complete_len f out f' out' :
  fence_complete f out = (f', out') -> zlen out' <= zlen out + 1.
Proof.
  unfold fence_complete. destruct (_ || _); [|destruct (negb _)]; intros [= <- <-];
    rewrite ?zlen_snoc; lia.
Qed.
Lemma fence_enter_esc_len f out text b f' out' text' :
  fence_enter_esc (f, out, text) b = (f', out', text') -> zlen out' <= zlen out + 1.
Proof.
  unfold fence_enter_esc. destruct (negb _); intros [= <- <- <-]; rewrite ?zlen_snoc; lia.
Qed.
Lemma fence_ground_len f out text b f' out' text' :
  fence_ground (f, out, text) b = (f', out', text') -> zlen out' <= zlen out + 1.
Proof.
  unfold fence_ground.
  repeat match goal with
  | |- context [if ?c then _ else _] => destruct c
  | |- context [match from_utf8 ?u with _ => _ end] => destruct (from_utf8 u)
  end; try (intros He%fence_enter_esc_len; lia); intros [= <- <- <-]; lia.
Qed.
Lemma fence_step_len f out text b f' out' text' :
  fence_step (f, out, text) b = (f', out', text') -> zlen out' <= zlen out + 1.
Proof.
  unfold fence_step. destruct (vf_state f); [apply fence_ground_len|..]; unfold fence_complete_acc;
  repeat match goal with
  | |- context [if ?c then _ else _] => destruct c
  end;
  try (destruct (fence_complete _ out) as [f1 out1] eqn:Ec; apply fence_complete_len in Ec);
  intros [= <- <- <-]; lia.
Qed.
Lemma fence_push_bytes_len f bs : zlen (snd (fence_push_bytes f bs)) <= zlen bs + 1.
Proof.
  unfold fence_push_bytes.
  assert (forall a, zlen (foldl fence_step a bs).1.2 <= zlen a.1.2 + zlen bs) as H.
  { induction bs as [|b bs IH]; intros a; cbn [foldl]; [rewrite zlen_nil; lia|].
    rewrite zlen_cons. specialize (IH (fence_step a b)).
    destruct a as [[f0 out0] t0]. destruct (fence_step (f0, out0, t0) b) as [[f1 out1] t1] eqn:E.
    apply fence_step_len in E. cbn in *. lia. }
  specialize (H (f, [], [])). destruct (foldl _ _ _) as [[f1 out1] t1]. cbn in *.
  rewrite zlen_nil in H. destruct (negb _); rewrite ?zlen_snoc; lia.
Qed.

Section Output.
(** The terminal model: [apply] a token, [resize], a [snapshot] and its
    size and warnings. *)
Context {Model : Type} (model_apply : Model -> bytes -> Model)
  (model_resize : Model -> Z -> Z -> Model) (model_snapshot : Model -> bytes)
  (model_size : Model -> Z * Z) (model_warnings : Model -> list string).

Record OutputState := {
  os_model : Model;
  os_fence : VtFence;
  os_ring : EventRing;
  os_seq : Z
}.

(** The identity of the session the frames carry. *)
Context (sid : Uuid) (gen : Z).

Definition output_new (m : Model) (ring_limit : Z) : OutputState :=
  {| os_model := m; os_fence := fence_default; os_ring := ring_new ring_limit; os_seq := 0 |}.

(** [emit]: the frame is pushed to the ring and broadcast. *)
Definition emit (o : OutputState) (data : bytes) : OutputState * Frame :=
  let seq := wrap64 (os_seq o + 1) in
  let event := {| kind := OUTPUT; session_id := sid; generation := gen; sequence := seq;
                  payload := data |} in
  ({| os_model := os_model o; os_fence := os_fence o;
      os_ring := ring_push (os_ring o) event; os_seq := seq |}, event).

Definition set_model (m : Model) (o : OutputState) : OutputState :=
  {| os_model := m; os_fence := os_fence o; os_ring := os_ring o; os_seq := os_seq o |}.

(** The [for token in tokens] loop with the current [batch]. *)
Fixpoint emit_tokens (o : OutputState) (tokens : list bytes) (batch : bytes)
  : OutputState * list Frame :=
  match tokens with
  | [] =>
    if negb (bool_decide (batch = [])) then let '(o, f) := emit o batch in (o, [f]) else (o, [])
  | token :: rest =>
    let o := set_model (model_apply (os_model o) token) o in
    if (MAX_PAYLOAD <? zlen batch + zlen token) && negb (bool_decide (batch = [])) then
      let '(o, f) := emit o batch in
      let '(o, fs) := emit_tokens o rest token in (o, f :: fs)
    else emit_tokens o rest (batch ++ token)
  end.

(** One read of the reader loop: the bytes read, the frames broadcast. *)
Definition reader_read (o : OutputState) (buf : bytes) : OutputState * list Frame :=
  let '(fence, tokens) := fence_push_bytes (os_fence o) buf in
  emit_tokens {| os_model := os_model o; os_fence := fence; os_ring := os_ring o;
                 os_seq := os_seq o |} tokens [].

Definition commit_resize (o : OutputState) (cols rows : Z) : OutputState * Frame :=
  let seq := wrap64 (os_seq o + 1) in
  let event := {| kind := RESIZE; session_id := sid; generation := gen; sequence := seq;
                  payload := be_enc 2 cols ++ be_enc 2 rows |} in
  ({| os_model := model_resize (os_model o) cols rows; os_fence := os_fence o;
      os_ring := ring_push (os_ring o) event; os_seq := seq |}, event).

Definition subscribe_snapshot (agent_epoch : Uuid) (o : OutputState)
  : res (SnapshotMeta * bytes) :=
  let data := model_snapshot (os_model o) in
  if 4 * 1024 * 1024 <? zlen data then Err FrameTooLarge else
  Ok ({| sm_cols := (model_size (os_model o)).1; sm_rows := (model_size (os_model o)).2;
         sm_sequence := dec (os_seq o); sm_generation := gen;
         sm_agent_epoch := agent_epoch; sm_fidelity := "experimental_vt_snapshot";
         sm_warnings := model_warnings (os_model o); sm_bytes := zlen data |}, data).

Definition session_ring_after (o : OutputState) (seq : Z) : res (list Frame) :=
  ring_after (os_ring o) seq.

(** ** Runs: the two writers of the stream, in any order *)
Inductive OutputOp : Type := OpRead (buf : bytes) | OpResize (cols rows : Z).
Definition output_op (o : OutputState) (op : OutputOp) : OutputState * list Frame :=
  match op with
  | OpRead buf => reader_read o buf
  | OpResize cols rows => let '(o, f) := commit_resize o cols rows in (o, [f])
  end.
Fixpoint output_run (o : OutputState) (ops : list OutputOp) : OutputState * list Frame :=
  match ops with
  | [] => (o, [])
  | op :: rest =>
    let '(o1, fs1) := output_op o op in
    let '(o2, fs2) := output_run o1 rest in (o2, fs1 ++ fs2)
  end.

(** What a list of frames does to the ring and the counter. *)
Definition extends (o o' : OutputState) (fs : list Frame) : Prop :=
  os_ring o' = foldl ring_push (os_ring o) fs /\
  os_seq o' = os_seq o + zlen fs /\ contiguous (os_seq o) fs.

Lemma extends_nil o : extends o o [].
Proof. split; [done|]. split; [rewrite zlen_nil; lia|done]. Qed.
Lemma extends_app o1 o2 o3 fs gs :
  extends o1 o2 fs -> extends o2 o3 gs -> extends o1 o3 (fs ++ gs).
Proof.
  intros (Hr & Hs & Hc) (Hr' & Hs' & Hc'). split; [|split].
  - by rewrite foldl_app, Hr', Hr.
  - rewrite zlen_app. lia.
  - rewrite contiguous_app, <- Hs. done.
Qed.
Lemma emit_extends o data :
  os_seq o + 1 <= u64_max -> 0 <= os_seq o -> extends o (fst (emit o data)) [snd (emit o data)].
Proof.
  intros Hm H0. unfold emit. cbn. rewrite wrap64_small by lia.
  split; [done|]. split; [cbn; done|]. done.
Qed.

(** The payloads of the OUTPUT frames, concatenated. *)
Definition output_bytes (fs : list Frame) : bytes :=
  concat (map payload (base.filter (fun f => kind f = OUTPUT) fs)).

(** Number of frames a batch of tokens can take. *)
Lemma emit_tokens_spec tokens o batch o' fs :
  emit_tokens o tokens batch = (o', fs) ->
  0 <= os_seq o -> os_seq o + zlen tokens + 1 <= u64_max ->
  extends o o' fs /\ zlen fs <= zlen tokens + 1 /\ os_fence o' = os_fence o /\
  os_model o' = foldl model_apply (os_model o) tokens /\
  Forall (fun f => kind f = OUTPUT /\ payload f <> [] /\ generation f = gen /\
            session_id f = sid) fs /\
  concat (map payload fs) = batch ++ concat tokens.
Proof.
  revert o batch o' fs. induction tokens as [|token rest IH]; intros o batch o' fs He H0 Hm.
  - cbn [emit_tokens] in He. destruct (bool_decide (batch = [])) eqn:Eb; cbn [negb] in He; bools.
    + simplify_eq. split; [apply extends_nil|]. done.
    + assert (extends o o' fs) as Hx.
      { pose proof (emit_extends o batch) as Hx. unfold emit in Hx, He. cbn in Hx.
        simplify_eq. rewrite zlen_nil in Hm. apply Hx; lia. }
      unfold emit in He. simplify_eq. split; [done|]. cbn.
      split; [done|]. split; [done|]. split; [done|]. split; [by repeat constructor|].
      by rewrite !app_nil_r.
  - cbn [emit_tokens] in He. rewrite zlen_cons in Hm. pose proof (zlen_nonneg rest).
    set (o1 := set_model _ o) in He.
    assert (extends o o1 []) as H1 by apply (extends_nil o).
    destruct ((MAX_PAYLOAD <? _) && _) eqn:Ec.
    + pose proof (emit_extends o1 batch ltac:(cbn; lia) ltac:(cbn; lia)) as Hx.
      destruct (emit o1 batch) as [o2 f] eqn:Ee. destruct (emit_tokens o2 rest token) as [o3 fs3] eqn:Er.
      injection He as <- <-. cbn in Hx.
      destruct (Hx) as (_ & Hs2 & _). rewrite zlen_cons, zlen_nil in Hs2. cbn in Hs2.
      destruct (IH _ _ _ _ Er) as (Hx3 & Hl & Hf & Hmod & Hall & Hcat); [lia|lia|].
      unfold emit in Ee. injection Ee as <- <-.
      split; [apply (extends_app o o1 _ [] _ H1 (extends_app _ _ _ [_] _ Hx Hx3))|].
      split; [rewrite !zlen_cons; lia|]. split; [done|]. split; [done|].
      split; [|cbn; by rewrite Hcat]. constructor; [|done]. cbn. bools. done.
    + destruct (IH _ _ _ _ He) as (Hx3 & Hl & Hf & Hmod & Hall & Hcat); [cbn; lia|cbn; lia|].
      split; [apply (extends_app o o1 _ [] _ H1 Hx3)|].
      split; [rewrite zlen_cons; lia|]. split; [done|]. split; [done|]. split; [done|].
      rewrite Hcat. cbn. by rewrite app_assoc.
Qed.

(** The reads of a run, and an upper bound on the frames it makes. *)
Definition reads (ops : list OutputOp) : list bytes :=
  omap (fun op => match op with OpRead b => Some b | OpResize _ _ => None end) ops.
Definition op_weight (op : OutputOp) : Z :=
  match op with OpRead b => zlen b + 3 | OpResize _ _ => 1 end.
Lemma op_weight_pos op : 0 < op_weight op.
Proof. destruct op as [b|]; cbn; [pose proof (zlen_nonneg b)|]; lia. Qed.

Lemma filter_output fs :
  Forall (fun f => kind f = OUTPUT /\ payload f <> [] /\ generation f = gen /\
            session_id f = sid) fs -> output_bytes fs = concat (map payload fs).
Proof.
  intros Hf. unfold output_bytes. rewrite filter_all; [done|].
  intros f Hin. rewrite Forall_forall in Hf. by apply Hf.
Qed.
Lemma output_bytes_app fs gs : output_bytes (fs ++ gs) = output_bytes fs ++ output_bytes gs.
Proof. unfold output_bytes. by rewrite filter_app, map_app, concat_app. Qed.

Lemma reader_read_spec o buf o' fs :
  reader_read o buf = (o', fs) -> 0 <= os_seq o -> os_seq o + zlen buf + 2 <= u64_max ->
  extends o o' fs /\ zlen fs <= zlen buf + 2 /\
  output_bytes fs = concat (snd (fence_push_bytes (os_fence o) buf)) /\
  os_fence o' = fst (fence_push_bytes (os_fence o) buf) /\
  Forall (fun f => generation f = gen /\ session_id f = sid) fs.
Proof.
  unfold reader_read. pose proof (fence_push_bytes_len (os_fence o) buf) as Hlen.
  destruct (fence_push_bytes (os_fence o) buf) as [fence tokens]. cbn in *. intros He H0 Hm.
  destruct (emit_tokens_spec _ _ _ _ _ He) as (Hx & Hl & Hf & _ & Hall & Hcat);
    [cbn; lia|cbn; lia|].
  split; [exact Hx|]. split; [lia|]. split; [by rewrite filter_output|].
  split; [done|]. eapply Forall_impl; [exact Hall|]. naive_solver.
Qed.

(** What one operation adds to the stream. *)
Lemma output_op_spec op o o' fs :
  output_op o op = (o', fs) -> 0 <= os_seq o -> os_seq o + op_weight op <= u64_max ->
  extends o o' fs /\ zlen fs <= op_weight op /\
  Forall (fun f => generation f = gen /\ session_id f = sid) fs /\
  (output_bytes fs, os_fence o') =
    match op with
    | OpRead b => (concat (snd (fence_push_bytes (os_fence o) b)),
                   fst (fence_push_bytes (os_fence o) b))
    | OpResize _ _ => ([], os_fence o)
    end.
Proof.
  intros E1 H0 Hm. destruct op as [buf|cols rows]; cbn [output_op op_weight] in *.
  - destruct (reader_read_spec _ _ _ _ E1) as (? & ? & Hb & Hf & ?); [lia|lia|].
    rewrite Hb, Hf. split; [done|]. split; [lia|]. done.
  - unfold commit_resize in E1. injection E1 as <- <-. rewrite wrap64_small by lia.
    split; [by repeat split|]. by split; [|split; [by repeat constructor|]].
Qed.
Lemma output_run_spec ops o o' fs :
  output_run o ops = (o', fs) -> 0 <= os_seq o -> os_seq o + zsum op_weight ops <= u64_max ->
  extends o o' fs /\ output_bytes fs = concat (snd (fence_feed (os_fence o) (reads ops))) /\
  Forall (fun f => generation f = gen /\ session_id f = sid) fs.
Proof.
  revert o o' fs. induction ops as [|op ops IH]; intros o o' fs He H0 Hm.
  { injection He as <- <-. split; [apply extends_nil|]. done. }
  cbn [output_run] in He. rewrite zsum_cons in Hm.
  pose proof (op_weight_pos op).
  assert (0 <= zsum op_weight ops) by (apply zsum_nonneg; intros x _; pose proof (op_weight_pos x); lia).
  destruct (output_op o op) as [o1 fs1] eqn:E1. destruct (output_run o1 ops) as [o2 fs2] eqn:E2.
  injection He as <- <-.
  destruct (output_op_spec _ _ _ _ E1) as (Hx1 & Hl1 & Hid1 & Hb1); [done|lia|].
  pose proof Hx1 as (_ & Hs1 & _).
  destruct (IH _ _ _ E2) as (Hx2 & Hb2 & Hid2); [pose proof (zlen_nonneg fs1); lia|lia|].
  split; [by eapply extends_app|].
  split; [|by apply Forall_app]. rewrite output_bytes_app, Hb2.
  destruct op as [buf|cols rows]; injection Hb1 as -> ->; cbn [reads omap list_omap]; [|done].
  cbn [fence_feed]. destruct (fence_push_bytes (os_fence o) buf) as [f1 out1]. cbn [fst snd].
  fold (reads ops). destruct (fence_feed f1 (reads ops)) as [f2 out2].
  cbn [snd]. by rewrite concat_app.
Qed.

(** The model is fed every token; the fence only by reads. *)
Lemma emit_tokens_model tokens o batch :
  os_model (emit_tokens o tokens batch).1 = foldl model_apply (os_model o) tokens.
Proof.
  revert o batch. induction tokens as [|token rest IH]; intros o batch; cbn [emit_tokens foldl].
  - by destruct (negb _).
  - destruct (_ && _); [|apply IH]. cbn.
    match goal with |- context [emit_tokens ?o rest token] =>
      specialize (IH o token); destruct (emit_tokens o rest token) end. apply IH.
Qed.
Lemma output_op_model o op :
  os_model (output_op o op).1 =
    match op with
    | OpRead b => foldl model_apply (os_model o) (fence_push_bytes (os_fence o) b).2
    | OpResize cols rows => model_resize (os_model o) cols rows
    end.
Proof.
  destruct op as [b|cols rows]; cbn [output_op]; [|done]. unfold reader_read.
  destruct (fence_push_bytes _ b). by rewrite emit_tokens_model.
Qed.

(** C8: the stream is faithful.  Over any interleaving of PTY reads and
    resizes, the frames broadcast are numbered 1, 2, 3, ... with no gap, they
    are exactly what the replay ring was fed, the counter a snapshot reports is
    their number, and the concatenation of the OUTPUT payloads is exactly the
    byte stream the fence released for the reads: nothing lost, duplicated or
    reordered. *)
Theorem output_stream_faithful m limit ops o fs :
  output_run (output_new m limit) ops = (o, fs) -> zsum op_weight ops <= u64_max ->
  contiguous 0 fs /\ os_seq o = zlen fs /\ os_ring o = ring_pushes limit fs /\
  output_bytes fs = concat (snd (fence_feed fence_default (reads ops))) /\
  Forall (fun f => generation f = gen /\ session_id f = sid) fs.
Proof.
  intros He Hm. destruct (output_run_spec _ _ _ _ He) as ((Hr & Hs & Hc) & Hb & Hid);
    [done|cbn; lia|]. cbn in *. auto 10.
Qed.

(** ** A frame that cannot be sent *)
Lemma fence_bad_bytes n out text :
  foldl fence_step (fence_default, out, text) (replicate n 128) =
  (fence_default, out, text ++ concat (replicate n replacement)).
Proof.
  revert text. induction n as [|n IH]; intros text; [cbn; by rewrite app_nil_r|].
  cbn [replicate foldl]. change (fence_step (fence_default, out, text) 128)
    with ((fence_default, out, text ++ replacement) : fence_acc).
  rewrite IH. cbn [replicate concat]. by rewrite app_assoc.
Qed.
Lemma zlen_replacements n : zlen (concat (replicate n replacement)) = 3 * Z.of_nat n.
Proof.
  induction n as [|n IH]; [done|]. cbn [replicate concat]. rewrite zlen_app, IH.
  unfold zlen. cbn [length replacement]. lia.
Qed.

(** Output can become unsendable.  A batch may hold one token larger than
    a frame's payload limit: a read of more than 10922 bytes that are not
    UTF-8 (each becomes a three-byte replacement character) makes a frame the
    encoder refuses, and every terminal connection breaks on it. *)
Theorem oversize_frame_broadcast m limit n :
  10922 < Z.of_nat n <= MAX_PAYLOAD ->
  exists f, snd (reader_read (output_new m limit) (replicate n 128)) = [f] /\
    sequence f = 1 /\ zlen (payload f) = 3 * Z.of_nat n /\
    frame_encode f = Err FrameTooLarge.
Proof.
  intros Hn. pose proof (zlen_replacements n) as Hz.
  unfold reader_read, fence_push_bytes. cbn [os_fence output_new].
  rewrite fence_bad_bytes. cbn [app].
  rewrite bool_decide_eq_false_2 by (intros E; rewrite E, zlen_nil in Hz; lia).
  cbn [negb emit_tokens os_model app].
  replace (zlen [] + _) with (3 * Z.of_nat n) by (rewrite zlen_nil; lia).
  rewrite andb_false_r. rewrite bool_decide_eq_false_2 by (intros E; rewrite E, zlen_nil in Hz; lia).
  cbn. eexists. split; [done|]. cbn. split; [done|]. split; [done|].
  unfold frame_encode. cbn. rewrite Hz.
  replace (MAX_PAYLOAD <? 3 * Z.of_nat n) with true by (unfold MAX_PAYLOAD in *; lia). done.
Qed.
End Output.

(** A terminal model that records what it is fed. *)
Definition log_apply (m : bytes) (t : bytes) : bytes := m ++ t.
Definition log_resize (m : bytes) (_ _ : Z) : bytes := m.
Lemma output_stream_faithful_witness :
  let ops := [OpRead [104; 237]; OpResize 80 24; OpRead [149; 156]] in
  let '(o, fs) := output_run log_apply log_resize 7 1 (output_new [] 32768) ops in
  contiguous 0 fs /\ os_seq o = zlen fs /\ os_ring o = ring_pushes 32768 fs /\
  output_bytes fs = concat (snd (fence_feed fence_default (reads ops))) /\
  Forall (fun f => generation f = 1 /\ session_id f = 7) fs.
Proof.
  intros ops. destruct (output_run _ _ 7 1 _ ops) as [o fs] eqn:E.
  apply (output_stream_faithful log_apply log_resize 7 1 [] 32768 ops o fs E).
  vm_compute. discriminate.
Defined.
Lemma oversize_frame_broadcast_witness :
  exists f, snd (reader_read log_apply 7 1 (output_new [] 32768)
                  (replicate (Z.to_nat 20000) 128)) = [f] /\
    sequence f = 1 /\ zlen (payload f) = 3 * Z.of_nat (Z.to_nat 20000) /\
    frame_encode f = Err FrameTooLarge.
Proof.
  apply (oversize_frame_broadcast log_apply 7 1 [] 32768 (Z.to_nat 20000)).
  rewrite Z2Nat.id by lia. unfold MAX_PAYLOAD. lia.
Defined.
