(* ===== verification/Session.v ===== *)
(** * Sessions and the session manager
    ([crates/rc-agent/src/session.rs]). *)
From S2P Require Import Prelude Errors Protocol Text Frame Ring VtFence Lease Ledger.
From S2P Require Import Auth Profiles SessionInput SessionOutput.

(** ** Identity of the process a session runs *)
Definition identity_matches_values (running : bool) (pid : option Z)
    (process_created program_path : option string) (program_is_file : bool)
    (current_created : option Z) (current_program : option string) : bool :=
  if negb running || option_is_none pid || option_is_none process_created ||
     option_is_none current_created
  then false else
  match program_path with
  | None => false
  | Some program_path =>
    program_is_file &&
    is_some_and (fun current => eq_ignore_ascii_case current program_path) current_program &&
    match current_created with
    | Some value => bool_decide (Some (dec value) = process_created)
    | None => false
    end
  end.

(** ** Working directories (the Windows build) *)
Definition verbatim_prefix : bytes := [92; 92; 63; 92].  (* \\?\ *)

Definition normalize_pty_cwd (value : bytes) : res bytes :=
  let checked :=
    match strip_bytes verbatim_prefix value with
    | Some path =>
      if (4 <=? zlen path) && bool_decide (map ascii_lower (take 4 path) = [117; 110; 99; 92])
      then Err InvalidRequest else Ok path
    | None => if starts_with value [92; 92] then Err InvalidRequest else Ok value
    end in
  match checked with
  | Err e => Err e
  | Ok path =>
    if (zlen path <? 3) || negb (is_ascii_alphabetic (nth 0 path 0)) ||
       negb (nth 1 path 0 =? 58) || negb ((nth 2 path 0 =? 92) || (nth 2 path 0 =? 47)) ||
       (260 <? utf16_len path + 1)
    then Err InvalidRequest else Ok path
  end.

(** What the operating system and the store answer during [create]. *)
Record CreateEnv := {
  ce_canonical : option bytes;          (* canonicalize of the requested cwd *)
  ce_is_dir : bytes -> bool;
  ce_project : option Uuid;             (* project_for_cwd *)
  ce_openpty : bool;
  ce_installed : list LaunchProfile;
  ce_reader : bool;
  ce_writer : bool;
  ce_spawn : option (option Z);         (* spawn_command, then process_id *)
  ce_created : Z -> option Z;           (* process_created *)
  ce_threads : bool;
  ce_saved : bool;
  ce_session_id : Uuid;
  ce_timestamp : string
}.

(** The notifications broadcast to control connections. *)
Definition Changed : Type := Uuid * string.

Section Session.
Context {Model : Type} (model_new : Z -> Z -> Model)
  (model_resize : Model -> Z -> Z -> Model) (model_bracketed : Model -> bool).

Record Session := {
  s_meta : SessionInfo;
  s_output : OutputState (Model := Model);
  s_input : InputState;
  s_queues : Queues;
  s_master : bool;         (* the pseudoconsole is still owned *)
  s_running : bool;
  s_killed : bool;         (* the child was asked to die *)
  s_stop : bool;           (* the writer was asked to stop *)
  s_managed_codex : bool
}.

Definition set_state (st : Lifecycle) (m : SessionInfo) : SessionInfo :=
  {| si_session_id := si_session_id m; si_project_id := si_project_id m; si_label := si_label m;
     si_initial_cwd := si_initial_cwd m; si_profile := si_profile m;
     si_agent_epoch := si_agent_epoch m; si_generation := si_generation m; si_state := st;
     si_cols := si_cols m; si_rows := si_rows m; si_output_seq := si_output_seq m;
     si_pid := si_pid m; si_process_created := si_process_created m;
     si_program_path := si_program_path m; si_last_activity_at := si_last_activity_at m;
     si_composer_allowed := si_composer_allowed m; si_lease := si_lease m |}.
Definition set_size (cols rows : Z) (m : SessionInfo) : SessionInfo :=
  {| si_session_id := si_session_id m; si_project_id := si_project_id m; si_label := si_label m;
     si_initial_cwd := si_initial_cwd m; si_profile := si_profile m;
     si_agent_epoch := si_agent_epoch m; si_generation := si_generation m;
     si_state := si_state m; si_cols := cols; si_rows := rows;
     si_output_seq := si_output_seq m; si_pid := si_pid m;
     si_process_created := si_process_created m; si_program_path := si_program_path m;
     si_last_activity_at := si_last_activity_at m;
     si_composer_allowed := si_composer_allowed m; si_lease := si_lease m |}.
Definition set_label (label : string) (m : SessionInfo) : SessionInfo :=
  {| si_session_id := si_session_id m; si_project_id := si_project_id m; si_label := label;
     si_initial_cwd := si_initial_cwd m; si_profile := si_profile m;
     si_agent_epoch := si_agent_epoch m; si_generation := si_generation m;
     si_state := si_state m; si_cols := si_cols m; si_rows := si_rows m;
     si_output_seq := si_output_seq m; si_pid := si_pid m;
     si_process_created := si_process_created m; si_program_path := si_program_path m;
     si_last_activity_at := si_last_activity_at m;
     si_composer_allowed := si_composer_allowed m; si_lease := si_lease m |}.
Definition set_view (seq : string) (lease : option LeaseView) (composer : bool)
    (m : SessionInfo) : SessionInfo :=
  {| si_session_id := si_session_id m; si_project_id := si_project_id m; si_label := si_label m;
     si_initial_cwd := si_initial_cwd m; si_profile := si_profile m;
     si_agent_epoch := si_agent_epoch m; si_generation := si_generation m;
     si_state := si_state m; si_cols := si_cols m; si_rows := si_rows m;
     si_output_seq := seq; si_pid := si_pid m;
     si_process_created := si_process_created m; si_program_path := si_program_path m;
     si_last_activity_at := si_last_activity_at m;
     si_composer_allowed := composer; si_lease := lease |}.

Definition with_meta (m : SessionInfo) (s : Session) : Session :=
  {| s_meta := m; s_output := s_output s; s_input := s_input s; s_queues := s_queues s;
     s_master := s_master s; s_running := s_running s; s_killed := s_killed s;
     s_stop := s_stop s; s_managed_codex := s_managed_codex s |}.
Definition with_lease (l : Lease) (s : Session) : Session :=
  {| s_meta := s_meta s; s_output := s_output s; s_input := set_lease l (s_input s);
     s_queues := s_queues s; s_master := s_master s; s_running := s_running s;
     s_killed := s_killed s; s_stop := s_stop s; s_managed_codex := s_managed_codex s |}.
Definition with_input (i : InputState * Queues) (s : Session) : Session :=
  {| s_meta := s_meta s; s_output := s_output s; s_input := i.1; s_queues := i.2;
     s_master := s_master s; s_running := s_running s; s_killed := s_killed s;
     s_stop := s_stop s; s_managed_codex := s_managed_codex s |}.

Definition session_lease (s : Session) : Lease := is_lease (s_input s).
Definition session_id_of (s : Session) : Uuid := si_session_id (s_meta s).
Definition changed (s : Session) (reason : string) : list Changed := [(session_id_of s, reason)].

(** [identity_matches]: what the operating system says of the process that has the
    recorded identifier now. *)
Definition identity_matches (process_created : Z -> option Z)
    (process_image_path : Z -> option string) (is_file : string -> bool)
    (meta : SessionInfo) (s : Session) : bool :=
  let current_created := match si_pid meta with Some pid => process_created pid | None => None end in
  let current_program :=
    match si_pid meta with Some pid => process_image_path pid | None => None end in
  identity_matches_values (s_running s) (si_pid meta) (si_process_created meta)
    (si_program_path meta) (match si_program_path meta with Some p => is_file p | None => false end)
    current_created current_program.

(** [info]; [matches] is the answer of [identity_matches]. *)
Definition session_info (now : Z) (matches : bool) (s : Session) : SessionInfo :=
  set_view (dec (os_seq (s_output s))) (lease_view (session_lease s) now)
    (s_managed_codex s && matches) (s_meta s).

Definition rename_label (label : string) (stored : bool) (s : Session)
  : Session * list Changed * res unit :=
  if negb (s_running s) then (s, [], Err SessionLost) else
  if negb stored then (s, [], Err Internal) else
  (with_meta (set_label label (s_meta s)) s, changed s "renamed", Ok tt).

(** The lease operations of a session.  [None] is the panic of [unwrap]. *)
Definition session_acquire (cancelled : gset Token) (p : Principal) (c : Uuid)
    (takeover : bool) (now0 now : Z) (s : Session)
  : Session * list Changed * option (res LeaseView) :=
  match principal_require cancelled p TerminalWrite now0 with
  | Err e => (s, [], Some (Err e))
  | Ok _ =>
    if negb (s_running s) then (s, [], Some (Err SessionLost)) else
    let '(l, r) := lease_acquire (session_lease s) (p_client_id p) c takeover now in
    (with_lease l s, match r with Some (Ok _) => changed s "lease" | _ => [] end, r)
  end.
Definition session_renew (cancelled : gset Token) (p : Principal) (c : Uuid) (epoch now0 now : Z)
    (s : Session) : Session * option (res LeaseView) :=
  match principal_require cancelled p TerminalWrite now0 with
  | Err e => (s, Some (Err e))
  | Ok _ =>
    let '(l, r) := lease_renew (session_lease s) (p_client_id p) c epoch now in
    (with_lease l s, r)
  end.
Definition session_release (cancelled : gset Token) (p : Principal) (c : Uuid) (epoch now0 now : Z)
    (s : Session) : Session * list Changed * res unit :=
  match principal_require cancelled p TerminalWrite now0 with
  | Err e => (s, [], Err e)
  | Ok _ =>
    match lease_release (session_lease s) (p_client_id p) c epoch now with
    | (l, Err e) => (with_lease l s, [], Err e)
    | (l, Ok _) => (with_lease l s, changed s "lease", Ok tt)
    end
  end.

Definition validate_generation (agent : Uuid) (generation : Z) (s : Session) : res unit :=
  if negb (si_agent_epoch (s_meta s) =? agent) then Err HostRestarted
  else if negb (si_generation (s_meta s) =? generation) then Err SessionGenerationMismatch
  else if negb (s_running s) then Err SessionLost
  else Ok tt.

Definition session_enqueue (cancelled : gset Token) (p : Principal) (c : Uuid) (lease : Z)
    (id : Uuid) (seq : Z) (data : bytes) (received now0 now : Z) (s : Session)
  : Session * res unit :=
  let '(i, r) := enqueue cancelled p c lease id seq data received now0 now
                   (s_input s, s_queues s) in
  (with_input i s, r).
Definition session_enqueue_paste (cancelled : gset Token) (p : Principal) (c : Uuid) (lease : Z)
    (id : Uuid) (seq : Z) (text : bytes) (append_enter : bool) (received now0 now : Z)
    (s : Session) : Session * res unit :=
  let '(i, r) := enqueue_paste cancelled (model_bracketed (os_model (s_output s))) p c lease id
                   seq text append_enter received now0 now (s_input s, s_queues s) in
  (with_input i s, r).

(** [commit_resize] with the size kept in the metadata. *)
Definition session_commit_resize (cols rows : Z) (s : Session) : Session * Frame :=
  let '(o, f) := commit_resize model_resize (session_id_of s) (si_generation (s_meta s))
                   (s_output s) cols rows in
  ({| s_meta := set_size cols rows (s_meta s); s_output := o; s_input := s_input s;
      s_queues := s_queues s; s_master := s_master s; s_running := s_running s;
      s_killed := s_killed s; s_stop := s_stop s; s_managed_codex := s_managed_codex s |}, f).

(** [resize]; [resized] is the answer of the operating system. *)
Definition session_resize (cancelled : gset Token) (p : Principal) (c : Uuid)
    (lease cols rows now0 now : Z) (resized : bool) (s : Session)
  : Session * list Frame * list Changed * res unit :=
  match principal_require cancelled p TerminalWrite now0 with
  | Err e => (s, [], [], Err e)
  | Ok _ =>
    if (cols <? 2) || (MAX_COLS <? cols) || (rows <? 1) || (MAX_ROWS <? rows)
    then (s, [], [], Err InvalidRequest) else
    match lease_verify (session_lease s) (p_client_id p) c lease now with
    | Err e => (s, [], [], Err e)
    | Ok _ =>
      if negb (s_running s) then (s, [], [], Err SessionLost) else
      let old := s_meta s in
      if (si_cols old =? cols) && (si_rows old =? rows) then (s, [], [], Ok tt) else
      if negb (s_master s) then (s, [], [], Err SessionLost) else
      let '(s1, f1) := session_commit_resize cols rows s in
      if resized then (s1, [f1], changed s "resized", Ok tt)
      else
        let '(s2, f2) := session_commit_resize (si_cols old) (si_rows old) s1 in
        (s2, [f1; f2], changed s "resized", Err Internal)
    end
  end.

Definition session_close (s : Session) : Session * list Changed :=
  let s1 :=
    if s_running s then
      {| s_meta := set_state Closing (s_meta s); s_output := s_output s;
         s_input := set_lease (lease_revoke_all (session_lease s)) (s_input s);
         s_queues := s_queues s; s_master := s_master s; s_running := false;
         s_killed := true; s_stop := true; s_managed_codex := s_managed_codex s |}
    else s in
  ({| s_meta := s_meta s1; s_output := s_output s1; s_input := s_input s1;
      s_queues := s_queues s1; s_master := false; s_running := s_running s1;
      s_killed := s_killed s1; s_stop := s_stop s1; s_managed_codex := s_managed_codex s1 |},
   changed s "closed").

(** The thread that waits for the child. *)
Definition session_exited (exit_ok : bool) (s : Session) : Session * list Changed :=
  ({| s_meta := set_state (if exit_ok then Exited else Lost) (s_meta s);
      s_output := s_output s;
      s_input := set_lease (lease_revoke_all (session_lease s)) (s_input s);
      s_queues := s_queues s; s_master := s_master s; s_running := false;
      s_killed := s_killed s; s_stop := true; s_managed_codex := s_managed_codex s |},
   changed s "exited").

(** [Drop]: the writer is told to stop, the child is killed, the console closed. *)
Definition session_drop (s : Session) : Session :=
  {| s_meta := s_meta s; s_output := s_output s; s_input := s_input s;
     s_queues := s_queues s; s_master := false; s_running := s_running s;
     s_killed := true; s_stop := true; s_managed_codex := s_managed_codex s |}.

(** ** The manager *)
Record SessionManager := {
  sm_epoch : Uuid;
  sm_sessions : gmap Uuid Session;
  sm_max_sessions : Z;
  sm_ring_bytes : Z
}.
Definition set_sessions (m : gmap Uuid Session) (g : SessionManager) : SessionManager :=
  {| sm_epoch := sm_epoch g; sm_sessions := m; sm_max_sessions := sm_max_sessions g;
     sm_ring_bytes := sm_ring_bytes g |}.

Definition manager_new (epoch : Uuid) (max_sessions ring_bytes : Z) : SessionManager :=
  {| sm_epoch := epoch; sm_sessions := ∅; sm_max_sessions := max_sessions;
     sm_ring_bytes := ring_bytes |}.
Definition manager_get (id : Uuid) (g : SessionManager) : res Session :=
  ok_or (sm_sessions g !! id) SessionLost.
Definition manager_list (now : Z) (matches : Uuid -> bool) (g : SessionManager)
  : list SessionInfo :=
  map (fun kv => session_info now (matches kv.1) kv.2) (map_to_list (sm_sessions g)).

Definition manager_rename (cancelled : gset Token) (p : Principal) (id : Uuid) (label : string)
    (now : Z) (stored : bool) (g : SessionManager)
  : SessionManager * list Changed * res unit :=
  match principal_require cancelled p TerminalCreate now with
  | Err e => (g, [], Err e)
  | Ok _ =>
    let label := str_trim label in
    if str_is_empty label || (160 <? str_len label) then (g, [], Err InvalidRequest) else
    match manager_get id g with
    | Err e => (g, [], Err e)
    | Ok s =>
      let '(s', ev, r) := rename_label label stored s in
      (set_sessions (<[id := s']> (sm_sessions g)) g, ev, r)
    end
  end.

Definition running_sessions (m : gmap Uuid Session) : gmap Uuid Session :=
  base.filter (fun kv : Uuid * Session => s_running kv.2 = true) m.

Definition new_session (req : CreateSession) (g : SessionManager) (env : CreateEnv)
    (cwd : bytes) (project : Uuid) (launch : LaunchProfile) (pid created : option Z) : Session := {|
  s_meta := {|
    si_session_id := ce_session_id env; si_project_id := Some project;
    si_label := str_trim (cs_label req); si_initial_cwd := bytes_str cwd;
    si_profile := cs_profile req; si_agent_epoch := sm_epoch g; si_generation := 1;
    si_state := Running; si_cols := cs_cols req; si_rows := cs_rows req;
    si_output_seq := "0"; si_pid := pid;
    si_process_created := option_map dec created;
    si_program_path := Some (lp_program launch);
    si_last_activity_at := Some (ce_timestamp env);
    si_composer_allowed := false; si_lease := None |};
  s_output := output_new (model_new (cs_cols req) (cs_rows req)) (sm_ring_bytes g);
  s_input := {| is_lease := lease_default; is_ledger := ledger_default |};
  s_queues := queues_new; s_master := true; s_running := true; s_killed := false;
  s_stop := false; s_managed_codex := lp_managed_codex launch
|}.

Definition manager_create (req : CreateSession) (env : CreateEnv) (g : SessionManager)
  : SessionManager * list Changed * res Session :=
  if str_is_empty (str_trim (cs_label req)) || (160 <? str_len (cs_label req)) ||
     (cs_cols req <? 2) || (MAX_COLS <? cs_cols req) || (cs_rows req <? 1) ||
     (MAX_ROWS <? cs_rows req)
  then (g, [], Err InvalidRequest) else
  match ce_canonical env with
  | None => (g, [], Err InvalidRequest)
  | Some canonical_cwd =>
    match normalize_pty_cwd canonical_cwd with
    | Err e => (g, [], Err e)
    | Ok cwd =>
      if negb (ce_is_dir env cwd) then (g, [], Err InvalidRequest) else
      if sm_max_sessions g <=? Z.of_nat (size (running_sessions (sm_sessions g)))
      then (g, [], Err RateLimited) else
      let g := set_sessions (running_sessions (sm_sessions g)) g in
      match ce_project env with
      | None => (g, [], Err InvalidRequest)
      | Some project =>
        if negb (ce_openpty env) then (g, [], Err Internal) else
        match profile_resolve (ce_installed env) (cs_profile req) with
        | Err e => (g, [], Err e)
        | Ok launch =>
          if negb (ce_reader env) || negb (ce_writer env) then (g, [], Err Internal) else
          match ce_spawn env with
          | None => (g, [], Err InvalidRequest)
          | Some pid =>
            let created := match pid with Some p => ce_created env p | None => None end in
            if lp_managed_codex launch && (option_is_none pid || option_is_none created)
            then (g, [], Err Internal) else
            if negb (ce_threads env) then (g, [], Err Internal) else
            let s := new_session req g env cwd project launch pid created in
            if negb (ce_saved env) then (g, (session_close s).2, Err Internal) else
            (set_sessions (<[ce_session_id env := s]> (sm_sessions g)) g,
             changed s "created", Ok s)
          end
        end
      end
    end
  end.

(** The operations over all sessions. *)
Definition revoke_in_all (f : Lease -> Lease) (g : SessionManager) : SessionManager :=
  set_sessions ((fun s => with_lease (f (session_lease s)) s) <$> sm_sessions g) g.
Definition manager_revoke_connection (id : Uuid) : SessionManager -> SessionManager :=
  revoke_in_all (fun l => lease_revoke_connection l id).
Definition manager_revoke_client (id : Uuid) : SessionManager -> SessionManager :=
  revoke_in_all (fun l => lease_revoke_client l id).
Definition manager_block_input : SessionManager -> SessionManager :=
  revoke_in_all lease_revoke_all.
Definition manager_shutdown (g : SessionManager) : SessionManager :=
  set_sessions ((fun s => (session_close s).1) <$> sm_sessions g) g.

(** ** Closed sessions *)
Inductive SessionOp : Type :=
| SoAcquire (p : Principal) (c : Uuid) (takeover : bool)
| SoRenew (p : Principal) (c : Uuid) (epoch : Z)
| SoRelease (p : Principal) (c : Uuid) (epoch : Z)
| SoEnqueue (p : Principal) (c : Uuid) (lease : Z) (id : Uuid) (seq : Z) (data : bytes)
| SoPaste (p : Principal) (c : Uuid) (lease : Z) (id : Uuid) (seq : Z) (text : bytes) (enter : bool)
| SoResize (p : Principal) (c : Uuid) (lease cols rows : Z) (resized : bool)
| SoRename (label : string) (stored : bool)
| SoClose
| SoExited (exit_ok : bool)
| SoRevokeConnection (k : Uuid)
| SoRevokeClient (c : Uuid)
| SoRevokeAll.

(** The new session and whether the caller was given success. *)
Definition session_op (cancelled : gset Token) (now0 now : Z) (op : SessionOp) (s : Session)
  : Session * bool :=
  match op with
  | SoAcquire p c t =>
    let '(s', _, r) := session_acquire cancelled p c t now0 now s in
    (s', match r with Some (Err _) => false | _ => true end)
  | SoRenew p c e =>
    let '(s', r) := session_renew cancelled p c e now0 now s in
    (s', match r with Some (Err _) => false | _ => true end)
  | SoRelease p c e =>
    let '(s', _, r) := session_release cancelled p c e now0 now s in (s', is_ok r)
  | SoEnqueue p c l id seq data =>
    let '(s', r) := session_enqueue cancelled p c l id seq data now0 now0 now s in (s', is_ok r)
  | SoPaste p c l id seq text enter =>
    let '(s', r) := session_enqueue_paste cancelled p c l id seq text enter now0 now0 now s in
    (s', is_ok r)
  | SoResize p c l cols rows ok =>
    let '(s', _, _, r) := session_resize cancelled p c l cols rows now0 now ok s in (s', is_ok r)
  | SoRename label stored => let '(s', _, r) := rename_label label stored s in (s', is_ok r)
  | SoClose => ((session_close s).1, false)
  | SoExited b => ((session_exited b s).1, false)
  | SoRevokeConnection k => (with_lease (lease_revoke_connection (session_lease s) k) s, false)
  | SoRevokeClient c => (with_lease (lease_revoke_client (session_lease s) c) s, false)
  | SoRevokeAll => (with_lease (lease_revoke_all (session_lease s)) s, false)
  end.

(** A run of operations with the cancelled tokens and the clock each one sees. *)
Fixpoint session_run (s : Session) (ops : list (gset Token * Z * Z * SessionOp))
  : Session * list bool :=
  match ops with
  | [] => (s, [])
  | (cancelled, now0, now, op) :: rest =>
    let '(s1, b) := session_op cancelled now0 now op s in
    let '(s2, bs) := session_run s1 rest in (s2, b :: bs)
  end.

Definition closed (s : Session) : Prop :=
  s_running s = false /\ ls_owner (session_lease s) = None.

(** A session is shown as one that takes composed prompts only while its codex runs:
    the session is running and managed, and the process that has its identifier now was
    created at the recorded instant from the recorded program, which is still a file.
    A process that took over the identifier of one that has ended is not mistaken for
    it. *)
Theorem composer_needs_same_process now process_created process_image_path is_file s :
  si_composer_allowed (session_info now
    (identity_matches process_created process_image_path is_file (s_meta s) s) s) = true ->
  s_managed_codex s = true /\ s_running s = true /\
  exists pid created program image,
    si_pid (s_meta s) = Some pid /\ process_created pid = Some created /\
    si_process_created (s_meta s) = Some (dec created) /\
    si_program_path (s_meta s) = Some program /\ is_file program = true /\
    process_image_path pid = Some image /\ eq_ignore_ascii_case image program = true.
Proof.
  cbn. intros [Hm Hi]%andb_true_iff. split; [done|].
  unfold identity_matches, identity_matches_values in Hi.
  destruct (s_running s); [|done]. destruct (si_pid (s_meta s)) as [pid|]; [|done].
  destruct (si_process_created (s_meta s)) as [recorded|]; [|done].
  destruct (process_created pid) as [created|] eqn:Ec; [|done].
  destruct (si_program_path (s_meta s)) as [program|]; [|done].
  destruct (process_image_path pid) as [image|] eqn:Ei; cbn in Hi; bools; [|done].
  split; [done|]. exists pid, created, program, image. by simplify_eq.
Qed.

Lemma lease_verify_none l c k e now :
  ls_owner l = None -> lease_verify l c k e now = Err LeaseRequired.
Proof. unfold lease_verify. by intros ->. Qed.
Lemma with_lease_same s : with_lease (session_lease s) s = s.
Proof. by destruct s as [? ? [] ? ? ? ? ? ?]. Qed.
Lemma with_input_same s : with_input (s_input s, s_queues s) s = s.
Proof. by destruct s. Qed.

Lemma session_op_closed cancelled now0 now op s :
  closed s ->
  closed (session_op cancelled now0 now op s).1 /\
  (session_op cancelled now0 now op s).2 = false.
Proof.
  intros Hcl. pose proof Hcl as [Hr Ho].
  assert (forall c k e t, lease_verify (session_lease s) c k e t = Err LeaseRequired) as Hv
    by (intros; by apply lease_verify_none).
  assert (forall c k e t, lease_verify (is_lease (s_input s)) c k e t = Err LeaseRequired) as Hv'
    by exact Hv.
  destruct op as [p c t|p c e|p c e|p c l id seq data|p c l id seq text enter
    |p c l cols rows ok|label stored| |b|k|c|]; cbn [session_op].
  - unfold session_acquire. destruct (principal_require _ _ _ _); [|done]. by rewrite Hr.
  - unfold session_renew. destruct (principal_require _ _ _ _); [|done].
    unfold lease_renew. rewrite Hv. by rewrite with_lease_same.
  - unfold session_release. destruct (principal_require _ _ _ _); [|done].
    unfold lease_release. rewrite Hv. by rewrite with_lease_same.
  - unfold session_enqueue, enqueue. destruct (principal_require _ _ _ _); cbn -[with_input];
      [rewrite Hv'; cbn -[with_input]|]; by rewrite with_input_same.
  - unfold session_enqueue_paste, enqueue_paste.
    destruct (principal_require _ _ _ _); cbn -[with_input]; [|by rewrite with_input_same].
    destruct (_ || existsb _ _); cbn -[with_input]; [by rewrite with_input_same|].
    rewrite Hv'. cbn -[with_input]. by rewrite with_input_same.
  - unfold session_resize. destruct (principal_require _ _ _ _); [|done].
    destruct (_ || (MAX_ROWS <? rows)); [done|]. by rewrite Hv.
  - unfold rename_label. by rewrite Hr.
  - unfold session_close. by rewrite Hr.
  - done.
  - unfold lease_revoke_connection. rewrite Ho. cbn [is_some_and]. by rewrite with_lease_same.
  - unfold lease_revoke_client. rewrite Ho. cbn [is_some_and]. by rewrite with_lease_same.
  - done.
Qed.

(** A closed session is closed for good: once [close] has run on a running
    session, or its process has exited, no later lease request, input, paste,
    resize or rename on it ever succeeds, in any order, for any principal, and
    nobody holds its lease. *)
Theorem closed_session_refuses_everything s0 s b ops :
  (s0 = (session_close s).1 /\ s_running s = true) \/ s0 = (session_exited b s).1 ->
  Forall (fun ok => ok = false) (session_run s0 ops).2 /\
  forall c k e now, ~ holds (session_lease (session_run s0 ops).1) c k e now.
Proof.
  intros Hs. assert (closed s0) as Hc.
  { destruct Hs as [[-> Hr]| ->]; [|done]. unfold session_close. by rewrite Hr. }
  clear Hs. revert s0 Hc. induction ops as [|[[[can now0] now] op] ops IH]; intros s0 Hc.
  - cbn. split; [done|]. intros c k e now (o & Ho & _). destruct Hc as [_ Hn]. congruence.
  - cbn [session_run]. destruct (session_op_closed can now0 now op s0 Hc) as [Hc' Hb].
    destruct (session_op can now0 now op s0) as [s1 b1]. cbn in *. subst.
    destruct (IH s1 Hc') as [Hf Hh]. destruct (session_run s1 ops) as [s2 bs]. cbn in *.
    split; [by constructor|done].
Qed.

(** ** Resizing *)

(** [resize] is all or nothing.  It succeeds only for the live lease holder
    on a running session with a size in range, and then the terminal has that
    size; on any error the size is what it was before (also when the operating
    system refuses and the announced size is announced back).  Input state and
    queues never change, and the size events continue the stream's numbering. *)
Theorem session_resize_correct cancelled p c lease cols rows now0 now resized s :
  os_seq (s_output s) + 2 <= u64_max -> 0 <= os_seq (s_output s) ->
  let '(s', frames, _, r) :=
    session_resize cancelled p c lease cols rows now0 now resized s in
  (r = Ok tt ->
     holds (session_lease s) (p_client_id p) c lease now /\ s_running s = true /\
     2 <= cols <= MAX_COLS /\ 1 <= rows <= MAX_ROWS /\
     si_cols (s_meta s') = cols /\ si_rows (s_meta s') = rows) /\
  (r <> Ok tt -> si_cols (s_meta s') = si_cols (s_meta s) /\
                 si_rows (s_meta s') = si_rows (s_meta s)) /\
  s_input s' = s_input s /\ s_queues s' = s_queues s /\ s_running s' = s_running s /\
  contiguous (os_seq (s_output s)) frames /\
  os_seq (s_output s') = os_seq (s_output s) + zlen frames.
Proof.
  intros Hm H0. unfold session_resize.
  assert (os_seq (s_output s) = os_seq (s_output s) + zlen (@nil Frame)) as Hz
    by (rewrite zlen_nil; lia).
  destruct (principal_require _ _ _ _); [|by auto 10].
  destruct ((cols <? 2) || (MAX_COLS <? cols) || (rows <? 1) || (MAX_ROWS <? rows)) eqn:Eb;
    [by auto 10|]. bools.
  destruct (lease_verify _ _ _ _ _) as [[]|] eqn:Ev; [|by auto 10].
  apply lease_verify_holds in Ev. destruct (s_running s) eqn:Er; cbn [negb]; [|by auto 10].
  destruct ((si_cols (s_meta s) =? cols) && (si_rows (s_meta s) =? rows)) eqn:Es.
  { bools. by repeat split. }
  destruct (s_master s); cbn [negb]; [|by auto 10].
  unfold session_commit_resize, commit_resize. cbn. rewrite !wrap64_small by lia.
  destruct resized; cbn.
  - rewrite zlen_cons, zlen_nil. repeat split; (done || lia).
  - rewrite !zlen_cons, zlen_nil. repeat split; (done || lia).
Qed.

(** ** The number of sessions *)
Lemma running_sessions_idem m : running_sessions (running_sessions m) = running_sessions m.
Proof.
  unfold running_sessions. rewrite map_filter_filter. apply map_filter_ext. naive_solver.
Qed.

(** [create] keeps the session limit: from at most [max_sessions] running
    sessions there are at most [max_sessions] afterwards; a success adds exactly
    one running session, numbered from sequence 0 under the manager's epoch with
    no lease, whose label, size and working directory were checked; every
    failure leaves the running sessions as they were. *)
Theorem manager_create_correct req env g :
  sm_sessions g !! ce_session_id env = None ->
  Z.of_nat (size (running_sessions (sm_sessions g))) <= sm_max_sessions g ->
  let '(g', _, r) := manager_create req env g in
  Z.of_nat (size (running_sessions (sm_sessions g'))) <= sm_max_sessions g' /\
  match r with
  | Ok s =>
    sm_sessions g' = <[ce_session_id env := s]> (running_sessions (sm_sessions g)) /\
    s_running s = true /\ si_agent_epoch (s_meta s) = sm_epoch g /\
    ls_owner (session_lease s) = None /\ os_seq (s_output s) = 0 /\
    2 <= si_cols (s_meta s) <= MAX_COLS /\ 1 <= si_rows (s_meta s) <= MAX_ROWS /\
    si_label (s_meta s) <> ""%string /\
    exists raw cwd, ce_canonical env = Some raw /\ normalize_pty_cwd raw = Ok cwd /\
      si_initial_cwd (s_meta s) = bytes_str cwd /\ ce_is_dir env cwd = true
  | Err _ => running_sessions (sm_sessions g') = running_sessions (sm_sessions g)
  end.
Proof.
  intros Hfresh Hsz. unfold manager_create.
  destruct (_ || (MAX_ROWS <? cs_rows req)) eqn:Ev; [done|]. bools.
  destruct (ce_canonical env) as [raw|] eqn:Ec; [|done].
  destruct (normalize_pty_cwd raw) as [cwd|] eqn:En; [|done].
  destruct (ce_is_dir env cwd) eqn:Ed; cbn [negb]; [|done].
  destruct (sm_max_sessions g <=? _) eqn:Em; [done|]. bools.
  set (g1 := set_sessions (running_sessions (sm_sessions g)) g).
  assert (running_sessions (sm_sessions g1) = running_sessions (sm_sessions g)) as Hrun
    by apply running_sessions_idem.
  assert (Z.of_nat (size (running_sessions (sm_sessions g1))) <= sm_max_sessions g1) as Hsz1
    by (rewrite Hrun; done).
  destruct (ce_project env) as [project|]; [|done].
  destruct (negb (ce_openpty env)); [done|].
  destruct (profile_resolve _ _) as [launch|]; [|done].
  destruct (_ || negb (ce_writer env)); [done|].
  destruct (ce_spawn env) as [pid|]; [|done].
  destruct (_ && (_ || _)); [done|]. destruct (negb (ce_threads env)); [done|].
  destruct (negb (ce_saved env)); [done|].
  split.
  - cbn. unfold running_sessions at 1. rewrite map_filter_insert_True by done.
    pose proof (size_insert_le (ce_session_id env) (new_session req g1 env cwd project launch pid
      match pid with Some p => ce_created env p | None => None end)
      (running_sessions (running_sessions (sm_sessions g)))) as Hle.
    rewrite running_sessions_idem in Hle. unfold running_sessions in *. cbn in *.
    rewrite Hrun. lia.
  - cbn. repeat split; try lia.
    + intros Hl. by rewrite Hl in H.
    + by exists raw, cwd.
Qed.
End Session.

(** A working directory handed to a child is a plain drive path: what
    [normalize_pty_cwd] accepts starts with a letter, a colon and a slash, fits
    260 UTF-16 units with its terminator, and is the input itself or the input
    without the verbatim prefix; UNC and other device paths are refused. *)
Lemma normalize_pty_cwd_drive value path :
  normalize_pty_cwd value = Ok path ->
  (value = path \/ value = verbatim_prefix ++ path) /\
  (exists letter slash rest, path = letter :: 58 :: slash :: rest /\
     is_ascii_alphabetic letter = true /\ (slash = 92 \/ slash = 47)) /\
  utf16_len path + 1 <= 260.
Proof.
  unfold normalize_pty_cwd. intros Hn.
  destruct (match strip_bytes _ _ with Some _ => _ | None => _ end) as [path'|] eqn:E; [|done].
  destruct (_ || (260 <? _)) eqn:Ec; [done|]. injection Hn as ->. bools.
  split; [|split; [|lia]].
  - destruct (strip_bytes verbatim_prefix value) as [q|] eqn:Es.
    + destruct (_ && _); [done|]. injection E as ->. right.
      unfold verbatim_prefix in *. cbn in Es. repeat case_match; try done. bools. simplify_eq. done.
    + destruct (starts_with value _); [done|]. injection E as ->. by left.
  - destruct path as [|a [|b [|c rest]]]; try (unfold zlen in *; simpl in *; lia).
    cbn in *. subst. exists a, c, rest. split; [done|]. split; [done|].
    destruct H1; bools; auto.
Qed.

(** ** A concrete session, with a terminal model that keeps its size *)
Definition size_new (cols rows : Z) : Z * Z := (cols, rows).
Definition size_resize (_ : Z * Z) (cols rows : Z) : Z * Z := (cols, rows).
Definition sample_env : CreateEnv := {|
  ce_canonical := Some [67; 58; 92; 120]; ce_is_dir := fun _ => true; ce_project := Some 3;
  ce_openpty := true;
  ce_installed := [{| lp_id := "cmd"; lp_label := "CMD"; lp_program := "C:\Windows\cmd.exe";
                      lp_args := ["/D"%string]; lp_managed_codex := false |}];
  ce_reader := true; ce_writer := true; ce_spawn := Some (Some 42);
  ce_created := fun _ => Some 1; ce_threads := true; ce_saved := true;
  ce_session_id := 11; ce_timestamp := "0" |}.
Definition sample_request : CreateSession := {|
  cs_label := "work"; cs_project_id := None; cs_cwd := "C:\x"; cs_profile := "cmd";
  cs_cols := 80; cs_rows := 24 |}.
Definition sample_manager : SessionManager (Model := Z * Z) := manager_new 1 8 65536.
Definition sample_session : Session (Model := Z * Z) :=
  new_session size_new sample_request sample_manager sample_env [67; 58; 92; 120] 3
    {| lp_id := "cmd"; lp_label := "CMD"; lp_program := "C:\Windows\cmd.exe";
       lp_args := ["/D"%string]; lp_managed_codex := false |} (Some 42) (Some 1).

Lemma manager_create_correct_witness :
  let '(g', _, r) := manager_create size_new sample_request sample_env sample_manager in
  Z.of_nat (size (running_sessions (sm_sessions g'))) <= sm_max_sessions g' /\
  match r with
  | Ok s =>
    sm_sessions g' =
      <[ce_session_id sample_env := s]> (running_sessions (sm_sessions sample_manager)) /\
    s_running s = true /\ si_agent_epoch (s_meta s) = sm_epoch sample_manager /\
    ls_owner (session_lease s) = None /\ os_seq (s_output s) = 0 /\
    2 <= si_cols (s_meta s) <= MAX_COLS /\ 1 <= si_rows (s_meta s) <= MAX_ROWS /\
    si_label (s_meta s) <> ""%string /\
    exists raw cwd, ce_canonical sample_env = Some raw /\ normalize_pty_cwd raw = Ok cwd /\
      si_initial_cwd (s_meta s) = bytes_str cwd /\ ce_is_dir sample_env cwd = true
  | Err _ => running_sessions (sm_sessions g') = running_sessions (sm_sessions sample_manager)
  end.
Proof.
  apply (manager_create_correct size_new size_resize (fun _ => false) sample_request sample_env sample_manager);
    [reflexivity | vm_compute; discriminate].
Defined.
Lemma closed_session_refuses_everything_witness :
  let s0 := (session_close sample_session).1 in
  let ops := [(∅, 1, 1, SoAcquire sample_principal 9 true);
              (∅, 2, 2, SoEnqueue sample_principal 9 1 77 1 [104])] in
  Forall (fun ok => ok = false) (session_run size_resize (fun _ => false) s0 ops).2 /\
  forall c k e now,
    ~ holds (session_lease (session_run size_resize (fun _ => false) s0 ops).1) c k e now.
Proof.
  intros s0 ops.
  apply (closed_session_refuses_everything size_resize (fun _ => false) s0 sample_session true ops).
  left. split; reflexivity.
Defined.
Lemma session_resize_correct_witness :
  let s := (session_acquire ∅ sample_principal 9 false 1 1 sample_session).1.1 in
  let '(s', frames, _, r) := session_resize size_resize ∅ sample_principal 9 1 100 30 2 2 true s in
  (r = Ok tt ->
     holds (session_lease s) 5 9 1 2 /\ s_running s = true /\
     2 <= 100 <= MAX_COLS /\ 1 <= 30 <= MAX_ROWS /\
     si_cols (s_meta s') = 100 /\ si_rows (s_meta s') = 30) /\
  (r <> Ok tt -> si_cols (s_meta s') = si_cols (s_meta s) /\
                 si_rows (s_meta s') = si_rows (s_meta s)) /\
  s_input s' = s_input s /\ s_queues s' = s_queues s /\ s_running s' = s_running s /\
  contiguous (os_seq (s_output s)) frames /\
  os_seq (s_output s') = os_seq (s_output s) + zlen frames.
Proof.
  intros s. apply (session_resize_correct size_resize ∅ sample_principal 9 1 100 30 2 2 true s);
    vm_compute; discriminate.
Defined.
Example session_resize_runs :
  let s := (session_acquire ∅ sample_principal 9 false 1 1 sample_session).1.1 in
  let '(s', _, _, r) := session_resize size_resize ∅ sample_principal 9 1 100 30 2 2 true s in
  r = Ok tt /\ os_model (s_output s') = (100, 30).
Proof. by vm_compute. Qed.

Definition sample_codex : Session (Model := Z * Z) :=
  new_session size_new sample_request sample_manager sample_env [67; 58; 92; 120] 3
    {| lp_id := "codex"; lp_label := "Codex"; lp_program := "C:\codex.exe"; lp_args := [];
       lp_managed_codex := true |} (Some 42) (Some 1).
Lemma composer_needs_same_process_witness :
  s_managed_codex sample_codex = true /\ s_running sample_codex = true /\
  exists pid created program image,
    si_pid (s_meta sample_codex) = Some pid /\
    (fun _ : Z => Some 1) pid = Some created /\
    si_process_created (s_meta sample_codex) = Some (dec created) /\
    si_program_path (s_meta sample_codex) = Some program /\
    (fun _ : string => true) program = true /\
    (fun _ : Z => Some "c:\CODEX.EXE"%string) pid = Some image /\
    eq_ignore_ascii_case image program = true.
Proof. apply (composer_needs_same_process 0). by vm_compute. Defined.
(** Another process with the same identifier. *)
Example reused_pid_is_refused :
  si_composer_allowed (session_info 0 (identity_matches (fun _ => Some 2)
    (fun _ => Some "C:\codex.exe"%string) (fun _ => true) (s_meta sample_codex) sample_codex)
    sample_codex) = false.
Proof. by vm_compute. Qed.
