(* ===== verification/TermModel.v ===== *)
(** * The terminal model of a session ([TerminalModel] of [crates/rc-agent/src/terminal.rs])
    The emulator is third-party code behind the interface [Emulator]; what the
    agent relies on is the interface [EmulatorLaws].  Modelled is the agent's side:
    how bytes and resizes reach the emulator, what becomes of the events it sends
    back, and what a session hands to a client from it. *)
From Stdlib Require Import String.
From S2P Require Import Prelude Errors Protocol Text Frame Ring VtFence Terminal SessionOutput.
#[global] Open Scope Z_scope.

(** ** The emulator *)
(** [Event]: what the emulator asks of its host.  The formatters build the escape
    sequence that answers a request. *)
Inductive Event : Type :=
| EvMouseCursorDirty
| EvTitle (title : bytes)
| EvResetTitle
| EvClipboardStore (text : bytes)
| EvClipboardLoad (format : bytes -> bytes)
| EvColorRequest (index : Z) (format : Rgb -> bytes)
| EvPtyWrite (text : bytes)
| EvTextAreaSizeRequest (format : Z -> Z -> bytes)
| EvCursorBlinkingChange
| EvWakeup
| EvBell
| EvExit
| EvChildExit (code : Z).
Record Size := { sz_cols : Z; sz_rows : Z }.
#[global] Instance Size_eq_dec : EqDecision Size.
Proof. solve_decision. Defined.
Inductive Osc52 : Type := Osc52Disabled | Osc52OnlyCopy | Osc52OnlyPaste | Osc52CopyPaste.
Record TermConfig := { cf_scrolling_history : Z; cf_osc52 : Osc52; cf_kitty_keyboard : bool }.

(** A [Term] together with its [Processor]. *)
Class Emulator (St : Type) := {
  em_new : TermConfig -> Size -> St;
  em_advance : St -> bytes -> St * list Event;
  em_sync_bytes : St -> Z;
  em_stop_sync : St -> St * list Event;
  em_resize : St -> Size -> St;
  em_term : St -> Term
}.
(** The sizes a session accepts. *)
Definition valid_size (sz : Size) : Prop :=
  2 <= sz_cols sz <= MAX_COLS /\ 1 <= sz_rows sz <= MAX_ROWS.
(** The emulator's promises: its screen has the size it was last given and holds
    characters and colours, whatever bytes it is fed; ending a synchronized update
    leaves nothing in the buffer of the update. *)
Class EmulatorLaws (St : Type) `{Emulator St} := {
  em_inv : St -> Size -> Prop;
  em_inv_term s sz : em_inv s sz ->
    term_ok (em_term s) /\ gr_columns (tm_grid (em_term s)) = sz_cols sz /\
    gr_screen_lines (tm_grid (em_term s)) = sz_rows sz;
  em_inv_new c sz : valid_size sz -> em_inv (em_new c sz) sz;
  em_inv_advance s sz b : em_inv s sz -> em_inv (em_advance s b).1 sz;
  em_inv_stop s sz : em_inv s sz -> em_inv (em_stop_sync s).1 sz;
  em_inv_resize s sz sz' : em_inv s sz -> valid_size sz' -> em_inv (em_resize s sz') sz';
  em_sync_nonneg s : 0 <= em_sync_bytes s;
  em_sync_new c sz : em_sync_bytes (em_new c sz) = 0;
  em_sync_stop s : em_sync_bytes (em_stop_sync s).1 = 0;
  em_sync_resize s sz : em_sync_bytes (em_resize s sz) = em_sync_bytes s
}.

(** ** Answers to the program *)
(** The channel of 128 replies to the thread that writes to the PTY. *)
Definition QUERY_CAP : Z := 128.
Record Replies := { rp_queue : list bytes; rp_open : bool }.
Definition replies_new : Replies := {| rp_queue := []; rp_open := true |}.
(** [let _ = self.0.try_send(..)] *)
Definition try_reply (r : Replies) (b : bytes) : Replies :=
  if rp_open r && (zlen (rp_queue r) <? QUERY_CAP)
  then {| rp_queue := rp_queue r ++ [b]; rp_open := rp_open r |} else r.
Definition reported_color (index : Z) : Rgb :=
  if index =? 257 then {| r_ := 15; g_ := 20; b_ := 28 |}
  else {| r_ := 219; g_ := 228; b_ := 240 |}.
Definition send_event (r : Replies) (e : Event) : Replies :=
  match e with
  | EvPtyWrite s => try_reply r s
  | EvColorRequest index format => try_reply r (format (reported_color index))
  | _ => r
  end.

(** ** The model *)
Definition begin_sync : bytes := [27; 91; 63; 50; 48; 50; 54; 104].   (* ESC [ ? 2026 h *)
Definition model_config : TermConfig :=
  {| cf_scrolling_history := 2000; cf_osc52 := Osc52Disabled; cf_kitty_keyboard := false |}.
Definition model_warning : string :=
  "VT snapshot adapter is experimental; Codex/IME/full-state golden verification is not yet complete".

Section Model.
Context {St : Type} `{Emulator St}.

Record TerminalModel := {
  td_term : St;
  td_size : Size;
  td_replies : Replies;
  td_warnings : list string
}.
Definition terminal_new (cols rows : Z) : TerminalModel :=
  let size := {| sz_cols := cols; sz_rows := rows |} in
  {| td_term := em_new model_config size; td_size := size; td_replies := replies_new;
     td_warnings := [model_warning] |}.
(** What [apply] does to the emulator: a synchronized update is ended at once. *)
Definition em_apply (s : St) (b : bytes) : St * list Event :=
  let '(s, es) := em_advance s b in
  if bool_decide (b = begin_sync) || (0 <? em_sync_bytes s)
  then let '(s, es') := em_stop_sync s in (s, es ++ es')
  else (s, es).
Definition terminal_apply (m : TerminalModel) (b : bytes) : TerminalModel :=
  let '(s, es) := em_apply (td_term m) b in
  {| td_term := s; td_size := td_size m; td_replies := foldl send_event (td_replies m) es;
     td_warnings := td_warnings m |}.
Definition terminal_resize (m : TerminalModel) (cols rows : Z) : TerminalModel :=
  let size := {| sz_cols := cols; sz_rows := rows |} in
  {| td_term := em_resize (td_term m) size; td_size := size; td_replies := td_replies m;
     td_warnings := td_warnings m |}.
Definition terminal_size (m : TerminalModel) : Z * Z := (sz_cols (td_size m), sz_rows (td_size m)).
Definition terminal_bracketed (m : TerminalModel) : bool := bracketed_paste (em_term (td_term m)).
(** [snapshot]; a panic of the code is no bytes here, see [snapshot_passes]. *)
Definition terminal_snapshot (m : TerminalModel) : bytes :=
  default [] (snapshot (em_term (td_term m))).
Definition set_replies (r : Replies) (m : TerminalModel) : TerminalModel :=
  {| td_term := td_term m; td_size := td_size m; td_replies := r; td_warnings := td_warnings m |}.

(** ** A session's output with its model *)
(** The reader and the resizing callers, the writer taking a reply, its end. *)
Inductive ModelOp : Type := MoOutput (op : OutputOp) | MoTake | MoWriterEnded.
Context (sid : Uuid) (gen : Z).
Definition model_op (o : OutputState (Model := TerminalModel)) (op : ModelOp)
  : OutputState (Model := TerminalModel) * list Frame * list bytes :=
  match op with
  | MoOutput op => (output_op terminal_apply terminal_resize sid gen o op, [])
  | MoTake =>
    let m := os_model o in
    match rp_queue (td_replies m), rp_open (td_replies m) with
    | q :: rest, true =>
      (set_model (set_replies {| rp_queue := rest; rp_open := true |} m) o, [], [q])
    | _, _ => (o, [], [])
    end
  | MoWriterEnded =>
    (set_model (set_replies {| rp_queue := []; rp_open := false |} (os_model o)) o, [], [])
  end.
Fixpoint model_run (o : OutputState (Model := TerminalModel)) (ops : list ModelOp)
  : OutputState (Model := TerminalModel) * list Frame * list bytes :=
  match ops with
  | [] => (o, [], [])
  | op :: rest =>
    let '(o, fs, qs) := model_op o op in
    let '(o, fs', qs') := model_run o rest in (o, fs ++ fs', qs ++ qs')
  end.
Definition model_start (cols rows ring_limit : Z) : OutputState (Model := TerminalModel) :=
  output_new (terminal_new cols rows) ring_limit.

(** ** What the emulator is given *)
Inductive Item : Type := ItToken (token : bytes) | ItResize (size : Size).
Definition em_item (s : St) (i : Item) : St * list Event :=
  match i with ItToken b => em_apply s b | ItResize sz => (em_resize s sz, []) end.
Fixpoint em_items (s : St) (l : list Item) : St * list Event :=
  match l with
  | [] => (s, [])
  | i :: rest =>
    let '(s, es) := em_item s i in
    let '(s, es') := em_items s rest in (s, es ++ es')
  end.
(** The tokens the fence releases for the reads, and the resizes. *)
Fixpoint model_items (f : VtFence) (ops : list ModelOp) : list Item :=
  match ops with
  | [] => []
  | MoOutput (OpRead buf) :: rest =>
    let '(f, tokens) := fence_push_bytes f buf in map ItToken tokens ++ model_items f rest
  | MoOutput (OpResize cols rows) :: rest =>
    ItResize {| sz_cols := cols; sz_rows := rows |} :: model_items f rest
  | _ :: rest => model_items f rest
  end.
Definition item_bytes (i : Item) : bytes := match i with ItToken b => b | ItResize _ => [] end.
(** The answer the program is owed for an event. *)
Definition reply (e : Event) : option bytes :=
  match e with
  | EvPtyWrite s => Some s
  | EvColorRequest index format => Some (format (reported_color index))
  | _ => None
  end.
Definition last_size (sz : Size) (l : list Item) : Size :=
  foldl (fun sz i => match i with ItResize sz => sz | ItToken _ => sz end) sz l.
Definition valid_model_op (op : ModelOp) : Prop :=
  match op with
  | MoOutput (OpResize cols rows) => valid_size {| sz_cols := cols; sz_rows := rows |}
  | _ => True
  end.
Definition keeps_writer (op : ModelOp) : Prop := op <> MoWriterEnded.
Definition output_ops (ops : list ModelOp) : list OutputOp :=
  omap (fun op => match op with MoOutput op => Some op | _ => None end) ops.

(** ** The emulator is given exactly the items *)
Lemma em_items_app s l l' :
  em_items s (l ++ l') =
    let '(s1, es) := em_items s l in let '(s2, es') := em_items s1 l' in (s2, es ++ es').
Proof.
  revert s. induction l as [|i l IH]; intros s; cbn [app em_items].
  { by destruct (em_items s l'). }
  destruct (em_item s i) as [s1 e1]. rewrite IH. destruct (em_items s1 l) as [s2 e2].
  destruct (em_items s2 l') as [s3 e3]. by rewrite app_assoc.
Qed.
Lemma last_size_app sz l l' : last_size sz (l ++ l') = last_size (last_size sz l) l'.
Proof. apply foldl_app. Qed.
Lemma last_size_tokens sz tokens : last_size sz (map ItToken tokens) = sz.
Proof. by induction tokens. Qed.

Lemma try_reply_cap r b : zlen (rp_queue r) <= QUERY_CAP -> zlen (rp_queue (try_reply r b)) <= QUERY_CAP.
Proof.
  unfold try_reply. destruct (_ && _) eqn:E; [|done]. bools. cbn. rewrite zlen_snoc. lia.
Qed.
(** [send_event] answers an event, or drops the answer of a full channel. *)
Lemma send_event_spec r e :
  (zlen (rp_queue r) <= QUERY_CAP -> zlen (rp_queue (send_event r e)) <= QUERY_CAP) /\
  rp_open (send_event r e) = rp_open r /\
  (rp_queue (send_event r e) = rp_queue r \/
   exists b, reply e = Some b /\ rp_queue (send_event r e) = rp_queue r ++ [b]) /\
  (rp_open r = true -> zlen (rp_queue r) < QUERY_CAP ->
   rp_queue (send_event r e) = rp_queue r ++ option_list (reply e)).
Proof.
  assert (forall b, reply e = Some b -> send_event r e = try_reply r b) as He.
  { destruct e; cbn; naive_solver. }
  destruct (reply e) as [b|] eqn:Er.
  - rewrite (He b) by done. split; [apply try_reply_cap|]. unfold try_reply.
    destruct (rp_open r) eqn:Eo; cbn [andb]; [destruct (zlen (rp_queue r) <? QUERY_CAP) eqn:El|];
      cbn; bools; (split; [done|]); split; naive_solver lia.
  - replace (send_event r e) with r by (destruct e; done).
    split; [done|]. split; [done|]. split; [by left|]. intros _ _. cbn. by rewrite app_nil_r.
Qed.

(** [m] is the model of an emulator that was given [items], and the program was
    sent [qs]: replies are sent in order; one is left out only for want of room. *)
Record follows (s : St) (sz : Size) (items : list Item) (qs : list bytes) (m : TerminalModel) : Prop := {
  fo_term : td_term m = (em_items s items).1;
  fo_size : td_size m = last_size sz items;
  fo_warnings : td_warnings m = [model_warning];
  fo_cap : zlen (rp_queue (td_replies m)) <= QUERY_CAP;
  fo_sub : sublist (qs ++ rp_queue (td_replies m)) (omap reply (em_items s items).2);
  fo_all : rp_open (td_replies m) = true -> zlen (omap reply (em_items s items).2) <= QUERY_CAP ->
    qs ++ rp_queue (td_replies m) = omap reply (em_items s items).2
}.
Lemma follows_start sz : follows (em_new model_config sz) sz [] [] (terminal_new (sz_cols sz) (sz_rows sz)).
Proof. by destruct sz. Qed.
Lemma sent_events es r done_ qs :
  zlen (rp_queue r) <= QUERY_CAP ->
  sublist (qs ++ rp_queue r) done_ ->
  (rp_open r = true -> zlen done_ <= QUERY_CAP -> qs ++ rp_queue r = done_) ->
  let r' := foldl send_event r es in
  zlen (rp_queue r') <= QUERY_CAP /\ rp_open r' = rp_open r /\
  sublist (qs ++ rp_queue r') (done_ ++ omap reply es) /\
  (rp_open r' = true -> zlen (done_ ++ omap reply es) <= QUERY_CAP ->
   qs ++ rp_queue r' = done_ ++ omap reply es).
Proof.
  revert r done_. induction es as [|e es IH]; intros r done_ Hc Hs Ha; cbn [foldl].
  { cbn. rewrite app_nil_r. auto. }
  destruct (send_event_spec r e) as (Hc' & Ho' & Hq & Hr).
  replace (done_ ++ omap reply (e :: es)) with ((done_ ++ option_list (reply e)) ++ omap reply es)
    by (cbn; destruct (reply e); cbn; by rewrite <- app_assoc).
  rewrite <- Ho'. apply IH.
  - auto.
  - destruct Hq as [->|(b & -> & ->)].
    + by apply sublist_inserts_r.
    + rewrite app_assoc. by apply sublist_app.
  - rewrite Ho', zlen_app. intros Ho Hl. pose proof (zlen_nonneg (option_list (reply e))).
    destruct (reply e) as [b|] eqn:Er.
    + change (zlen (option_list (Some b))) with 1 in *. specialize (Ha Ho ltac:(lia)).
      rewrite <- Ha, zlen_app in Hl. pose proof (zlen_nonneg qs).
      rewrite Hr by (done || lia). by rewrite app_assoc, Ha.
    + cbn [option_list option_rect option_map] in *. rewrite app_nil_r in *. destruct Hq as [->|(b & ? & _)]; [|done]. apply Ha; [done|]. lia.
Qed.
Lemma follows_item s sz items qs m i :
  follows s sz items qs m ->
  follows s sz (items ++ [i]) qs
    (match i with ItToken b => terminal_apply m b | ItResize sz => terminal_resize m (sz_cols sz) (sz_rows sz) end).
Proof.
  intros [H1 H2 Hw H3 H4 H5].
  assert (em_items s (items ++ [i]) =
    ((em_item (td_term m) i).1, (em_items s items).2 ++ (em_item (td_term m) i).2)) as He.
  { rewrite em_items_app, H1. destruct (em_items s items) as [s1 e1]. cbn.
    destruct (em_item s1 i). by rewrite app_nil_r. }
  destruct i as [b|[c r]]; cbn [em_item] in *.
  - unfold terminal_apply. destruct (em_apply (td_term m) b) as [s1 es]. cbn [fst snd] in He.
    destruct (sent_events es (td_replies m) _ qs H3 H4 H5) as (Hc & Ho & Hs & Ha).
    rewrite <- omap_app in Hs, Ha.
    split; rewrite ?He; cbn; try done. by rewrite last_size_app, <- H2.
  - split; rewrite ?He; cbn; rewrite ?app_nil_r; try done. by rewrite last_size_app.
Qed.
Lemma follows_items s sz items qs m tokens :
  follows s sz items qs m ->
  follows s sz (items ++ map ItToken tokens) qs (foldl terminal_apply m tokens).
Proof.
  revert items m. induction tokens as [|b tokens IH]; intros items m Hf; cbn [map foldl].
  { by rewrite app_nil_r. }
  apply (follows_item _ _ _ _ _ (ItToken b)), IH in Hf. by rewrite <- app_assoc in Hf.
Qed.

(** ** Runs *)
(** The fence after an operation, and the items of that operation. *)
Definition op_items (f : VtFence) (op : ModelOp) : VtFence * list Item :=
  match op with
  | MoOutput (OpRead buf) => let '(f, tokens) := fence_push_bytes f buf in (f, map ItToken tokens)
  | MoOutput (OpResize cols rows) => (f, [ItResize {| sz_cols := cols; sz_rows := rows |}])
  | MoTake | MoWriterEnded => (f, [])
  end.
Lemma model_items_cons f op ops :
  model_items f (op :: ops) = (op_items f op).2 ++ model_items (op_items f op).1 ops.
Proof. destruct op as [[buf|cols rows]| |]; cbn; [by destruct (fence_push_bytes f buf)|done..]. Qed.

Definition op_cost (op : ModelOp) : Z := match op with MoOutput op => op_weight op | _ => 0 end.
Lemma op_cost_nonneg op : 0 <= op_cost op.
Proof. destruct op as [op| |]; cbn; [|done..]. pose proof (op_weight_pos op). lia. Qed.
Lemma tokens_bytes tokens : concat (map item_bytes (map ItToken tokens)) = concat tokens.
Proof. by rewrite map_map, map_id. Qed.

Lemma model_op_spec s sz o op items qs0 o' fs qs :
  model_op o op = (o', fs, qs) -> follows s sz items qs0 (os_model o) ->
  0 <= os_seq o -> os_seq o + op_cost op <= u64_max ->
  follows s sz (items ++ (op_items (os_fence o) op).2) (qs0 ++ qs) (os_model o') /\
  os_fence o' = (op_items (os_fence o) op).1 /\
  zlen fs <= op_cost op /\ os_seq o' = os_seq o + zlen fs /\
  output_bytes fs = concat (map item_bytes (op_items (os_fence o) op).2).
Proof.
  intros He Hf H0 Hm. destruct op as [op| |]; cbn [model_op] in He.
  - destruct (output_op _ _ _ _ o op) as [o1 fs1] eqn:E1. injection He as <- <- <-.
    destruct (output_op_spec _ _ _ _ _ _ _ _ E1 H0 Hm) as ((_ & Hs & _) & Hl & _ & Hb).
    pose proof (output_op_model terminal_apply terminal_resize sid gen o op) as Hmod.
    rewrite E1 in Hmod. cbn [fst] in Hmod. rewrite app_nil_r, Hmod.
    destruct op as [buf|cols rows]; cbn [op_items] in *.
    + destruct (fence_push_bytes (os_fence o) buf) as [f tokens]. injection Hb as Hb ->.
      cbn in *. rewrite tokens_bytes. split; [by apply follows_items|]. auto.
    + injection Hb as Hb ->. split; [|by auto].
      apply (follows_item _ _ _ _ _ (ItResize {| sz_cols := cols; sz_rows := rows |}) Hf).
  - cbn [op_items fst snd]. rewrite app_nil_r.
    destruct (rp_queue (td_replies (os_model o))) as [|q rest] eqn:Eq;
      [|destruct (rp_open (td_replies (os_model o))) eqn:Eo]; injection He as <- <- <-;
      rewrite ?app_nil_r; (split; [|by rewrite !zlen_nil, Z.add_0_r]); [done| |done].
    destruct Hf as [H1 H2 Hw H3 H4 H5]. rewrite Eq in H3, H4, H5. rewrite zlen_cons in H3.
    split; cbn; [done|done|done|lia|by rewrite <- app_assoc|].
    intros _ Hl. rewrite <- app_assoc. by apply H5.
  - injection He as <- <- <-. cbn [op_items fst snd]. rewrite !app_nil_r.
    split; [|by rewrite !zlen_nil, Z.add_0_r]. destruct Hf as [H1 H2 Hw H3 H4 H5].
    split; cbn; [done|done|done|by unfold QUERY_CAP| |done].
    rewrite app_nil_r. etrans; [|exact H4]. by apply sublist_inserts_r.
Qed.
Lemma model_run_spec s sz ops o items qs0 o' fs qs :
  model_run o ops = (o', fs, qs) -> follows s sz items qs0 (os_model o) ->
  0 <= os_seq o -> os_seq o + zsum op_cost ops <= u64_max ->
  follows s sz (items ++ model_items (os_fence o) ops) (qs0 ++ qs) (os_model o') /\
  os_seq o' = os_seq o + zlen fs /\
  output_bytes fs = concat (map item_bytes (model_items (os_fence o) ops)).
Proof.
  revert o items qs0 o' fs qs. induction ops as [|op ops IH]; intros o items qs0 o' fs qs He Hf H0 Hm.
  { injection He as <- <- <-. cbn. rewrite !app_nil_r. split; [done|]. split; [|done]. rewrite zlen_nil. lia. }
  cbn [model_run] in He. rewrite zsum_cons in Hm.
  assert (0 <= zsum op_cost ops) by (apply zsum_nonneg; intros x _; apply op_cost_nonneg).
  destruct (model_op o op) as [[o1 fs1] qs1] eqn:E1.
  destruct (model_run o1 ops) as [[o2 fs2] qs2] eqn:E2. injection He as <- <- <-.
  destruct (model_op_spec _ _ _ _ _ _ _ _ _ E1 Hf H0) as (Hf1 & Hfe & Hl1 & Hs1 & Hb1); [lia|].
  pose proof (zlen_nonneg fs1).
  destruct (IH _ _ _ _ _ _ E2 Hf1) as (Hf2 & Hs2 & Hb2); [lia|lia|].
  rewrite model_items_cons, <- Hfe, <- !app_assoc in *. split; [done|].
  rewrite zlen_app, output_bytes_app, map_app, concat_app, Hb1, Hb2. split; [lia|done].
Qed.

(** ** What the interface promises of the model *)
Context `{!EmulatorLaws St}.
Lemma em_apply_sync s b : em_sync_bytes (em_apply s b).1 = 0.
Proof.
  unfold em_apply. destruct (em_advance s b) as [s1 es]. pose proof (em_sync_nonneg s1).
  pose proof (em_sync_stop s1). destruct (em_stop_sync s1) as [s2 es2].
  destruct (bool_decide (b = begin_sync)); cbn [orb]; [done|].
  destruct (0 <? em_sync_bytes s1) eqn:E; cbn in *; bools; lia.
Qed.
Lemma em_apply_inv s sz b : em_inv s sz -> em_inv (em_apply s b).1 sz.
Proof.
  intros Hi%(em_inv_advance _ _ b). unfold em_apply. destruct (em_advance s b) as [s1 es].
  cbn in Hi. destruct (_ || _); [|done]. apply em_inv_stop in Hi. by destruct (em_stop_sync s1).
Qed.
Definition valid_item (i : Item) : Prop :=
  match i with ItToken _ => True | ItResize sz => valid_size sz end.
Lemma em_items_laws s sz l :
  em_inv s sz -> em_sync_bytes s = 0 -> Forall valid_item l ->
  em_inv (em_items s l).1 (last_size sz l) /\ em_sync_bytes (em_items s l).1 = 0.
Proof.
  revert s sz. induction l as [|i l IH]; intros s sz Hi Hs Hv; [done|].
  apply Forall_cons in Hv as [Hv Hvs]. cbn [em_items].
  destruct i as [b|sz']; cbn [em_item valid_item] in *.
  - specialize (IH (em_apply s b).1 sz (em_apply_inv _ _ b Hi) (em_apply_sync s b) Hvs).
    destruct (em_apply s b) as [s1 es]. cbn in IH. by destruct (em_items s1 l).
  - rewrite <- (em_sync_resize s sz') in Hs.
    specialize (IH _ _ (em_inv_resize _ _ _ Hi Hv) Hs Hvs). by destruct (em_items _ l).
Qed.
Lemma model_items_valid f ops : Forall valid_model_op ops -> Forall valid_item (model_items f ops).
Proof.
  intros Hv. revert f. induction Hv as [|op ops Hop Hops IH]; intros f; [constructor|].
  rewrite model_items_cons. apply Forall_app. split; [|apply IH].
  destruct op as [[buf|cols rows]| |]; cbn in *; [|by apply Forall_singleton|constructor..].
  destruct (fence_push_bytes f buf) as [f' tokens]. cbn. by apply Forall_map, Forall_true.
Qed.

Definition terminal_subscribe (epoch : Uuid) (o : OutputState (Model := TerminalModel))
  : res (SnapshotMeta * bytes) :=
  subscribe_snapshot terminal_snapshot terminal_size td_warnings gen epoch o.


Lemma terminal_apply_open m b : rp_open (td_replies (terminal_apply m b)) = rp_open (td_replies m).
Proof.
  unfold terminal_apply. destruct (em_apply _ b) as [s es]. cbn. generalize (td_replies m) as r.
  induction es as [|e es IH]; intros r; [done|]. cbn. rewrite IH. by destruct (send_event_spec r e) as (_ & -> & _).
Qed.
Lemma terminal_applies_open m l :
  rp_open (td_replies (foldl terminal_apply m l)) = rp_open (td_replies m).
Proof.
  revert m. induction l as [|b l IH]; intros m; [done|]. cbn. by rewrite IH, terminal_apply_open.
Qed.
Lemma model_run_open ops o :
  Forall keeps_writer ops -> rp_open (td_replies (os_model o)) = true ->
  rp_open (td_replies (os_model (model_run o ops).1.1)) = true.
Proof.
  intros Hk. revert o. induction Hk as [|op ops Hop Hops IH]; intros o Ho; [done|]. cbn [model_run].
  assert (rp_open (td_replies (os_model (model_op o op).1.1)) = true) as H1.
  { destruct op as [op| |]; cbn [model_op]; [| |by destruct Hop].
    - pose proof (output_op_model terminal_apply terminal_resize sid gen o op) as Hm.
      destruct (output_op _ _ _ _ o op) as [o1 fs]. cbn in *. rewrite Hm.
      destruct op as [buf|cols rows]; [by rewrite terminal_applies_open|done].
    - destruct (rp_queue _); [done|]. by rewrite Ho. }
  specialize (IH _ H1). destruct (model_op o op) as [[o1 fs1] qs1]. cbn in IH.
  by destruct (model_run o1 ops) as [[o2 fs2] qs2].
Qed.
(** The program is told only what the emulator answers: what the writer has been
    given and what waits are replies of the emulator, in its order, at most 128
    waiting; none is left out while a run asks for no more than that and the
    writer lives.  Clipboard and other requests are never answered, and a request
    for a colour only ever with the two fixed ones. *)
Theorem terminal_replies_exact cols rows limit ops o fs qs :
  zsum op_cost ops <= u64_max -> model_run (model_start cols rows limit) ops = (o, fs, qs) ->
  let sz := {| sz_cols := cols; sz_rows := rows |} in
  let es := (em_items (em_new model_config sz) (model_items fence_default ops)).2 in
  let waiting := rp_queue (td_replies (os_model o)) in
  zlen waiting <= QUERY_CAP /\ sublist (qs ++ waiting) (omap reply es) /\
  (Forall keeps_writer ops -> zlen (omap reply es) <= QUERY_CAP -> qs ++ waiting = omap reply es).
Proof.
  intros Hm He sz es waiting.
  destruct (model_run_spec (em_new model_config sz) sz ops (model_start cols rows limit) [] [] o fs qs He)
    as ([_ _ _ Hc Hs Ha] & _ & _); [by apply follows_start|done|done|].
  split; [done|]. split; [done|]. intros Hk Hl. apply Ha; [|done].
  pose proof (model_run_open ops (model_start cols rows limit) Hk eq_refl) as Ho. by rewrite He in Ho.
Qed.
End Model.
Arguments TerminalModel : clear implicits.

(** ** A small emulator *)
(** It keeps the bytes it has processed and those of a synchronized update, and
    answers a request for device attributes. *)
Record Screen := { sc_size : Size; sc_seen : bytes; sc_syncing : bool; sc_held : bytes }.
Definition blank : Cell :=
  {| cl_c := 32; cl_fg := CNamed 256; cl_bg := CNamed 257; cl_flags := 0; cl_zerowidth := [];
     cl_underline := None |}.
Definition blank_cursor : Cursor :=
  {| cu_line := 0; cu_column := 0; cu_template := blank; cu_charsets := fun _ => CsAscii;
     cu_active_charset := G0; cu_needs_wrap := false |}.
Definition blank_grid (sz : Size) : Grid :=
  {| gr_rows := replicate (Z.to_nat (sz_rows sz)) (replicate (Z.to_nat (sz_cols sz)) blank);
     gr_screen_lines := sz_rows sz; gr_columns := sz_cols sz; gr_cursor := blank_cursor;
     gr_saved_cursor := blank_cursor |}.
Definition blank_term (sz : Size) : Term :=
  {| tm_mode := 1; tm_grid := blank_grid sz; tm_inactive := blank_grid sz; tm_tab_stops := [];
     tm_region := (0, sz_rows sz); tm_shape := ShBlock; tm_blinking := false;
     tm_colors := fun _ => None |}.
#[export] Instance screen_emulator : Emulator Screen := {
  em_new _ sz := {| sc_size := sz; sc_seen := []; sc_syncing := false; sc_held := [] |};
  em_advance s b :=
    if bool_decide (b = begin_sync) then
      ({| sc_size := sc_size s; sc_seen := sc_seen s; sc_syncing := true; sc_held := sc_held s |}, [])
    else if sc_syncing s then
      ({| sc_size := sc_size s; sc_seen := sc_seen s; sc_syncing := true; sc_held := sc_held s ++ b |}, [])
    else
      ({| sc_size := sc_size s; sc_seen := sc_seen s ++ b; sc_syncing := false; sc_held := [] |},
       if bool_decide (b = [27; 91; 99]) then [EvWakeup; EvPtyWrite [27; 91; 63; 54; 99]] else []);
  em_sync_bytes s := zlen (sc_held s);
  em_stop_sync s :=
    ({| sc_size := sc_size s; sc_seen := sc_seen s ++ sc_held s; sc_syncing := false;
        sc_held := [] |}, []);
  em_resize s sz :=
    {| sc_size := sz; sc_seen := sc_seen s; sc_syncing := sc_syncing s; sc_held := sc_held s |};
  em_term s := blank_term (sc_size s)
}.
Lemma blank_term_ok sz : valid_size sz -> term_ok (blank_term sz).
Proof.
  intros [Hc Hr]. unfold MAX_COLS, MAX_ROWS in *.
  assert (cell_ok blank) as Hb by (repeat split; cbn; try done; unfold char_ok; lia).
  assert (grid_ok (blank_grid sz)) as Hg.
  { unfold grid_ok. cbn. unfold zlen. rewrite length_replicate. split_and!; try lia; [|by split..].
    apply Forall_replicate. rewrite length_replicate. split; [lia|]. by apply Forall_replicate. }
  split; [done|]. split; [done|]. split; [constructor|]. cbn. split_and!; try lia. done.
Qed.
#[export] Instance screen_laws : EmulatorLaws Screen.
Proof.
  refine {| em_inv s sz := sc_size s = sz /\ valid_size sz |}.
  - intros s sz [<- Hv]. split; [by apply blank_term_ok|done].
  - done.
  - intros s sz b [<- Hv]. cbn. by repeat case_match.
  - intros s sz [<- Hv]. done.
  - done.
  - intros s. apply zlen_nonneg.
  - done.
  - done.
  - done.
Defined.
(** Output, a query, a synchronized update cut in two, a resize. *)
Definition sample_model_ops : list ModelOp :=
  [MoOutput (OpRead [104; 105; 27; 91; 99]); MoTake;
   MoOutput (OpRead (begin_sync ++ [27; 91])); MoOutput (OpResize 3 2); MoOutput (OpRead [72])].
Definition sample_output : OutputState (Model := TerminalModel Screen) * list Frame * list bytes :=
  model_run 7 1 (model_start 2 1 32768) sample_model_ops.
Lemma terminal_replies_exact_witness :
  let '(o, fs, qs) := model_run 7 1 (model_start 2 1 32768) sample_model_ops in
  let es := (em_items (em_new model_config {| sz_cols := 2; sz_rows := 1 |})
               (model_items fence_default sample_model_ops) : Screen * list Event).2 in
  let waiting := rp_queue (td_replies (os_model o)) in
  zlen waiting <= QUERY_CAP /\ sublist (qs ++ waiting) (omap reply es) /\
  (Forall keeps_writer sample_model_ops -> zlen (omap reply es) <= QUERY_CAP ->
   qs ++ waiting = omap reply es).
Proof.
  destruct (model_run 7 1 _ _) as [[o fs] qs] eqn:E.
  apply (terminal_replies_exact 7 1 2 1 32768 sample_model_ops o fs qs).
  - vm_compute. discriminate.
  - exact E.
Defined.
Example sample_output_runs :
  sample_output.2 = [[27; 91; 63; 54; 99]] /\
  terminal_size (os_model sample_output.1.1) = (3, 2) /\
  sc_seen (td_term (os_model sample_output.1.1)) = [104; 105; 27; 91; 99; 27; 91; 72].
Proof. vm_compute. done. Qed.
