(* ===== verification/TerminalStream.v ===== *)
(** * Streaming a terminal to a client
    ([crates/rc-agent/src/ws.rs], [terminal]): a snapshot, then the session's
    frames under a credit of unacknowledged bytes. *)
From S2P Require Import Prelude Errors Protocol Text Frame Ring Auth SessionInput.

Definition CREDIT : Z := 256 * 1024.
Definition PENDING_LIMIT : Z := 1024 * 1024.

(** [f.payload.len() + frame::HEADER_LEN] *)
Definition wire_cost (f : Frame) : Z := zlen (payload f) + HEADER_LEN.

(** [send_frame(..).await.is_err()]: the frame does not encode, or the socket does not
    take it within five seconds. *)
Definition send_frame_err (ok : bool) (f : Frame) : bool := is_err (frame_encode f) || negb ok.

(** ** The snapshot *)
Section Snapshot.
Context (to_json : SnapshotMeta -> bytes).   (* serde_json *)

Definition snapshot_sequence (meta : SnapshotMeta) : Z :=
  match parse_unsigned u64_max (sm_sequence meta) with Some n => n | None => 0 end.
Definition snapshot_frame (id : Uuid) (meta : SnapshotMeta) (k : Z) (data : bytes) : Frame :=
  {| kind := k; session_id := id; generation := sm_generation meta;
     sequence := snapshot_sequence meta; payload := data |}.

(** Whether the permission check before each chunk succeeds and the socket takes each
    frame. *)
Record SnapshotEnv := { sn_meta : bool; sn_chunks : list (bool * bool); sn_end : bool }.

(** The frames sent, and whether the loop got to its end. *)
Fixpoint send_chunks (id : Uuid) (meta : SnapshotMeta) (envs : list (bool * bool))
    (cs : list bytes) {struct cs} : list Frame * bool :=
  match cs with
  | [] => ([], true)
  | c :: rest =>
    match envs with
    | (permitted, ok) :: more =>
      let f := snapshot_frame id meta SNAPSHOT_CHUNK c in
      if negb permitted || send_frame_err ok f then ([], false) else
      let '(fs, complete) := send_chunks id meta more rest in (f :: fs, complete)
    | [] => ([], false)
    end
  end.
Definition send_snapshot (id : Uuid) (meta : SnapshotMeta) (snapshot : bytes)
    (env : SnapshotEnv) : list Frame * bool :=
  let first := snapshot_frame id meta SNAPSHOT_META (to_json meta) in
  if send_frame_err (sn_meta env) first then ([], false) else
  let '(middle, complete) :=
    send_chunks id meta (sn_chunks env) (chunks (Z.to_nat MAX_PAYLOAD) snapshot) in
  let last := snapshot_frame id meta SNAPSHOT_END [] in
  if negb complete || send_frame_err (sn_end env) last then (first :: middle, false)
  else (first :: middle ++ [last], true).
End Snapshot.

(** ** The stream *)
Record TermState := {
  t_p : Principal;
  t_applied : Z;
  t_sent : Z;
  t_inflight : list (Z * Z);
  t_unacked : Z;
  t_pending : list Frame;
  t_deadline : Z
}.

Definition term_start (p : Principal) (sequence now : Z) : TermState :=
  {| t_p := p; t_applied := sequence; t_sent := sequence; t_inflight := []; t_unacked := 0;
     t_pending := []; t_deadline := now + secs 20 |}.

(** A message of the client: text that parses, or anything else.  A refresh
    carries what [consume_ws] answered. *)
Inductive TermMessage : Type :=
| TmRefresh (answer : option (Principal * option Uuid))
| TmApplied (seq : option Z)
| TmPing
| TmOther.

(** The branches of [select!]. *)
Inductive TermEvent : Type :=
| TeStop                        (* revoked, shut down or expired *)
| TeDeadline                    (* only while bytes are unacknowledged *)
| TeMessage (m : TermMessage)
| TeFrame (f : Frame)           (* only under the credit *)
| TeLagged
| TeClosed.

(** What one round of the loop observes. *)
Record TermEnv := {
  te_cancelled : gset Token;
  te_shutdown : bool;
  te_now : Z;
  te_ring : EventRing;         (* at the refill *)
  te_send_ok : bool;
  te_event : TermEvent;
  te_ring2 : EventRing         (* when the event is handled *)
}.

Definition term_enabled (st : TermState) (ev : TermEvent) : bool :=
  match ev with
  | TeDeadline => 0 <? t_unacked st
  | TeFrame _ | TeLagged | TeClosed => t_unacked st <? CREDIT
  | _ => true
  end.

Definition set_pending (l : list Frame) (st : TermState) : TermState :=
  {| t_p := t_p st; t_applied := t_applied st; t_sent := t_sent st; t_inflight := t_inflight st;
     t_unacked := t_unacked st; t_pending := l; t_deadline := t_deadline st |}.

(** [match session.ring_after(sent) { Ok(v) => pending.extend(v), Err(_) => break }] *)
Definition term_extend (ring : EventRing) (st : TermState) : option TermState :=
  match ring_after ring (t_sent st) with
  | Ok v => Some (set_pending (t_pending st ++ v) st)
  | Err _ => None
  end.

(** The [while inflight.front()...] loop: what is left, the credit, [advanced]. *)
Fixpoint pop_acked (seq : Z) (inflight : list (Z * Z)) (unacked : Z)
  : list (Z * Z) * Z * bool :=
  match inflight with
  | (s, n) :: rest =>
    if s <=? seq then
      let '(l, u, _) := pop_acked seq rest (unacked - n) in (l, u, true)
    else (inflight, unacked, false)
  | [] => ([], unacked, false)
  end.

Definition term_message (id : Uuid) (now : Z) (m : TermMessage) (st : TermState)
  : option TermState :=
  match m with
  | TmRefresh (Some (next, Some resource)) =>
    if (p_client_id next =? p_client_id (t_p st)) && (resource =? id) then
      Some {| t_p := next; t_applied := t_applied st; t_sent := t_sent st;
              t_inflight := t_inflight st; t_unacked := t_unacked st;
              t_pending := t_pending st; t_deadline := t_deadline st |}
    else None
  | TmRefresh _ => None
  | TmApplied None => None
  | TmApplied (Some seq) =>
    if (seq <? t_applied st) || (t_sent st <? seq) then None else
    let '(inflight, unacked, advanced) := pop_acked seq (t_inflight st) (t_unacked st) in
    Some {| t_p := t_p st; t_applied := seq; t_sent := t_sent st; t_inflight := inflight;
            t_unacked := unacked; t_pending := t_pending st;
            t_deadline := if advanced then now + secs 20 else t_deadline st |}
  | TmPing => Some st
  | TmOther => None
  end.

Definition term_event (id : Uuid) (env : TermEnv) (st : TermState) : option TermState :=
  match te_event env with
  | TeStop | TeDeadline | TeClosed => None
  | TeMessage m => term_message id (te_now env) m st
  | TeFrame f =>
    if t_sent st <? sequence f then
      if sequence f =? wrap64 (t_sent st + 1) then Some (set_pending (t_pending st ++ [f]) st)
      else term_extend (te_ring2 env) st
    else Some st
  | TeLagged => term_extend (te_ring2 env) st
  end.

(** One round: [None] ends the connection; the frame is the one sent, if any. *)
Definition term_round (id : Uuid) (env : TermEnv) (st : TermState)
  : option TermState * option Frame :=
  if is_err (principal_require (te_cancelled env) (t_p st) TerminalRead (te_now env)) ||
     te_shutdown env
  then (None, None) else
  if (0 <? t_unacked st) && (t_deadline st <=? te_now env) then (None, None) else
  match (if bool_decide (t_pending st = []) then term_extend (te_ring env) st else Some st) with
  | None => (None, None)
  | Some st =>
    let select :=
      match term_event id env st with
      | None => (None, None)
      | Some st' =>
        if PENDING_LIMIT <? zsum wire_cost (t_pending st') then (None, None) else (Some st', None)
      end in
    if t_unacked st <? CREDIT then
      match t_pending st with
      | f :: rest =>
        if negb (sequence f =? wrap64 (t_sent st + 1)) then (None, None) else
        if send_frame_err (te_send_ok env) f then (None, None) else
        (Some {| t_p := t_p st; t_applied := t_applied st; t_sent := sequence f;
                 t_inflight := t_inflight st ++ [(sequence f, wire_cost f)];
                 t_unacked := t_unacked st + wire_cost f; t_pending := rest;
                 t_deadline := if t_unacked st =? 0 then te_now env + secs 20
                               else t_deadline st |}, Some f)
      | [] => select
      end
    else select
  end.

(** The rounds of a connection: the state at the end, [None] when it was closed,
    and the frames sent. *)
Fixpoint term_run (id : Uuid) (envs : list TermEnv) (st : TermState)
  : option TermState * list Frame :=
  match envs with
  | [] => (Some st, [])
  | env :: rest =>
    let '(st', f) := term_round id env st in
    let sent := match f with Some f => [f] | None => [] end in
    match st' with
    | None => (None, sent)
    | Some st' => let '(st'', fs) := term_run id rest st' in (st'', sent ++ fs)
    end
  end.

(** The whole connection, once the snapshot is taken: its frames, then the stream.  The
    state is the one at the end, [None] when it was closed. *)
Definition terminal (to_json : SnapshotMeta -> bytes) (id : Uuid) (p : Principal)
    (meta : SnapshotMeta) (snapshot : bytes) (env : SnapshotEnv) (now : Z)
    (rounds : list TermEnv) : option TermState * list Frame :=
  let '(fs, complete) := send_snapshot to_json id meta snapshot env in
  if negb complete then (None, fs) else
  let '(st, gs) := term_run id rounds (term_start p (snapshot_sequence meta) now) in
  (st, fs ++ gs).

(** ** Credit *)
Record term_inv (st : TermState) : Prop := {
  tv_range : 0 <= t_applied st <= t_sent st;
  tv_seqs : map fst (t_inflight st) = seqZ (t_applied st + 1) (t_sent st - t_applied st);
  tv_unacked : t_unacked st = zsum snd (t_inflight st);
  tv_sizes : Forall (fun x => 0 < x.2 <= MAX_PAYLOAD + HEADER_LEN) (t_inflight st);
  tv_credit : t_unacked st < CREDIT + (MAX_PAYLOAD + HEADER_LEN)
}.

Lemma term_start_inv p seq now : 0 <= seq -> term_inv (term_start p seq now).
Proof.
  intros. split; cbn; try done; try lia. by rewrite Z.sub_diag.
Qed.

Lemma pop_acked_spec seq inflight unacked a m :
  map fst inflight = seqZ a m -> 0 <= m -> a - 1 <= seq <= a + m - 1 ->
  unacked = zsum snd inflight ->
  let '(l, u, _) := pop_acked seq inflight unacked in
  map fst l = seqZ (seq + 1) (a + m - 1 - seq) /\ u = zsum snd l /\ l `suffix_of` inflight.
Proof.
  revert unacked a m. induction inflight as [|[s n] rest IH]; intros unacked a m Hs Hm Hseq Hu.
  - cbn. assert (m <= 0) as Hm0.
    { destruct (decide (m <= 0)); [done|]. rewrite seqZ_cons in Hs by lia. done. }
    rewrite seqZ_nil by lia. done.
  - destruct (decide (m <= 0)) as [?|Hpos]; [by rewrite seqZ_nil in Hs by lia|].
    rewrite seqZ_cons in Hs by lia. cbn in Hs. injection Hs as -> Hs.
    cbn [pop_acked]. rewrite zsum_cons in Hu. cbn [snd] in Hu. destruct (a <=? seq) eqn:E; bools.
    + specialize (IH (unacked - n) (Z.succ a) (Z.pred m) Hs ltac:(lia) ltac:(lia) ltac:(lia)).
      destruct (pop_acked seq rest (unacked - n)) as [[l u] adv].
      destruct IH as (Hl & Hu' & Hsuf). split; [rewrite Hl; f_equal; lia|].
      split; [done|]. by apply suffix_cons_r.
    + assert (seq = a - 1) as -> by lia. split; [|split; [rewrite zsum_cons; done|done]].
      replace (a - 1 + 1) with a by lia. replace (a + m - 1 - (a - 1)) with m by lia.
      rewrite seqZ_cons by lia. cbn. by rewrite Hs.
Qed.

Lemma zsum_suffix (l k : list (Z * Z)) :
  l `suffix_of` k -> Forall (fun x => 0 < x.2) k -> zsum snd l <= zsum snd k.
Proof.
  intros [p ->] [Hp _]%Forall_app. rewrite zsum_app.
  assert (0 <= zsum snd p); [|lia]. apply zsum_nonneg. intros x Hx.
  rewrite Forall_forall in Hp. specialize (Hp x Hx). lia.
Qed.

Lemma term_message_inv id now m st st' :
  term_inv st -> term_message id now m st = Some st' ->
  term_inv st' /\ t_sent st' = t_sent st /\ t_pending st' = t_pending st /\
  t_applied st <= t_applied st'.
Proof.
  intros [Hr Hs Hu Hsz Hc]. unfold term_message.
  destruct m as [[[next [resource|]]|]|[seq|]| |]; try done.
  - case_match; [|done]. intros [= <-]. split; [by split|]. split; [done|]. split; [done|cbn; lia].
  - destruct (_ || _) eqn:E; [done|]. bools.
    pose proof (pop_acked_spec seq (t_inflight st) (t_unacked st) _ _ Hs ltac:(lia) ltac:(lia) Hu) as Hp.
    destruct (pop_acked _ _ _) as [[l u] adv]. destruct Hp as (Hl & Hul & Hsuf).
    intros [= <-]. split; [|split; [done|split; [done|cbn; lia]]].
    assert (Forall (fun x : Z * Z => 0 < x.2) (t_inflight st)) as Hpos
      by (eapply Forall_impl; [exact Hsz|]; cbn; lia).
    pose proof (zsum_suffix _ _ Hsuf Hpos).
    destruct Hsuf as [k Hk].
    split; cbn; try exact Hul; try lia.
    + rewrite Hl. f_equal. lia.
    + rewrite Hk in Hsz. by apply Forall_app in Hsz as [_ ?].
  - intros [= <-]. split; [by split|]. split; [done|]. split; [done|lia].
Qed.

Lemma term_pending_inv l st : term_inv st -> term_inv (set_pending l st).
Proof. intros [? ? ? ? ?]. by split. Qed.

Lemma term_event_inv id env st st' :
  term_inv st -> term_event id env st = Some st' ->
  term_inv st' /\ t_sent st' = t_sent st /\ t_applied st <= t_applied st'.
Proof.
  intros Hinv. unfold term_event, term_extend. destruct (te_event env) as [| |m|f| |]; try done.
  - intros Hm. destruct (term_message_inv _ _ _ _ _ Hinv Hm) as (? & ? & _ & ?). done.
  - repeat case_match; intros [= <-]; (split; [by try apply term_pending_inv|]); (split; [done|cbn; lia]).
  - case_match; intros [= <-]. split; [by apply term_pending_inv|]. split; [done|cbn; lia].
Qed.

Lemma term_round_inv id env st st' f :
  term_inv st -> t_sent st < u64_max -> term_round id env st = (Some st', f) ->
  term_inv st' /\ t_applied st <= t_applied st' /\
  match f with
  | Some f => t_sent st' = t_sent st + 1 /\ sequence f = t_sent st' /\
              is_ok (frame_encode f) = true
  | None => t_sent st' = t_sent st
  end.
Proof.
  intros Hinv Hmax. unfold term_round, send_frame_err.
  destruct (is_err _ || te_shutdown env); [done|].
  destruct ((0 <? t_unacked st) && _); [done|].
  set (refill := if bool_decide _ then _ else _).
  destruct refill as [st1|] eqn:Er; [|done].
  assert (term_inv st1 /\ t_sent st1 = t_sent st /\ t_applied st1 = t_applied st) as (Hinv1 & Hs1 & Ha1).
  { subst refill. case_match; [|by simplify_eq]. unfold term_extend in Er.
    case_match; [|done]. simplify_eq. split; [by apply term_pending_inv|done]. }
  assert (forall st2 : TermState,
    (match term_event id env st1 with
     | None => (None, None)
     | Some st' => if PENDING_LIMIT <? zsum wire_cost (t_pending st') then (None, None)
                   else (Some st', None)
     end) = (Some st', f) ->
    term_inv st' /\ t_applied st <= t_applied st' /\
    match f with
    | Some f => t_sent st' = t_sent st + 1 /\ sequence f = t_sent st' /\
                is_ok (frame_encode f) = true
    | None => t_sent st' = t_sent st
    end) as Hsel.
  { intros _. destruct (term_event id env st1) as [st2|] eqn:Ee; [|done].
    case_match; [done|]. intros [= <- <-].
    destruct (term_event_inv _ _ _ _ Hinv1 Ee) as (? & ? & ?). split; [done|]. lia. }
  destruct (t_unacked st1 <? CREDIT) eqn:Ec; [|by apply (Hsel st1)].
  destruct (t_pending st1) as [|g rest] eqn:Ep; [by apply (Hsel st1)|].
  destruct (negb (sequence g =? _)) eqn:Eq; [done|].
  destruct (is_err (frame_encode g) || _) eqn:Ef; [done|]. bools.
  intros [= <- <-]. destruct Hinv1 as [Hr Hs Hu Hsz Hcr].
  destruct (frame_encode g) as [b|] eqn:Eg; [|done].
  apply frame_encode_Ok in Eg as (Hpl & _ & _). pose proof (zlen_nonneg (payload g)).
  assert (wrap64 (t_sent st1 + 1) = t_sent st1 + 1) as Hw by (apply wrap64_small; lia).
  rewrite Hw in Eq. unfold wire_cost, HEADER_LEN in *.
  split; [|cbn; split; [lia|]; split; [lia|done]].
  split; cbn [t_applied t_sent t_inflight t_unacked]; try lia.
  - rewrite map_app, Hs, Eq. cbn.
    replace (t_sent st1 + 1 - t_applied st1) with ((t_sent st1 - t_applied st1) + 1) by lia.
    rewrite seqZ_app by lia. f_equal. cbn. apply (f_equal (fun x => [x])). lia.
  - rewrite zsum_app, Hu. cbn. lia.
  - apply Forall_app; split; [done|]. constructor; [cbn; unfold HEADER_LEN; lia|done].
  - unfold CREDIT, MAX_PAYLOAD, HEADER_LEN in *. lia.
Qed.

(** Flow control.  In every reachable state of a connection the bytes in
    flight are exactly those of the frames sent and not yet acknowledged
    ([applied + 1 .. sent]); their total never reaches the credit plus one frame,
    so a stalled client stops the stream; acknowledgements only move forward and
    never past what was sent, and the credit never underflows whatever the
    client claims. *)
Theorem term_credit_bounded id envs p seq now st fs :
  0 <= seq -> seq + zlen envs < u64_max ->
  term_run id envs (term_start p seq now) = (Some st, fs) ->
  seq <= t_applied st <= t_sent st /\ t_sent st = seq + zlen fs /\
  map fst (t_inflight st) = seqZ (t_applied st + 1) (t_sent st - t_applied st) /\
  t_unacked st = zsum snd (t_inflight st) /\
  0 <= t_unacked st < CREDIT + (MAX_PAYLOAD + HEADER_LEN).
Proof.
  intros Hseq Hmax Hrun.
  assert (forall envs st0 st fs, term_inv st0 -> t_sent st0 + zlen envs < u64_max ->
    term_run id envs st0 = (Some st, fs) ->
    term_inv st /\ t_applied st0 <= t_applied st /\ t_sent st = t_sent st0 + zlen fs) as H.
  { clear. induction envs as [|env envs IH]; intros st0 st fs Hinv Hm.
    - intros [= <- <-]. rewrite zlen_nil. split; [done|]. lia.
    - cbn [term_run]. rewrite zlen_cons in Hm. pose proof (zlen_nonneg envs).
      destruct (term_round id env st0) as [[st1|] f] eqn:Er; [|done].
      destruct (term_round_inv _ _ _ _ _ Hinv ltac:(lia) Er) as (Hinv1 & Ha1 & Hf).
      destruct (term_run id envs st1) as [st2 fs2] eqn:E2. intros [= -> <-].
      assert (t_sent st1 + zlen envs < u64_max) as Hm1 by (destruct f; lia).
      destruct (IH _ _ _ Hinv1 Hm1 E2) as (Hinv2 & Ha2 & Hs2).
      split; [done|]. split; [lia|]. rewrite zlen_app. destruct f; cbn; unfold zlen in *; cbn; lia. }
  destruct (H _ _ _ _ (term_start_inv p seq now Hseq) Hmax Hrun) as ([Hr Hs Hu Hsz Hc] & Ha & Hse).
  cbn in Ha, Hse. split; [lia|]. split; [done|]. split; [done|]. split; [done|].
  split; [|done]. rewrite Hu. apply zsum_nonneg. intros x Hx.
  rewrite Forall_forall in Hsz. specialize (Hsz x Hx). lia.
Qed.

(** ** What the client receives *)

(** What the environment shows a connection comes from the session's history. *)
Definition env_from (H : list Frame) (env : TermEnv) : Prop :=
  (forall f, f ∈ ring_events (te_ring env) -> f ∈ H) /\
  (forall f, f ∈ ring_events (te_ring2 env) -> f ∈ H) /\
  match te_event env with TeFrame f => f ∈ H | _ => True end.

Lemma ring_after_elem r seq v f : ring_after r seq = Ok v -> f ∈ v -> f ∈ ring_events r.
Proof.
  unfold ring_after. case_match; [done|]. intros [= <-] [_ ?]%list_elem_of_filter. done.
Qed.

Lemma term_round_pending id env st st' f H :
  env_from H env -> (forall g, g ∈ t_pending st -> g ∈ H) ->
  term_round id env st = (st', f) ->
  (forall s, st' = Some s -> forall g, g ∈ t_pending s -> g ∈ H) /\
  (forall g, f = Some g -> g ∈ H).
Proof.
  intros (H1 & H2 & H3) Hp. unfold term_round.
  destruct (is_err _ || te_shutdown env); [intros [= <- <-]; done|].
  destruct ((0 <? t_unacked st) && _); [intros [= <- <-]; done|].
  destruct (if bool_decide _ then _ else _) as [st1|] eqn:Er; [|intros [= <- <-]; done].
  assert (forall g, g ∈ t_pending st1 -> g ∈ H) as Hp1.
  { case_match; [|by simplify_eq]. unfold term_extend in Er.
    destruct (ring_after _ _) eqn:Ea; [|done]. simplify_eq. cbn.
    intros g [Hg|Hg]%elem_of_app; [by apply Hp|]. apply H1. by eapply ring_after_elem. }
  assert (forall st2, term_event id env st1 = Some st2 ->
    forall g, g ∈ t_pending st2 -> g ∈ H) as Hev.
  { unfold term_event, term_extend. destruct (te_event env) as [| |m|g0| |]; try done.
    - unfold term_message. repeat case_match; intros st2 [= <-]; done.
    - intros st2. clear Er Hp. intros E2. case_all; intros g Hg; try (by apply Hp1);
        cbn in Hg; apply elem_of_app in Hg as [Hg|Hg]; try (by apply Hp1);
        first [ by apply list_elem_of_singleton in Hg as -> | apply H2; by eapply ring_after_elem ].
    - intros st2. destruct (ring_after (te_ring2 env) _) eqn:Ea; intros [= <-]; cbn.
      intros g [Hg|Hg]%elem_of_app; [by apply Hp1|]. apply H2. by eapply ring_after_elem. }
  assert (forall st' f, (match term_event id env st1 with
     | None => (None, None)
     | Some st' => if PENDING_LIMIT <? zsum wire_cost (t_pending st') then (None, None)
                   else (Some st', None)
     end) = (st', f) ->
    (forall s, st' = Some s -> forall g, g ∈ t_pending s -> g ∈ H) /\
    (forall g, f = Some g -> g ∈ H)) as Hsel.
  { intros st2 f2. destruct (term_event id env st1) as [st3|]; [|intros [= <- <-]; done].
    destruct (PENDING_LIMIT <? _); intros [= <- <-]; [by split|]. split; [|done]. intros s [= <-]. by apply Hev. }
  destruct (t_unacked st1 <? CREDIT); [|apply Hsel].
  destruct (t_pending st1) as [|g rest]; [apply Hsel|].
  destruct (negb _); [intros [= <- <-]; done|]. destruct (send_frame_err _ _); [intros [= <- <-]; done|].
  intros [= <- <-]. split.
  - intros s [= <-]. cbn. intros g' Hg'. apply Hp1. by right.
  - intros g' [= <-]. apply Hp1. by left.
Qed.

Lemma contiguous_lookup start l f :
  contiguous start l -> f ∈ l -> l !! Z.to_nat (sequence f - start - 1) = Some f.
Proof.
  revert start. induction l as [|g l IH]; intros start; [by intros _ ?%elem_of_nil|].
  intros [Hg Hl] [->|Hf]%elem_of_cons.
  - by replace (sequence g - start - 1) with 0 by lia.
  - pose proof (contiguous_bounds _ _ _ Hl Hf). specialize (IH _ Hl Hf).
    replace (Z.to_nat (sequence f - start - 1)) with (S (Z.to_nat (sequence f - (start + 1) - 1)))
      by lia. done.
Qed.

(** A client sees the session's stream and nothing else.  If the ring and
    the broadcast channel only ever show frames of the session's history [H]
    (numbered from 1), then the frames sent after a snapshot at sequence [seq]
    are exactly the next frames of [H] after [seq], in order, without gap or
    repetition, as far as the connection got. *)
Theorem term_stream_exact id envs p seq now H st fs :
  contiguous 0 H -> 0 <= seq -> seq + zlen envs < u64_max ->
  Forall (env_from H) envs ->
  term_run id envs (term_start p seq now) = (st, fs) ->
  fs = take (length fs) (drop (Z.to_nat seq) H).
Proof.
  intros Hc Hseq Hmax Henv Hrun.
  assert (forall envs st0 st fs, Forall (env_from H) envs -> term_inv st0 ->
    t_sent st0 + zlen envs < u64_max -> (forall g, g ∈ t_pending st0 -> g ∈ H) ->
    term_run id envs st0 = (st, fs) ->
    fs = take (length fs) (drop (Z.to_nat (t_sent st0)) H)) as Hgen.
  { clear - Hc. induction envs as [|env envs IH]; intros st0 st fs Henv Hinv Hm Hp.
    - intros [= <- <-]. done.
    - apply Forall_cons_iff in Henv as [He Henv]. rewrite zlen_cons in Hm.
      pose proof (zlen_nonneg envs). cbn [term_run].
      destruct (term_round id env st0) as [st1 f] eqn:Er.
      destruct (term_round_pending _ _ _ _ _ _ He Hp Er) as [Hp1 Hf].
      assert (forall g, f = Some g -> H !! Z.to_nat (t_sent st0) = Some g \/ st1 = None) as Hsent.
      { intros g ->. specialize (Hf g eq_refl). destruct st1 as [s1|]; [left|by right].
        destruct (term_round_inv _ _ _ _ _ Hinv ltac:(lia) Er) as (_ & _ & Hs & Hg & _).
        pose proof (contiguous_lookup _ _ _ Hc Hf) as Hl.
        replace (sequence g - 0 - 1) with (t_sent st0) in Hl by lia. done. }
      destruct st1 as [s1|].
      + destruct (term_round_inv _ _ _ _ _ Hinv ltac:(lia) Er) as (Hinv1 & _ & Hs).
        destruct (term_run id envs s1) as [st2 fs2] eqn:E2. intros [= -> <-].
        assert (fs2 = take (length fs2) (drop (Z.to_nat (t_sent s1)) H)) as Hfs2.
        { eapply IH; [exact Henv|exact Hinv1|destruct f; lia|by apply Hp1|exact E2]. }
        destruct f as [g|]; cbn [app length]; [|by rewrite Hs in Hfs2].
        destruct (Hsent g eq_refl) as [Hg|?]; [|done].
        rewrite (drop_S _ _ _ Hg). cbn [take]. f_equal.
        destruct Hs as (Hs & _). rewrite Hs in Hfs2.
        by replace (Z.to_nat (t_sent st0 + 1)) with (S (Z.to_nat (t_sent st0))) in Hfs2
          by (destruct Hinv as [[? ?] _ _ _ _]; lia).
      + intros [= <- <-]. unfold term_round in Er. repeat case_match; simplify_eq; done. }
  exact (Hgen envs _ _ _ Henv (term_start_inv p seq now Hseq) Hmax
    ltac:(cbn; intros g Hg; by apply elem_of_nil in Hg) Hrun).
Qed.

(** ** The whole connection *)

(** The frames of a complete snapshot. *)
Definition snapshot_frames (to_json : SnapshotMeta -> bytes) (id : Uuid) (meta : SnapshotMeta)
    (snapshot : bytes) : list Frame :=
  snapshot_frame id meta SNAPSHOT_META (to_json meta) ::
  map (snapshot_frame id meta SNAPSHOT_CHUNK) (chunks (Z.to_nat MAX_PAYLOAD) snapshot) ++
  [snapshot_frame id meta SNAPSHOT_END []].
Definition chunk_frames (fs : list Frame) : list Frame :=
  List.filter (fun f => kind f =? SNAPSHOT_CHUNK) fs.
Definition encodes (f : Frame) : Prop := is_ok (frame_encode f) = true.

Lemma send_frame_encodes ok f : send_frame_err ok f = false -> encodes f.
Proof. unfold send_frame_err, encodes. by destruct (frame_encode f). Qed.

Lemma send_chunks_spec id meta envs cs fs complete :
  send_chunks id meta envs cs = (fs, complete) ->
  let whole := map (snapshot_frame id meta SNAPSHOT_CHUNK) cs in
  fs `prefix_of` whole /\ (complete = true -> fs = whole) /\ Forall encodes fs /\
  Forall (fun e => e.1 = true) (take (length fs) envs).
Proof.
  revert envs fs complete. induction cs as [|c cs IH]; intros envs fs complete; cbn [send_chunks map].
  { intros [= <- <-]. by repeat split. }
  assert ([] `prefix_of` snapshot_frame id meta SNAPSHOT_CHUNK c ::
            map (snapshot_frame id meta SNAPSHOT_CHUNK) cs) as Hnil by apply prefix_nil.
  destruct envs as [|[permitted ok] more]; [intros [= <- <-]; by repeat split|].
  destruct (negb permitted || _) eqn:E; [intros [= <- <-]; by repeat split|].
  apply orb_false_iff in E as [Ep Es]. destruct permitted; [|done].
  destruct (send_chunks id meta more cs) as [gs done] eqn:Eg. intros [= <- <-].
  destruct (IH _ _ _ Eg) as (Hp & Hd & He & Hperm). split; [by apply prefix_cons|].
  split; [by intros Hc; rewrite (Hd Hc)|].
  split; [constructor; [by eapply send_frame_encodes|done]|]. by constructor.
Qed.

Lemma send_snapshot_spec to_json id meta snapshot env fs complete :
  send_snapshot to_json id meta snapshot env = (fs, complete) ->
  fs `prefix_of` snapshot_frames to_json id meta snapshot /\
  (complete = true -> fs = snapshot_frames to_json id meta snapshot) /\ Forall encodes fs /\
  Forall (fun e => e.1 = true) (take (length (chunk_frames fs)) (sn_chunks env)).
Proof.
  unfold send_snapshot, snapshot_frames. destruct (send_frame_err (sn_meta env) _) eqn:Em.
  { intros [= <- <-]. split; [apply prefix_nil|]. by repeat split. }
  destruct (send_chunks _ _ _ _) as [middle complete'] eqn:Ec.
  destruct (send_chunks_spec _ _ _ _ _ _ Ec) as (Hp & Hd & He & Hperm).
  apply send_frame_encodes in Em.
  assert (chunk_frames middle = middle) as Hmid.
  { destruct Hp as [k Hk]. clear - Hk. revert Hk.
    generalize (chunks (Z.to_nat MAX_PAYLOAD) snapshot) as cs.
    induction middle as [|g m IH]; [done|]. intros [|c cs]; [done|]. cbn [map app].
    intros [= <- Hk]. cbn. f_equal. by apply (IH cs). }
  destruct (negb complete' || _) eqn:El; intros [= <- <-].
  - split; [apply prefix_cons; by apply prefix_app_r|]. split; [done|].
    split; [by constructor|]. change (chunk_frames (?f :: middle)) with (chunk_frames middle).
    by rewrite Hmid.
  - apply orb_false_iff in El as [Ek El]. apply negb_false_iff in Ek. rewrite (Hd Ek) in *.
    split; [done|]. split; [done|]. split.
    + constructor; [done|]. apply Forall_app. split; [done|]. constructor; [|done].
      by eapply send_frame_encodes.
    + unfold chunk_frames in *. cbn [List.filter]. cbn [kind snapshot_frame].
      change (SNAPSHOT_META =? SNAPSHOT_CHUNK) with false. cbn iota.
      rewrite List.filter_app. cbn [List.filter kind snapshot_frame].
      change (SNAPSHOT_END =? SNAPSHOT_CHUNK) with false. cbn iota. by rewrite app_nil_r, Hmid.
Qed.

Lemma term_run_encodes id envs st st' fs : term_run id envs st = (st', fs) -> Forall encodes fs.
Proof.
  assert (forall env st st' g, term_round id env st = (st', Some g) -> encodes g) as Hround.
  { intros env s s' g. unfold term_round. intros H.
    repeat case_match; simplify_eq; by eapply send_frame_encodes. }
  revert st st' fs. induction envs as [|env envs IH]; intros st st' fs; cbn [term_run].
  { by intros [= <- <-]. }
  destruct (term_round id env st) as [s1 [g|]] eqn:Er.
  - apply Hround in Er. destruct s1 as [s1|]; [|intros [= <- <-]; by constructor].
    destruct (term_run id envs s1) as [s2 gs] eqn:E2. intros [= <- <-].
    constructor; [done|]. by eapply IH.
  - destruct s1 as [s1|]; [|by intros [= <- <-]].
    destruct (term_run id envs s1) as [s2 gs] eqn:E2. intros [= <- <-]. by eapply IH.
Qed.

(** C20: what a terminal connection sends is the session, exactly.  Whatever fails and
    wherever it ends, the frames on the wire are a first part of the snapshot's frames,
    or all of them followed by the next frames of the session's history [H] after the
    snapshot's sequence number, in order, without gap or repetition; the chunks of the
    complete snapshot concatenate to it, each is sent only after its own permission
    check, and every frame is one that the wire format admits.  The ring and the
    broadcast channel show frames of [H], which are numbered from 1. *)
Theorem terminal_connection_exact to_json id p meta snapshot env now rounds seq H st fs :
  contiguous 0 H -> sm_sequence meta = dec seq -> 0 <= seq ->
  seq + zlen rounds < u64_max -> Forall (env_from H) rounds ->
  terminal to_json id p meta snapshot env now rounds = (st, fs) ->
  let whole := snapshot_frames to_json id meta snapshot in
  (fs `prefix_of` whole \/ exists k, fs = whole ++ take k (drop (Z.to_nat seq) H)) /\
  concat (map payload (chunk_frames whole)) = snapshot /\
  Forall encodes fs /\
  exists sent, sent `prefix_of` fs /\ sent `prefix_of` whole /\
    (fs = sent \/ sent = whole) /\
    Forall (fun e => e.1 = true) (take (length (chunk_frames sent)) (sn_chunks env)).
Proof.
  intros Hc Hseq H0 Hmax Henv Hrun whole.
  assert (concat (map payload (chunk_frames whole)) = snapshot) as Hwhole.
  { transitivity (concat (chunks (Z.to_nat MAX_PAYLOAD) snapshot));
      [|apply chunks_fuel_concat; [unfold MAX_PAYLOAD; lia|done]].
    subst whole. unfold snapshot_frames, chunk_frames. cbn [List.filter].
    change (kind (snapshot_frame id meta SNAPSHOT_META (to_json meta)) =? SNAPSHOT_CHUNK) with false.
    cbn iota. rewrite List.filter_app, List.map_app.
    generalize (chunks (Z.to_nat MAX_PAYLOAD) snapshot) as cs.
    induction cs as [|c cs IH]; [done|]. cbn. by f_equal. }
  unfold terminal in Hrun.
  destruct (send_snapshot to_json id meta snapshot env) as [sent complete] eqn:Es.
  destruct (send_snapshot_spec _ _ _ _ _ _ _ Es) as (Hp & Hd & He & Hperm). fold whole in Hp, Hd.
  destruct complete; cbn [negb] in Hrun.
  - destruct (term_run _ _ _) as [st' gs] eqn:Er. injection Hrun as <- <-.
    pose proof (term_run_encodes _ _ _ _ _ Er) as Heg.
    assert (snapshot_sequence meta = seq) as Hsq.
    { unfold snapshot_sequence. rewrite Hseq, parse_dec; [done|].
      pose proof (zlen_nonneg rounds). lia. }
    rewrite Hsq in Er.
    apply term_stream_exact with (H := H) in Er; [|done..]. rewrite (Hd eq_refl) in *.
    split; [right; exists (length gs); by f_equal|]. split; [done|].
    split; [by apply Forall_app|]. exists whole. split; [by apply prefix_app_r|].
    split; [done|]. split; [by right|done].
  - injection Hrun as <- <-. split; [by left|]. split; [done|]. split; [done|].
    exists sent. split; [done|]. split; [done|]. split; [by left|done].
Qed.

(** ** A concrete connection *)
Definition demo_ring : EventRing := ring_pushes 65536 two_frames.
Definition demo_env (ev : TermEvent) : TermEnv :=
  {| te_cancelled := ∅; te_shutdown := false; te_now := 1; te_ring := demo_ring;
     te_send_ok := true; te_event := ev; te_ring2 := demo_ring |}.
Definition demo_envs : list TermEnv :=
  [demo_env TeLagged; demo_env TeLagged; demo_env (TeMessage (TmApplied (Some 1)))].
Lemma term_credit_bounded_witness :
  exists st, term_run 1 demo_envs (term_start sample_principal 0 0) = (Some st, two_frames) /\
  0 <= t_applied st <= t_sent st /\ t_sent st = 0 + zlen two_frames /\
  map fst (t_inflight st) = seqZ (t_applied st + 1) (t_sent st - t_applied st) /\
  t_unacked st = zsum snd (t_inflight st) /\
  0 <= t_unacked st < CREDIT + (MAX_PAYLOAD + HEADER_LEN).
Proof.
  eexists. split; [by vm_compute|].
  eapply (term_credit_bounded 1 demo_envs sample_principal 0 0);
    [lia | by vm_compute | by vm_compute].
Defined.
Definition demo_meta : SnapshotMeta := {|
  sm_cols := 80; sm_rows := 24; sm_sequence := dec 0; sm_generation := 1; sm_agent_epoch := 1;
  sm_fidelity := "experimental_vt_snapshot"; sm_warnings := []; sm_bytes := 2 |}.
Lemma terminal_connection_exact_witness :
  let fs := (terminal (fun _ => [123; 125]) 1 sample_principal demo_meta [104; 105]
    {| sn_meta := true; sn_chunks := [(true, true)]; sn_end := true |} 0 demo_envs).2 in
  let whole := snapshot_frames (fun _ => [123; 125]) 1 demo_meta [104; 105] in
  fs = whole ++ two_frames /\
  (fs `prefix_of` whole \/ exists k, fs = whole ++ take k (drop (Z.to_nat 0) two_frames)).
Proof.
  intros fs whole. split; [by vm_compute|].
  assert (forall f, f ∈ ring_events demo_ring -> f ∈ two_frames) as Hr
    by (vm_compute; auto).
  eapply (terminal_connection_exact (fun _ => [123; 125]) 1 sample_principal demo_meta [104; 105]
    {| sn_meta := true; sn_chunks := [(true, true)]; sn_end := true |} 0 demo_envs 0 two_frames
    _ fs); [by repeat split|done|lia|by vm_compute| |apply surjective_pairing].
  unfold demo_envs. rewrite !Forall_cons. unfold env_from. cbn [te_ring te_ring2 te_event demo_env].
  repeat split; try exact Hr. constructor.
Defined.
