(* ===== verification/Float.v ===== *)
(** * Double-precision numbers
    [f64] of the source as the Standard Library's executable model of IEEE
    binary64, with the conversions of [as] and a bound calculus: a rounded product
    or quotient of numbers below an integer stays below that integer. *)
From Stdlib Require Import SpecFloat.
From S2P Require Import Prelude.

Abbreviation f64 := spec_float (only parsing).
Definition prec64 : Z := 53.
Definition emax64 : Z := 1024.
(** The representations a machine double can have. *)
Definition valid64 (x : f64) : Prop := valid_binary prec64 emax64 x = true.

(** [f64::from(n)] and [n as f64] for integers. *)
Definition f64_of_Z (n : Z) : f64 := binary_normalize prec64 emax64 n 0 false.
Definition f64_zero : f64 := S754_zero false.
Definition f64_one : f64 := f64_of_Z 1.
Definition fmul : f64 -> f64 -> f64 := SFmul prec64 emax64.
Definition fdiv : f64 -> f64 -> f64 := SFdiv prec64 emax64.
Definition fsub : f64 -> f64 -> f64 := SFsub prec64 emax64.
Definition fleb : f64 -> f64 -> bool := SFleb.
Definition fltb : f64 -> f64 -> bool := SFltb.
Definition is_finite (x : f64) : bool :=
  match x with S754_zero _ | S754_finite _ _ _ => true | _ => false end.
Definition is_nan (x : f64) : bool := match x with S754_nan => true | _ => false end.
(** [a.min(b)] *)
Definition fmin (a b : f64) : f64 :=
  if is_nan a then b else if is_nan b then a else if fltb b a then b else a.
(** [(0.0..=1.0).contains(&x)] *)
Definition in_unit (x : f64) : bool := fleb f64_zero x && fleb x f64_one.

(** [x.round()] as an integer: half away from zero; [x as T] truncates.  Both
    casts saturate at the bounds of the type and send NaN to 0. *)
Definition abs_round (m : positive) (e : Z) : Z :=
  if 0 <=? e then Z.pos m * 2 ^ e else (2 * Z.pos m + 2 ^ (- e)) / (2 * 2 ^ (- e)).
Definition abs_trunc (m : positive) (e : Z) : Z :=
  if 0 <=? e then Z.pos m * 2 ^ e else Z.pos m / 2 ^ (- e).
Definition to_int (part : positive -> Z -> Z) (lo hi : Z) (x : f64) : Z :=
  match x with
  | S754_zero _ | S754_nan => 0
  | S754_infinity s => if s then lo else hi
  | S754_finite s m e =>
    let v := if s then - part m e else part m e in Z.max lo (Z.min hi v)
  end.
Definition round_as : Z -> Z -> f64 -> Z := to_int abs_round.
Definition trunc_as : Z -> Z -> f64 -> Z := to_int abs_trunc.

(** ** Digits *)
Lemma digits2_pos_spec p :
  2 ^ (Z.pos (digits2_pos p) - 1) <= Z.pos p < 2 ^ Z.pos (digits2_pos p).
Proof.
  induction p as [p IH|p IH|]; cbn [digits2_pos]; [| |by cbv].
  - rewrite Pos2Z.inj_succ. replace (Z.succ (Z.pos (digits2_pos p)) - 1)
      with (Z.pos (digits2_pos p) - 1 + 1) by lia.
    rewrite <- Z.add_1_r, !Z.pow_add_r by lia. lia.
  - rewrite Pos2Z.inj_succ. replace (Z.succ (Z.pos (digits2_pos p)) - 1)
      with (Z.pos (digits2_pos p) - 1 + 1) by lia.
    rewrite <- Z.add_1_r, !Z.pow_add_r by lia. lia.
Qed.
Lemma digits2_upper m k : 0 <= m -> 0 <= k -> m < 2 ^ k -> Zdigits2 m <= k.
Proof.
  intros Hm Hk Hlt. destruct m as [|p|p]; [done| |done]. cbn.
  pose proof (digits2_pos_spec p) as [Hl _].
  destruct (decide (Z.pos (digits2_pos p) <= k)); [done|].
  assert (2 ^ k <= 2 ^ (Z.pos (digits2_pos p) - 1)) by (apply Z.pow_le_mono_r; lia). lia.
Qed.
Lemma digits2_lower m k : 0 <= k -> 2 ^ k <= m -> k < Zdigits2 m.
Proof.
  intros Hk Hm. assert (0 < 2 ^ k) by (apply Z.pow_pos_nonneg; lia).
  destruct m as [|p|p]; [lia| |lia]. cbn.
  pose proof (digits2_pos_spec p) as [_ Hu].
  destruct (decide (k < Z.pos (digits2_pos p))); [done|].
  assert (2 ^ Z.pos (digits2_pos p) <= 2 ^ k) by (apply Z.pow_le_mono_r; lia). lia.
Qed.

(** ** Shifting right never passes an integer bound *)
Definition ub (r : shr_record) : Z := shr_m r + (if shr_r r || shr_s r then 1 else 0).

Lemma shr_1_bound r L K :
  0 <= L -> 2 * L <= shr_m r -> ub r <= 2 * K ->
  L <= shr_m (shr_1 r) /\ ub (shr_1 r) <= K.
Proof.
  destruct r as [m b s]. unfold ub. cbn [shr_m shr_r shr_s]. intros HL Hm Hu.
  destruct m as [|[p|p|]|p]; destruct b, s;
    cbn [shr_1 shr_m shr_r shr_s orb] in *; lia.
Qed.
Lemma pow2_xO n : 2 ^ Z.pos n~0 = 2 ^ Z.pos n * 2 ^ Z.pos n.
Proof. rewrite <- Z.pow_add_r by lia. f_equal. lia. Qed.
Lemma pow2_xI n : 2 ^ Z.pos n~1 = 2 * (2 ^ Z.pos n * 2 ^ Z.pos n).
Proof. rewrite <- pow2_xO, <- Z.pow_succ_r by lia. f_equal. Qed.
Lemma iter_pos_shr n r L K :
  0 <= L -> 2 ^ Z.pos n * L <= shr_m r -> ub r <= 2 ^ Z.pos n * K ->
  L <= shr_m (SpecFloat.iter_pos shr_1 n r) /\ ub (SpecFloat.iter_pos shr_1 n r) <= K.
Proof.
  revert r L K. induction n as [n IH|n IH|]; intros r L K HL Hm Hu; cbn [SpecFloat.iter_pos].
  - rewrite pow2_xI, <- !Z.mul_assoc in Hm, Hu. assert (0 < 2 ^ Z.pos n) by lia.
    destruct (shr_1_bound r (2 ^ Z.pos n * (2 ^ Z.pos n * L)) _ ltac:(nia) Hm Hu) as [Hm1 Hu1].
    destruct (IH _ (2 ^ Z.pos n * L) _ ltac:(nia) Hm1 Hu1) as [Hm2 Hu2]. by apply IH.
  - rewrite pow2_xO, <- Z.mul_assoc in Hm, Hu. assert (0 < 2 ^ Z.pos n) by lia.
    destruct (IH _ (2 ^ Z.pos n * L) _ ltac:(nia) Hm Hu) as [Hm2 Hu2]. by apply IH.
  - change (2 ^ 1) with 2 in Hm, Hu. by apply shr_1_bound.
Qed.
Lemma pow2_split e n : e + n <= 0 -> 0 <= n -> 2 ^ (- e) = 2 ^ n * 2 ^ (- (e + n)).
Proof. intros. rewrite <- Z.pow_add_r by lia. f_equal. lia. Qed.
Lemma shr_bound r e n L N :
  0 <= L -> e <= 0 -> e + n <= 0 -> L * 2 ^ (- e) <= shr_m r -> ub r <= N * 2 ^ (- e) ->
  let '(r', e') := shr r e n in
  e' <= 0 /\ L * 2 ^ (- e') <= shr_m r' /\ ub r' <= N * 2 ^ (- e').
Proof.
  intros HL He Hn Hm Hu. destruct n as [|n|n]; cbn [shr]; [done| |done].
  rewrite (pow2_split e (Z.pos n)) in Hm, Hu by lia.
  assert (0 < 2 ^ (- (e + Z.pos n))) by (apply Z.pow_pos_nonneg; lia).
  split; [done|]. apply iter_pos_shr; [nia|lia|lia].
Qed.
Lemma round_nearest_even_bound r :
  0 <= shr_m r ->
  shr_m r <= round_nearest_even (shr_m r) (loc_of_shr_record r) <= ub r.
Proof.
  destruct r as [m b s]. unfold ub. cbn. intros.
  destruct b, s; cbn; [lia| |lia|lia]. destruct (Z.even m); lia.
Qed.
Lemma fexp_nonpos m e N :
  0 <= m -> e <= 0 -> 0 <= N < 2 ^ 53 -> m <= N * 2 ^ (- e) ->
  e + (fexp prec64 emax64 (Zdigits2 m + e) - e) <= 0.
Proof.
  intros Hm He HN Hle. unfold fexp, emin, prec64, emax64.
  assert (0 < 2 ^ (- e)) by (apply Z.pow_pos_nonneg; lia).
  assert (Zdigits2 m <= 53 - e); [|lia].
  apply digits2_upper; [done|lia|]. unfold Z.sub at 1. rewrite Z.pow_add_r by lia. nia.
Qed.

(** ** Numbers between two integers *)
Definition between (L N : Z) (x : f64) : Prop :=
  match x with
  | S754_zero _ => L = 0 /\ 0 <= N
  | S754_finite false m e => e <= 0 /\ L * 2 ^ (- e) <= Z.pos m <= N * 2 ^ (- e)
  | _ => False
  end.
Definition loc_extra (l : location) : Z := match l with loc_Exact => 0 | _ => 1 end.

Lemma binary_round_aux_between m e l L N :
  0 <= L -> e <= 0 -> 0 <= N < 2 ^ 53 ->
  L * 2 ^ (- e) <= m -> m + loc_extra l <= N * 2 ^ (- e) ->
  between L N (binary_round_aux prec64 emax64 false m e l).
Proof.
  intros HL He HN Hm Hle. unfold binary_round_aux, shr_fexp.
  assert (forall e, e <= 0 -> 0 < 2 ^ (- e)) as Hpow by (intros; apply Z.pow_pos_nonneg; lia).
  pose proof (Hpow e He). assert (0 <= m) by nia.
  assert (0 <= loc_extra l) by (destruct l; cbn; lia).
  assert (ub (shr_record_of_loc m l) = m + loc_extra l /\ shr_m (shr_record_of_loc m l) = m)
    as [Hub Hsm] by (by destruct l as [|[]]).
  pose proof (shr_bound (shr_record_of_loc m l) e
    (fexp prec64 emax64 (Zdigits2 m + e) - e) L N HL He
    (fexp_nonpos m e N ltac:(done) He HN ltac:(lia)) ltac:(lia) ltac:(lia)) as Hs1.
  destruct (shr _ _ _) as [r1 e1]. destruct Hs1 as (He1 & Hm1 & Hu1). pose proof (Hpow e1 He1).
  pose proof (round_nearest_even_bound r1 ltac:(nia)) as [Hr0 Hr1].
  set (m1 := round_nearest_even _ _) in *.
  pose proof (shr_bound (shr_record_of_loc m1 loc_Exact) e1
    (fexp prec64 emax64 (Zdigits2 m1 + e1) - e1) L N HL He1
    (fexp_nonpos m1 e1 N ltac:(nia) He1 HN ltac:(lia)) ltac:(cbn; lia)
    ltac:(unfold ub; cbn; lia)) as Hs2.
  destruct (shr _ _ _) as [r2 e2]. destruct Hs2 as (He2 & Hm2 & Hu2). pose proof (Hpow e2 He2).
  assert (shr_m r2 <= ub r2) by (unfold ub; case_match; lia).
  destruct (shr_m r2) as [|p|p] eqn:Ep; [cbn; nia| |nia].
  rewrite (proj2 (Z.leb_le e2 (emax64 - prec64))) by (unfold emax64, prec64; lia).
  cbn. lia.
Qed.
Lemma fmul_between x y L N K M :
  between L N x -> between K M y -> 0 <= L -> 0 <= K -> 0 <= N -> 0 <= M -> N * M < 2 ^ 53 ->
  between (L * K) (N * M) (fmul x y).
Proof.
  intros Hx Hy HL HK HN HM Hlt. unfold fmul.
  destruct x as [sx|sx| |[] mx ex], y as [sy|sy| |[] my ey]; cbn in Hx, Hy; try done;
    cbn [SFmul]; [cbn; nia | cbn; nia | cbn; nia|].
  change (xorb false false) with false. destruct Hx as [Hex Hx], Hy as [Hey Hy].
  assert (0 < 2 ^ (- ex) /\ 0 < 2 ^ (- ey)) as [? ?] by (split; apply Z.pow_pos_nonneg; lia).
  assert (2 ^ (- (ex + ey)) = 2 ^ (- ex) * 2 ^ (- ey)) as Hpow
    by (rewrite <- Z.pow_add_r by lia; f_equal; lia).
  apply binary_round_aux_between; [nia|lia|nia| |]; rewrite Hpow, Pos2Z.inj_mul.
  - replace (L * K * (2 ^ (- ex) * 2 ^ (- ey))) with ((L * 2 ^ (- ex)) * (K * 2 ^ (- ey)))
      by ring. apply Z.mul_le_mono_nonneg; nia.
  - cbn [loc_extra]. rewrite Z.add_0_r.
    replace (N * M * (2 ^ (- ex) * 2 ^ (- ey))) with ((N * 2 ^ (- ex)) * (M * 2 ^ (- ey)))
      by ring. apply Z.mul_le_mono_nonneg; lia.
Qed.
Lemma compare_cont_le p q : Pos.compare_cont Eq p q <> Gt -> Z.pos p <= Z.pos q.
Proof. intros H. exact H. Qed.
Lemma unit_between x : valid64 x -> in_unit x = true -> between 0 1 x.
Proof.
  unfold in_unit, valid64. intros Hv [H0 H1]%andb_true_iff.
  change f64_one with (S754_finite false 4503599627370496 (-52)) in H1.
  destruct x as [s|[]| |[] m e]; try done.
  unfold fleb, SFleb, SFcompare in H1. cbn in Hv. unfold bounded, canonical_mantissa in Hv.
  apply andb_true_iff in Hv as [Hc%Z.eqb_eq _]. unfold fexp, emin, prec64, emax64 in Hc.
  pose proof (digits2_pos_spec m) as [_ Hd]. cbn.
  destruct (Z.compare_spec e (-52)) as [->|He|He]; [| |done].
  - split; [done|]. change (1 * 2 ^ (- -52)) with 4503599627370496.
    split; [lia|]. apply compare_cont_le. by destruct (Pos.compare_cont _ _ _).
  - split; [lia|]. assert (Z.pos (digits2_pos m) <= - e) by lia.
    assert (2 ^ Z.pos (digits2_pos m) <= 2 ^ (- e)) by (apply Z.pow_le_mono_r; lia). lia.
Qed.

(** ** Integers are represented exactly *)
Definition exactly (n : Z) (x : f64) : Prop :=
  exists m e, x = S754_finite false m e /\ e <= 0 /\ Z.pos m = n * 2 ^ (- e).

Lemma exactly_between n x : exactly n x -> between n n x.
Proof. intros (m & e & -> & He & Hm). cbn. lia. Qed.
Lemma between_weaken L N L' N' x :
  between L N x -> 0 <= L' <= L -> N <= N' -> between L' N' x.
Proof.
  destruct x as [s|s| |[] m e]; cbn; try done; [lia|].
  intros [He Hm] HL HN. assert (0 < 2 ^ (- e)) by (apply Z.pow_pos_nonneg; lia). nia.
Qed.
Lemma iter_xO m d : Z.pos (Pos.iter xO m d) = Z.pos m * 2 ^ Z.pos d.
Proof.
  induction d as [|d IH] using Pos.peano_ind; [cbn; lia|].
  rewrite Pos.iter_succ, Pos2Z.inj_succ, Z.pow_succ_r by lia. lia.
Qed.
Lemma shr_zero r e : shr r e 0 = (r, e).
Proof. done. Qed.
Lemma f64_of_Z_exactly n : 0 < n < 2 ^ 53 -> exactly n (f64_of_Z n).
Proof.
  intros Hn. destruct n as [|p|p]; [lia| |lia].
  unfold f64_of_Z, binary_normalize, binary_round. rewrite Z.add_0_r.
  pose proof (digits2_pos_spec p) as [Hl Hu].
  assert (Z.pos (digits2_pos p) <= 53) as Hd by (by apply (digits2_upper (Z.pos p)); lia).
  set (d := Z.pos (digits2_pos p)) in *. assert (1 <= d) by lia. clearbody d.
  assert (fexp prec64 emax64 d = d - 53) as -> by (unfold fexp, emin, prec64, emax64; lia).
  assert (forall q e, e = d - 53 -> Z.pos q = Z.pos p * 2 ^ (- e) ->
    exactly (Z.pos p) (binary_round_aux prec64 emax64 false (Z.pos q) e loc_Exact)) as Hround.
  { intros q e -> Hq. assert (Zdigits2 (Z.pos q) = 53) as Hd53.
    { assert (2 ^ 52 <= Z.pos q < 2 ^ 53) as [H1 H2].
      { rewrite Hq. replace (2 ^ 52) with (2 ^ (d - 1) * 2 ^ (- (d - 53)))
          by (rewrite <- Z.pow_add_r by lia; f_equal; lia).
        replace (2 ^ 53) with (2 ^ d * 2 ^ (- (d - 53)))
          by (rewrite <- Z.pow_add_r by lia; f_equal; lia).
        assert (0 < 2 ^ (- (d - 53))) by (apply Z.pow_pos_nonneg; lia). nia. }
      pose proof (digits2_upper (Z.pos q) 53 ltac:(lia) ltac:(lia) H2).
      pose proof (digits2_lower (Z.pos q) 52 ltac:(lia) H1). lia. }
    unfold binary_round_aux, shr_fexp. rewrite Hd53.
    replace (fexp prec64 emax64 (53 + (d - 53)) - (d - 53)) with 0
      by (unfold fexp, emin, prec64, emax64; lia).
    rewrite shr_zero. cbn [shr_record_of_loc shr_m loc_of_shr_record round_nearest_even].
    rewrite Hd53. replace (fexp prec64 emax64 (53 + (d - 53)) - (d - 53)) with 0
      by (unfold fexp, emin, prec64, emax64; lia).
    rewrite shr_zero. cbn [shr_m].
    rewrite (proj2 (Z.leb_le _ _)) by (unfold emax64, prec64; lia).
    exists q, (d - 53). split; [done|]. split; [lia|done]. }
  unfold shl_align. rewrite Z.sub_0_r. destruct (d - 53) as [|k|k] eqn:Ed.
  - apply Hround; [done|]. cbn. lia.
  - lia.
  - apply Hround; [done|]. rewrite iter_xO. done.
Qed.
Lemma f64_of_Z_between n : 0 <= n < 2 ^ 53 -> between n n (f64_of_Z n).
Proof.
  intros Hn. destruct (decide (n = 0)) as [->|]; [done|].
  apply exactly_between, f64_of_Z_exactly. lia.
Qed.
Lemma one_between : between 1 1 f64_one.
Proof. by apply f64_of_Z_between. Qed.

Lemma new_location_extra n k : loc_extra (new_location n k) = if k =? 0 then 0 else 1.
Proof.
  unfold new_location, new_location_even, new_location_odd.
  destruct (Z.even n), (k =? 0); [done| |done|]; done.
Qed.
Lemma fdiv_between x y Q P W L N :
  between Q P x -> exactly W y -> 0 < W -> 0 <= Q -> 0 <= P < 2 ^ 53 -> 0 <= L ->
  0 <= N < 2 ^ 53 -> L * W <= Q -> P <= N * W ->
  between L N (fdiv x y).
Proof.
  intros Hx (m2 & e2 & -> & He2 & Hm2) HW HQ HP HL HN Hlo Hle. unfold fdiv.
  destruct x as [s|s| |[] m1 e1]; cbn in Hx; try done; cbn [SFdiv]; [cbn; nia|].
  destruct Hx as [He1 [Hq1 Hm1]]. unfold SFdiv_core_binary.
  set (d1 := Zdigits2 (Z.pos m1)). set (d2 := Zdigits2 (Z.pos m2)).
  assert (0 < 2 ^ (- e1) /\ 0 < 2 ^ (- e2)) as [Hp1 Hp2]
    by (split; apply Z.pow_pos_nonneg; lia).
  assert (d1 <= 53 - e1) as Hd1.
  { apply digits2_upper; [done|lia|]. unfold Z.sub. rewrite Z.pow_add_r by lia. nia. }
  assert (- e2 < d2) as Hd2 by (apply digits2_lower; [lia|]; nia).
  set (e' := Z.min (fexp prec64 emax64 (d1 + e1 - (d2 + e2))) (e1 - e2)).
  assert (e' <= 0 /\ e' <= e1 - e2) as [He' Hs]
    by (unfold e', fexp, emin, prec64, emax64; lia).
  clearbody e' d1 d2. set (sh := e1 - e2 - e').
  assert (match sh with Z0 => Z.pos m1 | Z.pos _ => Z.shiftl (Z.pos m1) sh | Z.neg _ => 0 end
    = Z.pos m1 * 2 ^ sh) as ->.
  { destruct sh eqn:E; [cbn; lia| |unfold sh in E; lia]. by rewrite Z.shiftl_mul_pow2. }
  pose proof (Z_div_mod (Z.pos m1 * 2 ^ sh) (Z.pos m2) ltac:(done)) as Hdm.
  destruct (Z.div_eucl _ _) as [q r]. destruct Hdm as [Heq Hr].
  assert (0 < 2 ^ sh) by (apply Z.pow_pos_nonneg; unfold sh; lia).
  assert (0 < 2 ^ (- e')) by (apply Z.pow_pos_nonneg; lia).
  assert (forall X, X * 2 ^ (- e1) * 2 ^ sh = X * (2 ^ (- e2) * 2 ^ (- e'))) as Hsh.
  { intros X. rewrite <- Z.mul_assoc, <- !Z.pow_add_r by (unfold sh; lia).
    f_equal. f_equal. unfold sh. lia. }
  assert (forall X, X * W * (2 ^ (- e2) * 2 ^ (- e')) = Z.pos m2 * (X * 2 ^ (- e'))) as Hk
    by (intros; rewrite Hm2; ring).
  assert (Z.pos m2 * (L * 2 ^ (- e')) <= Z.pos m1 * 2 ^ sh <= Z.pos m2 * (N * 2 ^ (- e')))
    as [Hlow Hup].
  { rewrite <- !Hk. split.
    - transitivity (Q * (2 ^ (- e2) * 2 ^ (- e'))).
      + apply Z.mul_le_mono_nonneg_r; [nia|done].
      + rewrite <- Hsh. nia.
    - transitivity (P * (2 ^ (- e2) * 2 ^ (- e'))).
      + rewrite <- Hsh. nia.
      + apply Z.mul_le_mono_nonneg_r; [nia|done]. }
  clear Hsh Hk. change (xorb false false) with false.
  set (K := N * 2 ^ (- e')) in *. set (J := L * 2 ^ (- e')) in *.
  apply binary_round_aux_between; [done|done|done| |]; fold J K; [nia|].
  rewrite new_location_extra. destruct (Z.eqb_spec r 0); nia.
Qed.

(** ** Rounding to integers *)
Lemma abs_round_between m e L N :
  e <= 0 -> 0 <= L -> L * 2 ^ (- e) <= Z.pos m <= N * 2 ^ (- e) ->
  L <= abs_round m e <= N /\ L <= abs_trunc m e <= N.
Proof.
  intros He HL Hm. unfold abs_round, abs_trunc. destruct (Z.leb_spec 0 e).
  { assert (e = 0) as -> by lia. cbn in *. lia. }
  assert (0 < 2 ^ (- e)) by (apply Z.pow_pos_nonneg; lia).
  split; (split; [apply Z.div_le_lower_bound; nia|];
    apply Z.lt_succ_r, Z.div_lt_upper_bound; [lia|]; nia).
Qed.
Lemma to_int_between lo hi L N x :
  between L N x -> 0 <= L -> lo <= 0 -> N <= hi ->
  L <= round_as lo hi x <= N /\ L <= trunc_as lo hi x <= N.
Proof.
  intros Hx HL Hlo Hhi. unfold round_as, trunc_as, to_int.
  destruct x as [s|s| |[] m e]; cbn in Hx; try done; [lia|].
  destruct Hx as [He Hm]. pose proof (abs_round_between _ _ _ _ He HL Hm). lia.
Qed.

Example float_runs :
  round_as (-100) 100 (fmul (fdiv (f64_of_Z 1) (f64_of_Z 2)) (f64_of_Z 7)) = 4 /\
  fleb (fdiv f64_one (f64_of_Z 3)) f64_one = true.
Proof. by vm_compute. Qed.
