(* ===== verification/PerfTrace.v ===== *)
(** * The performance trace ([crates/rc-agent/src/perf.rs], [perf_histogram.rs])
    Threads record events through an admission word without taking a lock; one
    writer counts them in histograms and writes a summary at the end. *)
From Stdlib Require Import String SpecFloat.
From S2P Require Import Prelude Float.
#[global] Open Scope Z_scope.

(** ** The histogram *)
Definition BUCKET_WIDTH : Z := 100.
Definition BUCKET_COUNT : Z := 1001.
Record Histogram := { hg_count : Z; hg_max_us : Z; hg_sum_us : Z; hg_buckets : list Z }.
Definition histogram_new : Histogram :=
  {| hg_count := 0; hg_max_us := 0; hg_sum_us := 0; hg_buckets := repeat 0 (Z.to_nat BUCKET_COUNT) |}.
Definition bucket (us : Z) : Z := Z.min (us / BUCKET_WIDTH) (BUCKET_COUNT - 1).
Definition histogram_record (h : Histogram) (us : Z) : Histogram :=
  let i := Z.to_nat (bucket us) in
  {| hg_count := wrap64 (hg_count h + 1); hg_max_us := Z.max (hg_max_us h) us;
     hg_sum_us := hg_sum_us h + us;
     hg_buckets := alter (fun b => wrap64 (b + 1)) i (hg_buckets h) |}.
(** [x.ceil() as u64] *)
Definition abs_ceil (m : positive) (e : Z) : Z :=
  if 0 <=? e then Z.pos m * 2 ^ e else (Z.pos m + 2 ^ (- e) - 1) / 2 ^ (- e).
Definition ceil_u64 (x : f64) : Z :=
  match x with
  | S754_finite true _ _ => 0
  | _ => to_int abs_ceil 0 u64_max x
  end.
(** The loop over the buckets from the index [i]. *)
Fixpoint quantile_from (max_us rank cumulative i : Z) (buckets : list Z) : Z :=
  match buckets with
  | [] => max_us
  | b :: r =>
    let cumulative := cumulative + b in
    if rank <=? cumulative then
      (if i =? BUCKET_COUNT - 1 then max_us else Z.min (i * BUCKET_WIDTH + (BUCKET_WIDTH - 1)) max_us)
    else quantile_from max_us rank cumulative (i + 1) r
  end.
Definition quantile_rank (h : Histogram) (p : f64) : Z :=
  Z.min (Z.max (ceil_u64 (fmul p (f64_of_Z (hg_count h)))) 1) (hg_count h).
Definition upper_quantile (h : Histogram) (p : f64) : option Z :=
  if hg_count h =? 0 then None
  else Some (quantile_from (hg_max_us h) (quantile_rank h p) 0 0 (hg_buckets h)).
Definition histogram_mean (h : Histogram) : option f64 :=
  if hg_count h =? 0 then None
  else Some (fdiv (f64_of_Z (hg_sum_us h)) (f64_of_Z (hg_count h))).
Definition histogram_of (samples : list Z) : Histogram := foldl histogram_record histogram_new samples.

Definition half : f64 := fdiv f64_one (f64_of_Z 2).
Definition p95 : f64 := fdiv (f64_of_Z 95) (f64_of_Z 100).
Example histogram_fixed_samples :
  let h := histogram_of [0; 99; 100; 100000; 200000] in
  hg_count h = 5 /\ hg_sum_us h = 300199 /\ hg_max_us h = 200000 /\
  upper_quantile h half = Some 199 /\ upper_quantile h p95 = Some 200000.
Proof. vm_compute. auto. Qed.

(** *** What a histogram counts *)
Definition count_in (i : Z) (samples : list Z) : Z :=
  zlen (List.filter (fun us => bucket us =? i) samples).
Definition count_le (v : Z) (samples : list Z) : Z := zlen (List.filter (fun us => us <=? v) samples).
Lemma bucket_range us : 0 <= us -> 0 <= bucket us < BUCKET_COUNT.
Proof.
  intros Hu. unfold bucket, BUCKET_WIDTH, BUCKET_COUNT. pose proof (Z.div_pos us 100 Hu ltac:(lia)). lia.
Qed.
Lemma filter_le {A} (f : A -> bool) l : zlen (List.filter f l) <= zlen l.
Proof. unfold zlen. pose proof (List.filter_length_le f l). lia. Qed.
Record counts (samples : list Z) (h : Histogram) : Prop := {
  hc_count : hg_count h = zlen samples;
  hc_max : hg_max_us h = foldr Z.max 0 samples;
  hc_sum : hg_sum_us h = zsum id samples;
  hc_buckets : hg_buckets h = map (fun i => count_in i samples) (seqZ 0 BUCKET_COUNT)
}.
Lemma zlen_filter_snoc {A} (f : A -> bool) l x :
  zlen (List.filter f (l ++ [x])) = zlen (List.filter f l) + (if f x then 1 else 0).
Proof. rewrite List.filter_app, zlen_app. cbn. by destruct (f x). Qed.
Lemma record_counts samples h us :
  0 <= us -> Forall (fun x => 0 <= x) samples -> zlen samples < u64_max ->
  counts samples h -> counts (samples ++ [us]) (histogram_record h us).
Proof.
  intros Hu Hs Hl [H1 H2 H3 H4]. pose proof (zlen_nonneg samples).
  split; cbn [histogram_record hg_count hg_max_us hg_sum_us hg_buckets].
  - rewrite H1, zlen_snoc, wrap64_small; lia.
  - rewrite H2, foldr_app. cbn. clear -Hs Hu. induction Hs; cbn; lia.
  - rewrite H3, zsum_app. cbn. lia.
  - rewrite H4. pose proof (bucket_range us Hu) as Hb. apply list_eq. intros i.
    set (f := fun b => wrap64 (b + 1)). set (n := Z.to_nat (bucket us)).
    rewrite !list_lookup_fmap.
    assert (alter f n (map (fun i => count_in i samples) (seqZ 0 BUCKET_COUNT)) !! i =
      (fun k => (if bool_decide (k = bucket us) then f else id) (count_in k samples)) <$>
        seqZ 0 BUCKET_COUNT !! i) as ->.
    { destruct (decide (i = n)) as [->|Hi].
      - rewrite list_lookup_alter_eq, list_lookup_fmap. rewrite lookup_seqZ_lt by (subst n; lia).
        cbn. rewrite bool_decide_eq_true_2; [done|subst n; lia].
      - rewrite list_lookup_alter_ne, list_lookup_fmap by done.
        destruct (seqZ 0 BUCKET_COUNT !! i) as [k|] eqn:E; [|done]. apply lookup_seqZ in E as [-> Hk].
        cbn. rewrite bool_decide_eq_false_2; [done|subst n; lia]. }
    destruct (seqZ 0 BUCKET_COUNT !! i) as [k|]; [|done]. cbn. f_equal. unfold count_in.
    rewrite zlen_filter_snoc. pose proof (filter_le (fun x => bucket x =? k) samples).
    pose proof (zlen_nonneg (List.filter (fun x => bucket x =? k) samples)).
    case_bool_decide as Hk; [subst k; rewrite Z.eqb_refl; unfold f; rewrite wrap64_small; lia|].
    destruct (Z.eqb_spec (bucket us) k); [congruence|]. cbn. lia.
Qed.
Lemma histogram_of_counts samples :
  Forall (fun x => 0 <= x) samples -> zlen samples <= u64_max -> counts samples (histogram_of samples).
Proof.
  unfold histogram_of. induction samples as [|us samples IH] using rev_ind; intros Hs Hl.
  { split; by vm_compute. }
  rewrite foldl_app, zlen_snoc in *. apply Forall_app in Hs as [Hs Hu]. apply Forall_inv in Hu.
  cbn [foldl]. apply record_counts; [done|done|lia|]. apply IH; [done|lia].
Qed.

(** *** Quantiles *)
Definition count_below (k : Z) (samples : list Z) : Z :=
  zlen (List.filter (fun us => bucket us <? k) samples).
Lemma count_below_step k samples :
  count_below (k + 1) samples = count_below k samples + count_in k samples.
Proof.
  unfold count_below, count_in. induction samples as [|us samples IH]; [done|]. cbn [List.filter].
  destruct (Z.ltb_spec (bucket us) (k + 1)), (Z.ltb_spec (bucket us) k), (Z.eqb_spec (bucket us) k);
    rewrite ?zlen_cons; lia.
Qed.
Lemma filter_mono {A} (f g : A -> bool) l :
  (forall x, x ∈ l -> f x = true -> g x = true) -> zlen (List.filter f l) <= zlen (List.filter g l).
Proof.
  induction l as [|x l IH]; intros Hfg; [done|]. cbn [List.filter].
  assert (zlen (List.filter f l) <= zlen (List.filter g l)) as Hl
    by (apply IH; intros y Hy; apply Hfg; by right).
  destruct (f x) eqn:Ef.
  - rewrite (Hfg x) by (done || by left). rewrite !zlen_cons. lia.
  - destruct (g x); rewrite ?zlen_cons; lia.
Qed.
Lemma count_below_le k v samples :
  k < BUCKET_COUNT -> v < k * BUCKET_WIDTH -> Forall (fun x => 0 <= x) samples ->
  count_le v samples <= count_below k samples.
Proof.
  intros Hk Hv Hs. apply filter_mono. intros x Hx Hle. rewrite Forall_forall in Hs.
  specialize (Hs x Hx). unfold bucket, BUCKET_WIDTH, BUCKET_COUNT in *. bools.
  apply Z.ltb_lt. assert (x / 100 < k) by (apply Z.div_lt_upper_bound; lia). lia.
Qed.
Lemma foldr_max_le samples x : x ∈ samples -> x <= foldr Z.max 0 samples.
Proof. induction 1; cbn; lia. Qed.
Lemma filter_witness {A} (f : A -> bool) l :
  0 < zlen (List.filter f l) -> exists x, x ∈ l /\ f x = true.
Proof.
  destruct (List.filter f l) as [|x r] eqn:E; [intros H; by vm_compute in H|]. intros _. exists x.
  assert (In x (List.filter f l)) as Hx by (rewrite E; by left).
  apply filter_In in Hx as [Hx Hf]. split; [by apply list_elem_of_In|done].
Qed.
Lemma filter_true_len {A} (f : A -> bool) l :
  (forall x, x ∈ l -> f x = true) -> zlen (List.filter f l) = zlen l.
Proof.
  induction l as [|x l IH]; intros Hf; [done|]. cbn [List.filter]. rewrite (Hf x) by by left.
  rewrite !zlen_cons, IH; [done|]. intros y Hy. apply Hf. by right.
Qed.
(** The loop stops in bucket [i]. *)
Lemma quantile_stop samples rank i :
  Forall (fun x => 0 <= x) samples -> 0 <= i < BUCKET_COUNT ->
  count_below i samples < rank -> rank <= count_below (i + 1) samples -> rank <= zlen samples ->
  let max_us := foldr Z.max 0 samples in
  let v := if i =? BUCKET_COUNT - 1 then max_us
           else Z.min (i * BUCKET_WIDTH + (BUCKET_WIDTH - 1)) max_us in
  rank <= count_le v samples /\ v <= max_us /\ (count_le (v - 100) samples < rank \/ 100000 <= v).
Proof.
  intros Hs Hi Hc Hn Hr max_us v. pose proof Hs as Hs'. rewrite Forall_forall in Hs'.
  unfold BUCKET_COUNT, BUCKET_WIDTH in *. destruct (Z.eqb_spec i (1001 - 1)) as [Hlast|Hlast].
  - subst v. split; [|split; [done|right]].
    + unfold count_le. rewrite filter_true_len; [done|]. intros x Hx. apply Z.leb_le. by apply foldr_max_le.
    + rewrite count_below_step in Hn. destruct (filter_witness (fun us => bucket us =? i) samples)
        as (x & Hx & Hb); [unfold count_in in Hn; lia|].
      apply Z.eqb_eq in Hb. unfold bucket, BUCKET_WIDTH, BUCKET_COUNT in Hb.
      pose proof (foldr_max_le samples x Hx). fold max_us in H.
      assert (1000 <= x / 100) by lia. pose proof (Z.mul_div_le x 100 ltac:(lia)). lia.
  - split; [|split; [lia|left]].
    + etrans; [exact Hn|]. apply filter_mono. intros x Hx Hb. apply Z.ltb_lt in Hb. apply Z.leb_le.
      unfold bucket, BUCKET_WIDTH, BUCKET_COUNT in Hb. pose proof (foldr_max_le samples x Hx).
      assert (x / 100 <= i) by lia. pose proof (Z.mod_pos_bound x 100 ltac:(lia)).
      pose proof (Z.div_mod x 100 ltac:(lia)). subst v max_us. lia.
    + eapply Z.le_lt_trans; [|exact Hc]. apply count_below_le; [unfold BUCKET_COUNT; lia| |done].
      unfold BUCKET_WIDTH. lia.
Qed.
Lemma quantile_from_spec samples rank max_us n i :
  Forall (fun x => 0 <= x) samples -> max_us = foldr Z.max 0 samples ->
  Z.of_nat n = BUCKET_COUNT - i -> 0 <= i ->
  count_below i samples < rank -> rank <= zlen samples ->
  let v := quantile_from max_us rank (count_below i samples) i
             (map (fun i => count_in i samples) (seqZ i (Z.of_nat n))) in
  rank <= count_le v samples /\ v <= max_us /\ (count_le (v - 100) samples < rank \/ 100000 <= v).
Proof.
  intros Hs ->. revert i. induction n as [|n IH]; intros i Hn Hi Hc Hr.
  { exfalso. assert (i = BUCKET_COUNT) as -> by lia.
    assert (zlen samples <= count_below BUCKET_COUNT samples); [|lia].
    unfold count_below. rewrite filter_true_len; [done|]. intros x Hx. rewrite Forall_forall in Hs.
    apply Z.ltb_lt. by apply bucket_range, Hs. }
  rewrite seqZ_cons by lia. cbn [map quantile_from]. rewrite <- count_below_step.
  destruct (Z.leb_spec rank (count_below (i + 1) samples)).
  - apply quantile_stop; [done|lia|done|done|done].
  - replace (Z.succ i) with (i + 1) by lia. replace (Z.pred (Z.of_nat (S n))) with (Z.of_nat n) by lia.
    apply IH; lia.
Qed.

(** The reported quantiles are sound.  For any samples and any [p] (NaN and
    infinities included), with [r] the rank [p] stands for, between 1 and the
    number of samples: the reported value is the maximum or less, at least [r]
    samples are at most the reported value, and - unless it is in the overflow
    bucket, from 100 ms on - fewer than [r] are at most 100 us below it.  The
    count, the sum and the maximum are exact. *)
Theorem histogram_quantile_sound samples p :
  Forall (fun x => 0 <= x) samples -> zlen samples <= u64_max -> samples <> [] ->
  let h := histogram_of samples in
  hg_count h = zlen samples /\ hg_sum_us h = zsum id samples /\
  hg_max_us h = foldr Z.max 0 samples /\
  exists r v, 1 <= r <= zlen samples /\ upper_quantile h p = Some v /\ v <= hg_max_us h /\
  r = Z.min (Z.max (ceil_u64 (fmul p (f64_of_Z (zlen samples)))) 1) (zlen samples) /\
  r <= count_le v samples /\ (count_le (v - 100) samples < r \/ 100000 <= v).
Proof.
  intros Hs Hl Hne h. destruct (histogram_of_counts samples Hs Hl) as [Hc Hm Hsum Hb]. fold h in Hc, Hm, Hsum, Hb.
  assert (1 <= zlen samples) as H1.
  { destruct samples; [done|]. rewrite zlen_cons. pose proof (zlen_nonneg samples). lia. }
  split; [done|]. split; [done|]. split; [done|].
  unfold upper_quantile. destruct (Z.eqb_spec (hg_count h) 0); [lia|].
  exists (quantile_rank h p). eexists. split; [unfold quantile_rank; lia|]. split; [done|].
  assert (count_below 0 samples = 0) as H0.
  { unfold count_below. destruct (List.filter _ samples) as [|x r] eqn:E; [done|].
    assert (In x (List.filter (fun us => bucket us <? 0) samples)) as Hx by (rewrite E; by left).
    apply filter_In in Hx as [Hx Hlt]. rewrite Forall_forall in Hs.
    pose proof (bucket_range x (Hs x ltac:(by apply list_elem_of_In))). lia. }
  pose proof (quantile_from_spec samples (quantile_rank h p) (hg_max_us h) (Z.to_nat BUCKET_COUNT) 0
    Hs Hm eq_refl ltac:(done) ltac:(unfold quantile_rank; lia) ltac:(unfold quantile_rank; lia)) as Hq.
  rewrite H0, Z2Nat.id, <- Hb in Hq by done. cbn zeta in Hq. destruct Hq as (Hq1 & Hq2 & Hq3).
  split; [done|]. split; [unfold quantile_rank; by rewrite Hc|]. by split.
Qed.
Lemma histogram_quantile_sound_witness :
  let samples := [0; 99; 100; 100000; 200000] in
  let h := histogram_of samples in
  hg_count h = zlen samples /\ hg_sum_us h = zsum id samples /\
  hg_max_us h = foldr Z.max 0 samples /\
  exists r v, 1 <= r <= zlen samples /\ upper_quantile h p95 = Some v /\ v <= hg_max_us h /\
  r = Z.min (Z.max (ceil_u64 (fmul p95 (f64_of_Z (zlen samples)))) 1) (zlen samples) /\
  r <= count_le v samples /\ (count_le (v - 100) samples < r \/ 100000 <= v).
Proof.
  apply (histogram_quantile_sound [0; 99; 100; 100000; 200000] p95);
    [repeat constructor; lia|vm_compute; discriminate|discriminate].
Defined.

(** ** The writer *)
Record Event := { ev_session_id : Uuid; ev_sequence : Z; ev_bytes : Z; ev_elapsed_us : Z }.
Record TraceWriter := {
  tw_raw_limit : Z;
  tw_raw_bytes : Z;
  tw_raw_events : Z;
  tw_raw_truncated : bool;
  tw_global : Histogram;
  tw_sessions : gmap Uuid Histogram;
  tw_other : Histogram
}.
Definition writer_new (raw_limit : Z) : TraceWriter :=
  {| tw_raw_limit := Z.min raw_limit (49 * 1024 * 1024); tw_raw_bytes := 0; tw_raw_events := 0;
     tw_raw_truncated := false; tw_global := histogram_new; tw_sessions := ∅;
     tw_other := histogram_new |}.
Definition MAX_KEYS : Z := 64.
Definition count_event (w : TraceWriter) (e : Event) : TraceWriter :=
  let sid := ev_session_id e in
  let needs_new := negb (bool_decide (is_Some (tw_sessions w !! sid))) &&
                   (MAX_KEYS <=? Z.of_nat (size (tw_sessions w))) in
  {| tw_raw_limit := tw_raw_limit w; tw_raw_bytes := tw_raw_bytes w;
     tw_raw_events := tw_raw_events w; tw_raw_truncated := tw_raw_truncated w;
     tw_global := histogram_record (tw_global w) (ev_elapsed_us e);
     tw_sessions :=
       if needs_new then tw_sessions w else
       <[sid := histogram_record (default histogram_new (tw_sessions w !! sid)) (ev_elapsed_us e)]>
         (tw_sessions w);
     tw_other := if needs_new then histogram_record (tw_other w) (ev_elapsed_us e) else tw_other w |}.
Definition set_raw (bytes events : Z) (truncated : bool) (w : TraceWriter) : TraceWriter :=
  {| tw_raw_limit := tw_raw_limit w; tw_raw_bytes := bytes; tw_raw_events := events;
     tw_raw_truncated := truncated; tw_global := tw_global w; tw_sessions := tw_sessions w;
     tw_other := tw_other w |}.

Section Trace.
Context (to_vec : Event -> option bytes).   (* serde_json::to_vec *)
(** [written]: whether the file takes the line. *)
Definition observe (w : TraceWriter) (e : Event) (written : bool) : TraceWriter * result string unit :=
  let w := count_event w e in
  if tw_raw_truncated w then (w, Ok tt) else
  match to_vec e with
  | None => (w, Err "serde"%string)
  | Some buf =>
    let len := zlen buf + 1 in
    if tw_raw_limit w <? tw_raw_bytes w + len
    then (set_raw (tw_raw_bytes w) (tw_raw_events w) true w, Ok tt)
    else if written
    then (set_raw (tw_raw_bytes w + len) (tw_raw_events w + 1) (tw_raw_truncated w) w, Ok tt)
    else (w, Err "write"%string)
  end.
Record Summary := {
  sm_samples : Z;
  sm_dropped : Z;
  sm_raw_events : Z;
  sm_raw_bytes : Z;
  sm_raw_truncated : bool;
  sm_global : Histogram;
  sm_sessions : gmap Uuid Histogram;
  sm_other : Histogram;
  sm_quantiles : list (option Z)
}.
Definition p50 : f64 := fdiv (f64_of_Z 50) (f64_of_Z 100).
Definition p99 : f64 := fdiv (f64_of_Z 99) (f64_of_Z 100).
Definition summary_of (w : TraceWriter) (dropped : Z) : Summary :=
  {| sm_samples := hg_count (tw_global w); sm_dropped := dropped;
     sm_raw_events := tw_raw_events w; sm_raw_bytes := tw_raw_bytes w;
     sm_raw_truncated := tw_raw_truncated w; sm_global := tw_global w;
     sm_sessions := tw_sessions w; sm_other := tw_other w;
     sm_quantiles := map (upper_quantile (tw_global w)) [p50; p95; p99] |}.
(** [finish]: the footer is too long, the file fails, or the summary is written. *)
Definition writer_finish (w : TraceWriter) (dropped : Z) (footer : result string unit)
  : result string Summary :=
  match footer with Err e => Err e | Ok _ => Ok (summary_of w dropped) end.

(** *** What a writer has counted *)
Definition of_session (sid : Uuid) (evs : list Event) : list Z :=
  map ev_elapsed_us (List.filter (fun e => bool_decide (ev_session_id e = sid)) evs).
Definition unlisted (m : gmap Uuid Histogram) (evs : list Event) : list Z :=
  map ev_elapsed_us
    (List.filter (fun e => negb (bool_decide (is_Some (m !! ev_session_id e)))) evs).
Record tallies (evs : list Event) (w : TraceWriter) : Prop := {
  ta_global : tw_global w = histogram_of (map ev_elapsed_us evs);
  ta_keys : Z.of_nat (size (tw_sessions w)) <= MAX_KEYS;
  ta_sessions : forall sid h, tw_sessions w !! sid = Some h -> h = histogram_of (of_session sid evs);
  ta_fresh : forall sid, tw_sessions w !! sid = None ->
    Z.of_nat (size (tw_sessions w)) < MAX_KEYS -> of_session sid evs = [];
  ta_other : tw_other w = histogram_of (unlisted (tw_sessions w) evs);
  ta_raw : tw_raw_bytes w <= 49 * 1024 * 1024;
  ta_limit : tw_raw_limit w <= 49 * 1024 * 1024
}.
Lemma histogram_of_snoc l us : histogram_of (l ++ [us]) = histogram_record (histogram_of l) us.
Proof. unfold histogram_of. by rewrite foldl_app. Qed.
Lemma of_session_snoc sid evs e :
  of_session sid (evs ++ [e]) =
  of_session sid evs ++ (if bool_decide (ev_session_id e = sid) then [ev_elapsed_us e] else []).
Proof. unfold of_session. rewrite List.filter_app, map_app. cbn. by case_bool_decide. Qed.
Lemma unlisted_snoc m evs e :
  unlisted m (evs ++ [e]) =
  unlisted m evs ++ (if bool_decide (is_Some (m !! ev_session_id e)) then [] else [ev_elapsed_us e]).
Proof. unfold unlisted. rewrite List.filter_app, map_app. cbn. by case_bool_decide. Qed.
(** A session that gets its own histogram had no event before. *)
Lemma unlisted_insert m evs sid h :
  of_session sid evs = [] -> unlisted (<[sid := h]> m) evs = unlisted m evs.
Proof.
  unfold unlisted, of_session. induction evs as [|e evs IH]; intros Hs; [done|]. cbn [List.filter] in *.
  destruct (decide (ev_session_id e = sid)) as [He|He].
  { by rewrite bool_decide_eq_true_2 in Hs. }
  rewrite bool_decide_eq_false_2 in Hs by done. rewrite lookup_insert_ne by done.
  destruct (bool_decide _); cbn; by rewrite IH.
Qed.
Lemma unlisted_update m evs sid h :
  is_Some (m !! sid) -> unlisted (<[sid := h]> m) evs = unlisted m evs.
Proof.
  intros Hs. unfold unlisted. f_equal. apply filter_ext. intros e. f_equal. apply bool_decide_ext.
  destruct (decide (ev_session_id e = sid)) as [->|He]; [rewrite lookup_insert_eq|by rewrite lookup_insert_ne].
  split; [done|by eexists].
Qed.
(** A sample that goes to a session's own histogram. *)
Lemma listed_tallies (m : gmap Uuid Histogram) evs e h sid' h' :
  (forall sid h, m !! sid = Some h -> h = histogram_of (of_session sid evs)) ->
  h = histogram_of (of_session (ev_session_id e) evs) ->
  <[ev_session_id e := histogram_record h (ev_elapsed_us e)]> m !! sid' = Some h' ->
  h' = histogram_of (of_session sid' (evs ++ [e])).
Proof.
  intros Hm Hh. rewrite of_session_snoc. destruct (decide (ev_session_id e = sid')) as [<-|Hne].
  - rewrite lookup_insert_eq, bool_decide_eq_true_2 by done. intros [= <-]. by rewrite histogram_of_snoc, Hh.
  - rewrite lookup_insert_ne, bool_decide_eq_false_2, app_nil_r by done. apply Hm.
Qed.
Lemma fresh_tallies (m : gmap Uuid Histogram) evs e h sid' :
  (m !! sid' = None -> of_session sid' evs = []) ->
  <[ev_session_id e := h]> m !! sid' = None -> of_session sid' (evs ++ [e]) = [].
Proof.
  intros Hm [Hn Hne]%lookup_insert_None. rewrite of_session_snoc, bool_decide_eq_false_2, app_nil_r by done.
  by apply Hm.
Qed.
Lemma unlisted_listed m evs e h :
  unlisted (<[ev_session_id e := h]> m) (evs ++ [e]) = unlisted (<[ev_session_id e := h]> m) evs.
Proof. by rewrite unlisted_snoc, lookup_insert_eq, bool_decide_eq_true_2, app_nil_r. Qed.
Lemma count_event_tallies evs w e : tallies evs w -> tallies (evs ++ [e]) (count_event w e).
Proof.
  intros [H1 H2 H3 H4 H5 H6 H7]. unfold count_event.
  assert (histogram_record (tw_global w) (ev_elapsed_us e) = histogram_of (map ev_elapsed_us (evs ++ [e]))) as Hg.
  { by rewrite H1, map_app, <- histogram_of_snoc. }
  destruct (tw_sessions w !! ev_session_id e) as [h|] eqn:Es.
  - rewrite (bool_decide_eq_true_2 (is_Some (Some h))) by done. cbn [negb andb].
    change (default histogram_new (Some h)) with h.
    assert (size (<[ev_session_id e := histogram_record h (ev_elapsed_us e)]> (tw_sessions w)) =
      size (tw_sessions w)) as Hsz by (apply map_size_insert_Some; by eexists).
    split; cbn [tw_global tw_sessions tw_other tw_raw_bytes tw_raw_limit]; rewrite ?Hsz; try done.
    + intros sid' h'. by apply listed_tallies; [|apply H3].
    + intros sid' Hn Hlt. by eapply fresh_tallies; [|exact Hn]; intros; apply H4.
    + rewrite unlisted_listed, unlisted_update by (by eexists). done.
  - rewrite (bool_decide_eq_false_2 (is_Some None)) by (by intros [? ?]). cbn [negb andb].
    change (default histogram_new None) with histogram_new.
    destruct (Z.leb_spec MAX_KEYS (Z.of_nat (size (tw_sessions w)))) as [Hfull|Hroom].
    + split; cbn [tw_global tw_sessions tw_other tw_raw_bytes tw_raw_limit]; try done.
      * intros sid' h' Hh. rewrite of_session_snoc, bool_decide_eq_false_2, app_nil_r by congruence. by apply H3.
      * intros sid' _ Hlt. lia.
      * rewrite unlisted_snoc, Es, (bool_decide_eq_false_2 (is_Some None)) by (by intros [? ?]).
        by rewrite histogram_of_snoc, H5.
    + assert (forall h, size (<[ev_session_id e := h]> (tw_sessions w)) = S (size (tw_sessions w))) as Hsz
        by (intros; by apply map_size_insert_None).
      split; cbn [tw_global tw_sessions tw_other tw_raw_bytes tw_raw_limit]; rewrite ?Hsz; try done.
      * lia.
      * intros sid' h'. apply listed_tallies; [done|]. by rewrite (H4 _ Es Hroom).
      * intros sid' Hn Hlt. eapply fresh_tallies; [|exact Hn]. intros. apply H4; [done|lia].
      * rewrite unlisted_listed, unlisted_insert; [done|by apply H4].
Qed.
Lemma observe_tallies evs w e written w' r :
  tallies evs w -> observe w e written = (w', r) -> tallies (evs ++ [e]) w'.
Proof.
  intros Hw%(count_event_tallies _ _ e). unfold observe. set (w1 := count_event w e) in *.
  destruct Hw as [H1 H2 H3 H4 H5 H6 H7].
  destruct (tw_raw_truncated w1); [by intros [= <- <-]|]. destruct (to_vec e) as [buf|]; [|by intros [= <- <-]].
  destruct (Z.ltb_spec (tw_raw_limit w1) (tw_raw_bytes w1 + (zlen buf + 1))); [by intros [= <- <-]|].
  destruct written; [|by intros [= <- <-]]. intros [= <- <-]. split; try done.
  change (tw_raw_bytes w1 + (zlen buf + 1) <= 49 * 1024 * 1024). lia.
Qed.
Lemma writer_new_tallies limit : tallies [] (writer_new limit).
Proof. split; try done; cbn; lia. Qed.
End Trace.

(** ** Threads *)
Definition CLOSED_BIT : Z := 2 ^ 63.
Definition PRODUCER_MASK : Z := CLOSED_BIT - 1.
Definition QUEUE_CAPACITY : Z := 8192.
(** A thread inside [Sink::record]. *)
Inductive Producer : Type :=
| PrLoad (e : Event)                  (* before the first load of the word *)
| PrCas (e : Event) (current : Z)     (* before the compare-and-exchange *)
| PrSend (e : Event)
| PrRelease.
Inductive WriterPc : Type := WPoll | WRecv | WDrain | WFooter | WDone (r : result string Summary).
(** The thread that finishes; [ok]: whether the producers had stopped in time. *)
Inductive CloserPc : Type :=
| ClRun | ClWait | ClSignal (ok : bool) | ClJoin (ok : bool) | ClReturn (r : result string unit).
Record Trace := {
  tr_admission : Z;
  tr_dropped : Z;
  tr_queue : list Event;
  tr_receiver : bool;
  tr_shutdown : bool;
  tr_producers : list Producer;
  tr_closer : CloserPc;
  tr_pc : WriterPc;
  tr_writer : TraceWriter;
  (* the history, which the code does not keep: *)
  tr_admitted : list Event;
  tr_lost : list Event;
  tr_observed : list Event
}.
Definition trace_new : Trace :=
  {| tr_admission := 0; tr_dropped := 0; tr_queue := []; tr_receiver := true; tr_shutdown := false;
     tr_producers := []; tr_closer := ClRun; tr_pc := WPoll;
     tr_writer := writer_new (49 * 1024 * 1024); tr_admitted := []; tr_lost := []; tr_observed := [] |}.
Definition set_admission (a : Z) (ps : list Producer) (s : Trace) : Trace :=
  {| tr_admission := a; tr_dropped := tr_dropped s; tr_queue := tr_queue s;
     tr_receiver := tr_receiver s; tr_shutdown := tr_shutdown s; tr_producers := ps;
     tr_closer := tr_closer s; tr_pc := tr_pc s; tr_writer := tr_writer s;
     tr_admitted := tr_admitted s; tr_lost := tr_lost s; tr_observed := tr_observed s |}.
Definition set_admitted (l : list Event) (s : Trace) : Trace :=
  {| tr_admission := tr_admission s; tr_dropped := tr_dropped s; tr_queue := tr_queue s;
     tr_receiver := tr_receiver s; tr_shutdown := tr_shutdown s; tr_producers := tr_producers s;
     tr_closer := tr_closer s; tr_pc := tr_pc s; tr_writer := tr_writer s;
     tr_admitted := l; tr_lost := tr_lost s; tr_observed := tr_observed s |}.
Definition set_producers (ps : list Producer) (s : Trace) : Trace := set_admission (tr_admission s) ps s.
(** [self.tx.try_send(e)] *)
Definition try_send (e : Event) (s : Trace) : Trace :=
  let sent := tr_receiver s && (zlen (tr_queue s) <? QUEUE_CAPACITY) in
  {| tr_admission := tr_admission s;
     tr_dropped := if sent then tr_dropped s else wrap64 (tr_dropped s + 1);
     tr_queue := if sent then tr_queue s ++ [e] else tr_queue s;
     tr_receiver := tr_receiver s; tr_shutdown := tr_shutdown s; tr_producers := tr_producers s;
     tr_closer := tr_closer s; tr_pc := tr_pc s; tr_writer := tr_writer s;
     tr_admitted := tr_admitted s; tr_lost := if sent then tr_lost s else tr_lost s ++ [e];
     tr_observed := tr_observed s |}.
Definition set_closer (c : CloserPc) (shutdown : bool) (s : Trace) : Trace :=
  {| tr_admission := tr_admission s; tr_dropped := tr_dropped s; tr_queue := tr_queue s;
     tr_receiver := tr_receiver s; tr_shutdown := shutdown; tr_producers := tr_producers s;
     tr_closer := c; tr_pc := tr_pc s; tr_writer := tr_writer s;
     tr_admitted := tr_admitted s; tr_lost := tr_lost s; tr_observed := tr_observed s |}.
Definition set_writer_pc (pc : WriterPc) (s : Trace) : Trace :=
  {| tr_admission := tr_admission s; tr_dropped := tr_dropped s; tr_queue := tr_queue s;
     tr_receiver := match pc with WDone _ => false | _ => tr_receiver s end;
     tr_shutdown := tr_shutdown s; tr_producers := tr_producers s;
     tr_closer := tr_closer s; tr_pc := pc; tr_writer := tr_writer s;
     tr_admitted := tr_admitted s; tr_lost := tr_lost s; tr_observed := tr_observed s |}.
(** The writer takes the first event; an error ends it. *)
Definition take_event (to_vec : Event -> option bytes) (next : WriterPc) (written : bool) (s : Trace) : Trace :=
  match tr_queue s with
  | [] => s
  | e :: rest =>
    let '(w, r) := observe to_vec (tr_writer s) e written in
    {| tr_admission := tr_admission s; tr_dropped := tr_dropped s; tr_queue := rest;
       tr_receiver := match r with Ok _ => tr_receiver s | Err _ => false end;
       tr_shutdown := tr_shutdown s; tr_producers := tr_producers s; tr_closer := tr_closer s;
       tr_pc := match r with Ok _ => next | Err e => WDone (Err e) end; tr_writer := w;
       tr_admitted := tr_admitted s; tr_lost := tr_lost s; tr_observed := tr_observed s ++ [e] |}
  end.
(** The head of the loop of [admit]: the thread returns, or tries to enter. *)
Definition admit_check (e : Event) (current : Z) : list Producer :=
  if negb (Z.land current CLOSED_BIT =? 0) || (Z.land current PRODUCER_MASK =? PRODUCER_MASK)
  then [] else [PrCas e current].

Inductive trace_step (to_vec : Event -> option bytes) (s : Trace) : Trace -> Prop :=
| ts_call e : trace_step to_vec s (set_producers (tr_producers s ++ [PrLoad e]) s)
| ts_load e p q : tr_producers s = p ++ PrLoad e :: q ->
    trace_step to_vec s (set_producers (p ++ admit_check e (tr_admission s) ++ q) s)
| ts_exchange e current p q : tr_producers s = p ++ PrCas e current :: q ->
    tr_admission s = current ->
    trace_step to_vec s
      (set_admitted (tr_admitted s ++ [e]) (set_admission (current + 1) (p ++ PrSend e :: q) s))
| ts_exchange_failed e current p q : tr_producers s = p ++ PrCas e current :: q ->
    trace_step to_vec s (set_producers (p ++ admit_check e (tr_admission s) ++ q) s)
| ts_send e p q : tr_producers s = p ++ PrSend e :: q ->
    trace_step to_vec s (set_producers (p ++ PrRelease :: q) (try_send e s))
| ts_release p q : tr_producers s = p ++ PrRelease :: q ->
    trace_step to_vec s (set_admission (wrap64 (tr_admission s - 1)) (p ++ q) s)
| ts_close : tr_closer s = ClRun ->
    trace_step to_vec s
      (set_closer ClWait (tr_shutdown s)
        (set_admission (Z.lor (tr_admission s) CLOSED_BIT) (tr_producers s) s))
| ts_stopped : tr_closer s = ClWait -> Z.land (tr_admission s) PRODUCER_MASK = 0 ->
    trace_step to_vec s (set_closer (ClSignal true) (tr_shutdown s) s)
| ts_deadline : tr_closer s = ClWait -> trace_step to_vec s (set_closer (ClSignal false) (tr_shutdown s) s)
| ts_signal ok : tr_closer s = ClSignal ok ->
    trace_step to_vec s (set_closer (ClJoin (ok && tr_receiver s)) true s)
| ts_join ok r : tr_closer s = ClJoin ok -> tr_pc s = WDone r ->
    trace_step to_vec s
      (set_closer (ClReturn (if ok && is_ok r then Ok tt else Err "finish"%string)) (tr_shutdown s) s)
| ts_join_deadline ok : tr_closer s = ClJoin ok ->
    trace_step to_vec s (set_closer (ClReturn (Err "deadline"%string)) (tr_shutdown s) s)
| ts_poll : tr_pc s = WPoll ->
    trace_step to_vec s (set_writer_pc (if tr_shutdown s then WDrain else WRecv) s)
| ts_recv written : tr_pc s = WRecv -> tr_queue s <> [] ->
    trace_step to_vec s (take_event to_vec WPoll written s)
| ts_recv_timeout : tr_pc s = WRecv -> tr_queue s = [] -> trace_step to_vec s (set_writer_pc WPoll s)
| ts_drain written : tr_pc s = WDrain -> tr_queue s <> [] ->
    trace_step to_vec s (take_event to_vec WDrain written s)
| ts_drained : tr_pc s = WDrain -> tr_queue s = [] -> trace_step to_vec s (set_writer_pc WFooter s)
| ts_footer footer : tr_pc s = WFooter ->
    trace_step to_vec s (set_writer_pc (WDone (writer_finish (tr_writer s) (tr_dropped s) footer)) s).

(** *** The accounting invariant *)
Definition inside (p : Producer) : list (option Event) :=
  match p with PrSend e => [Some e] | PrRelease => [None] | _ => [] end.
(** The threads counted in the word; the events they still hold. *)
Definition entered (ps : list Producer) : list (option Event) := concat (map inside ps).
Definition held (ps : list Producer) : list Event := omap id (entered ps).
#[local] Arguments entered : simpl never.
#[local] Arguments held : simpl never.
#[local] Arguments wrap64 : simpl never.
#[local] Arguments summary_of : simpl never.
Lemma entered_middle p x q : entered (p ++ x :: q) ≡ₚ inside x ++ entered (p ++ q).
Proof.
  unfold entered. rewrite !map_app, !concat_app. cbn. rewrite !app_assoc.
  by rewrite (Permutation_app_comm (concat (map inside p)) (inside x)).
Qed.
Lemma held_middle p x q : held (p ++ x :: q) ≡ₚ omap id (inside x) ++ held (p ++ q).
Proof. unfold held. by rewrite entered_middle, omap_app. Qed.
Definition closed_bit (c : CloserPc) : Z := match c with ClRun => 0 | _ => CLOSED_BIT end.
(** The producers had stopped when the trace was closed. *)
Definition stopped (c : CloserPc) : Prop :=
  match c with ClSignal true | ClJoin true | ClReturn (Ok _) => True | _ => False end.
Definition signalled (c : CloserPc) : Prop :=
  match c with ClJoin _ | ClReturn _ => True | _ => False end.
Definition cas_ok (p : Producer) : Prop :=
  match p with PrCas _ current => 0 <= current < PRODUCER_MASK | _ => True end.
Record accounted (s : Trace) : Prop := {
  ac_word : tr_admission s = closed_bit (tr_closer s) + zlen (entered (tr_producers s));
  ac_room : zlen (entered (tr_producers s)) <= PRODUCER_MASK;
  ac_cas : Forall cas_ok (tr_producers s);
  ac_events : tr_admitted s ≡ₚ tr_observed s ++ tr_queue s ++ held (tr_producers s) ++ tr_lost s;
  ac_dropped : tr_dropped s = wrap64 (zlen (tr_lost s));
  ac_tallies : tallies (tr_observed s) (tr_writer s);
  ac_stopped : stopped (tr_closer s) -> entered (tr_producers s) = [];
  ac_shutdown : tr_shutdown s = true -> signalled (tr_closer s);
  ac_draining : match tr_pc s with
                | WDrain => tr_shutdown s = true
                | WFooter => tr_shutdown s = true /\ (stopped (tr_closer s) -> tr_queue s = [])
                | WDone (Ok sm) => tr_shutdown s = true /\ (stopped (tr_closer s) -> tr_queue s = [] /\
                    sm = summary_of (tr_writer s) (tr_dropped s))
                | _ => True
                end;
  ac_returned : tr_closer s = ClReturn (Ok tt) -> exists sm, tr_pc s = WDone (Ok sm)
}.

(** The word's arithmetic. *)
Lemma land_mask a : Z.land a PRODUCER_MASK = a mod CLOSED_BIT.
Proof. change PRODUCER_MASK with (Z.ones 63). by apply Z.land_ones. Qed.
Lemma land_closed a : 0 <= a < 2 * CLOSED_BIT -> Z.land a CLOSED_BIT = 0 <-> a < CLOSED_BIT.
Proof.
  intros Ha. assert (Z.testbit a 63 = negb (a <? CLOSED_BIT)) as Hb.
  { change CLOSED_BIT with (2 ^ 63) in *. destruct (Z.ltb_spec a (2 ^ 63)); cbn [negb].
    - apply Z.testbit_false; [done|]. rewrite Z.div_small by lia. done.
    - apply Z.testbit_true; [done|]. replace a with (1 * 2 ^ 63 + (a - 2 ^ 63)) by lia.
      rewrite Z.div_add_l, Z.div_small by lia. done. }
  split; intros H.
  - assert (Z.testbit (Z.land a CLOSED_BIT) 63 = false) as Hz by (by rewrite H).
    rewrite Z.land_spec, Hb in Hz. change (Z.testbit CLOSED_BIT 63) with true in Hz. lia.
  - apply Z.bits_inj. intros n. rewrite Z.land_spec, Z.bits_0. change CLOSED_BIT with (2 ^ 63) in *.
    destruct (decide (n = 63)) as [->|Hn]; [rewrite Hb; lia|].
    rewrite Z.pow2_bits_false by done. apply andb_false_r.
Qed.
Lemma lor_closed a : 0 <= a < CLOSED_BIT -> Z.lor a CLOSED_BIT = CLOSED_BIT + a.
Proof.
  intros Ha. rewrite <- Z.add_nocarry_lor; [lia|]. apply land_closed; lia.
Qed.
Lemma admit_check_ok e a :
  0 <= a < 2 * CLOSED_BIT -> Forall cas_ok (admit_check e a).
Proof.
  intros Ha. unfold admit_check. destruct (negb (Z.land a CLOSED_BIT =? 0)) eqn:Ec; [constructor|].
  destruct (Z.eqb_spec (Z.land a PRODUCER_MASK) PRODUCER_MASK) as [|Hm]; [constructor|]. cbn [orb].
  apply Forall_singleton. apply negb_false_iff, Z.eqb_eq, land_closed in Ec; [|done].
  rewrite land_mask, Z.mod_small in Hm by lia. unfold cas_ok, PRODUCER_MASK in *. lia.
Qed.
Lemma admit_check_entered e a : entered (admit_check e a) = [].
Proof. unfold admit_check. by destruct (_ || _). Qed.
Lemma entered_app p q : entered (p ++ q) = entered p ++ entered q.
Proof. unfold entered. by rewrite map_app, concat_app. Qed.
Lemma word_range s : accounted s -> 0 <= tr_admission s < 2 * CLOSED_BIT.
Proof.
  intros [Hw Hr _ _ _ _ _ _ _ _]. pose proof (zlen_nonneg (entered (tr_producers s))).
  assert (closed_bit (tr_closer s) = 0 \/ closed_bit (tr_closer s) = CLOSED_BIT) as Hc
    by (destruct (tr_closer s); auto).
  unfold PRODUCER_MASK, CLOSED_BIT in *. lia.
Qed.

(** A thread moves without entering, leaving or sending. *)
Lemma accounted_producers s ps :
  entered ps = entered (tr_producers s) -> Forall cas_ok ps -> accounted s -> accounted (set_producers ps s).
Proof.
  intros He Hps [H1 H2 H3 H4 H5 H6 H7 H8 H9 H10].
  split; cbn [set_producers set_admission tr_admission tr_producers tr_closer tr_admitted tr_observed tr_queue
    tr_lost tr_dropped tr_shutdown tr_pc tr_writer]; unfold held; rewrite ?He; done.
Qed.
Lemma accounted_check s p e x q :
  tr_producers s = p ++ x :: q -> inside x = [] -> accounted s ->
  accounted (set_producers (p ++ admit_check e (tr_admission s) ++ q) s).
Proof.
  intros Hp Hx Hs. pose proof (ac_cas _ Hs) as Hc. rewrite Hp in Hc.
  apply Forall_app in Hc as [Hc1 Hc2]. apply Forall_cons in Hc2 as [_ Hc2].
  apply accounted_producers; [| |done].
  - rewrite Hp, !entered_app, admit_check_entered.
    change (x :: q) with ([x] ++ q). rewrite (entered_app [x]). unfold entered at 4. cbn. by rewrite Hx.
  - apply Forall_app. split; [done|]. apply Forall_app. split; [|done].
    apply admit_check_ok. by apply word_range.
Qed.
Lemma accounted_exchange s e current p q :
  tr_producers s = p ++ PrCas e current :: q -> tr_admission s = current -> accounted s ->
  accounted (set_admitted (tr_admitted s ++ [e]) (set_admission (current + 1) (p ++ PrSend e :: q) s)).
Proof.
  intros Hp Hcur Hs. pose proof Hs as [H1 H2 H3 H4 H5 H6 H7 H8 H9 H10]. rewrite Hp in *.
  pose proof (entered_middle p (PrCas e current) q) as Ho. pose proof (entered_middle p (PrSend e) q) as Hn.
  cbn [inside app] in Ho, Hn. pose proof (Permutation_length Ho) as Hol. pose proof (Permutation_length Hn) as Hnl.
  apply Forall_app in H3 as [Hc1 Hc2]. apply Forall_cons in Hc2 as [Hc Hc2]. cbn [cas_ok] in Hc.
  pose proof (zlen_nonneg (entered (p ++ PrCas e current :: q))).
  assert (tr_closer s = ClRun) as Hrun.
  { destruct (tr_closer s); try done; cbn [closed_bit] in H1; unfold PRODUCER_MASK in *; lia. }
  rewrite Hrun in *. cbn [closed_bit stopped signalled length] in *. unfold zlen in *.
  split; cbn; rewrite ?Hrun; try done; cbn [closed_bit].
  - unfold zlen. lia.
  - unfold zlen. lia.
  - apply Forall_app. split; [done|]. by constructor.
  - rewrite H4, !held_middle. cbn. by rewrite Permutation_app_comm, <- !Permutation_middle.
Qed.
Lemma accounted_send s e p q :
  tr_producers s = p ++ PrSend e :: q -> accounted s ->
  accounted (set_producers (p ++ PrRelease :: q) (try_send e s)).
Proof.
  intros Hp [H1 H2 H3 H4 H5 H6 H7 H8 H9 H10]. rewrite Hp in *.
  pose proof (entered_middle p (PrSend e) q) as Ho. pose proof (entered_middle p PrRelease q) as Hn.
  cbn [inside app] in Ho, Hn. pose proof (Permutation_length Ho) as Hol. pose proof (Permutation_length Hn) as Hnl.
  apply Forall_app in H3 as [Hc1 Hc2]. apply Forall_cons in Hc2 as [_ Hc2].
  cbn [length] in Hol, Hnl.
  assert (~ stopped (tr_closer s)) as Hns by (intros Hst; rewrite (H7 Hst) in Hol; done).
  set (sent := tr_receiver s && (zlen (tr_queue s) <? QUEUE_CAPACITY)).
  split; cbn; fold sent; try done.
  - rewrite H1. unfold zlen. lia.
  - unfold zlen in *. lia.
  - apply Forall_app. split; [done|]. by constructor.
  - rewrite H4, !held_middle. cbn. destruct sent.
    + rewrite <- !app_assoc. do 2 f_equiv. cbn. by rewrite Permutation_middle.
    + do 2 f_equiv. by rewrite Permutation_cons_append, <- app_assoc, Permutation_app_comm, <- app_assoc || idtac.
  - destruct sent; [done|]. rewrite H5, zlen_snoc. unfold wrap64. by rewrite Zplus_mod_idemp_l.
  - destruct (tr_pc s) as [| | | |[]]; try done; (split; [by destruct H9|done]).
Qed.
Lemma accounted_release s p q :
  tr_producers s = p ++ PrRelease :: q -> accounted s ->
  accounted (set_admission (wrap64 (tr_admission s - 1)) (p ++ q) s).
Proof.
  intros Hp Hs. pose proof (word_range s Hs) as Hw. destruct Hs as [H1 H2 H3 H4 H5 H6 H7 H8 H9 H10].
  rewrite Hp in *. pose proof (entered_middle p PrRelease q) as Ho. cbn [inside app] in Ho.
  pose proof (Permutation_length Ho) as Hol. cbn [length] in Hol.
  apply Forall_app in H3 as [Hc1 Hc2]. apply Forall_cons in Hc2 as [_ Hc2].
  split; cbn; try done.
  - unfold wrap64. rewrite Z.mod_small.
    + rewrite H1. unfold zlen. lia.
    + assert (1 <= tr_admission s) by (rewrite H1; unfold zlen; destruct (tr_closer s); cbn [closed_bit]; unfold CLOSED_BIT; lia).
      unfold CLOSED_BIT in Hw. lia.
  - unfold zlen in *. lia.
  - by apply Forall_app.
  - by rewrite H4, held_middle.
  - intros Hst. specialize (H7 Hst). rewrite H7 in Hol. done.
Qed.
(** Before the signal the writer is not at its end. *)
Lemma not_signalled s :
  accounted s -> ~ signalled (tr_closer s) ->
  tr_shutdown s = false /\ match tr_pc s with WDrain | WFooter | WDone (Ok _) => False | _ => True end.
Proof.
  intros [_ _ _ _ _ _ _ H8 H9 _] Hn. assert (tr_shutdown s = false) as Hsh.
  { destruct (tr_shutdown s); [by destruct Hn; apply H8|done]. }
  split; [done|]. rewrite Hsh in H9. destruct (tr_pc s) as [| | | |[]]; try done; by destruct H9.
Qed.
Lemma accounted_close s :
  tr_closer s = ClRun -> accounted s ->
  accounted (set_closer ClWait (tr_shutdown s)
    (set_admission (Z.lor (tr_admission s) CLOSED_BIT) (tr_producers s) s)).
Proof.
  intros Hc Hs. destruct (not_signalled s Hs) as [Hsh Hpc]; [rewrite Hc; by intros []|].
  destruct Hs as [H1 H2 H3 H4 H5 H6 H7 H8 H9 H10]. rewrite Hc in *. cbn [closed_bit] in H1.
  split; cbn; try done; try (by rewrite Hsh).
  - rewrite lor_closed; [lia|]. pose proof (zlen_nonneg (entered (tr_producers s))).
    unfold PRODUCER_MASK in *. lia.
Qed.
(** The closing thread goes on without having signalled. *)
Lemma accounted_wait s ok :
  tr_closer s = ClWait -> (ok = true -> Z.land (tr_admission s) PRODUCER_MASK = 0) -> accounted s ->
  accounted (set_closer (ClSignal ok) (tr_shutdown s) s).
Proof.
  intros Hc Hz Hs. destruct (not_signalled s Hs) as [Hsh Hpc]; [rewrite Hc; by intros []|].
  destruct Hs as [H1 H2 H3 H4 H5 H6 H7 H8 H9 H10]. rewrite Hc in *. cbn [closed_bit] in H1.
  split; cbn; try done; try (by rewrite Hsh).
  - destruct ok; [|done]. intros _. specialize (Hz eq_refl). rewrite land_mask, H1 in Hz.
    pose proof (zlen_nonneg (entered (tr_producers s))).
    replace (CLOSED_BIT + zlen (entered (tr_producers s)))
      with (zlen (entered (tr_producers s)) + 1 * CLOSED_BIT) in Hz by lia.
    rewrite Z_mod_plus_full, Z.mod_small in Hz by (unfold PRODUCER_MASK in *; lia).
    unfold zlen in Hz. by apply length_zero_iff_nil; lia.
  - destruct (tr_pc s) as [| | | |[]]; done.
Qed.
Lemma accounted_signal s ok :
  tr_closer s = ClSignal ok -> accounted s ->
  accounted (set_closer (ClJoin (ok && tr_receiver s)) true s).
Proof.
  intros Hc Hs. destruct (not_signalled s Hs) as [Hsh Hpc]; [rewrite Hc; by intros []|].
  destruct Hs as [H1 H2 H3 H4 H5 H6 H7 H8 H9 H10]. rewrite Hc in *. cbn [closed_bit] in H1.
  split; cbn; try done.
  - destruct ok; [|done]. by destruct (tr_receiver s).
  - by destruct (tr_pc s) as [| | | |[]].
Qed.
Lemma accounted_return s ok r :
  tr_closer s = ClJoin ok -> (r = Ok tt -> ok = true /\ exists sm, tr_pc s = WDone (Ok sm)) -> accounted s ->
  accounted (set_closer (ClReturn r) (tr_shutdown s) s).
Proof.
  intros Hc Hr [H1 H2 H3 H4 H5 H6 H7 H8 H9 H10]. rewrite Hc in *. cbn [closed_bit] in H1.
  assert (stopped (ClReturn r) -> stopped (ClJoin ok)) as Hst.
  { destruct r as [[]|]; [|done]. intros _. destruct (Hr eq_refl) as [-> _]. done. }
  split; cbn [set_closer tr_admission tr_producers tr_closer tr_admitted tr_observed tr_queue tr_lost
    tr_dropped tr_shutdown tr_pc tr_writer closed_bit]; try done.
  - intros H. by apply H7, Hst.
  - destruct (tr_pc s) as [| | | |[]]; try done; (split; [by destruct H9|]); intros H;
      by apply H9, Hst.
  - intros [= ->]. by apply Hr.
Qed.

(** The steps of the writer. *)
Lemma accounted_pc s pc :
  accounted s ->
  (tr_closer s = ClReturn (Ok tt) -> exists sm, pc = WDone (Ok sm)) ->
  match pc with
  | WDrain => tr_shutdown s = true
  | WFooter => tr_shutdown s = true /\ tr_queue s = []
  | WDone (Ok sm) => tr_shutdown s = true /\ (stopped (tr_closer s) -> tr_queue s = []) /\
      sm = summary_of (tr_writer s) (tr_dropped s)
  | _ => True
  end -> accounted (set_writer_pc pc s).
Proof.
  intros [H1 H2 H3 H4 H5 H6 H7 H8 H9 H10] Hret Hpc.
  split; cbn; try done. destruct pc as [| | | |[]]; try done; naive_solver.
Qed.
Lemma accounted_take to_vec s next written :
  accounted s -> (next = WPoll \/ next = WDrain /\ tr_shutdown s = true) ->
  (tr_closer s <> ClReturn (Ok tt)) -> tr_queue s <> [] -> accounted (take_event to_vec next written s).
Proof.
  intros [H1 H2 H3 H4 H5 H6 H7 H8 H9 H10] Hn Hc Hq. unfold take_event.
  destruct (tr_queue s) as [|e rest] eqn:Eq; [done|].
  destruct (observe to_vec (tr_writer s) e written) as [w r] eqn:Eo.
  split; cbn; try done.
  - rewrite H4. rewrite <- app_assoc. done.
  - by eapply observe_tallies.
  - destruct r; [|done]. by destruct Hn as [->|[-> ?]].
Qed.
Lemma returned_done s : accounted s -> tr_closer s = ClReturn (Ok tt) ->
  match tr_pc s with WDone (Ok _) => True | _ => False end.
Proof. intros Hs Hc. by destruct (ac_returned s Hs Hc) as [sm ->]. Qed.
Lemma accounted_step to_vec s s' : trace_step to_vec s s' -> accounted s -> accounted s'.
Proof.
  intros Hstep Hs. pose proof (returned_done s Hs) as Hret.
  assert (forall pc, tr_pc s = pc -> match pc with WDone (Ok _) => False | _ => True end ->
    tr_closer s <> ClReturn (Ok tt)) as Hnr.
  { intros pc Hpc Hn Hc. specialize (Hret Hc). rewrite Hpc in Hret. by destruct pc as [| | | |[]]. }
  destruct Hstep as [e|e p q Hp|e c p q Hp Hc|e c p q Hp|e p q Hp|p q Hp|Hc|Hc Hz|Hc|ok Hc|ok r Hc Hpc|ok Hc
    |Hpc|w Hpc Hq|Hpc Hq|w Hpc Hq|Hpc Hq|footer Hpc].
  - apply accounted_producers; [|apply Forall_app; split; [apply Hs|by constructor]|done].
    rewrite entered_app. unfold entered at 2. cbn. apply app_nil_r.
  - by eapply accounted_check.
  - by apply accounted_exchange.
  - by eapply accounted_check.
  - by eapply accounted_send.
  - by apply accounted_release.
  - by apply accounted_close.
  - by apply accounted_wait.
  - by apply accounted_wait.
  - by apply accounted_signal.
  - eapply accounted_return; [done| |done]. intros Hok. destruct ok; [|done]. destruct r; [|done].
    split; [done|by eexists].
  - by eapply accounted_return.
  - apply accounted_pc; [done| |by destruct (tr_shutdown s) eqn:E].
    intros Hr. by destruct (Hnr _ Hpc I).
  - apply accounted_take; [done|by left|by apply (Hnr _ Hpc)|done].
  - apply accounted_pc; [done| |done]. intros Hr. by destruct (Hnr _ Hpc I).
  - pose proof (ac_draining s Hs) as Hd. rewrite Hpc in Hd.
    apply accounted_take; [done|by right|by apply (Hnr _ Hpc)|done].
  - pose proof (ac_draining s Hs) as Hd. rewrite Hpc in Hd.
    apply accounted_pc; [done| |done]. intros Hr. by destruct (Hnr _ Hpc I).
  - pose proof (ac_draining s Hs) as Hd. rewrite Hpc in Hd.
    apply accounted_pc; [done| |].
    + intros Hr. by destruct (Hnr _ Hpc I).
    + unfold writer_finish. destruct footer; [|done]. by destruct Hd.
Qed.
Lemma trace_new_accounted : accounted trace_new.
Proof. by split. Qed.

(** A trace that finished accounts for every record.  However many threads
    record, in every interleaving of their loads, exchanges (weak ones may fail
    without reason), sends and releases with the writer and with the closing of
    the trace: when [finish] returns without an error, the summary that was
    written counts every record that was admitted exactly once, as a sample or as
    dropped; no thread is left inside; the histogram of all samples and the ones of
    at most 64 sessions are those of exactly the events observed, and the samples
    of every other session are in the one called "other". *)
Theorem trace_accounts_for_every_record to_vec s :
  steps (trace_step to_vec) trace_new s ->
  tr_closer s = ClReturn (Ok tt) -> zlen (tr_admitted s) <= u64_max ->
  Forall (fun e => 0 <= ev_elapsed_us e) (tr_admitted s) ->
  exists sm evs lost, tr_pc s = WDone (Ok sm) /\ tr_admitted s ≡ₚ evs ++ lost /\
    sm_samples sm = zlen evs /\ sm_dropped sm = zlen lost /\
    sm_samples sm + sm_dropped sm = zlen (tr_admitted s) /\ entered (tr_producers s) = [] /\
    sm_global sm = histogram_of (map ev_elapsed_us evs) /\
    Z.of_nat (size (sm_sessions sm)) <= 64 /\
    (forall sid h, sm_sessions sm !! sid = Some h -> h = histogram_of (of_session sid evs)) /\
    sm_other sm = histogram_of (unlisted (sm_sessions sm) evs) /\ sm_raw_bytes sm <= 49 * 1024 * 1024.
Proof.
  intros Hsteps Hc Hmax Hpos. assert (accounted s) as Hs.
  { eapply (steps_invariant (trace_step to_vec) accounted); [|exact Hsteps|apply trace_new_accounted].
    intros; by eapply accounted_step. }
  destruct (ac_returned s Hs Hc) as [sm Hpc]. destruct Hs as [H1 H2 H3 H4 H5 H6 H7 H8 H9 H10].
  rewrite Hc in *. specialize (H7 I). rewrite Hpc in H9. destruct H9 as [_ H9]. destruct (H9 I) as [Hq ->].
  unfold held in H4. rewrite Hq, H7 in H4. cbn [app omap list_omap] in H4.
  pose proof (Permutation_length H4) as Hlen. rewrite length_app in Hlen. unfold zlen in Hmax.
  destruct H6 as [T1 T2 T3 T4 T5 T6 T7].
  assert (hg_count (tw_global (tr_writer s)) = zlen (tr_observed s)) as Hcount.
  { assert (counts (map ev_elapsed_us (tr_observed s)) (tw_global (tr_writer s))) as [Hcnt _ _ _].
    { rewrite T1. apply histogram_of_counts; [|unfold zlen; rewrite length_map; lia].
      apply Forall_map. rewrite H4 in Hpos. by apply Forall_app in Hpos as [? _]. }
    rewrite Hcnt. unfold zlen. by rewrite length_map. }
  assert (tr_dropped s = zlen (tr_lost s)) as Hd.
  { rewrite H5, wrap64_small; [done|]. unfold zlen. lia. }
  exists (summary_of (tr_writer s) (tr_dropped s)), (tr_observed s), (tr_lost s).
  split; [done|]. split; [done|]. unfold summary_of. cbn. rewrite Hcount, Hd.
  split_and!; try done. unfold zlen. lia.
Qed.

(** *** A run: one event, then the end *)
Definition sample_event : Event :=
  {| ev_session_id := 1; ev_sequence := 7; ev_bytes := 12; ev_elapsed_us := 23 |}.
Definition sample_vec (e : Event) : option bytes := Some [123; 125].
Definition entered_trace : Trace :=
  let s := set_producers [PrLoad sample_event] trace_new in
  let s := set_producers (admit_check sample_event 0) s in
  set_admitted [sample_event] (set_admission 1 [PrSend sample_event] s).
Definition sent_trace : Trace := set_producers [PrRelease] (try_send sample_event entered_trace).
Definition closed_trace : Trace :=
  let s := set_admission 0 [] sent_trace in
  set_closer ClWait false (set_admission CLOSED_BIT [] s).
Definition signalled_trace : Trace :=
  set_closer (ClJoin true) true (set_closer (ClSignal true) false closed_trace).
Definition drained_trace : Trace :=
  take_event sample_vec WDrain true (set_writer_pc WDrain signalled_trace).
Definition footer_trace : Trace :=
  let s := set_writer_pc WFooter drained_trace in
  set_writer_pc (WDone (writer_finish (tr_writer s) (tr_dropped s) (Ok tt))) s.
Definition finished_trace : Trace := set_closer (ClReturn (Ok tt)) true footer_trace.
Lemma finished_run : steps (trace_step sample_vec) trace_new finished_trace.
Proof.
  eapply steps_trans; [apply (ts_call _ _ sample_event)|].
  eapply steps_trans; [by apply (ts_load _ _ sample_event [] [])|].
  eapply steps_trans; [by apply (ts_exchange _ _ sample_event 0 [] [])|].
  eapply steps_trans; [by apply (ts_send _ _ sample_event [] [])|].
  eapply steps_trans; [by apply (ts_release _ _ [] [])|].
  eapply steps_trans; [by apply ts_close|].
  eapply steps_trans; [by apply ts_stopped|].
  eapply steps_trans; [by apply (ts_signal _ _ true)|].
  eapply steps_trans; [by apply ts_poll|].
  eapply steps_trans; [by apply (ts_drain _ _ true)|].
  eapply steps_trans; [by apply ts_drained|].
  eapply steps_trans; [by apply (ts_footer _ _ (Ok tt))|].
  eapply steps_trans; [by eapply (ts_join _ _ true)|].
  match goal with |- steps _ ?s _ => replace s with finished_trace by (by vm_compute) end.
  apply steps_refl.
Qed.
Lemma trace_accounts_for_every_record_witness :
  exists sm evs lost, tr_pc finished_trace = WDone (Ok sm) /\ tr_admitted finished_trace ≡ₚ evs ++ lost /\
    sm_samples sm = zlen evs /\ sm_dropped sm = zlen lost /\
    sm_samples sm + sm_dropped sm = zlen (tr_admitted finished_trace) /\
    entered (tr_producers finished_trace) = [] /\
    sm_global sm = histogram_of (map ev_elapsed_us evs) /\
    Z.of_nat (size (sm_sessions sm)) <= 64 /\
    (forall sid h, sm_sessions sm !! sid = Some h -> h = histogram_of (of_session sid evs)) /\
    sm_other sm = histogram_of (unlisted (sm_sessions sm) evs) /\ sm_raw_bytes sm <= 49 * 1024 * 1024.
Proof.
  apply (trace_accounts_for_every_record sample_vec finished_trace); [apply finished_run|done| |].
  - vm_compute. discriminate.
  - repeat constructor; cbn; lia.
Defined.
