(* ===== verification/PerfStart.v ===== *)
(** * Starting and finishing the output trace ([crates/rc-agent/src/perf.rs])
    The environment variable, the file that is created, the one trace of a process, and
    the two waits of [finish] under one deadline; what the threads do in between is
    [PerfTrace]. *)
From Stdlib Require Import String.
From S2P Require Import Prelude Text PerfTrace.
#[global] Open Scope Z_scope.

Definition FINISH_TIMEOUT : Z := 5000.

(** ** Waiting with a deadline *)
(** [while !ready { if now >= deadline { return } sleep(1) }] from the [i]-th look on,
    with the look at which it ends and whether it was ready; [None]: not within [fuel]. *)
Section Wait.
Context (ready : nat -> bool) (now : nat -> Z) (deadline : Z).
Fixpoint wait_until (fuel i : nat) : option (nat * bool) :=
  match fuel with
  | O => None
  | S fuel =>
    if ready i then Some (i, true) else
    if deadline <=? now i then Some (i, false) else wait_until fuel (S i)
  end.
Lemma wait_until_spec fuel i :
  match wait_until fuel i with
  | Some (j, ok) => (i <= j)%nat /\ ready j = ok /\ (ok = false -> deadline <= now j) /\
      forall k, (i <= k < j)%nat -> ready k = false /\ now k < deadline
  | None => forall k, (i <= k < i + fuel)%nat -> ready k = false /\ now k < deadline
  end.
Proof.
  revert i. induction fuel as [|fuel IH]; intros i; cbn [wait_until]; [intros k; lia|].
  destruct (ready i) eqn:Er; [split; [lia|]; repeat split; done || lia|].
  destruct (Z.leb_spec deadline (now i)) as [Hd|Hd]; [split; [lia|]; repeat split; done || lia|].
  specialize (IH (S i)). destruct (wait_until fuel (S i)) as [[j ok]|].
  - destruct IH as (Hj & Hr & Hok & Hk). split; [lia|]. split; [done|]. split; [done|].
    intros k Hik. destruct (decide (k = i)) as [->|]; [done|]. apply Hk. lia.
  - intros k Hik. destruct (decide (k = i)) as [->|]; [done|]. apply IH. lia.
Qed.
(** A clock that every sleep advances ends the wait. *)
Lemma wait_until_ends fuel i :
  (forall k, now k + 1 <= now (S k)) -> deadline - now i < Z.of_nat fuel ->
  (0 < fuel)%nat ->
  exists j ok, wait_until fuel i = Some (j, ok) /\ Z.of_nat (j - i) <= Z.max 0 (deadline - now i).
Proof.
  intros Hclock Hf H0. pose proof (wait_until_spec fuel i) as Hw.
  assert (forall n, now i + Z.of_nat n <= now (i + n)%nat) as Hn.
  { induction n as [|n IH]; [rewrite Nat.add_0_r; lia|]. rewrite Nat.add_succ_r.
    specialize (Hclock (i + n)%nat). lia. }
  destruct (wait_until fuel i) as [[j ok]|].
  - exists j, ok. split; [done|]. destruct Hw as (Hj & _ & _ & Hk).
    destruct (decide (j = i)) as [->|]; [lia|]. destruct (Hk (j - 1)%nat) as [_ H]; [lia|].
    specialize (Hn (j - 1 - i)%nat). replace (i + (j - 1 - i))%nat with (j - 1)%nat in Hn by lia. lia.
  - destruct (Hw (i + (fuel - 1))%nat) as [_ H]; [lia|]. specialize (Hn (fuel - 1)%nat). lia.
Qed.
End Wait.

(** ** Finishing *)
Inductive WriterEnd : Type := WeOk | WeFailed | WePanicked.
(** What [finish_inner] meets: when it starts; the looks at the producers, with the
    clock at each; whether the writer still receives the signal; the looks at the
    writer, and how it ended. *)
Record FinishEnv := {
  fe_start : Z;
  fe_stopped : nat -> bool;
  fe_stopped_now : nat -> Z;
  fe_signal : bool;
  fe_done : nat -> bool;
  fe_done_now : nat -> Z;
  fe_writer : WriterEnd
}.
Record Guard := { gd_writer : bool; gd_finished : bool }.
(** [close_producers] after the bit is set, and [wait_for_writer]. *)
Definition close_producers (fuel : nat) (env : FinishEnv) (deadline : Z) : option (nat * bool) :=
  wait_until (fe_stopped env) (fe_stopped_now env) deadline fuel 0.
Definition wait_for_writer (fuel : nat) (env : FinishEnv) (deadline : Z) : option (nat * bool) :=
  wait_until (fe_done env) (fe_done_now env) deadline fuel 0.
Definition finish_inner (fuel : nat) (env : FinishEnv) (g : Guard) : option (Guard * sres ()) :=
  if gd_finished g then Some (g, Ok tt) else
  let deadline := fe_start env + FINISH_TIMEOUT in
  match close_producers fuel env deadline with
  | None => None
  | Some (_, stopped) =>
    let close_result := if stopped then Ok tt else Err "performance trace producers did not stop"%string in
    let g' := {| gd_writer := false; gd_finished := true |} in
    if negb (gd_writer g) then Some (g', close_result) else
    match wait_for_writer fuel env deadline with
    | None => None
    | Some (_, done) =>
      Some (g', if negb done then Err "performance trace writer did not stop"%string else
                match fe_writer env with
                | WeFailed => Err "performance trace writer failed"%string
                | WePanicked => Err "performance trace writer panicked"%string
                | WeOk =>
                  match close_result with
                  | Err e => Err e
                  | Ok _ => if fe_signal env then Ok tt
                            else Err "performance trace writer stopped before shutdown"%string
                  end
                end)
    end
  end.

(** The clock: time passes, and a sleep lasts at least its millisecond. *)
Definition finish_clock (env : FinishEnv) : Prop :=
  fe_start env <= fe_stopped_now env 0 /\ fe_start env <= fe_done_now env 0 /\
  forall i, fe_stopped_now env i + 1 <= fe_stopped_now env (S i) /\
            fe_done_now env i + 1 <= fe_done_now env (S i).
(** Readiness was seen at look [i], no earlier look came after the deadline. *)
Definition seen_in_time (ready : nat -> bool) (now : nat -> Z) (deadline : Z) : Prop :=
  exists i, ready i = true /\ forall k, (k < i)%nat -> ready k = false /\ now k < deadline.
Lemma wait_in_time ready now start fuel :
  start <= now 0%nat -> (forall k, now k + 1 <= now (S k)) -> FINISH_TIMEOUT < Z.of_nat fuel ->
  exists i ok, wait_until ready now (start + FINISH_TIMEOUT) fuel 0 = Some (i, ok) /\
    (ok = true -> seen_in_time ready now (start + FINISH_TIMEOUT)).
Proof.
  intros Hs Hc Hf. assert (0 <= FINISH_TIMEOUT) as H0 by done.
  destruct (wait_until_ends ready now (start + FINISH_TIMEOUT) fuel 0 Hc) as (i & ok & Hi & _); [lia|lia|].
  exists i, ok. split; [done|]. intros ->.
  pose proof (wait_until_spec ready now (start + FINISH_TIMEOUT) fuel 0) as Hw. rewrite Hi in Hw.
  destruct Hw as (_ & Hr & _ & Hk). exists i. split; [done|]. intros k Hlt. apply Hk. lia.
Qed.

(** Finishing a trace, explicitly or when its guard is dropped, always returns: the
    waits for the recording threads and for the writer share one deadline of five
    seconds.  It reports success only if the threads had stopped and the writer had
    ended without an error in that time and took the signal, and a second finish does
    nothing. *)
Theorem finish_returns fuel env g :
  finish_clock env -> FINISH_TIMEOUT < Z.of_nat fuel ->
  exists g' r, finish_inner fuel env g = Some (g', r) /\ gd_finished g' = true /\
    finish_inner fuel env g' = Some (g', Ok tt) /\
    (gd_finished g = false -> gd_writer g = true -> r = Ok tt ->
       let deadline := fe_start env + FINISH_TIMEOUT in
       seen_in_time (fe_stopped env) (fe_stopped_now env) deadline /\
       seen_in_time (fe_done env) (fe_done_now env) deadline /\
       fe_signal env = true /\ fe_writer env = WeOk).
Proof.
  intros (Hs & Hd & Hc) Hfuel. unfold finish_inner, close_producers, wait_for_writer.
  destruct (gd_finished g) eqn:Eg; [exists g, (Ok tt); by rewrite Eg|].
  destruct (wait_in_time (fe_stopped env) (fe_stopped_now env) (fe_start env) fuel Hs)
    as (i & stopped & -> & Hstopped); [intros k; apply Hc|done|].
  destruct (gd_writer g); cbn [negb].
  2:{ do 2 eexists. split; [done|]. split; [done|]. split; [done|]. by intros _ [=]. }
  destruct (wait_in_time (fe_done env) (fe_done_now env) (fe_start env) fuel Hd)
    as (j & ended & -> & Hended); [intros k; apply Hc|done|].
  do 2 eexists. split; [done|]. split; [done|]. split; [done|]. intros _ _.
  destruct ended; [|done]. destruct (fe_writer env); [|done..]. destruct stopped; [|done].
  destruct (fe_signal env); [|done]. intros _. by auto.
Qed.
(** A thread that never leaves, and a writer that ends at once. *)
Definition demo_finish : FinishEnv :=
  {| fe_start := 0; fe_stopped := fun _ => false; fe_stopped_now := fun i => 1000 * Z.of_nat i;
     fe_signal := true; fe_done := fun _ => true; fe_done_now := fun i => 6000 + Z.of_nat i;
     fe_writer := WeOk |}.
Definition demo_guard : Guard := {| gd_writer := true; gd_finished := false |}.
Lemma finish_returns_witness :
  finish_inner (Z.to_nat 6000) demo_finish demo_guard =
    Some ({| gd_writer := false; gd_finished := true |},
          Err "performance trace producers did not stop"%string) /\
  exists g' r, finish_inner (Z.to_nat 6000) demo_finish demo_guard = Some (g', r) /\
    gd_finished g' = true.
Proof.
  split; [by vm_compute|].
  destruct (finish_returns (Z.to_nat 6000) demo_finish demo_guard) as (g' & r & Hr & Hf & _).
  - repeat split; cbn [fe_start fe_stopped_now fe_done_now demo_finish]; lia.
  - rewrite Z2Nat.id by lia. done.
  - by exists g', r.
Defined.

(** ** Starting *)
(** A process's [OnceLock], the files there are, and the writer threads, by their file. *)
Record PerfProcess := { pp_trace : option string; pp_files : gset string; pp_writers : list string }.
(** A path from the environment: whether it is absolute, and its text. *)
Record TracePath := { tp_absolute : bool; tp_text : string }.
(** [create], [spawn]: whether the calls succeed otherwise. *)
Record StartEnv := { se_create : bool; se_spawn : bool }.
Definition start (path : TracePath) (env : StartEnv) (p : PerfProcess) : PerfProcess * sres string :=
  if negb (tp_absolute path) then (p, Err "performance trace path must be absolute"%string) else
  if bool_decide (tp_text path ∈ pp_files p) || negb (se_create env)
  then (p, Err "create performance trace"%string) else
  let files := {[tp_text path]} ∪ pp_files p in
  if negb (se_spawn env)
  then ({| pp_trace := pp_trace p; pp_files := files; pp_writers := pp_writers p |},
        Err "spawn performance trace writer"%string)
  else ({| pp_trace := pp_trace p; pp_files := files; pp_writers := pp_writers p ++ [tp_text path] |},
        Ok (tp_text path)).
(** [raced]: what another call has put into the lock in between; the guard that is not
    kept is finished, which ends its writer. *)
Definition init_from_path (path : option TracePath) (env : StartEnv) (raced : option string)
    (p : PerfProcess) : PerfProcess * sres (option string) :=
  match path with
  | None => (p, Ok None)
  | Some path =>
    if negb (tp_absolute path) then (p, Err "RC_PERF_TRACE must be an absolute path"%string) else
    if option_is_some (pp_trace p) then (p, Err "performance trace is already initialized"%string) else
    match start path env p with
    | (p, Err e) => (p, Err e)
    | (p, Ok file) =>
      match raced with
      | Some other =>
        ({| pp_trace := Some other; pp_files := pp_files p;
            pp_writers := base.filter (fun w => w <> file) (pp_writers p) |},
         Err "performance trace is already initialized"%string)
      | None =>
        ({| pp_trace := Some file; pp_files := pp_files p; pp_writers := pp_writers p |}, Ok (Some file))
      end
    end
  end.
(** A process keeps its first trace, and no trace is written over a file. *)
Lemma init_from_path_spec path env raced p :
  let '(p', r) := init_from_path path env raced p in
  (option_is_some (pp_trace p) = true -> p' = p /\ match r with Ok (Some _) => False | _ => True end) /\
  (forall f, r = Ok (Some f) ->
     f ∉ pp_files p /\ pp_trace p = None /\ pp_trace p' = Some f /\ pp_writers p' = pp_writers p ++ [f]).
Proof.
  unfold init_from_path, start. destruct path as [[absolute text]|]; [|done]. cbn.
  destruct absolute; cbn; [|done]. destruct (pp_trace p) eqn:Et; cbn; [by split|].
  case_bool_decide as Hin; cbn; [done|]. destruct (se_create env); cbn; [|done].
  destruct (se_spawn env); cbn; [|done]. destruct raced; cbn; [done|]. split; [done|].
  by intros f [= <-].
Qed.
