(* ===== verification/Geometry.v ===== *)
(** * Screen geometry ([crates/rc-core/src/geometry.rs])
    Normalised pointer positions to pixels, pixels to the absolute coordinates of
    mouse injection, and preview pixels to normalised positions. *)
From Stdlib Require Import SpecFloat.
From S2P Require Import Prelude Errors Float.

Definition i32_min : Z := -2147483648.
Definition i32_max : Z := 2147483647.
Definition i64_min : Z := -9223372036854775808.
Definition i64_max : Z := 9223372036854775807.

Record Rect := { left : Z; top : Z; width : Z; height : Z }.
#[global] Instance Rect_eq_dec : EqDecision Rect.
Proof. solve_decision. Defined.

(** The ranges of the fields: [i32] and [u32]. *)
Definition rect_typed (r : Rect) : Prop :=
  i32_min <= left r <= i32_max /\ i32_min <= top r <= i32_max /\
  0 <= width r <= u32_max /\ 0 <= height r <= u32_max.

Definition rect_valid (r : Rect) : bool :=
  (0 <? width r) && (0 <? height r) && (width r <=? 32768) && (height r <=? 32768).

(** [i32::try_from(x).map_err(|_| InvalidRequest)] *)
Definition i32_try (x : Z) : res Z :=
  if in_range i32_min i32_max x then Ok x else Err InvalidRequest.

(** One coordinate: [i64::from(origin) + (x * f64::from(extent - 1)).round() as i64] *)
Definition map_axis (origin extent : Z) (x : f64) : Z :=
  origin + round_as i64_min i64_max (fmul x (f64_of_Z (extent - 1))).
Definition rect_map (r : Rect) (x y : f64) : res (Z * Z) :=
  if negb (rect_valid r) || negb (is_finite x) || negb (is_finite y) ||
     negb (in_unit x) || negb (in_unit y)
  then Err InvalidRequest else
  px ← i32_try (map_axis (left r) (width r) x);
  py ← i32_try (map_axis (top r) (height r) y);
  Ok (px, py).

(** One coordinate: [((d as f64) * 65535.0 / (extent - 1) as f64).round() as i32] *)
Definition absolute_axis (d extent : Z) : Z :=
  round_as i32_min i32_max
    (fdiv (fmul (f64_of_Z d) (f64_of_Z 65535)) (f64_of_Z (extent - 1))).
Definition rect_absolute (r : Rect) (x y : Z) : res (Z * Z) :=
  if negb (rect_valid r) || (width r <? 2) || (height r <? 2) then Err InvalidRequest else
  let dx := x - left r in
  let dy := y - top r in
  if (dx <? 0) || (dy <? 0) || (width r <=? dx) || (height r <=? dy)
  then Err InvalidRequest else
  Ok (absolute_axis dx (width r), absolute_axis dy (height r)).

Definition unletterbox (x y view_w view_h source_w source_h : f64) : option (f64 * f64) :=
  if existsb (fun v => negb (is_finite v)) [x; y; view_w; view_h; source_w; source_h] ||
     fleb view_w f64_zero || fleb view_h f64_zero ||
     fleb source_w f64_zero || fleb source_h f64_zero
  then None else
  let scale := fmin (fdiv view_w source_w) (fdiv view_h source_h) in
  let w := fmul source_w scale in
  let h := fmul source_h scale in
  let x := fdiv (fsub x (fdiv (fsub view_w w) (f64_of_Z 2))) w in
  let y := fdiv (fsub y (fdiv (fsub view_h h) (f64_of_Z 2))) h in
  if negb (in_unit x) || negb (in_unit y) then None else Some (x, y).

(** The source's tests. *)
Example rect_map_negative_monitor :
  let r := {| left := -1920; top := -200; width := 1920; height := 1080 |} in
  rect_map r f64_zero f64_zero = Ok (-1920, -200) /\ rect_map r f64_one f64_one = Ok (-1, 879).
Proof. by vm_compute. Qed.
Example unletterbox_runs :
  let f := f64_of_Z in
  unletterbox (f 0) (f 0) (f 1000) (f 1000) (f 1920) (f 1080) = None /\
  unletterbox (f 500) (f 500) (f 1000) (f 1000) (f 1920) (f 1080) =
    Some (fdiv f64_one (f 2), fdiv f64_one (f 2)).
Proof. by vm_compute. Qed.

(** ** Bounds *)
Lemma map_axis_between origin extent L x :
  between L 1 x -> 0 <= L -> 1 <= extent <= 32768 ->
  origin + L * (extent - 1) <= map_axis origin extent x <= origin + extent - 1.
Proof.
  intros Hx HL He. unfold map_axis.
  pose proof (fmul_between x (f64_of_Z (extent - 1)) L 1 (extent - 1) (extent - 1) Hx
    (f64_of_Z_between (extent - 1) ltac:(lia)) HL ltac:(lia) ltac:(lia) ltac:(lia) ltac:(lia)) as Hb.
  pose proof (to_int_between i64_min i64_max _ _ _ Hb ltac:(nia) ltac:(done)
    ltac:(unfold i64_max; lia)) as [? _]. unfold round_as in *. lia.
Qed.
Lemma map_axis_inside origin extent x :
  valid64 x -> in_unit x = true -> 1 <= extent <= 32768 ->
  origin <= map_axis origin extent x <= origin + extent - 1.
Proof.
  intros Hv Hu He. pose proof (map_axis_between origin extent 0 x (unit_between x Hv Hu)).
  lia.
Qed.
Lemma map_axis_edges origin extent :
  1 <= extent <= 32768 ->
  map_axis origin extent f64_zero = origin /\
  map_axis origin extent f64_one = origin + extent - 1.
Proof.
  intros He. pose proof (map_axis_between origin extent 1 f64_one one_between). split; [|lia].
  unfold map_axis, f64_zero. pose proof (f64_of_Z_between (extent - 1) ltac:(lia)) as Hb.
  destruct (f64_of_Z (extent - 1)) as [s|s| |s m e]; cbn in Hb; try done; cbn; lia.
Qed.
Lemma absolute_axis_range d extent :
  2 <= extent <= 32768 -> 0 <= d < extent ->
  0 <= absolute_axis d extent <= 65535 /\
  (d = extent - 1 -> absolute_axis d extent = 65535).
Proof.
  intros He Hd. unfold absolute_axis.
  assert (forall L, 0 <= L -> L * (extent - 1) <= d * 65535 ->
    L <= round_as i32_min i32_max
      (fdiv (fmul (f64_of_Z d) (f64_of_Z 65535)) (f64_of_Z (extent - 1))) <= 65535) as H.
  { intros L HL Hle. apply to_int_between; [|done|done|done].
    apply (fdiv_between _ _ (d * 65535) (d * 65535) (extent - 1)); try lia.
    - apply fmul_between; (lia || (apply f64_of_Z_between; lia)).
    - apply f64_of_Z_exactly. lia. }
  split; [apply H; lia|]. intros ->. pose proof (H 65535). lia.
Qed.

Lemma rect_valid_range r :
  rect_valid r = true -> 1 <= width r <= 32768 /\ 1 <= height r <= 32768.
Proof. unfold rect_valid. intros. bools. lia. Qed.
Lemma rect_map_inside r x y px py :
  valid64 x -> valid64 y -> rect_map r x y = Ok (px, py) ->
  left r <= px <= left r + width r - 1 /\ top r <= py <= top r + height r - 1.
Proof.
  intros Hvx Hvy. unfold rect_map, i32_try.
  destruct (_ || negb (in_unit y)) eqn:E; [done|]. bools.
  destruct (rect_valid_range r ltac:(done)) as [Hw Hh].
  pose proof (map_axis_inside (left r) (width r) x). pose proof (map_axis_inside (top r) (height r) y).
  destruct (in_range i32_min i32_max (map_axis (left r) _ _)); [cbn|done].
  destruct (in_range i32_min i32_max (map_axis (top r) _ _)); [cbn|done].
  intros [= <- <-]. auto.
Qed.

