(* ===== verification/MediaCore.v ===== *)
(** * Demand for the capture, the newest frame, the proof of a frame
    ([crates/rc-core/src/media.rs]) *)
From S2P Require Import Prelude Errors Geometry.
#[global] Open Scope Z_scope.

(** ** Who is watching *)
Record MediaDemand := { md_viewers : gset Uuid; md_idle_since : option Z }.
Definition demand_default : MediaDemand := {| md_viewers := ∅; md_idle_since := None |}.
Definition demand_subscribe (d : MediaDemand) (id : Uuid) : MediaDemand :=
  {| md_viewers := {[id]} ∪ md_viewers d; md_idle_since := None |}.
Definition demand_unsubscribe (d : MediaDemand) (id : Uuid) (now : Z) : MediaDemand :=
  let viewers := md_viewers d ∖ {[id]} in
  {| md_viewers := viewers;
     md_idle_since :=
       if bool_decide (viewers = ∅)
       then Some (match md_idle_since d with Some n => n | None => now end)
       else md_idle_since d |}.
Definition should_capture (d : MediaDemand) : bool := negb (bool_decide (md_viewers d = ∅)).
(** [now.duration_since(n)] is zero for a later [n]. *)
Definition idle_for (d : MediaDemand) (now wait : Z) : bool :=
  bool_decide (md_viewers d = ∅) &&
  match md_idle_since d with Some n => wait <=? saturating_sub now n | None => false end.
Definition release_resources (d : MediaDemand) (now : Z) : bool := idle_for d now 2000000000.
Definition should_exit (d : MediaDemand) (now : Z) : bool := idle_for d now 10000000000.

Inductive DemandOp : Type := Subscribe (id : Uuid) | Unsubscribe (id : Uuid) (now : Z).
Definition demand_op (d : MediaDemand) (o : DemandOp) : MediaDemand :=
  match o with
  | Subscribe id => demand_subscribe d id
  | Unsubscribe id now => demand_unsubscribe d id now
  end.
Definition demand_run : list DemandOp -> MediaDemand := foldl demand_op demand_default.
(** Since when nobody watches: the first [unsubscribe] of the last run of calls
    that left no viewer. *)
Fixpoint idle_start (viewers : gset Uuid) (since : option Z) (l : list DemandOp) : option Z :=
  match l with
  | [] => since
  | Subscribe id :: l => idle_start ({[id]} ∪ viewers) None l
  | Unsubscribe id now :: l =>
    let viewers := viewers ∖ {[id]} in
    idle_start viewers
      (match since with
       | Some n => Some n
       | None => if bool_decide (viewers = ∅) then Some now else None
       end) l
  end.
Definition demand_inv (d : MediaDemand) : Prop := md_viewers d <> ∅ -> md_idle_since d = None.
Lemma demand_op_inv d o : demand_inv d -> demand_inv (demand_op d o).
Proof.
  unfold demand_inv. destruct o as [id|id now]; cbn; [done|].
  intros Hd Hne. rewrite bool_decide_eq_false_2 by done. apply Hd. set_solver.
Qed.
Lemma demand_idle_gen l d :
  demand_inv d -> md_idle_since (foldl demand_op d l) = idle_start (md_viewers d) (md_idle_since d) l.
Proof.
  revert d. induction l as [|o l IH]; intros d Hd; [done|]. cbn [foldl].
  rewrite IH by by apply demand_op_inv. destruct o as [id|id now]; [done|].
  cbn [demand_op demand_unsubscribe md_viewers md_idle_since idle_start]. f_equal.
  case_bool_decide as He; [by destruct (md_idle_since d)|].
  destruct (md_idle_since d) eqn:E; [done|]. done.
Qed.
(** Resources are released two seconds, and the process exits ten seconds, after
    the last viewer left, and not while anybody watches.  (A demand that never
    had a viewer waits for the first one to leave.) *)
Lemma demand_correct l now :
  let d := demand_run l in
  should_exit d now =
    (negb (should_capture d) &&
     match idle_start ∅ None l with Some n => 10000000000 <=? saturating_sub now n | None => false end) /\
  (should_exit d now = true -> release_resources d now = true) /\
  (should_capture d = true -> release_resources d now = false).
Proof.
  intros d. pose proof (demand_idle_gen l demand_default) as Hi. cbn [md_viewers md_idle_since demand_default] in Hi.
  unfold should_exit, release_resources, idle_for, should_capture. subst d. unfold demand_run.
  rewrite negb_involutive, Hi by done. split_and!; [done| |].
  - intros [-> H]%andb_true_iff. cbn [andb]. destruct (idle_start ∅ None l); [|done]. lia.
  - by intros ->%negb_true_iff.
Qed.

(** ** The newest frame *)
Section LatestFrame.
Context {T : Type}.
Record LatestFrame := { lf_value : option T; lf_dropped : Z }.
Definition latest_default : LatestFrame := {| lf_value := None; lf_dropped := 0 |}.
Definition latest_replace (q : LatestFrame) (x : T) : LatestFrame :=
  {| lf_value := Some x;
     lf_dropped := if option_is_some (lf_value q) then wrap64 (lf_dropped q + 1) else lf_dropped q |}.
Definition latest_take (q : LatestFrame) : LatestFrame * option T :=
  ({| lf_value := None; lf_dropped := lf_dropped q |}, lf_value q).
(** A burst of frames: only the newest is ever taken, the others are counted. *)
Lemma latest_burst q l x :
  lf_value q = None -> 0 <= lf_dropped q -> lf_dropped q + zlen l <= u64_max ->
  latest_take (foldl latest_replace q (l ++ [x])) =
    ({| lf_value := None; lf_dropped := lf_dropped q + zlen l |}, Some x).
Proof.
  intros Hv H0 Hmax. rewrite foldl_app. cbn [foldl].
  assert (lf_dropped (latest_replace (foldl latest_replace q l) x) = lf_dropped q + zlen l) as Hd;
    [|unfold latest_take; cbn [latest_replace lf_value]; by rewrite Hd].
  revert x. induction l as [|y l IH] using rev_ind; intros x.
  { rewrite zlen_nil. cbn [foldl latest_replace lf_dropped]. rewrite Hv. cbn [option_is_some]. lia. }
  rewrite foldl_app, zlen_snoc. cbn [foldl]. pose proof (zlen_nonneg l).
  rewrite zlen_snoc in Hmax. specialize (IH ltac:(lia) y).
  unfold latest_replace at 1. cbn [lf_dropped lf_value latest_replace option_is_some].
  unfold latest_replace in IH at 1. cbn [lf_dropped] in IH. rewrite IH. rewrite wrap64_small; lia.
Qed.
End LatestFrame.

(** ** The proof of a frame *)
Record FrameProof := {
  fr_source : Uuid;
  fr_generation : Z;
  fr_geometry_version : Z;
  fr_rect : Rect;
  fr_received : Z
}.
Definition frame_proof_validate (p : FrameProof) (source : Uuid) (generation geometry now : Z)
  : res unit :=
  if negb (fr_source p =? source) || negb (fr_generation p =? generation) ||
     negb (fr_geometry_version p =? geometry) || (500000000 <? saturating_sub now (fr_received p))
  then Err SourceStale else Ok tt.
Lemma frame_proof_validate_ok p source generation geometry now :
  frame_proof_validate p source generation geometry now = Ok tt <->
  fr_source p = source /\ fr_generation p = generation /\ fr_geometry_version p = geometry /\
  now <= fr_received p + 500000000.
Proof.
  unfold frame_proof_validate, saturating_sub. destruct (_ || _) eqn:E; bools; split; intros; try done; lia.
Qed.
