(* ===== verification/MediaWire.v ===== *)
(** * The media-control protocol ([crates/rc-core/src/media_wire.rs])
    Messages between agent, media helper and client, and the validation of what
    crosses those boundaries: sources, profiles, GUI actions, ICE candidates, SDP
    texts and signalling lines.  Texts that are inspected byte by byte are the
    UTF-8 bytes of the Rust strings; JSON itself belongs to serde. *)
From Stdlib Require Import String SpecFloat.
From S2P Require Import Prelude Errors Text Float Geometry.
#[global] Open Scope Z_scope.

Definition MAX_SIGNAL : Z := 96 * 1024.

(** ** Sources and profiles *)
Inductive NativeSource : Type :=
| Window (handle : string) (pid : Z) (created : string)
| Monitor (handle : string) (device : string).
#[global] Instance NativeSource_eq_dec : EqDecision NativeSource.
Proof. solve_decision. Defined.

Definition native_handle (n : NativeSource) : sres Z :=
  let s := match n with Window handle _ _ | Monitor handle _ => handle end in
  match parse_unsigned u64_max s with
  | None => Err "Invalid native handle"%string
  | Some h =>
    if (h =? 0) || (u64_max <? h)   (* usize::MAX of a 64-bit host *)
    then Err "Invalid native handle"%string else Ok h
  end.
Definition native_kind (n : NativeSource) : string :=
  match n with Window _ _ _ => "window" | Monitor _ _ => "monitor" end.

Record LocalSource := { lo_native : NativeSource; lo_label : string; lo_rect : Rect }.
Record SourceView := {
  sv_id : Uuid;
  sv_generation : Z;
  sv_geometry_version : string;
  sv_label : string;
  sv_kind : string;
  sv_control_allowed : bool;
  sv_rect : Rect
}.

Record VideoProfile := { vp_width : Z; vp_height : Z; vp_fps : Z; vp_bitrate_kbps : Z }.
Definition profile_default : VideoProfile :=
  {| vp_width := 1280; vp_height := 720; vp_fps := 15; vp_bitrate_kbps := 2500 |}.
Definition profile_validate (p : VideoProfile) : sres unit :=
  if negb (in_range 64 1920 (vp_width p)) || negb (in_range 64 1080 (vp_height p)) ||
     negb (vp_width p mod 2 =? 0) || negb (vp_height p mod 2 =? 0) ||
     negb (in_range 1 30 (vp_fps p)) || negb (in_range 128 12000 (vp_bitrate_kbps p))
  then Err "Unsupported video resource profile"%string else Ok tt.
(** [((extent as f64 * k) as u32 / 2 * 2).max(64)] *)
Definition fit_axis (extent : Z) (k : f64) : Z :=
  Z.max (trunc_as 0 u32_max (fmul (f64_of_Z extent) k) / 2 * 2) 64.
Definition profile_fit (p : VideoProfile) (r : Rect) : sres VideoProfile :=
  match profile_validate p with
  | Err e => Err e
  | Ok _ =>
    if negb (rect_valid r) || (width r <? 64) || (height r <? 64)
    then Err "Capture source too small"%string else
    let k := fmin (fmin (fdiv (f64_of_Z (vp_width p)) (f64_of_Z (width r)))
                        (fdiv (f64_of_Z (vp_height p)) (f64_of_Z (height r)))) f64_one in
    Ok {| vp_width := fit_axis (width r) k; vp_height := fit_axis (height r) k;
          vp_fps := vp_fps p; vp_bitrate_kbps := vp_bitrate_kbps p |}
  end.
Example profile_fit_runs :
  profile_fit profile_default {| left := 0; top := 0; width := 3840; height := 2160 |} =
    Ok profile_default /\
  (p ← profile_fit profile_default {| left := 0; top := 0; width := 801; height := 603 |};
   Ok (vp_width p, vp_height p)) = Ok (800, 602).
Proof. by vm_compute. Qed.

(** ** Messages *)
Inductive MediaMode : Type := Hardware | SoftwareViewOnlySlow.
Inductive CaptureState : Type := Starting | Live | MinimizedOrStalled.
#[global] Instance CaptureState_eq_dec : EqDecision CaptureState.
Proof. solve_decision. Defined.

Record MediaInit := {
  mi_protocol : Z;
  mi_source : LocalSource;
  mi_profile : VideoProfile;
  mi_tailnet_ip : bytes;
  mi_min_port : Z;
  mi_max_port : Z
}.
Inductive GuiAction : Type :=
| Move (x y : f64)
| Button (x y : f64) (button : Z) (down : bool)
| Wheel (x y : f64) (delta : Z)
| Key (scan : Z) (extended down : bool)
| GText (text : bytes).
Inductive HelperIn : Type :=
| HiInit (config : MediaInit)
| HiAnswer (sdp : bytes)
| HiIce (candidate : bytes) (mline : Z)
| HiStop.
Inductive HelperOut : Type :=
| HoReady (protocol : Z)
| HoOffer (sdp : bytes)
| HoIce (candidate : bytes) (mline : Z)
| HoFrame (sequence : string) (captured_at_ms : Z)
| HoStatus (mode : MediaMode) (capture_state : CaptureState) (fps bitrate_kbps : Z)
    (adaptive_idle control_allowed awaiting_fresh_frame : bool)
| HoError (code : string)
| HoStopped.
Inductive MediaClientMessage : Type :=
| McAnswer (sdp : bytes)
| McIce (candidate : bytes) (mline : Z)
| McPresented (generation : Z) (geometry_version : string)
| McAcquire (generation : Z) (geometry_version : string)
| McRenew (lease_epoch : string)
| McRelease
| McInput (lease_epoch : string) (generation : Z) (geometry_version seq : string)
    (action : GuiAction)
| McRefreshAuth (ticket : string)
| McPing
| McStop.

(** ** Validation *)
Definition point_validate (x y : f64) : sres unit :=
  if is_finite x && is_finite y && in_unit x && in_unit y then Ok tt
  else Err "Invalid normalized point"%string.
Definition gui_validate (a : GuiAction) : sres unit :=
  match a with
  | Move x y => point_validate x y
  | Button x y button _ =>
    match point_validate x y with
    | Err e => Err e
    | Ok _ => if 2 <? button then Err "Unsupported button"%string else Ok tt
    end
  | Wheel x y delta =>
    match point_validate x y with
    | Err e => Err e
    | Ok _ => if negb (in_range (-1200) 1200 delta) then Err "Wheel out of range"%string
              else Ok tt
    end
  | Key scan _ _ => if in_range 1 88 scan then Ok tt else Err "Unsupported scan code"%string
  | GText text =>
    if (1024 <? utf16_len text) || existsb (Z.eqb 0) text
    then Err "Text too large/invalid"%string else Ok tt
  end.

(** One octet of an address: digits, at most three, no leading zero, [u8]. *)
Definition octet (s : bytes) : option Z :=
  if bool_decide (s = []) || (3 <? zlen s) ||
     ((1 <? zlen s) && bytes_starts_with s [48]) || negb (forallb is_ascii_digit s)
  then None else parse_unsigned_bytes 255 s.
Definition tailnet_ip (ip : bytes) : bool :=
  let parts := split_list (Z.eqb 46) ip [] in
  if negb (zlen parts =? 4) then false else
  match mapM octet parts with
  | Some n => (nth 0 n 0 =? 100) && in_range 64 127 (nth 1 n 0)
  | None => false
  end.

Definition media_init_validate (c : MediaInit) : sres unit :=
  match profile_validate (mi_profile c) with
  | Err e => Err e
  | Ok _ =>
    match native_handle (lo_native (mi_source c)) with
    | Err e => Err e
    | Ok _ =>
      if negb (mi_protocol c =? 1) || negb (rect_valid (lo_rect (mi_source c))) ||
         negb (tailnet_ip (mi_tailnet_ip c)) || (mi_min_port c <? 1024) ||
         (mi_max_port c <? mi_min_port c) || (31 <? mi_max_port c - mi_min_port c)
      then Err "Invalid media configuration"%string else Ok tt
    end
  end.

Definition bytes_eqb (a b : bytes) : bool := bool_decide (a = b).
Definition candidate_allowed (s : bytes) (exact_ip : option bytes) : bool :=
  if (2048 <? zlen s) || existsb (fun b => (b =? 13) || (b =? 10) || (b =? 0)) s then false else
  let p := split_whitespace s in
  let f := fun n => nth n p [] in
  (8 <=? zlen p) &&
  bytes_starts_with (f 0%nat) (str_bytes "candidate:") && (10 <? zlen (f 0%nat)) &&
  bytes_eqb (f 1%nat) [49] &&
  bytes_eqb (map ascii_lower (f 2%nat)) (str_bytes "udp") &&
  option_is_some (parse_unsigned_bytes u32_max (f 3%nat)) &&
  tailnet_ip (f 4%nat) && is_none_or (fun ip => bytes_eqb ip (f 4%nat)) exact_ip &&
  is_some_and (fun n => 0 <? n) (parse_unsigned_bytes u16_max (f 5%nat)) &&
  bytes_eqb (f 6%nat) (str_bytes "typ") && bytes_eqb (f 7%nat) (str_bytes "host").

(** ** SDP *)
Definition CRLF : bytes := [13; 10].
Definition sdp_lines (s : bytes) : list bytes := map trim_end_cr (str_lines s).
Definition is_m_line (l : bytes) : bool := bytes_starts_with l (str_bytes "m=").
Definition fingerprint_ok (l : bytes) : bool :=
  match strip_bytes (str_bytes "a=fingerprint:sha-256 ") l with
  | Some fp =>
    let b := split_list (Z.eqb 58) fp [] in
    (zlen b =? 32) && forallb (fun v => (zlen v =? 2) && forallb is_ascii_hexdigit v) b
  | None => false
  end.
Definition h264_line (l : bytes) : bool :=
  bytes_starts_with l (str_bytes "a=rtpmap:") &&
  bytes_ends_with (map ascii_upper l) (str_bytes " H264/90000").
Definition kept_line (l : bytes) : bool :=
  negb (bytes_starts_with l (str_bytes "a=candidate:")) &&
  negb (bytes_eqb l (str_bytes "a=end-of-candidates")).
Definition sanitize_sdp (s : bytes) : sres bytes :=
  if (65536 <? zlen s) || existsb (Z.eqb 0) s then Err "Invalid SDP size"%string else
  let lines := sdp_lines s in
  if negb (zlen (List.filter is_m_line lines) =? 1) ||
     negb (existsb (fun l => bytes_starts_with l (str_bytes "m=video ")) lines)
  then Err "Video only"%string else
  if negb (existsb fingerprint_ok lines) || negb (existsb h264_line lines)
  then Err "DTLS-SRTP H264 required"%string else
  Ok (join_bytes CRLF (List.filter kept_line lines) ++ CRLF).

(** ** Signalling lines *)
Section ReadLine.
Context {T : Type} (parse : bytes -> option T).   (* serde_json::from_slice *)

(** [take(limit).read_until(b'\n')]: the line with its LF, and the rest. *)
Fixpoint read_until (limit : nat) (input : bytes) : bytes * bytes :=
  match limit, input with
  | S n, b :: r =>
    if b =? 10 then ([b], r) else let '(l, rest) := read_until n r in (b :: l, rest)
  | _, _ => ([], input)
  end.
Definition read_json_line (input : bytes) : option (option T) * bytes :=
  let '(line, rest) := read_until (Z.to_nat (MAX_SIGNAL + 1)) input in
  if zlen line =? 0 then (Some None, rest) else
  if (MAX_SIGNAL <? zlen line) || negb (bool_decide (last line = Some 10))
  then (None, rest) else
  (match parse line with Some v => Some (Some v) | None => None end, rest).
End ReadLine.

Definition demo_fingerprint : bytes :=
  join_bytes [58] (repeat (str_bytes "Ab") 32).
Definition demo_sdp : bytes :=
  join_bytes CRLF [str_bytes "v=0"; str_bytes "m=video 9 UDP/TLS/RTP/SAVPF 96";
    str_bytes "a=candidate:1 1 udp 1 100.64.0.1 50000 typ host";
    str_bytes "a=rtpmap:96 h264/90000";
    app (str_bytes "a=fingerprint:sha-256 ") demo_fingerprint; str_bytes "a=end-of-candidates"].
Example media_wire_runs :
  tailnet_ip (str_bytes "100.64.0.1") = true /\ tailnet_ip (str_bytes "100.064.0.1") = false /\
  tailnet_ip (str_bytes "100.128.0.1") = false /\
  candidate_allowed (str_bytes "candidate:1 1 UDP 2130706431 100.100.1.2 50001 typ host")
    (Some (str_bytes "100.100.1.2")) = true /\
  candidate_allowed (str_bytes "candidate:1 1 UDP 2130706431 192.168.1.2 50001 typ host") None
    = false /\
  is_ok (sanitize_sdp demo_sdp) = true.
Proof. by vm_compute. Qed.

(** ** Splitting and joining *)
Definition free_of (c : Z) (l : bytes) : Prop := c ∉ l.

Lemma split_list_app c p r cur :
  free_of c p -> split_list (Z.eqb c) (p ++ r) cur = split_list (Z.eqb c) r (cur ++ p).
Proof.
  revert cur. induction p as [|x p IH]; intros cur Hp; [by rewrite app_nil_r|].
  apply not_elem_of_cons in Hp as [Hx Hp]. cbn. rewrite (proj2 (Z.eqb_neq c x)) by done.
  by rewrite IH, <- app_assoc.
Qed.
Lemma split_join c ps :
  Forall (free_of c) ps -> ps <> [] -> split_list (Z.eqb c) (join_bytes [c] ps) [] = ps.
Proof.
  induction ps as [|p [|q ps] IH]; intros Hf Hn; [done| |].
  - apply Forall_inv in Hf. cbn [join_bytes]. rewrite <- (app_nil_r p) at 1.
    by rewrite split_list_app.
  - apply Forall_cons in Hf as [Hp Hf].
    change (join_bytes [c] (p :: q :: ps)) with (p ++ c :: join_bytes [c] (q :: ps)).
    rewrite split_list_app by done. cbn [split_list]. rewrite Z.eqb_refl. f_equal.
    by apply IH.
Qed.
Lemma split_list_nonempty c l cur : split_list (Z.eqb c) l cur <> [].
Proof. revert cur. induction l; intros; cbn; [done|]. by case_match. Qed.
Lemma join_split c l cur : join_bytes [c] (split_list (Z.eqb c) l cur) = cur ++ l.
Proof.
  revert cur. induction l as [|x l IH]; intros cur; cbn [split_list]; [by rewrite app_nil_r|].
  destruct (Z.eqb_spec c x) as [->|]; [|by rewrite IH, <- app_assoc].
  pose proof (split_list_nonempty x l []). specialize (IH []).
  destruct (split_list (Z.eqb x) l []) as [|q qs]; [done|].
  change (join_bytes [x] (cur :: q :: qs)) with (cur ++ x :: join_bytes [x] (q :: qs)).
  by rewrite IH.
Qed.

(** ** Addresses of the tailnet *)
Definition dec_bytes (n : Z) : bytes := str_bytes (dec n).
Definition digit_strings : list bytes :=
  let d := seqZ 48 10 in
  map (fun a => [a]) d ++ flat_map (fun a => map (fun b => [a; b]) d) d ++
  flat_map (fun a => flat_map (fun b => map (fun c => [a; b; c]) d) d) d.
Definition octet_exact (s : bytes) : bool :=
  match octet s with Some v => bytes_eqb s (dec_bytes v) && in_range 0 255 v | None => true end.
Lemma octets_forward : forallb octet_exact digit_strings = true.
Proof. by vm_compute. Qed.
Definition octet_dec (v : Z) : bool :=
  bool_decide (octet (dec_bytes v) = Some v) && negb (existsb (Z.eqb 46) (dec_bytes v)).
Lemma octets_backward : forallb octet_dec (seqZ 0 256) = true.
Proof. by vm_compute. Qed.

Lemma digit_elem b : is_ascii_digit b = true -> In b (seqZ 48 10).
Proof.
  unfold is_ascii_digit. intros H%in_range_spec. apply list_elem_of_In, elem_of_seqZ. lia.
Qed.
Lemma octet_some s v : octet s = Some v -> s = dec_bytes v /\ 0 <= v <= 255.
Proof.
  intros Ho. assert (In s digit_strings) as Hin.
  { unfold octet in Ho. destruct (_ || negb (forallb _ _)) eqn:E; [done|]. bools.
    destruct s as [|a [|b [|c [|d s]]]]; [done| | | |].
    - cbn in *. bools. apply in_or_app. left. apply (in_map (fun a => [a])). by apply digit_elem.
    - cbn in *. bools. apply in_or_app. right. apply in_or_app. left. apply in_flat_map.
      exists a. split; [by apply digit_elem|]. apply (in_map (fun b => [a; b])). by apply digit_elem.
    - cbn in *. bools. apply in_or_app. right. apply in_or_app. right. apply in_flat_map.
      exists a. split; [by apply digit_elem|]. apply in_flat_map. exists b.
      split; [by apply digit_elem|]. apply (in_map (fun c => [a; b; c])). by apply digit_elem.
    - rewrite !zlen_cons in *. pose proof (zlen_nonneg s). lia. }
  pose proof octets_forward as Hf. rewrite forallb_forall in Hf. specialize (Hf _ Hin).
  unfold octet_exact in Hf. rewrite Ho in Hf. apply andb_true_iff in Hf as [Hs Hv].
  unfold bytes_eqb in Hs. bools. by apply in_range_spec in Hv.
Qed.
Lemma octet_dec_ok v : 0 <= v <= 255 -> octet (dec_bytes v) = Some v /\ free_of 46 (dec_bytes v).
Proof.
  intros Hv. pose proof octets_backward as Hb. rewrite forallb_forall in Hb.
  specialize (Hb v ltac:(apply list_elem_of_In, elem_of_seqZ; lia)). unfold octet_dec in Hb. bools.
  split; [done|]. intros Hin. apply not_true_iff_false in H0. apply H0.
  apply existsb_exists. exists 46. split; [by apply list_elem_of_In|done].
Qed.

(** The accepted addresses are the canonical texts of 100.64.0.0/10. *)
Definition tailnet_address (b c d : Z) : bytes := join_bytes [46] (map dec_bytes [100; b; c; d]).
Lemma tailnet_ip_exact ip :
  tailnet_ip ip = true <->
  exists b c d, 64 <= b <= 127 /\ 0 <= c <= 255 /\ 0 <= d <= 255 /\ ip = tailnet_address b c d.
Proof.
  unfold tailnet_ip, tailnet_address. split.
  - destruct (negb _) eqn:El; [done|]. bools.
    pose proof (join_split 46 ip []) as Hj. cbn [app] in Hj.
    destruct (split_list (Z.eqb 46) ip []) as [|p0 [|p1 [|p2 [|p3 [|]]]]];
      try (unfold zlen in El; cbn in El; lia).
    destruct (mapM octet [p0; p1; p2; p3]) as [n|] eqn:Em; [|done].
    apply mapM_Some in Em.
    repeat match goal with
    | H : Forall2 _ (_ :: _) _ |- _ => apply Forall2_cons_inv_l in H as (? & ? & ?%octet_some & ? & ->)
    | H : Forall2 _ [] _ |- _ => apply Forall2_nil_inv_l in H as ->
    end.
    cbn [nth]. intros Hn. bools. apply in_range_spec in H4. subst.
    exists x1, x0, x2. destruct H as [-> _], H0 as [-> ?], H1 as [-> ?], H2 as [-> ?]. done.
  - intros (b & c & d & Hb & Hc & Hd & ->).
    pose proof (octet_dec_ok 100 ltac:(lia)) as [O0 F0].
    pose proof (octet_dec_ok b ltac:(lia)) as [O1 F1].
    pose proof (octet_dec_ok c ltac:(lia)) as [O2 F2].
    pose proof (octet_dec_ok d ltac:(lia)) as [O3 F3].
    rewrite split_join by (cbn [map]; auto). cbn [map]. unfold zlen. cbn [length].
    assert (mapM octet [dec_bytes 100; dec_bytes b; dec_bytes c; dec_bytes d] = Some [100; b; c; d])
      as -> by (apply mapM_Some; auto). cbn. apply in_range_spec. lia.
Qed.

(** Only candidates of the private network pass.  An accepted ICE candidate
    is a single line without CR, LF or NUL of at most 2048 bytes, is a component-1
    UDP host candidate, carries a port in 1..65535, and its address is the
    canonical text of an IPv4 address in 100.64.0.0/10 - the exact configured one
    where one is given.  No other spelling of an address is accepted. *)
Theorem candidate_allowed_exact s exact :
  candidate_allowed s exact = true ->
  zlen s <= 2048 /\ 13 ∉ s /\ 10 ∉ s /\ 0 ∉ s /\
  (exists b c d, 64 <= b <= 127 /\ 0 <= c <= 255 /\ 0 <= d <= 255 /\
     nth 4 (split_whitespace s) [] = tailnet_address b c d /\
     (forall ip, exact = Some ip -> ip = tailnet_address b c d)) /\
  (exists port, 0 < port <= 65535 /\
     parse_unsigned_bytes u16_max (nth 5 (split_whitespace s) []) = Some port) /\
  nth 7 (split_whitespace s) [] = str_bytes "host".
Proof.
  unfold candidate_allowed. destruct (_ || existsb _ s) eqn:E; [done|]. bools.
  intros Hc. bools. unfold bytes_eqb in *. bools.
  assert (forall b, b ∈ s -> (b =? 13) || (b =? 10) || (b =? 0) = false) as Hchars.
  { intros b Hb. apply not_true_iff_false. intros Ht. apply not_true_iff_false in H0.
    apply H0, existsb_exists. exists b. split; [by apply list_elem_of_In|done]. }
  match goal with H : tailnet_ip _ = true |- _ =>
    apply tailnet_ip_exact in H as (b & c & d & Hb & Hc' & Hd & Hip) end.
  split; [done|]. split; [intros Hi; by specialize (Hchars _ Hi)|].
  split; [intros Hi; by specialize (Hchars _ Hi)|].
  split; [intros Hi; by specialize (Hchars _ Hi)|].
  split; [|split].
  - exists b, c, d. repeat split; try lia; [done|]. intros ip ->.
    match goal with H : is_none_or _ _ = true |- _ => cbn in H end. bools. by rewrite <- Hip.
  - match goal with H : is_some_and _ ?o = true |- _ => destruct o as [port|] eqn:Ep; [|done] end.
    exists port. cbn in *. bools. split; [|done]. split; [done|].
    revert Ep. unfold parse_unsigned_bytes. clear.
    assert (forall l acc, acc <= 65535 -> parse_digits u16_max acc l = Some port -> port <= 65535) as Hd.
    { induction l as [|x l IH]; cbn; intros acc Ha; [by intros [= <-]|].
      destruct (is_ascii_digit x); [|done]. destruct (Z.ltb_spec u16_max (acc * 10 + (x - 48))); [done|].
      apply IH. unfold u16_max in *. lia. }
    repeat case_match; try done; intros; eapply (Hd _ 0); done || lia.
  - done.
Qed.
Lemma candidate_allowed_exact_witness :
  let s := str_bytes "candidate:1 1 UDP 2130706431 100.100.1.2 50001 typ host" in
  candidate_allowed s (Some (str_bytes "100.100.1.2")) = true /\ zlen s <= 2048.
Proof.
  intros s. assert (candidate_allowed s (Some (str_bytes "100.100.1.2")) = true) as H
    by (by vm_compute).
  split; [exact H|]. exact (proj1 (candidate_allowed_exact s _ H)).
Defined.

(** ** Lines of an SDP text *)
Lemma drop_crs_sublist l : forall b, b ∈ drop_crs l -> b ∈ l.
Proof.
  induction l as [|x l IH]; [done|]. intros b Hb.
  assert (b ∈ drop_crs l \/ b ∈ x :: l) as [H|H]; [|right; by apply IH|done].
  revert Hb. cbn. repeat case_match; auto.
Qed.
Lemma drop_crs_idem l : drop_crs (drop_crs l) = drop_crs l.
Proof. induction l as [|x l IH]; [done|]. cbn. repeat case_match; done. Qed.
Lemma trim_end_cr_idem l : trim_end_cr (trim_end_cr l) = trim_end_cr l.
Proof. unfold trim_end_cr. by rewrite rev_involutive, drop_crs_idem. Qed.
Lemma trim_end_cr_elem l b : b ∈ trim_end_cr l -> b ∈ l.
Proof.
  unfold trim_end_cr. intros Hb. apply list_elem_of_In, in_rev, list_elem_of_In.
  apply drop_crs_sublist. by apply list_elem_of_In, in_rev, list_elem_of_In.
Qed.

Lemma split_lines_piece l cur p b :
  10 ∉ cur -> p ∈ split_lines l cur -> b ∈ p -> b <> 10 /\ (b ∈ cur \/ b ∈ l).
Proof.
  assert (forall cur, b ∈ (match rev cur with 13 :: c => rev c | _ => cur end) -> b ∈ cur) as Hcr.
  { intros c Hb. destruct (rev c) as [|x c'] eqn:E; [done|].
    destruct (decide (x = 13)) as [->|].
    - apply (f_equal (@rev Z)) in E. rewrite rev_involutive in E. rewrite E. cbn.
      apply elem_of_app. by left.
    - destruct (decide (b ∈ c)); [done|]. revert Hb. repeat case_match; done. }
  revert cur. induction l as [|x l IH]; intros cur Hcur Hp Hb; cbn in Hp.
  - destruct cur as [|y cur]; [by apply elem_of_nil in Hp|].
    apply list_elem_of_singleton in Hp as ->. split; [by intros ->|by left].
  - destruct (Z.eqb_spec x 10) as [->|Hx].
    + apply elem_of_cons in Hp as [->|Hp].
      * apply Hcr in Hb. split; [by intros ->|by left].
      * destruct (IH [] ltac:(apply not_elem_of_nil) Hp Hb) as [? [Hn|?]];
          [by apply elem_of_nil in Hn|]. split; [done|]. right. by right.
    + destruct (IH (cur ++ [x])) as [? [Ha|?]]; try done.
      * rewrite elem_of_app, list_elem_of_singleton. intros [?|?]; [done|by subst].
      * split; [done|]. apply elem_of_app in Ha as [?|Ha%list_elem_of_singleton]; [by left|].
        subst. right. left.
      * split; [done|]. right. by right.
Qed.
Lemma sdp_lines_piece s p b : p ∈ sdp_lines s -> b ∈ p -> b <> 10 /\ b ∈ s.
Proof.
  unfold sdp_lines, str_lines. intros (q & -> & Hq)%list_elem_of_fmap Hb%trim_end_cr_elem.
  destruct (split_lines_piece s [] q b ltac:(apply not_elem_of_nil) Hq Hb) as [? [Hn|?]];
    [by apply elem_of_nil in Hn|done].
Qed.
Lemma sdp_lines_trimmed s p : p ∈ sdp_lines s -> trim_end_cr p = p.
Proof. intros (q & -> & Hq)%list_elem_of_fmap. apply trim_end_cr_idem. Qed.

Lemma split_lines_app p r cur : 10 ∉ p -> split_lines (p ++ r) cur = split_lines r (cur ++ p).
Proof.
  revert cur. induction p as [|x p IH]; intros cur Hp; [by rewrite app_nil_r|].
  apply not_elem_of_cons in Hp as [Hx Hp]. cbn. rewrite (proj2 (Z.eqb_neq x 10)) by done.
  by rewrite IH, <- app_assoc.
Qed.
Lemma split_lines_crlf ls :
  Forall (fun l => 10 ∉ l) ls -> ls <> [] ->
  split_lines (join_bytes CRLF ls ++ CRLF) [] = ls.
Proof.
  assert (forall l r, 10 ∉ l -> split_lines (l ++ CRLF ++ r) [] = l :: split_lines r []) as Hone.
  { intros l r Hl. rewrite split_lines_app by done. cbn [split_lines CRLF app Z.eqb Pos.eqb].
    rewrite rev_app_distr. cbn [rev app]. by rewrite rev_involutive. }
  induction ls as [|l [|k ls] IH]; intros Hf Hn; [done| |].
  - apply Forall_inv in Hf. cbn [join_bytes]. rewrite <- (app_nil_r CRLF) at 1. by rewrite Hone.
  - apply Forall_cons in Hf as [Hl Hf].
    change (join_bytes CRLF (l :: k :: ls)) with (l ++ CRLF ++ join_bytes CRLF (k :: ls)).
    rewrite <- !app_assoc, Hone by done. f_equal. by apply IH.
Qed.
Lemma sdp_lines_join ls :
  Forall (fun l => 10 ∉ l /\ trim_end_cr l = l) ls -> ls <> [] ->
  sdp_lines (join_bytes CRLF ls ++ CRLF) = ls.
Proof.
  intros Hf Hn. unfold sdp_lines, str_lines.
  rewrite split_lines_crlf by first [done | eapply Forall_impl; [exact Hf|]; naive_solver].
  clear Hn. induction Hf as [|l ls [_ Hl] _ IH]; [done|]. cbn. by rewrite Hl, IH.
Qed.
Lemma join_bytes_elem sep ls b :
  b ∈ join_bytes sep ls -> b ∈ sep \/ exists l, l ∈ ls /\ b ∈ l.
Proof.
  induction ls as [|l [|k ls] IH]; cbn [join_bytes]; [by intros ?%elem_of_nil| |].
  - intros Hb. right. exists l. split; [left|done].
  - rewrite !elem_of_app. intros [Hb|[Hb|Hb]]; [right; exists l; by split; [left|]|by left|].
    destruct (IH Hb) as [?|(k' & ? & ?)]; [by left|]. right. exists k'. by split; [right|].
Qed.

(** The lines [sanitize_sdp] looks for are never the ones it drops. *)
Lemma head_kept (x : Z) p l :
  bytes_starts_with l (x :: p) = true -> x <> 97 -> kept_line l = true.
Proof.
  intros Hs Hx. destruct l as [|z l]; [done|].
  unfold bytes_starts_with in Hs. cbn in Hs.
  destruct (Z.eqb_spec z x) as [->|]; [|done].
  unfold kept_line, bytes_eqb. apply andb_true_iff. split; apply negb_true_iff.
  - unfold bytes_starts_with.
    change (str_bytes "a=candidate:") with (97 :: str_bytes "=candidate:").
    cbn [strip_bytes]. by rewrite (proj2 (Z.eqb_neq x 97)).
  - apply bool_decide_eq_false.
    change (str_bytes "a=end-of-candidates") with (97 :: str_bytes "=end-of-candidates").
    by intros [= ? ?].
Qed.
Lemma m_line_kept l : is_m_line l = true -> kept_line l = true.
Proof. intros H. by apply (head_kept 109 _ l H). Qed.
Lemma attribute_kept (x : Z) p l :
  bytes_starts_with l (97 :: 61 :: x :: p) = true -> x <> 99 -> x <> 101 ->
  kept_line l = true.
Proof.
  intros Hs Hc He. destruct l as [|a [|b [|c l]]]; try (unfold bytes_starts_with in Hs; cbn in Hs;
    repeat case_match; done).
  unfold bytes_starts_with in Hs. cbn in Hs.
  destruct (Z.eqb_spec a 97) as [->|]; [|done]. destruct (Z.eqb_spec b 61) as [->|]; [|done].
  destruct (Z.eqb_spec c x) as [->|]; [|done].
  unfold kept_line, bytes_eqb. apply andb_true_iff. split; apply negb_true_iff.
  - unfold bytes_starts_with.
    change (str_bytes "a=candidate:") with (97 :: 61 :: 99 :: str_bytes "andidate:").
    cbn [strip_bytes Z.eqb Pos.eqb]. by rewrite (proj2 (Z.eqb_neq x 99)).
  - apply bool_decide_eq_false.
    change (str_bytes "a=end-of-candidates") with (97 :: 61 :: 101 :: str_bytes "nd-of-candidates").
    by intros [= ? ?].
Qed.
Lemma fingerprint_kept l : fingerprint_ok l = true -> kept_line l = true.
Proof.
  unfold fingerprint_ok. destruct (strip_bytes _ l) eqn:E; [|done]. intros _.
  eapply (attribute_kept 102); [|done|done]. unfold bytes_starts_with.
  change (strip_bytes (str_bytes "a=fingerprint:sha-256 ") l) with
    (strip_bytes (97 :: 61 :: 102 :: str_bytes "ingerprint:sha-256 ") l) in E.
  by rewrite E.
Qed.
Lemma h264_kept l : h264_line l = true -> kept_line l = true.
Proof.
  unfold h264_line. intros [H _]%andb_true_iff. by apply (attribute_kept 114 (str_bytes "tpmap:") l H).
Qed.
Lemma filter_kept_same (f : bytes -> bool) ls :
  (forall l, f l = true -> kept_line l = true) ->
  List.filter f (List.filter kept_line ls) = List.filter f ls.
Proof.
  intros Hf. induction ls as [|l ls IH]; [done|]. cbn.
  destruct (kept_line l) eqn:E; cbn; [by rewrite IH|].
  destruct (f l) eqn:E'; [|done]. apply Hf in E'. congruence.
Qed.
Lemma existsb_kept_same (f : bytes -> bool) ls :
  (forall l, f l = true -> kept_line l = true) ->
  existsb f (List.filter kept_line ls) = existsb f ls.
Proof.
  intros Hf. induction ls as [|l ls IH]; [done|]. cbn.
  destruct (kept_line l) eqn:E; cbn; [by rewrite IH|].
  destruct (f l) eqn:E'; [apply Hf in E'; congruence|]. done.
Qed.
Lemma filter_filter (f : bytes -> bool) ls : List.filter f (List.filter f ls) = List.filter f ls.
Proof. induction ls as [|l ls IH]; [done|]. cbn. destruct (f l) eqn:E; cbn; by rewrite ?E, IH. Qed.

Lemma video_m_line l : bytes_starts_with l (str_bytes "m=video ") = true -> is_m_line l = true.
Proof.
  unfold is_m_line, bytes_starts_with.
  change (str_bytes "m=video ") with (109 :: 61 :: str_bytes "video ").
  change (str_bytes "m=") with [109; 61]. destruct l as [|a [|b l]]; cbn [strip_bytes];
    [done|by destruct (a =? 109)|]. by destruct (a =? 109), (b =? 61).
Qed.
(** Lines of a text without a zero byte, joined again. *)
Lemma joined_no_nul s ls :
  existsb (Z.eqb 0) s = false -> (forall l, l ∈ ls -> l ∈ sdp_lines s) ->
  existsb (Z.eqb 0) (join_bytes CRLF ls ++ CRLF) = false.
Proof.
  intros Hnul Hls. apply not_true_iff_false. intros (b & Hb & <-%Z.eqb_eq)%existsb_exists.
  apply list_elem_of_In, elem_of_app in Hb as [Hb|Hb]; [|by apply list_elem_of_In in Hb; cbn in Hb; lia].
  apply join_bytes_elem in Hb as [Hb|(l & Hl & Hb)]; [by apply list_elem_of_In in Hb; cbn in Hb; lia|].
  destruct (sdp_lines_piece _ _ _ (Hls _ Hl) Hb) as [_ H0]. apply not_true_iff_false in Hnul.
  apply Hnul, existsb_exists. exists 0. split; [by apply list_elem_of_In|done].
Qed.
(** A sanitized SDP text is what a reader of its lines will see.  When
    [sanitize_sdp] answers a text, the lines of that text are exactly the lines
    of the input that are neither candidates nor end-of-candidates, in order:
    exactly one media line, which is video, a SHA-256 fingerprint of 32 octets
    and an H264 mapping are among them, and no line is a candidate.  Sanitizing
    again changes nothing (unless line endings made it exceed the size limit). *)
Theorem sanitize_sdp_correct s t :
  sanitize_sdp s = Ok t ->
  sdp_lines t = List.filter kept_line (sdp_lines s) /\
  (forall l, l ∈ sdp_lines t -> bytes_starts_with l (str_bytes "a=candidate:") = false) /\
  (exists m, List.filter is_m_line (sdp_lines t) = [m] /\
     bytes_starts_with m (str_bytes "m=video ") = true) /\
  existsb fingerprint_ok (sdp_lines t) = true /\ existsb h264_line (sdp_lines t) = true /\
  (zlen t <= 65536 -> sanitize_sdp t = Ok t).
Proof.
  unfold sanitize_sdp at 1. destruct (_ || existsb _ s) eqn:Es; [done|].
  destruct (_ || negb (existsb _ _)) eqn:Em; [done|].
  destruct (negb (existsb fingerprint_ok _) || _) eqn:Ef; [done|]. intros [= <-]. bools.
  set (ls := sdp_lines s) in *. set (t := join_bytes CRLF _ ++ CRLF).
  match goal with H : existsb (fun l => bytes_starts_with l _) ls = true |- _ => rename H into Hvid end.
  match goal with H : existsb (Z.eqb 0) s = false |- _ => rename H into Hnul end.
  match goal with H : zlen (List.filter _ _) = 1 |- _ => rename H into Hone end.
  match goal with H : existsb fingerprint_ok _ = true |- _ => rename H into Hfp end.
  match goal with H : existsb h264_line _ = true |- _ => rename H into Hh end.
  assert (List.filter kept_line ls <> []) as Hne.
  { intros Hn. rewrite <- (existsb_kept_same _ _ h264_kept), Hn in Hh. done. }
  assert (sdp_lines t = List.filter kept_line ls) as Ht.
  { apply sdp_lines_join; [|done]. apply Forall_forall. intros l Hl.
    apply list_elem_of_In, filter_In in Hl as [Hl _]. apply list_elem_of_In in Hl.
    split; [|by eapply sdp_lines_trimmed].
    intros H10. by destruct (sdp_lines_piece _ _ _ Hl H10). }
  split; [done|]. rewrite Ht.
  rewrite !(existsb_kept_same _ _ fingerprint_kept), !(existsb_kept_same _ _ h264_kept).
  rewrite (filter_kept_same _ _ m_line_kept).
  split; [|split; [|split; [done|split; [done|]]]].
  - intros l Hl%list_elem_of_In%filter_In. destruct Hl as [_ Hk].
    unfold kept_line in Hk. by bools.
  - destruct (List.filter is_m_line ls) as [|m [|? ?]] eqn:Em; unfold zlen in Hone; cbn in Hone; try lia.
    exists m. split; [done|]. apply existsb_exists in Hvid as (l & Hl & Hv).
    assert (In l (List.filter is_m_line ls)) as Hin by (apply filter_In; auto using video_m_line).
    rewrite Em in Hin. by destruct Hin as [->|[]].
  - intros Hsz. unfold sanitize_sdp. rewrite Ht.
    assert ((65536 <? zlen t) || existsb (Z.eqb 0) t = false) as ->.
    { bools; [done|]. apply (joined_no_nul s); [done|]. intros l Hl.
      apply list_elem_of_In, filter_In in Hl as [Hl _]. by apply list_elem_of_In. }
    rewrite (filter_kept_same _ _ m_line_kept), !(existsb_kept_same _ _ fingerprint_kept),
      !(existsb_kept_same _ _ h264_kept), filter_filter.
    rewrite (existsb_kept_same _ ls) by (intros l Hl; by apply m_line_kept, video_m_line).
    rewrite Hone, Hvid, Hfp, Hh. done.
Qed.
Definition demo_sanitized : bytes :=
  match sanitize_sdp demo_sdp with Ok t => t | Err _ => [] end.
Lemma sanitize_sdp_correct_witness :
  sanitize_sdp demo_sdp = Ok demo_sanitized /\ zlen demo_sanitized < zlen demo_sdp /\
  sanitize_sdp demo_sanitized = Ok demo_sanitized.
Proof.
  assert (sanitize_sdp demo_sdp = Ok demo_sanitized) as E by (by vm_compute).
  split; [exact E|]. split; [by vm_compute|].
  apply (sanitize_sdp_correct demo_sdp demo_sanitized E). by vm_compute.
Defined.
