(* ===== verification/Windows.v ===== *)
(** * Identity on Windows ([crates/rc-platform-windows/src/windows.rs], [dpi.rs])
    Who a process belongs to, since when it runs and how trusted it is; who is at the
    other end of the local pipe; which process listens on a loopback port; the
    security descriptors; the scoped DPI context.  The answers of the system's calls
    are a record; handles and buffers that only live inside a call are not modelled. *)
From Stdlib Require Import String.
From S2P Require Import Prelude Text Paths Terminal Autostart.
#[global] Open Scope Z_scope.
Open Scope string_scope.
Open Scope Z_scope.

(** [String::from_utf16_lossy]: a unit that is half a pair becomes U+FFFD. *)
Fixpoint from_utf16_lossy (l : list Z) : list Z :=
  match l with
  | [] => []
  | u :: r =>
    if (u <? 55296) || (57343 <? u) then u :: from_utf16_lossy r else
    match r with
    | v :: r' =>
      if (u <? 56320) && in_range 56320 57343 v
      then 65536 + (u - 55296) * 1024 + (v - 56320) :: from_utf16_lossy r'
      else 65533 :: from_utf16_lossy r
    | [] => [65533]
    end
  end.
Definition lossy_text (l : list Z) : string :=
  bytes_str (concat (map encode_utf8 (from_utf16_lossy l))).
(** The units in front of the first NUL. *)
Fixpoint until_nul (l : list Z) : list Z :=
  match l with [] => [] | u :: r => if u =? 0 then [] else u :: until_nul r end.

(** ** What the system answers about a process *)
Record ProcessInfo := {
  pr_open : option string;             (* OpenProcess: its error *)
  pr_times : option (Z * Z);           (* GetProcessTimes: created, high and low half *)
  pr_image : option (list Z);          (* QueryFullProcessImageNameW *)
  pr_token : bool;                     (* OpenProcessToken *)
  pr_user_length : Z;                  (* GetTokenInformation(TokenUser): the length, *)
  pr_user : bool;                      (* and whether it then succeeds *)
  pr_sid : bytes;                      (* GetLengthSid and what CopySid copies *)
  pr_copy : bool;
  pr_session : option Z;               (* ProcessIdToSessionId *)
  pr_label_length : Z;                 (* GetTokenInformation(TokenIntegrityLevel) *)
  pr_label : bool;
  pr_authorities : list Z              (* the sub-authorities of the label's SID *)
}.
(** A row of the TCP owner table. *)
Record TcpRow := { tr_port : Z; tr_addr : list Z; tr_pid : Z }.
Record TcpTable := {
  tc_size : Z;                         (* the size first reported *)
  tc_result : Z;
  tc_size_after : Z;
  tc_entries : Z;                      (* dwNumEntries *)
  tc_rows : list TcpRow                (* what the memory holds *)
}.
Record System := {
  sy_me : Z;
  sy_process : Z -> ProcessInfo;
  sy_sid_text : bytes -> option (list Z);   (* ConvertSidToStringSidW *)
  sy_tcp : TcpTable
}.

Section Windows.
Context (sy : System).

Definition open_process (pid : Z) : sres ProcessInfo :=
  let p := sy_process sy pid in
  match pr_open p with Some e => Err e | None => Ok p end.
Definition process_created (pid : Z) : sres Z :=
  match open_process pid with
  | Err e => Err e
  | Ok p =>
    match pr_times p with
    | None => Err "GetProcessTimes failed"
    | Some (high, low) => Ok (Z.lor (Z.shiftl high 32) low)
    end
  end.
Definition process_image_path (pid : Z) : sres string :=
  match open_process pid with
  | Err e => Err e
  | Ok p =>
    match pr_image p with
    | None => Err "QueryFullProcessImageNameW failed"
    | Some units => Ok (lossy_text units)
    end
  end.
Definition token_sid (pid : Z) : sres bytes :=
  match open_process pid with
  | Err e => Err e
  | Ok p =>
    if negb (pr_token p) then Err "OpenProcessToken failed" else
    if (pr_user_length p =? 0) || (65536 <? pr_user_length p)
    then Err "Invalid token information length" else
    if negb (pr_user p) then Err "GetTokenInformation failed" else
    if (zlen (pr_sid p) =? 0) || (1024 <? zlen (pr_sid p)) then Err "Invalid SID" else
    if negb (pr_copy p) then Err "CopySid failed" else Ok (pr_sid p)
  end.
Definition sid_string (sid : bytes) : sres string :=
  match sy_sid_text sy sid with
  | None => Err "SID conversion failed"
  | Some units => Ok (lossy_text units)
  end.
Definition current_user_sid_string : sres string :=
  match token_sid (sy_me sy) with Err e => Err e | Ok sid => sid_string sid end.
Definition pipe_name (sha256 : bytes -> bytes) : sres string :=
  match token_sid (sy_me sy) with
  | Err e => Err e
  | Ok sid => Ok ("\\.\pipe\RemoteCodex-" ++ bytes_str (hex_bytes (take 12 (sha256 sid))))
  end.

(** [account], [session]: the messages when they differ. *)
Definition same_identity (account session : string) (pid : Z) : sres () :=
  match token_sid pid with
  | Err e => Err e
  | Ok theirs =>
    match token_sid (sy_me sy) with
    | Err e => Err e
    | Ok ours =>
      if negb (bool_decide (theirs = ours)) then Err account else
      match pr_session (sy_process sy pid), pr_session (sy_process sy (sy_me sy)) with
      | Some peer, Some me => if peer =? me then Ok tt else Err session
      | _, _ => Err session
      end
    end
  end.
(** [peer]: the process id GetNamedPipe{Client,Server}ProcessId reports. *)
Definition verify_pipe_peer (peer : option Z) : sres () :=
  match peer with
  | None => Err "Cannot verify local pipe peer"
  | Some pid =>
    same_identity "Different Windows account" "Different interactive Windows session" pid
  end.
Definition same_user_process : Z -> sres () :=
  same_identity "Different Windows account" "Different Windows session".

Definition integrity (pid : Z) : sres Z :=
  match open_process pid with
  | Err e => Err e
  | Ok p =>
    if negb (pr_token p) then Err "Token unavailable" else
    if (pr_label_length p =? 0) || (65536 <? pr_label_length p)
    then Err "Invalid integrity data" else
    if negb (pr_label p) then Err "Integrity unavailable" else
    match last (pr_authorities p) with
    | None => Err "Invalid integrity SID"
    | Some level => Ok level
    end
  end.
Definition gui_integrity_permitted (pid : Z) : sres () :=
  match same_user_process pid with
  | Err e => Err e
  | Ok _ =>
    match integrity pid with
    | Err e => Err e
    | Ok theirs =>
      match integrity (sy_me sy) with
      | Err e => Err e
      | Ok ours =>
        if ours <? theirs then Err "Higher-integrity target is not supported" else Ok tt
      end
    end
  end.

(** ** Security descriptors *)
Definition local_sddl (sid : string) : string := "D:P(A;;GA;;;SY)(A;;GA;;;" ++ sid ++ ")".
Definition directory_sddl (sid : string) : string :=
  "D:P(A;OICI;GA;;;SY)(A;OICI;GA;;;" ++ sid ++ ")".
(** [build]: ConvertStringSecurityDescriptorToSecurityDescriptorW. *)
Definition local_security (sddl : string -> string) (build : string -> bool) (failed : string)
  : sres string :=
  match current_user_sid_string with
  | Err e => Err e
  | Ok sid => if build (sddl sid) then Ok (sddl sid) else Err failed
  end.
Definition LocalSecurity_new (build : string -> bool) : sres string :=
  local_security local_sddl build "Build local DACL failed".
Definition LocalSecurity_directory (build : string -> bool) : sres string :=
  local_security directory_sddl build "Build data-directory DACL failed".
(** The DACL a directory has: [None] as it was. *)
Inductive DirEffect : Type := DirCreated | DirProtected (sddl : string).
Definition restrict_data_dir (created : sres ()) (build : string -> bool) (set_ok : sres ())
  : list DirEffect * sres () :=
  match created with
  | Err e => ([], Err e)
  | Ok _ =>
    match LocalSecurity_directory build with
    | Err e => ([DirCreated], Err e)
    | Ok sddl =>
      match set_ok with
      | Err _ => ([DirCreated], Err "Protect Agent data directory")
      | Ok _ => ([DirCreated; DirProtected sddl], Ok tt)
      end
    end
  end.

(** ** Who listens on a loopback port *)
(** [u16::from_be] of the low half of the row's port *)
Definition row_port (r : TcpRow) : Z := tr_port r mod 256 * 256 + tr_port r / 256 mod 256.
Definition TCP_ROW : Z := 24.                  (* size_of::<MIB_TCPROW_OWNER_PID>() *)
Fixpoint find_listener (port : Z) (found : option Z) (rows : list TcpRow) : sres (option Z) :=
  match rows with
  | [] => Ok found
  | r :: rows =>
    if negb (row_port r =? port) then find_listener port found rows else
    if bool_decide (tr_addr r = [0; 0; 0; 0])
    then Err "Upstream binds all interfaces; bind it to 127.0.0.1 first" else
    if bool_decide (tr_addr r = [127; 0; 0; 1]) then
      match found with
      | Some _ => Err "Ambiguous listener ownership"
      | None => find_listener port (Some (tr_pid r)) rows
      end
    else find_listener port found rows
  end.
Definition loopback_listener_identity (port : Z) : sres (Z * Z) :=
  let t := sy_tcp sy in
  if (tc_size t <? 4) || (16 * 1024 * 1024 <? tc_size t) then Err "Invalid TCP owner table" else
  if negb (tc_result t =? 0) then Err ("Read TCP owner table failed: " ++ dec (tc_result t)) else
  if wrap64 (tc_size_after t - 4) / TCP_ROW <? tc_entries t then Err "Truncated TCP table" else
  match find_listener port None (take (Z.to_nat (tc_entries t)) (tc_rows t)) with
  | Err e => Err e
  | Ok None => Err "No IPv4 loopback listener"
  | Ok (Some pid) =>
    match process_created pid with Err e => Err e | Ok created => Ok (pid, created) end
  end.
End Windows.

(** ** The DPI context of a thread ([DpiGuard]) *)
Definition PER_MONITOR_AWARE_V2 : Z := -4.
(** [previous]: what SetThreadDpiAwarenessContext returns, 0 when it fails.  The
    thread's context afterwards, and the result of what ran in between. *)
Definition with_dpi {A} (context : Z) (supported : bool) (body : Z -> sres A) : Z * sres A :=
  if negb supported then (context, Err "Per-monitor DPI context unavailable")
  else (context, body PER_MONITOR_AWARE_V2).

(** ** UTF-16 from the system *)
(** Well-formed text is read as it is. *)
Lemma from_utf16_lossy_encode s r :
  Forall is_scalar s -> from_utf16_lossy (app (chars_utf16 s) r) = app s (from_utf16_lossy r).
Proof.
  unfold chars_utf16. induction 1 as [|c s Hc Hs IH]; cbn [map concat app]; [done|].
  rewrite <- app_assoc.
  destruct (char_utf16_cases c Hc) as [(-> & _ & Hr)|(u & v & -> & Hu & Hv & ->)];
    cbn [app from_utf16_lossy].
  - replace ((c <? 55296) || (57343 <? c)) with true by (symmetry; apply orb_true_iff; lia).
    by rewrite IH.
  - replace ((u <? 55296) || (57343 <? u)) with false by (symmetry; apply orb_false_iff; lia).
    unfold in_range. replace ((u <? 56320) && ((56320 <=? v) && (v <=? 57343))) with true
      by (symmetry; rewrite !andb_true_iff; lia).
    by rewrite IH.
Qed.
Example lossy_runs :
  from_utf16_lossy [65; 55357; 56832; 55357; 66; 56832] = [65; 128512; 65533; 66; 65533] /\
  lossy_text (until_nul [82; 67; 0; 88]) = "RC".
Proof. by vm_compute. Qed.

(** ** Identity *)
Lemma process_created_halves sy pid high low :
  pr_open (sy_process sy pid) = None -> pr_times (sy_process sy pid) = Some (high, low) ->
  0 <= low <= u32_max -> process_created sy pid = Ok (high * 2 ^ 32 + low).
Proof.
  intros Ho Ht Hl. unfold process_created, open_process. rewrite Ho, Ht. f_equal.
  rewrite Z.shiftl_mul_pow2 by lia. symmetry. apply Z.add_nocarry_lor, Z.bits_inj'. intros n Hn.
  rewrite Z.land_spec, Z.bits_0. destruct (Z.lt_ge_cases n 32).
  - by rewrite Z.mul_pow2_bits_low.
  - rewrite andb_false_iff. right. unfold u32_max in Hl.
    rewrite (Z.testbit_eqb low n) by lia. rewrite Z.div_small; [done|]. split; [lia|].
    apply Z.le_lt_trans with (2 ^ 32 - 1); [lia|]. pose proof (Z.pow_le_mono_r 2 32 n). lia.
Qed.
Lemma same_identity_exact sy account session pid :
  same_identity sy account session pid = Ok tt <->
  exists sid s, token_sid sy pid = Ok sid /\ token_sid sy (sy_me sy) = Ok sid /\
    pr_session (sy_process sy pid) = Some s /\ pr_session (sy_process sy (sy_me sy)) = Some s.
Proof.
  unfold same_identity. split.
  - intros Hi. destruct (token_sid sy pid) as [theirs|]; [|done].
    destruct (token_sid sy (sy_me sy)) as [ours|]; [|done].
    case_bool_decide as Heq; [|done]. cbn [negb] in Hi. subst theirs.
    destruct (pr_session (sy_process sy pid)) as [peer|]; [|done].
    destruct (pr_session (sy_process sy (sy_me sy))) as [me|]; [|done].
    destruct (peer =? me) eqn:E; [|done]. apply Z.eqb_eq in E as ->. by exists ours, me.
  - intros (sid & s & -> & -> & -> & ->). by rewrite bool_decide_eq_true_2, Z.eqb_refl.
Qed.
(** The other end of the pipe is accepted exactly if it is a process of the same
    account in the same session; a process identifier alone is not enough. *)
Lemma verify_pipe_peer_exact sy peer :
  verify_pipe_peer sy peer = Ok tt <->
  exists pid sid s, peer = Some pid /\ token_sid sy pid = Ok sid /\
    token_sid sy (sy_me sy) = Ok sid /\
    pr_session (sy_process sy pid) = Some s /\ pr_session (sy_process sy (sy_me sy)) = Some s.
Proof.
  unfold verify_pipe_peer. destruct peer as [pid|]; [|by split; [|intros (? & ? & ? & ? & _)]].
  rewrite same_identity_exact. split.
  - intros (sid & s & H). by exists pid, sid, s.
  - intros (pid' & sid & s & [= <-] & H). by exists sid, s.
Qed.
Lemma gui_integrity_exact sy pid :
  gui_integrity_permitted sy pid = Ok tt ->
  same_user_process sy pid = Ok tt /\
  exists theirs ours, integrity sy pid = Ok theirs /\ integrity sy (sy_me sy) = Ok ours /\ theirs <= ours.
Proof.
  unfold gui_integrity_permitted. destruct (same_user_process sy pid) as [[]|]; [|done].
  destruct (integrity sy pid) as [theirs|]; [|done]. destruct (integrity sy (sy_me sy)) as [ours|]; [|done].
  destruct (Z.ltb_spec ours theirs); [done|]. intros _. split; [done|]. by exists theirs, ours.
Qed.

(** ** The owner of a port *)
Definition on_port (port : Z) (addr : list Z) (r : TcpRow) : bool :=
  (row_port r =? port) && bool_decide (tr_addr r = addr).
Abbreviation loopback := [127; 0; 0; 1].
Abbreviation wildcard := [0; 0; 0; 0].
Lemma find_listener_exact port found rows o :
  find_listener port found rows = Ok o <->
  existsb (on_port port wildcard) rows = false /\
  match found, List.filter (on_port port loopback) rows with
  | Some pid, [] => o = Some pid
  | None, [] => o = None
  | None, [r] => o = Some (tr_pid r)
  | _, _ => False
  end.
Proof.
  revert found. induction rows as [|r rows IH]; intros found.
  { cbn. destruct found; split; [by intros [= <-]|by intros [_ ->]|by intros [= <-]|by intros [_ ->]]. }
  cbn [find_listener existsb List.filter].
  change (on_port port wildcard r) with ((row_port r =? port) && bool_decide (tr_addr r = wildcard)).
  change (on_port port loopback r) with ((row_port r =? port) && bool_decide (tr_addr r = loopback)).
  destruct (row_port r =? port); cbn [negb andb]; [|apply IH].
  case_bool_decide as Hw; [split; [done|by intros [? _]]|]. cbn [orb].
  case_bool_decide as Hl; [|apply IH]. destruct found as [pid|].
  - split; [done|by intros [_ ?]].
  - rewrite IH. by destruct (List.filter _ rows).
Qed.
(** A preview's upstream is attributed to a process exactly if the system's table is
    complete, nothing listens on that port on all interfaces, and exactly one row
    listens on it on 127.0.0.1: the owner of that row, with its creation time.  A
    wildcard listener, two owners, or a table cut short are refused. *)
Theorem loopback_owner_exact sy port pid created :
  loopback_listener_identity sy port = Ok (pid, created) <->
  let t := sy_tcp sy in
  let rows := take (Z.to_nat (tc_entries t)) (tc_rows t) in
  4 <= tc_size t <= 16 * 1024 * 1024 /\ tc_result t = 0 /\
  tc_entries t <= wrap64 (tc_size_after t - 4) / TCP_ROW /\
  existsb (on_port port wildcard) rows = false /\
  (exists r, List.filter (on_port port loopback) rows = [r] /\ tr_pid r = pid) /\
  process_created sy pid = Ok created.
Proof.
  cbn zeta. unfold loopback_listener_identity. split.
  - destruct (_ || _) eqn:Es; [done|]. destruct (Z.eqb_spec (tc_result (sy_tcp sy)) 0) as [Hr|]; [|done].
    cbn [negb]. destruct (Z.ltb_spec (wrap64 (tc_size_after (sy_tcp sy) - 4) / TCP_ROW)
      (tc_entries (sy_tcp sy))); [done|]. bools.
    destruct (find_listener port None _) as [[p|]|e] eqn:Ef; [|done|done].
    apply find_listener_exact in Ef as [Hw Hf]. destruct (process_created sy p) as [c|] eqn:Ec; [|done].
    intros [= <- <-]. repeat split; try done; try lia.
    destruct (List.filter _ _) as [|r [|]]; [done| |done]. injection Hf as ->. by exists r.
  - intros (Hs & Hr & He & Hw & (r & Hf & Hp) & Hc).
    replace (_ || _) with false by (symmetry; apply orb_false_iff; lia). rewrite Hr. cbn [negb Z.eqb].
    destruct (Z.ltb_spec (wrap64 (tc_size_after (sy_tcp sy) - 4) / TCP_ROW)
      (tc_entries (sy_tcp sy))); [lia|].
    rewrite (proj2 (find_listener_exact port None _ (Some pid))) by (rewrite Hf; by subst).
    by rewrite Hc.
Qed.
