(* ===== verification/Sources.v ===== *)
(** * Capture sources ([crates/rc-platform-windows/src/sources.rs])
    Which windows and monitors can be shared, and whether a listed one is still the
    same.  What the window manager answers about a window or monitor is a record; the
    geometry depends on the thread's DPI context. *)
From Stdlib Require Import String.
From S2P Require Import Prelude Text Geometry MediaWire Windows.
From S2P Require Import Errors Float.
#[global] Open Scope Z_scope.
Open Scope string_scope.
Open Scope Z_scope.

Record WindowInfo := {
  wi_visible : bool;                   (* IsWindowVisible *)
  wi_iconic : bool;                    (* IsIconic *)
  wi_pid : Z;                          (* GetWindowThreadProcessId; 0: none *)
  wi_client : Z -> option (Z * Z);     (* GetClientRect: right and bottom *)
  wi_origin : Z -> option (Z * Z);     (* ClientToScreen of (0, 0) *)
  wi_title : list Z                    (* GetWindowTextW, at most 255 units *)
}.
Record MonitorInfo := {
  mo_known : bool;                     (* GetMonitorInfoW *)
  mo_device : list Z;                  (* szDevice, a buffer of 32 units *)
  mo_rect : Z -> Z * Z * Z * Z         (* rcMonitor: left, top, right, bottom *)
}.
(** The desktop: its windows and monitors in the order of their enumeration. *)
Record Desktop := {
  dt_system : System;
  dt_name : option (list Z);           (* the input desktop's name, if it can be read *)
  dt_metrics : Z -> Z * Z * Z * Z;     (* the virtual screen: left, top, width, height *)
  dt_windows : list (Z * WindowInfo);
  dt_monitors : list (Z * MonitorInfo);
  dt_dpi : bool                        (* SetThreadDpiAwarenessContext works *)
}.
Definition find_handle {A} (l : list (Z * A)) (h : Z) : option A :=
  option_map snd (List.find (fun x => x.1 =? h) l).

(** [(hi - lo).max(0) as u32] on [i32]s, as a release build computes it *)
Definition extent (lo hi : Z) : Z :=
  let d := (hi - lo + 2 ^ 31) mod 2 ^ 32 - 2 ^ 31 in Z.max 0 d.

Section Sources.
Context (d : Desktop).

Definition input_desktop_available : bool :=
  match dt_name d with
  | None => false
  | Some name => bool_decide (lossy_text (until_nul name) = "Default")
  end.
Definition virtual_desktop (context : Z) : Z * sres Rect :=
  with_dpi context (dt_dpi d) (fun dpi =>
    let '(l, t, w, h) := dt_metrics d dpi in
    let r := {| left := l; top := t; width := Z.max 0 w; height := Z.max 0 h |} in
    if rect_valid r then Ok r else Err "Invalid virtual desktop").
Definition window_rect (dpi : Z) (w : WindowInfo) : sres Rect :=
  match wi_client w dpi, wi_origin w dpi with
  | Some (rr, rb), Some (x, y) =>
    let r := {| left := x; top := y; width := extent 0 rr; height := extent 0 rb |} in
    if rect_valid r then Ok r else Err "Empty window"
  | _, _ => Err "Window client geometry unavailable"
  end.
Definition monitor_rect (dpi : Z) (m : MonitorInfo) : Rect :=
  let '(l, t, r, b) := mo_rect m dpi in
  {| left := l; top := t; width := extent l r; height := extent t b |}.
Definition device_name (m : MonitorInfo) : string := lossy_text (until_nul (mo_device m)).

(** The source a window is listed as, if it is. *)
Definition window_source (dpi : Z) (hwnd : Z) (w : WindowInfo) : option LocalSource :=
  if negb (wi_visible w) || wi_iconic w then None else
  let pid := wi_pid w in
  if (pid =? 0) || (pid =? sy_me (dt_system d)) || is_err (same_user_process (dt_system d) pid)
  then None else
  match process_created (dt_system d) pid, window_rect dpi w with
  | Ok created, Ok rect =>
    match wi_title w with
    | [] => None
    | title => Some {| lo_native := Window (dec hwnd) pid (dec created);
                       lo_label := lossy_text title; lo_rect := rect |}
    end
  | _, _ => None
  end.
Definition monitor_source (dpi : Z) (h : Z) (m : MonitorInfo) : LocalSource :=
  let device := device_name m in
  {| lo_native := Monitor (dec h) device; lo_label := "Monitor " ++ device;
     lo_rect := monitor_rect dpi m |}.
(** [EnumWindows] and [EnumDisplayMonitors] with their callbacks: each callback is
    called until it answers 0. *)
Fixpoint enum_windows (dpi : Z) (l : list (Z * WindowInfo)) (out : list LocalSource)
  : list LocalSource :=
  match l with
  | [] => out
  | (hwnd, w) :: l =>
    if 128 <=? zlen out then out else
    enum_windows dpi l (match window_source dpi hwnd w with
                        | Some s => app out [s]
                        | None => out
                        end)
  end.
Fixpoint enum_monitors (dpi : Z) (l : list (Z * MonitorInfo)) (out : list LocalSource)
  : list LocalSource :=
  match l with
  | [] => out
  | (h, m) :: l =>
    if 160 <=? zlen out then out else
    enum_monitors dpi l (if mo_known m then app out [monitor_source dpi h m] else out)
  end.
Definition enumerate_sources (context : Z) : Z * sres (list LocalSource) :=
  with_dpi context (dt_dpi d) (fun dpi =>
    if negb input_desktop_available then Err "Interactive desktop locked/unavailable" else
    Ok (enum_monitors dpi (dt_monitors d) (enum_windows dpi (dt_windows d) []))).

(** [wi_pid] of a window that is gone is 0. *)
Definition validate_window (dpi : Z) (h pid : Z) (created : string) : sres Rect :=
  match find_handle (dt_windows d) h with
  | None => Err "Window closed/minimized/changed"
  | Some w =>
    if wi_iconic w || negb (wi_visible w) || negb (wi_pid w =? pid)
    then Err "Window closed/minimized/changed" else
    match same_user_process (dt_system d) pid with
    | Err e => Err e
    | Ok _ =>
      match process_created (dt_system d) pid with
      | Err e => Err e
      | Ok now => if bool_decide (dec now = created) then window_rect dpi w else Err "PID was reused"
      end
    end
  end.
Definition validate_monitor (dpi : Z) (h : Z) (device : string) : sres Rect :=
  match find_handle (dt_monitors d) h with
  | None => Err "Monitor missing"
  | Some m =>
    if negb (mo_known m) then Err "Monitor missing" else
    if bool_decide (device_name m = device) then Ok (monitor_rect dpi m)
    else Err "Monitor identity changed"
  end.
Definition validate_source (context : Z) (s : LocalSource) : Z * sres Rect :=
  with_dpi context (dt_dpi d) (fun dpi =>
    if negb input_desktop_available then Err "Desktop locked/unavailable" else
    match native_handle (lo_native s) with
    | Err e => Err e
    | Ok h =>
      match lo_native s with
      | Window _ pid created => validate_window dpi h pid created
      | Monitor _ device => validate_monitor dpi h device
      end
    end).
End Sources.

(** ** What is listed *)
Section Listed.
Context (d : Desktop).
Lemma enum_windows_elem dpi l out s :
  s ∈ enum_windows d dpi l out ->
  s ∈ out \/ exists hwnd w, (hwnd, w) ∈ l /\ window_source d dpi hwnd w = Some s.
Proof.
  revert out. induction l as [|[hwnd w] l IH]; intros out Hs; [by left|]. cbn [enum_windows] in Hs.
  destruct (128 <=? zlen out); [by left|]. destruct (IH _ Hs) as [Hin|(h & w' & Hin & Hw)].
  - destruct (window_source d dpi hwnd w) as [s'|] eqn:E; [|by left].
    apply elem_of_app in Hin as [Hin|Hin%list_elem_of_singleton]; [by left|]. subst s'.
    right. exists hwnd, w. split; [left|done].
  - right. exists h, w'. split; [by right|done].
Qed.
Lemma enum_monitors_elem dpi l out s :
  s ∈ enum_monitors dpi l out -> s ∈ out \/
  exists h m, (h, m) ∈ l /\ mo_known m = true /\ s = monitor_source dpi h m.
Proof.
  revert out. induction l as [|[h m] l IH]; intros out Hs; [by left|]. cbn [enum_monitors] in Hs.
  destruct (160 <=? zlen out); [by left|]. destruct (IH _ Hs) as [Hin|(h' & m' & Hin & Hm)].
  - destruct (mo_known m) eqn:Ek; [|by left].
    apply elem_of_app in Hin as [Hin|Hin%list_elem_of_singleton]; [by left|].
    right. exists h, m. split; [left|by split].
  - right. exists h', m'. split; [by right|done].
Qed.
Lemma enum_windows_bound dpi l out : zlen (enum_windows d dpi l out) <= Z.max 128 (zlen out).
Proof.
  revert out. induction l as [|[hwnd w] l IH]; intros out; [cbn; lia|]. cbn [enum_windows].
  destruct (Z.leb_spec 128 (zlen out)); [lia|]. etransitivity; [apply IH|].
  destruct (window_source _ _ _ _); rewrite ?zlen_snoc; lia.
Qed.
Lemma enum_monitors_bound dpi l out : zlen (enum_monitors dpi l out) <= Z.max 160 (zlen out).
Proof.
  revert out. induction l as [|[h m] l IH]; intros out; [cbn; lia|]. cbn [enum_monitors].
  destruct (Z.leb_spec 160 (zlen out)); [lia|]. etransitivity; [apply IH|].
  destruct (mo_known m); rewrite ?zlen_snoc; lia.
Qed.
Lemma enumerate_sources_elem context l s :
  (enumerate_sources d context).2 = Ok l -> s ∈ l ->
  dt_dpi d = true /\ input_desktop_available d = true /\
  ((exists hwnd w, (hwnd, w) ∈ dt_windows d /\
      window_source d PER_MONITOR_AWARE_V2 hwnd w = Some s) \/
   exists h m, (h, m) ∈ dt_monitors d /\ mo_known m = true /\ s = monitor_source PER_MONITOR_AWARE_V2 h m).
Proof.
  unfold enumerate_sources, with_dpi. destruct (dt_dpi d); [|done]. cbn [negb snd].
  destruct (input_desktop_available d); [|done]. intros [= <-] Hs. do 2 (split; [done|]).
  apply enum_monitors_elem in Hs as [Hs|?]; [|by right].
  apply enum_windows_elem in Hs as [Hs|?]; [by apply not_elem_of_nil in Hs|by left].
Qed.

(** The window a source was listed for. *)
Definition listed_window (hwnd : Z) (w : WindowInfo) (s : LocalSource) : Prop :=
  exists created,
    wi_visible w = true /\ wi_iconic w = false /\ wi_pid w <> 0 /\ wi_pid w <> sy_me (dt_system d) /\
    same_user_process (dt_system d) (wi_pid w) = Ok tt /\
    process_created (dt_system d) (wi_pid w) = Ok created /\
    window_rect PER_MONITOR_AWARE_V2 w = Ok (lo_rect s) /\
    lo_native s = Window (dec hwnd) (wi_pid w) (dec created).
Lemma window_source_listed hwnd w s :
  window_source d PER_MONITOR_AWARE_V2 hwnd w = Some s -> listed_window hwnd w s.
Proof.
  unfold window_source, listed_window. destruct (_ || wi_iconic w) eqn:E1; [done|].
  destruct (_ || is_err _) eqn:E2; [done|]. bools.
  destruct (same_user_process _ _) as [[]|] eqn:Eu; [|done].
  destruct (process_created _ _) as [created|] eqn:Ec; [|done].
  destruct (window_rect _ w) as [rect|] eqn:Er; [|done]. destruct (wi_title w) as [|u title]; [done|].
  intros [= <-]. by exists created.
Qed.
End Listed.

(** Handles are distinct, and neither null nor wider than a pointer. *)
Definition handles_ok {A} (l : list (Z * A)) : Prop :=
  NoDup (map fst l) /\ Forall (fun x => 0 < x.1 <= u64_max) l.
Lemma find_handle_in {A} (l : list (Z * A)) h x :
  handles_ok l -> (h, x) ∈ l -> find_handle l h = Some x /\ 0 < h <= u64_max.
Proof.
  intros [Hn Hb] Hin. split; [|by apply (proj1 (Forall_forall _ _) Hb (h, x))].
  unfold find_handle. induction l as [|[k y] l IH]; [by apply not_elem_of_nil in Hin|].
  cbn [map] in Hn. apply NoDup_cons in Hn as [Hk Hn]. apply Forall_cons in Hb as [_ Hb].
  cbn [List.find fst] in *. apply elem_of_cons in Hin as [[= -> ->]|Hin]; [by rewrite Z.eqb_refl|].
  destruct (Z.eqb_spec k h) as [->|]; [|by apply IH].
  destruct Hk. cbn. change h with (fst (h, x)). by apply list_elem_of_fmap_2.
Qed.
Lemma native_handle_dec n h :
  0 < h <= u64_max ->
  match n with Window s _ _ | Monitor s _ => s = dec h end -> native_handle n = Ok h.
Proof.
  intros Hh Hn. unfold native_handle.
  assert (match n with Window s _ _ | Monitor s _ => s end = dec h) as -> by by destruct n.
  rewrite parse_dec by lia. destruct (Z.eqb_spec h 0); [lia|]. destruct (Z.ltb_spec u64_max h); [lia|done].
Qed.

(** What is listed can be shared as listed.  On an interactive desktop at most 160
    sources are listed, at most 128 of them windows; no window of the agent itself or
    of another account or session; and every one of them, as long as the desktop is
    the same, is found again by its handle and identity and has the very rectangle it
    was listed with. *)
Theorem listed_sources_validate d context again l :
  handles_ok (dt_windows d) -> handles_ok (dt_monitors d) ->
  (enumerate_sources d context).2 = Ok l ->
  zlen l <= 160 /\
  Forall (fun s =>
    validate_source d again s = (again, Ok (lo_rect s)) /\
    match lo_native s with
    | Window _ pid _ => pid <> sy_me (dt_system d) /\ same_user_process (dt_system d) pid = Ok tt
    | Monitor _ _ => True
    end) l.
Proof.
  intros Hw Hm Hl. split.
  { unfold enumerate_sources, with_dpi in Hl. destruct (dt_dpi d); [|done]. cbn [negb snd] in Hl.
    destruct (input_desktop_available d); [|done]. injection Hl as <-.
    pose proof (enum_windows_bound d PER_MONITOR_AWARE_V2 (dt_windows d) []) as Hb.
    etransitivity; [apply enum_monitors_bound|]. change (zlen []) with 0 in Hb. lia. }
  apply Forall_forall. intros s Hs.
  destruct (enumerate_sources_elem d context l s Hl Hs) as (Hdpi & Hdesk & Hcases).
  unfold validate_source, with_dpi. rewrite Hdpi, Hdesk. cbn [negb].
  destruct Hcases as [(hwnd & w & Hin & Hs')|(h & m & Hin & Hk & ->)].
  - apply window_source_listed in Hs' as (created & Hv & Hi & _ & Hme & Hu & Hc & Hr & Hn).
    destruct (find_handle_in _ _ _ Hw Hin) as [Hf Hh]. rewrite Hn.
    rewrite (native_handle_dec _ hwnd Hh) by done. split; [|done].
    unfold validate_window. rewrite Hf, Hv, Hi, Z.eqb_refl, Hu, Hc. cbn [negb orb].
    by rewrite bool_decide_eq_true_2, Hr.
  - destruct (find_handle_in _ _ _ Hm Hin) as [Hf Hh]. cbn [monitor_source lo_native].
    rewrite (native_handle_dec _ h Hh) by done. split; [|done].
    unfold validate_monitor. rewrite Hf, Hk. by rewrite bool_decide_eq_true_2.
Qed.

(** ** A source later on *)
Definition system_typed (sy : System) : Prop := forall pid high low,
  pr_times (sy_process sy pid) = Some (high, low) -> 0 <= high <= u32_max /\ 0 <= low <= u32_max.
Lemma process_created_nonneg sy pid created :
  system_typed sy -> process_created sy pid = Ok created -> 0 <= created.
Proof.
  intros Ht. unfold process_created, open_process. destruct (pr_open _); [done|].
  destruct (pr_times _) as [[high low]|] eqn:E; [|done]. intros [= <-].
  destruct (Ht _ _ _ E). apply Z.lor_nonneg. split; [|lia]. apply Z.shiftl_nonneg; lia.
Qed.
(** What a validated source is at that moment. *)
Definition still_window (d : Desktop) (h pid created : Z) (r : Rect) : Prop :=
  exists w, find_handle (dt_windows d) h = Some w /\ wi_visible w = true /\ wi_iconic w = false /\
    wi_pid w = pid /\ process_created (dt_system d) pid = Ok created /\
    same_user_process (dt_system d) pid = Ok tt /\
    window_rect PER_MONITOR_AWARE_V2 w = Ok r /\ rect_valid r = true.
Lemma validate_window_exact d h pid created r :
  system_typed (dt_system d) -> 0 <= created ->
  validate_window d PER_MONITOR_AWARE_V2 h pid (dec created) = Ok r -> still_window d h pid created r.
Proof.
  intros Ht H0. unfold validate_window. destruct (find_handle _ h) as [w|] eqn:Ef; [|done].
  destruct (_ || negb _) eqn:E; [done|]. bools.
  destruct (same_user_process _ pid) as [[]|] eqn:Eu; [|done].
  destruct (process_created _ pid) as [now|] eqn:Ec; [|done].
  case_bool_decide as Hd; [|done]. intros Hr.
  apply dec_inj in Hd; [|by eapply process_created_nonneg|done]. subst now.
  exists w. do 6 (split; [done|]). split; [done|].
  unfold window_rect in Hr. destruct (wi_client w _) as [[rr rb]|]; [|done].
  destruct (wi_origin w _) as [[x y]|]; [|done]. cbn zeta in Hr.
  destruct (rect_valid _) eqn:Ev; [|done]. by injection Hr as <-.
Qed.

(** C25: What is shared stays what was approved.  A window that was listed, on any earlier
    desktop, validates later only while its handle names a visible, not minimised
    window of the very process it was listed for, known by identifier and creation
    time, which still belongs to the agent's account and session; the rectangle is then
    the window's present client area in real pixels.  A monitor validates only under
    its device name.  Nothing validates away from the interactive desktop. *)
Theorem shared_source_is_the_approved_one d context l s later again r :
  handles_ok (dt_windows d) -> handles_ok (dt_monitors d) ->
  system_typed (dt_system d) -> system_typed (dt_system later) ->
  (enumerate_sources d context).2 = Ok l -> s ∈ l ->
  (validate_source later again s).2 = Ok r ->
  input_desktop_available later = true /\
  ((exists h pid created w, lo_native s = Window (dec h) pid (dec created) /\
      find_handle (dt_windows d) h = Some w /\ wi_pid w = pid /\
      process_created (dt_system d) pid = Ok created /\ still_window later h pid created r) \/
   exists h device m, lo_native s = Monitor (dec h) device /\
      find_handle (dt_monitors later) h = Some m /\ mo_known m = true /\ device_name m = device /\
      r = monitor_rect PER_MONITOR_AWARE_V2 m).
Proof.
  intros Hw Hm Ht Ht' Hl Hs Hr.
  destruct (enumerate_sources_elem d context l s Hl Hs) as (_ & _ & Hcases).
  unfold validate_source, with_dpi in Hr. destruct (dt_dpi later); [|done]. cbn [negb snd] in Hr.
  destruct (input_desktop_available later); [|done]. split; [done|]. cbn [negb] in Hr.
  destruct Hcases as [(hwnd & w & Hin & Hs')|(h & m & Hin & Hk & ->)].
  - apply window_source_listed in Hs' as (created & _ & _ & _ & _ & _ & Hc & _ & Hn).
    destruct (find_handle_in _ _ _ Hw Hin) as [Hf Hh]. rewrite Hn in Hr.
    rewrite (native_handle_dec _ hwnd Hh) in Hr by done.
    left. exists hwnd, (wi_pid w), created, w. do 4 (split; [done|]).
    eapply validate_window_exact; [done| |exact Hr]. exact (process_created_nonneg _ _ _ Ht Hc).
  - destruct (find_handle_in _ _ _ Hm Hin) as [_ Hh]. cbn [monitor_source lo_native] in Hr.
    rewrite (native_handle_dec _ h Hh) in Hr by done. right.
    unfold validate_monitor in Hr. destruct (find_handle (dt_monitors later) h) as [m'|] eqn:Ef; [|done].
    destruct (mo_known m') eqn:Ek'; [|done]. case_bool_decide as Hd; [|done]. injection Hr as <-. by exists h, (device_name m), m'.
Qed.

(** ** A concrete desktop *)
Definition demo_process (session : Z) : ProcessInfo :=
  {| pr_open := None; pr_times := Some (31, 7); pr_image := Some [67]; pr_token := true;
     pr_user_length := 44; pr_user := true; pr_sid := [1; 5; 21]; pr_copy := true;
     pr_session := Some session; pr_label_length := 28; pr_label := true; pr_authorities := [8192] |}.
Definition demo_system : System :=
  {| sy_me := 100; sy_process := fun pid => demo_process (if pid <? 300 then 1 else 2);
     sy_sid_text := fun _ => Some [83; 45; 49];
     sy_tcp := {| tc_size := 100; tc_result := 0; tc_size_after := 100; tc_entries := 2;
       tc_rows := [{| tr_port := 23055; tr_addr := [127; 0; 0; 1]; tr_pid := 200 |};
                   {| tr_port := 80; tr_addr := [0; 0; 0; 0]; tr_pid := 4 |}] |} |}.
Definition demo_window (pid : Z) : WindowInfo :=
  {| wi_visible := true; wi_iconic := false; wi_pid := pid;
     wi_client := fun _ => Some (800, 600); wi_origin := fun _ => Some (-5, 20); wi_title := [65; 66] |}.
Definition demo_desktop : Desktop :=
  {| dt_system := demo_system; dt_name := Some (app (encode_utf16 (str_bytes "Default")) [0; 0]);
     dt_metrics := fun _ => (0, 0, 1920, 1080);
     dt_windows := [(16, demo_window 200); (32, demo_window 100); (48, demo_window 300)];
     dt_monitors := [(65537, {| mo_known := true; mo_device := [92; 68; 0; 0]; mo_rect := fun _ => (0, 0, 1920, 1080) |})];
     dt_dpi := true |}.
Definition demo_listed : list LocalSource :=
  match (enumerate_sources demo_desktop 0).2 with Ok l => l | Err _ => [] end.
Example windows_run :
  process_created demo_system 200 = Ok 133143986183 /\
  loopback_listener_identity demo_system 3930 = Ok (200, 133143986183) /\
  pipe_name demo_system (fun _ => repeat 171 32) =
    Ok ("\\.\pipe\RemoteCodex-abababababababababababab") /\
  map lo_native demo_listed = [Window "16" 200 "133143986183"; Monitor "65537" "\D"].
Proof. by vm_compute. Qed.
Lemma demo_handles : handles_ok (dt_windows demo_desktop) /\ handles_ok (dt_monitors demo_desktop).
Proof.
  split; (split; [apply (bool_decide_unpack _); by vm_compute|]).
  all: repeat constructor; cbn; unfold u64_max; lia.
Qed.
Lemma listed_sources_validate_witness :
  length demo_listed = 2%nat /\
  Forall (fun s => validate_source demo_desktop 7 s = (7, Ok (lo_rect s))) demo_listed.
Proof.
  destruct (listed_sources_validate demo_desktop 0 7 demo_listed (proj1 demo_handles)
    (proj2 demo_handles) eq_refl) as [_ H].
  split; [by vm_compute|]. eapply Forall_impl; [exact H|]. by intros s [? _].
Defined.
Lemma shared_source_is_the_approved_one_witness :
  exists s r, s ∈ demo_listed /\ (validate_source demo_desktop 7 s).2 = Ok r /\
    exists h pid created, still_window demo_desktop h pid created r.
Proof.
  assert (system_typed demo_system) as Ht.
  { intros pid high low. cbn. intros [= <- <-]. unfold u32_max. lia. }
  destruct demo_handles as [Hw Hm].
  set (s := {| lo_native := Window "16" 200 "133143986183"; lo_label := "AB";
               lo_rect := {| left := -5; top := 20; width := 800; height := 600 |} |}).
  assert (s ∈ demo_listed) as Hs by (apply list_elem_of_In; left; reflexivity).
  destruct (shared_source_is_the_approved_one demo_desktop 0 demo_listed s demo_desktop 7
    {| left := -5; top := 20; width := 800; height := 600 |} Hw Hm Ht Ht eq_refl Hs eq_refl)
    as [_ [(h & pid & created & w & _ & _ & _ & _ & Hst)|(h & dev & m & Hn & _)]]; [|done].
  exists s, {| left := -5; top := 20; width := 800; height := 600 |}. split; [exact Hs|].
  split; [reflexivity|]. by exists h, pid, created.
Defined.
