(* ===== verification/GuiInput.v ===== *)
(** * Mouse and keyboard injection ([crates/rc-platform-windows/src/gui_input.rs])
    [InputBackend] as a machine: its state, the events it has injected, and the
    answers of the operating system, one record per observation. *)
From Stdlib Require Import String SpecFloat.
From S2P Require Import Prelude Errors Text Float Geometry MediaWire.
#[global] Open Scope Z_scope.

(** ** Events of [SendInput] *)
Definition MOUSEEVENTF_MOVE : Z := 1.
Definition MOUSEEVENTF_LEFTDOWN : Z := 2.
Definition MOUSEEVENTF_LEFTUP : Z := 4.
Definition MOUSEEVENTF_RIGHTDOWN : Z := 8.
Definition MOUSEEVENTF_RIGHTUP : Z := 16.
Definition MOUSEEVENTF_MIDDLEDOWN : Z := 32.
Definition MOUSEEVENTF_MIDDLEUP : Z := 64.
Definition MOUSEEVENTF_WHEEL : Z := 2048.
Definition MOUSEEVENTF_VIRTUALDESK : Z := 16384.
Definition MOUSEEVENTF_ABSOLUTE : Z := 32768.
Definition KEYEVENTF_EXTENDEDKEY : Z := 1.
Definition KEYEVENTF_KEYUP : Z := 2.
Definition KEYEVENTF_UNICODE : Z := 4.
Definition KEYEVENTF_SCANCODE : Z := 8.

Inductive INPUT : Type :=
| MOUSEINPUT (dwFlags dx dy mouseData : Z)
| KEYBDINPUT (wScan dwFlags : Z).

Definition mouse (flags dx dy data : Z) : INPUT := MOUSEINPUT flags dx dy data.
Definition key (scan : Z) (extended down unicode : bool) : INPUT :=
  KEYBDINPUT scan
    (Z.lor (Z.lor (if unicode then KEYEVENTF_UNICODE else KEYEVENTF_SCANCODE)
                  (if extended then KEYEVENTF_EXTENDEDKEY else 0))
           (if down then 0 else KEYEVENTF_KEYUP)).
Definition button_flag (b : Z) (down : bool) : sres Z :=
  if b =? 0 then Ok (if down then MOUSEEVENTF_LEFTDOWN else MOUSEEVENTF_LEFTUP) else
  if b =? 1 then Ok (if down then MOUSEEVENTF_MIDDLEDOWN else MOUSEEVENTF_MIDDLEUP) else
  if b =? 2 then Ok (if down then MOUSEEVENTF_RIGHTDOWN else MOUSEEVENTF_RIGHTUP) else
  Err "Unsupported mouse button"%string.

(** ** The operating system, at one observation *)
Record Os := {
  os_now : Z;
  os_desktop_available : bool;
  os_validate : option Rect;          (* validate_source *)
  os_virtual : option Rect;           (* virtual_desktop *)
  os_foreground : option Z;           (* GetForegroundWindow *)
  os_integrity : bool;                (* gui_integrity_permitted *)
  os_point_root : option Z;           (* GetAncestor(WindowFromPoint(..), GA_ROOT) *)
  os_sent : nat;                      (* how many events SendInput accepts *)
  os_allowed : bool                   (* the [allowed] closure of [apply] *)
}.

Record InputBackend := {
  ib_source : LocalSource;
  ib_desktop : Rect;
  ib_last_frame : Z;
  ib_keys : gset (Z * bool);
  ib_buttons : gset Z;
  ib_enabled : bool
}.

(** The backend, the number of observations made, and the events injected. *)
Record Gui := { g_b : InputBackend; g_t : nat; g_trace : list INPUT }.

Section Backend.
Context (env : nat -> Os).

(** Operations of the backend that may fail. *)
Definition M (A : Type) : Type := Gui -> Gui * sres A.
#[global] Instance M_ret : MRet M := fun A a g => (g, Ok a).
#[global] Instance M_bind : MBind M := fun A B k m g =>
  let '(g1, r) := m g in match r with Ok a => k a g1 | Err e => (g1, Err e) end.
Definition bail {A} (e : string) : M A := fun g => (g, Err e).
Definition bail_if (c : bool) (e : string) : M unit := if c then bail e else mret tt.
(** One observation of the operating system. *)
Definition observe : M Os := fun g =>
  ({| g_b := g_b g; g_t := S (g_t g); g_trace := g_trace g |}, Ok (env (g_t g))).
Definition get_b : M InputBackend := fun g => (g, Ok (g_b g)).
Definition put_b (b : InputBackend) : M unit := fun g =>
  ({| g_b := b; g_t := g_t g; g_trace := g_trace g |}, Ok tt).
(** [let _ = m;] *)
Definition ignore {A} (m : M A) : M unit := fun g => let '(g1, _) := m g in (g1, Ok tt).

Definition backend_new (source : LocalSource) (desktop : Rect) (now : Z) : InputBackend :=
  {| ib_source := source; ib_desktop := desktop; ib_last_frame := now - secs 5;
     ib_keys := ∅; ib_buttons := ∅; ib_enabled := false |}.
Definition set_enabled (e : bool) (b : InputBackend) : InputBackend :=
  {| ib_source := ib_source b; ib_desktop := ib_desktop b; ib_last_frame := ib_last_frame b;
     ib_keys := ib_keys b; ib_buttons := ib_buttons b; ib_enabled := e |}.
Definition set_keys (k : gset (Z * bool)) (b : InputBackend) : InputBackend :=
  {| ib_source := ib_source b; ib_desktop := ib_desktop b; ib_last_frame := ib_last_frame b;
     ib_keys := k; ib_buttons := ib_buttons b; ib_enabled := ib_enabled b |}.
Definition set_buttons (s : gset Z) (b : InputBackend) : InputBackend :=
  {| ib_source := ib_source b; ib_desktop := ib_desktop b; ib_last_frame := ib_last_frame b;
     ib_keys := ib_keys b; ib_buttons := s; ib_enabled := ib_enabled b |}.

(** [SendInput] accepts a prefix of the events. *)
Definition send (inputs : list INPUT) : M unit := fun g =>
  let n := Nat.min (os_sent (env (g_t g))) (length inputs) in
  ({| g_b := g_b g; g_t := S (g_t g); g_trace := g_trace g ++ take n inputs |},
   if (n =? length inputs)%nat then Ok tt
   else Err "SendInput partial/failed; never replay"%string).

Definition frame : M unit :=
  o ← observe; b ← get_b;
  put_b {| ib_source := ib_source b; ib_desktop := ib_desktop b; ib_last_frame := os_now o;
           ib_keys := ib_keys b; ib_buttons := ib_buttons b; ib_enabled := ib_enabled b |}.

(** Whether [root] is the selected window, for a window source. *)
Definition wrong_window (n : NativeSource) (root : Z) : option bool :=
  match n with
  | Window handle _ _ =>
    match parse_unsigned u64_max handle with
    | Some h => Some (negb (root =? h))
    | None => None
    end
  | Monitor _ _ => Some false
  end.

Definition check : M unit :=
  o ← observe; b ← get_b;
  _ ← bail_if ((millis 500 <? os_now o - ib_last_frame b) || negb (os_desktop_available o))
        "Frame stale or desktop locked";
  _ ← bail_if (negb (bool_decide (os_validate o = Some (lo_rect (ib_source b)))) ||
               negb (bool_decide (os_virtual o = Some (ib_desktop b))))
        "Geometry changed";
  match os_foreground o with
  | None => bail "No foreground target"
  | Some fg =>
    match wrong_window (lo_native (ib_source b)) fg with
    | Some false => bail_if (negb (os_integrity o)) "integrity"
    | _ => bail "Selected window is not foreground; focus is never stolen"
    end
  end.

(** The sets are drained in an order of their own. *)
Fixpoint release_keys (ks : list (Z * bool)) : M unit :=
  match ks with
  | [] => mret tt
  | (scan, ext) :: rest => _ ← ignore (send [key scan ext false false]); release_keys rest
  end.
Fixpoint release_buttons (bs : list Z) : M unit :=
  match bs with
  | [] => mret tt
  | button :: rest =>
    _ ← (match button_flag button false with
         | Ok flag => ignore (send [mouse flag 0 0 0])
         | Err _ => mret tt
         end);
    release_buttons rest
  end.
Definition release_injected : M unit :=
  b ← get_b;
  _ ← put_b (set_keys ∅ b);
  _ ← release_keys (elements (ib_keys b));
  b ← get_b;
  _ ← put_b (set_buttons ∅ b);
  release_buttons (elements (ib_buttons b)).

Definition disarm : M unit :=
  b ← get_b; _ ← put_b (set_enabled false b); release_injected.
Definition arm : M unit :=
  _ ← check; b ← get_b; put_b (set_enabled true b).
(** An error disarms. *)
Definition or_disarm (m : M unit) : M unit := fun g =>
  let '(g1, r) := m g in
  match r with
  | Ok _ => (g1, Ok tt)
  | Err e => (fst (disarm g1), Err e)
  end.
Definition check_live : M unit := or_disarm check.

Definition move_to (x y : f64) : M unit :=
  b ← get_b;
  match rect_map (lo_rect (ib_source b)) x y with
  | Err _ => bail "map"
  | Ok (px, py) =>
    o ← observe;
    match os_point_root o with
    | None => bail "Point has no target"
    | Some root =>
      _ ← bail_if (negb (os_integrity o)) "integrity";
      match wrong_window (lo_native (ib_source b)) root with
      | Some false =>
        match rect_absolute (ib_desktop b) px py with
        | Err _ => bail "absolute"
        | Ok (ax, ay) =>
          send [mouse (Z.lor (Z.lor MOUSEEVENTF_MOVE MOUSEEVENTF_ABSOLUTE)
                             MOUSEEVENTF_VIRTUALDESK) ax ay 0]
        end
      | _ => bail "Selected window is covered by another window"
      end
    end
  end.

(** [if !allowed() { bail!(..) }] *)
Definition require_allowed (e : string) : M unit :=
  o ← observe; bail_if (negb (os_allowed o)) e.

(** Both events of one code unit; a key that went down alone is released. *)
Definition type_unit (c : Z) : M unit := fun g =>
  let down := key c false true true in
  let up := key c false false true in
  let '(g1, r) := send [down; up] g in
  match r with
  | Ok _ => (g1, Ok tt)
  | Err e => (fst (send [up] g1), Err e)
  end.
Fixpoint type_units (units : list Z) : M unit :=
  match units with
  | [] => mret tt
  | c :: rest =>
    _ ← require_allowed "Text interrupted by local input";
    _ ← check_live;
    _ ← type_unit c;
    type_units rest
  end.

Definition secure_attention (keys : gset (Z * bool)) (scan : Z) (extended down : bool) : bool :=
  down && (scan =? 83) && extended &&
  existsb (fun k => k.1 =? 29) (elements keys) && existsb (fun k => k.1 =? 56) (elements keys).

Definition perform (a : GuiAction) : M unit :=
  match a with
  | Move x y => move_to x y
  | Button x y button down =>
    _ ← move_to x y;
    _ ← require_allowed "Input revoked before click";
    match button_flag button down with
    | Err e => bail e
    | Ok flag =>
      _ ← send [mouse flag 0 0 0];
      b ← get_b;
      put_b (set_buttons (if down then {[button]} ∪ ib_buttons b
                          else ib_buttons b ∖ {[button]}) b)
    end
  | Wheel x y delta =>
    _ ← move_to x y;
    _ ← require_allowed "Input revoked before wheel";
    send [mouse MOUSEEVENTF_WHEEL 0 0 (delta mod 4294967296)]
  | Key scan extended down =>
    b ← get_b;
    _ ← bail_if (secure_attention (ib_keys b) scan extended down)
          "Secure attention sequence not supported";
    _ ← require_allowed "Input revoked before key";
    _ ← send [key scan extended down false];
    b ← get_b;
    put_b (set_keys (if down then {[(scan, extended)]} ∪ ib_keys b
                     else ib_keys b ∖ {[(scan, extended)]}) b)
  | GText text => type_units (encode_utf16 text)
  end.

Definition apply_action (a : GuiAction) : M unit :=
  b ← get_b;
  o ← observe;
  _ ← bail_if (negb (ib_enabled b) || negb (os_allowed o)) "GUI not armed or locally revoked";
  match gui_validate a with
  | Err e => bail e
  | Ok _ =>
    _ ← check_live; or_disarm (perform a)
  end.

(** The calls of the safety thread. *)
Inductive GuiOp : Type := OpFrame | OpArm | OpDisarm | OpCheckLive | OpApply (a : GuiAction).
Definition gui_op (op : GuiOp) (g : Gui) : Gui :=
  fst (match op with
       | OpFrame => frame g
       | OpArm => arm g
       | OpDisarm => disarm g
       | OpCheckLive => check_live g
       | OpApply a => apply_action a g
       end).
Definition gui_run (g : Gui) (ops : list GuiOp) : Gui := fold_left (fun g op => gui_op op g) ops g.
Definition gui_start (source : LocalSource) (desktop : Rect) (now : Z) : Gui :=
  {| g_b := backend_new source desktop now; g_t := 0; g_trace := [] |}.

(** ** What is held down *)
(** The key an event presses or releases: its scan code and its other flags. *)
Definition key_step (s : gset (Z * Z)) (e : INPUT) : gset (Z * Z) :=
  match e with
  | KEYBDINPUT scan flags =>
    if Z.testbit flags 1 then s ∖ {[(scan, flags - KEYEVENTF_KEYUP)]} else {[(scan, flags)]} ∪ s
  | _ => s
  end.
Definition held_keys (trace : list INPUT) : gset (Z * Z) := fold_left key_step trace ∅.
Definition button_step (s : gset Z) (e : INPUT) : gset Z :=
  match e with
  | MOUSEINPUT flags _ _ _ =>
    if flags =? MOUSEEVENTF_LEFTDOWN then {[0]} ∪ s else
    if flags =? MOUSEEVENTF_LEFTUP then s ∖ {[0]} else
    if flags =? MOUSEEVENTF_MIDDLEDOWN then {[1]} ∪ s else
    if flags =? MOUSEEVENTF_MIDDLEUP then s ∖ {[1]} else
    if flags =? MOUSEEVENTF_RIGHTDOWN then {[2]} ∪ s else
    if flags =? MOUSEEVENTF_RIGHTUP then s ∖ {[2]} else s
  | _ => s
  end.
Definition held_buttons (trace : list INPUT) : gset Z := fold_left button_step trace ∅.

Lemma held_keys_snoc tr e : held_keys (tr ++ [e]) = key_step (held_keys tr) e.
Proof. unfold held_keys. by rewrite fold_left_app. Qed.
Lemma held_buttons_snoc tr e : held_buttons (tr ++ [e]) = button_step (held_buttons tr) e.
Proof. unfold held_buttons. by rewrite fold_left_app. Qed.

(** The key id of a tracked key. *)
Definition kid (k : Z * bool) : Z * Z :=
  (k.1, if k.2 then Z.lor KEYEVENTF_SCANCODE KEYEVENTF_EXTENDEDKEY else KEYEVENTF_SCANCODE).
Lemma key_step_down s k : key_step s (key k.1 k.2 true false) = {[kid k]} ∪ s.
Proof. by destruct k as [scan []]. Qed.
Lemma key_step_up s k : key_step s (key k.1 k.2 false false) = s ∖ {[kid k]}.
Proof. by destruct k as [scan []]. Qed.
Lemma key_step_unicode s c :
  key_step (key_step s (key c false true true)) (key c false false true) ⊆ s.
Proof. cbn. set_solver. Qed.
Lemma button_step_key s scan a b c : button_step s (key scan a b c) = s.
Proof. done. Qed.
Lemma key_step_mouse s f x y d : key_step s (mouse f x y d) = s.
Proof. done. Qed.
Lemma button_step_flag s b down flag :
  button_flag b down = Ok flag ->
  button_step s (mouse flag 0 0 0) = if down then {[b]} ∪ s else s ∖ {[b]}.
Proof.
  unfold button_flag.
  destruct (Z.eqb_spec b 0) as [->|]; [intros [= <-]; by destruct down|].
  destruct (Z.eqb_spec b 1) as [->|]; [intros [= <-]; by destruct down|].
  destruct (Z.eqb_spec b 2) as [->|]; [intros [= <-]; by destruct down|done].
Qed.

(** Everything held is tracked. *)
Definition tracked (g : Gui) : Prop :=
  (forall k, k ∈ held_keys (g_trace g) -> exists t, t ∈ ib_keys (g_b g) /\ k = kid t) /\
  (forall b, b ∈ held_buttons (g_trace g) -> b ∈ ib_buttons (g_b g)).
Definition gui_inv (g : Gui) : Prop :=
  tracked g /\
  (ib_enabled (g_b g) = false -> ib_keys (g_b g) = ∅ /\ ib_buttons (g_b g) = ∅).

(** ** Operations that hold and release nothing *)
Create HintDb quiet.
Definition same_held (g g' : Gui) : Prop :=
  g_b g' = g_b g /\ held_keys (g_trace g') = held_keys (g_trace g) /\
  held_buttons (g_trace g') = held_buttons (g_trace g).
Definition quiet {A} (m : M A) : Prop := forall g, same_held g (m g).1.

Lemma quiet_bind {A B} (m : M A) (k : A -> M B) :
  quiet m -> (forall a, quiet (k a)) -> quiet (m ≫= k).
Proof.
  intros Hm Hk g. specialize (Hm g). unfold mbind, M_bind. destruct (m g) as [g1 [a|e]]; [|done].
  specialize (Hk a g1). unfold same_held in *. cbn in *. naive_solver congruence.
Qed.
Lemma quiet_ret {A} (a : A) : quiet (mret a).
Proof. done. Qed.
Lemma quiet_bail {A} e : quiet (@bail A e).
Proof. done. Qed.
Lemma quiet_bail_if c e : quiet (bail_if c e).
Proof. by destruct c. Qed.
Lemma quiet_observe : quiet observe.
Proof. done. Qed.
Lemma quiet_get : quiet get_b.
Proof. done. Qed.
#[local] Hint Resolve quiet_bind quiet_ret quiet_bail quiet_bail_if quiet_observe quiet_get : quiet.

Lemma quiet_check : quiet check.
Proof.
  unfold check. repeat (apply quiet_bind; [auto with quiet|intros ?]).
  repeat case_match; auto with quiet.
Qed.
Lemma quiet_require e : quiet (require_allowed e).
Proof. unfold require_allowed. auto with quiet. Qed.
Lemma quiet_send_mouse f x y d :
  (forall s, button_step s (mouse f x y d) = s) -> quiet (send [mouse f x y d]).
Proof.
  intros Hf g. unfold send. destruct (os_sent (env (g_t g))) as [|n]; cbn.
  - by rewrite app_nil_r.
  - rewrite Nat.min_0_r. unfold same_held. cbn [g_b g_trace].
    rewrite held_keys_snoc, held_buttons_snoc, key_step_mouse, Hf. done.
Qed.
Lemma quiet_move_to x y : quiet (move_to x y).
Proof.
  unfold move_to. apply quiet_bind; [auto with quiet|intros b].
  destruct (rect_map _ x y) as [[px py]|]; [|auto with quiet].
  apply quiet_bind; [auto with quiet|intros o]. destruct (os_point_root o); [|auto with quiet].
  apply quiet_bind; [auto with quiet|intros _].
  destruct (wrong_window _ _) as [[]|]; [auto with quiet| |auto with quiet].
  destruct (rect_absolute _ _ _) as [[ax ay]|]; [|auto with quiet].
  by apply quiet_send_mouse.
Qed.

(** ** Releasing *)
(** The system accepts at least one event of every [SendInput]. *)
Context (accepts : forall t, (1 <= os_sent (env t))%nat).

Lemma send_one e g :
  send [e] g = ({| g_b := g_b g; g_t := S (g_t g); g_trace := g_trace g ++ [e] |}, Ok tt).
Proof.
  unfold send. pose proof (accepts (g_t g)). cbn [length].
  replace (Nat.min (os_sent (env (g_t g))) 1) with 1%nat by lia. done.
Qed.

Definition key_free (ks : list (Z * bool)) (s : gset (Z * Z)) : gset (Z * Z) :=
  s ∖ list_to_set (map kid ks).
Lemma release_keys_spec ks g :
  let g' := (release_keys ks g).1 in
  (release_keys ks g).2 = Ok tt /\ g_b g' = g_b g /\
  held_keys (g_trace g') = key_free ks (held_keys (g_trace g)) /\
  held_buttons (g_trace g') = held_buttons (g_trace g).
Proof.
  revert g. induction ks as [|[scan ext] ks IH]; intros g; cbn [release_keys].
  - cbn. unfold key_free. cbn. repeat split. set_solver.
  - unfold mbind, M_bind, ignore. rewrite send_one.
    match goal with |- context [release_keys ks ?g1] => specialize (IH g1) end.
    cbn [g_b g_trace] in IH. rewrite held_keys_snoc, held_buttons_snoc in IH.
    destruct IH as (H1 & H2 & H3 & H4). split; [done|]. split; [done|]. split; [|done].
    rewrite H3, (key_step_up _ (scan, ext)). unfold key_free. cbn [map list_to_set]. set_solver.
Qed.
Lemma release_buttons_spec bs g :
  (forall b, b ∈ bs -> 0 <= b <= 2) ->
  let g' := (release_buttons bs g).1 in
  g_b g' = g_b g /\ held_keys (g_trace g') = held_keys (g_trace g) /\
  held_buttons (g_trace g') = held_buttons (g_trace g) ∖ list_to_set bs.
Proof.
  revert g. induction bs as [|b bs IH]; intros g Hb; cbn [release_buttons].
  - cbn. repeat split. set_solver.
  - assert (exists flag, button_flag b false = Ok flag) as [flag Hf].
    { specialize (Hb b ltac:(left)). assert (b = 0 \/ b = 1 \/ b = 2) as [->|[->| ->]] by lia;
        by eexists. }
    rewrite Hf. unfold mbind, M_bind, ignore. rewrite send_one.
    match goal with |- context [release_buttons bs ?g1] => specialize (IH g1) end.
    cbn [g_b g_trace] in IH. rewrite held_keys_snoc, held_buttons_snoc in IH.
    destruct IH as (H2 & H3 & H4); [intros; apply Hb; by right|].
    split; [done|]. split; [done|]. rewrite H4, (button_step_flag _ _ _ _ Hf).
    cbn [list_to_set]. set_solver.
Qed.
Lemma held_button_range tr b : b ∈ held_buttons tr -> 0 <= b <= 2.
Proof.
  unfold held_buttons. assert (forall s, (forall b, b ∈ s -> 0 <= b <= 2) ->
    forall b, b ∈ fold_left button_step tr s -> 0 <= b <= 2) as H.
  { clear b. induction tr as [|e tr IH]; intros s Hs; [done|]. cbn. apply IH. intros b.
    unfold button_step. repeat case_match; try apply Hs;
      rewrite ?elem_of_union, ?elem_of_difference, ?elem_of_singleton;
      (intros [->|Hb]; [lia|by apply Hs]) || (intros [Hb _]; by apply Hs). }
  apply H. set_solver.
Qed.

(** Buttons are tracked in 0..2. *)
Definition buttons_ok (g : Gui) : Prop := forall b, b ∈ ib_buttons (g_b g) -> 0 <= b <= 2.
Definition gui_ok (g : Gui) : Prop := gui_inv g /\ buttons_ok g.

Lemma disarm_spec g :
  tracked g -> buttons_ok g ->
  let g' := (disarm g).1 in
  ib_enabled (g_b g') = false /\ ib_keys (g_b g') = ∅ /\ ib_buttons (g_b g') = ∅ /\
  held_keys (g_trace g') = ∅ /\ held_buttons (g_trace g') = ∅.
Proof.
  intros [Hk Hb] Hok. unfold disarm, release_injected, mbind, M_bind, get_b, put_b.
  cbn -[release_keys release_buttons elements].
  match goal with |- context [release_keys ?ks ?g1] =>
    destruct (release_keys_spec ks g1) as (H1 & H2 & H3 & H4);
    destruct (release_keys ks g1) as [g2 r2] end.
  cbn [fst snd g_b g_trace] in *. subst r2. cbn -[release_buttons elements].
  match goal with |- context [release_buttons ?bs ?g1] =>
    pose proof (release_buttons_spec bs g1) as Hr; destruct (release_buttons bs g1) as [g3 r3] end.
  cbn [fst g_b g_trace] in *.
  destruct Hr as (R1 & R2 & R3).
  { intros b Hin. apply elem_of_elements in Hin. rewrite H2 in Hin. by apply Hok. }
  rewrite H2 in *. cbn in R1, R2, R3. rewrite R1. cbn.
  split; [done|]. split; [done|]. split; [done|]. split.
  - rewrite R2, H3. unfold key_free. apply set_eq. intros k.
    rewrite elem_of_difference, elem_of_list_to_set, elem_of_empty. split; [|done].
    intros [Hin Hn]. apply Hn. destruct (Hk k Hin) as (t & Ht & ->).
    apply list_elem_of_fmap. exists t. split; [done|]. by apply elem_of_elements.
  - rewrite R3, H4. apply set_eq. intros b.
    rewrite elem_of_difference, elem_of_list_to_set, elem_of_empty. split; [|done].
    intros [Hin Hn]. apply Hn, elem_of_elements. by apply Hb.
Qed.
Lemma disarm_ok g : tracked g -> buttons_ok g -> gui_ok (disarm g).1.
Proof.
  intros Ht Hb. destruct (disarm_spec g Ht Hb) as (He & Hk & Hs & Hhk & Hhb).
  unfold gui_ok, gui_inv, tracked, buttons_ok. rewrite Hk, Hs, Hhk, Hhb. set_solver.
Qed.

(** ** Every operation keeps the invariant *)
Lemma same_held_ok g g' : same_held g g' -> gui_ok g -> gui_ok g'.
Proof.
  intros (Hb & Hk & Hbt) [[[H1 H2] H3] H4].
  unfold gui_ok, gui_inv, tracked, buttons_ok. rewrite Hb, Hk, Hbt. done.
Qed.
Lemma quiet_ok {A} (m : M A) g : quiet m -> gui_ok g -> gui_ok (m g).1.
Proof. intros Hq. by apply same_held_ok. Qed.
Lemma or_disarm_ok m g : gui_ok (m g).1 -> gui_ok (or_disarm m g).1.
Proof.
  unfold or_disarm. destruct (m g) as [g1 [u|e]]; cbn; [done|].
  intros [[Ht _] Hb]. by apply disarm_ok.
Qed.
Lemma bind_ok {A B} (m : M A) (k : A -> M B) g :
  gui_ok (m g).1 -> (forall a g1, m g = (g1, Ok a) -> gui_ok g1 -> gui_ok (k a g1).1) ->
  gui_ok ((m ≫= k) g).1.
Proof.
  unfold mbind, M_bind. destruct (m g) as [g1 [a|e]]; cbn; [|done]. eauto.
Qed.
Lemma quiet_bind_ok {A B} (m : M A) (k : A -> M B) g :
  quiet m -> gui_ok g ->
  (forall a g1, g_b g1 = g_b g -> gui_ok g1 -> gui_ok (k a g1).1) -> gui_ok ((m ≫= k) g).1.
Proof.
  intros Hq Hg Hk. apply bind_ok; [by apply quiet_ok|]. intros a g1 E Hg1.
  apply Hk; [|done]. destruct (Hq g) as [Hb _]. by rewrite E in Hb.
Qed.

Lemma type_unit_ok c g : gui_ok g -> gui_ok (type_unit c g).1.
Proof.
  intros [[[Hk Hb] He] Hr]. unfold type_unit, send.
  pose proof (accepts (g_t g)) as Hacc. cbn [length].
  pose proof (key_step_unicode (held_keys (g_trace g)) c) as Hu.
  assert (forall n, n = 1%nat \/ n = 2%nat ->
    gui_ok (fst (match (if (n =? 2)%nat then Ok tt else Err "SendInput partial/failed; never replay"%string) with
     | Ok _ => ({| g_b := g_b g; g_t := S (g_t g); g_trace := g_trace g ++ take n [key c false true true; key c false false true] |}, Ok tt)
     | Err e => (fst (send [key c false false true] {| g_b := g_b g; g_t := S (g_t g); g_trace := g_trace g ++ take n [key c false true true; key c false false true] |}), Err e)
     end))) as H.
  { assert (forall t, gui_ok {| g_b := g_b g; g_t := t;
      g_trace := (g_trace g ++ [key c false true true]) ++ [key c false false true] |}) as Hend.
    { intros t. unfold gui_ok, gui_inv, tracked, buttons_ok. cbn [g_b g_trace].
      rewrite !held_keys_snoc, !held_buttons_snoc. split; [split; [split|]|]; [|done|done|done].
      intros k Hin. apply Hk. by apply Hu. }
    intros n [->| ->]; cbn [Nat.eqb take fst].
    - rewrite send_one. apply Hend.
    - change [key c false true true; key c false false true] with
        ([key c false true true] ++ [key c false false true]). rewrite app_assoc. apply Hend. }
  apply (H (Nat.min (os_sent (env (g_t g))) 2)). lia.
Qed.
Lemma type_units_ok us g : gui_ok g -> gui_ok (type_units us g).1.
Proof.
  revert g. induction us as [|c us IH]; intros g Hg; cbn [type_units]; [done|].
  apply quiet_bind_ok; [apply quiet_require|done|]. intros _ g1 _ Hg1.
  apply bind_ok; [apply or_disarm_ok, quiet_ok; [apply quiet_check|done]|].
  intros _ g2 _ Hg2. apply bind_ok; [by apply type_unit_ok|]. intros _ g3 _ Hg3. by apply IH.
Qed.

Lemma perform_ok a g : gui_ok g -> ib_enabled (g_b g) = true -> gui_ok (perform a g).1.
Proof.
  intros Hg He. destruct a as [x y|x y button down|x y delta|scan ext down|text]; cbn [perform].
  - apply quiet_ok; [apply quiet_move_to|done].
  - apply quiet_bind_ok; [apply quiet_move_to|done|]. intros _ g1 Hb1 Hg1.
    apply quiet_bind_ok; [apply quiet_require|done|]. intros _ g2 Hb2 Hg2.
    destruct (button_flag button down) as [flag|] eqn:Ef; [|done].
    unfold mbind, M_bind, get_b, put_b. rewrite send_one. cbn.
    destruct Hg2 as [[[Hk Hbt] Hd] Hr].
    unfold gui_ok, gui_inv, tracked, buttons_ok, set_buttons. cbn [g_b g_trace ib_keys ib_buttons ib_enabled].
    rewrite held_keys_snoc, held_buttons_snoc, key_step_mouse, (button_step_flag _ _ _ _ Ef).
    assert (0 <= button <= 2) as Hrange.
    { revert Ef. unfold button_flag. repeat case_match; bools; intros; try done; lia. }
    split; [split; [split|]|]; [done| | |].
    + intros b. destruct down; set_solver.
    + rewrite Hb2, Hb1, He. done.
    + intros b. destruct down; rewrite ?elem_of_union, ?elem_of_difference, elem_of_singleton;
        [intros [->|?]; [done|by apply Hr]|intros [? _]; by apply Hr].
  - apply quiet_bind_ok; [apply quiet_move_to|done|]. intros _ g1 Hb1 Hg1.
    apply quiet_bind_ok; [apply quiet_require|done|]. intros _ g2 Hb2 Hg2.
    apply quiet_ok; [by apply quiet_send_mouse|done].
  - apply quiet_bind_ok; [apply quiet_get|done|]. intros b0 g1 Hb1 Hg1.
    apply quiet_bind_ok; [apply quiet_bail_if|done|]. intros _ g2 Hb2 Hg2.
    apply quiet_bind_ok; [apply quiet_require|done|]. intros _ g3 Hb3 Hg3.
    unfold mbind, M_bind, get_b, put_b. rewrite send_one. cbn -[key].
    destruct Hg3 as [[[Hk Hbt] Hd] Hr].
    unfold gui_ok, gui_inv, tracked, buttons_ok, set_keys. cbn [g_b g_trace ib_keys ib_buttons ib_enabled].
    rewrite held_keys_snoc, held_buttons_snoc.
    split; [split; [split|]|]; [|done|by rewrite Hb3, Hb2, Hb1, He|done].
    intros k. destruct down.
    + rewrite (key_step_down _ (scan, ext)), elem_of_union, elem_of_singleton. intros [->|Hin].
      * exists (scan, ext). split; [set_solver|done].
      * destruct (Hk k Hin) as (t & Ht & ->). exists t. split; [set_solver|done].
    + rewrite (key_step_up _ (scan, ext)), elem_of_difference, elem_of_singleton. intros [Hin Hn].
      destruct (Hk k Hin) as (t & Ht & ->). exists t. split; [|done].
      rewrite elem_of_difference, elem_of_singleton. split; [done|]. by intros ->.
  - by apply type_units_ok.
Qed.
Lemma or_disarm_quiet m g g1 u :
  quiet m -> or_disarm m g = (g1, Ok u) -> g_b g1 = g_b g.
Proof.
  intros Hq. destruct (Hq g) as [Hb _]. unfold or_disarm.
  destruct (m g) as [g' [v|e]]; [|done]. by intros [= <- _].
Qed.
Lemma bail_if_ok c e g g1 u : bail_if c e g = (g1, Ok u) -> c = false /\ g1 = g.
Proof. destruct c; [done|]. by intros [= <- _]. Qed.

Lemma gui_op_ok op g : gui_ok g -> gui_ok (gui_op op g).
Proof.
  intros Hg. destruct op as [| | | |a]; cbn [gui_op].
  - exact Hg.
  - unfold arm. apply bind_ok; [apply quiet_ok; [apply quiet_check|done]|].
    intros _ g1 _ [[[Hk Hb] _] Hr]. split; [split; [by split|done]|done].
  - destruct Hg as [[Ht _] Hb]. by apply disarm_ok.
  - apply or_disarm_ok, quiet_ok; [apply quiet_check|done].
  - unfold apply_action. apply bind_ok; [done|]. intros b g1 [= <- <-] _.
    apply quiet_bind_ok; [apply quiet_observe|done|]. intros o g2 Hb2 Hg2.
    apply bind_ok; [by apply quiet_ok; [apply quiet_bail_if|]|].
    intros _ g3 [[Hen _]%orb_false_iff ->]%bail_if_ok Hg3.
    destruct (gui_validate a); [|done].
    apply bind_ok; [apply or_disarm_ok, quiet_ok; [apply quiet_check|done]|].
    intros u g4 E4 Hg4. apply or_disarm_ok, perform_ok; [done|].
    rewrite (or_disarm_quiet _ _ _ _ quiet_check E4), Hb2. by apply negb_false_iff.
Qed.

End Backend.

(** ** What an action may inject *)
Section Guarded.
Context (env : nat -> Os).

(** The conditions [check] finds: a frame younger than 500 ms, an unlocked
    desktop, unchanged geometry, and a permitted foreground window that is the
    selected one. *)
Definition check_passed (b : InputBackend) (o : Os) : Prop :=
  os_now o - ib_last_frame b <= millis 500 /\ os_desktop_available o = true /\
  os_validate o = Some (lo_rect (ib_source b)) /\ os_virtual o = Some (ib_desktop b) /\
  (exists fg, os_foreground o = Some fg /\
     wrong_window (lo_native (ib_source b)) fg = Some false) /\ os_integrity o = true.
Definition after_observe (g : Gui) : Gui :=
  {| g_b := g_b g; g_t := S (g_t g); g_trace := g_trace g |}.
Lemma check_spec g :
  (check env g).1 = after_observe g /\
  ((check env g).2 = Ok tt -> check_passed (g_b g) (env (g_t g))).
Proof.
  unfold check, check_passed, mbind, M_bind, observe, get_b, bail_if, bail, mret, M_ret.
  cbn -[millis].
  destruct ((millis 500 <? _) || _) eqn:E1; [done|]. cbn -[millis].
  destruct (negb _ || _) eqn:E2; [done|]. cbn -[millis]. bools.
  destruct (os_foreground _) as [fg|]; [|done].
  destruct (wrong_window _ fg) as [[]|] eqn:Ew; try done.
  destruct (os_integrity _) eqn:Ei; [|done]. cbn. split; [done|]. intros _.
  repeat split; try done. by exists fg.
Qed.

(** Events that only release. *)
Definition is_release (e : INPUT) : bool :=
  match e with
  | KEYBDINPUT _ flags => Z.testbit flags 1
  | MOUSEINPUT flags _ _ _ =>
    (flags =? MOUSEEVENTF_LEFTUP) || (flags =? MOUSEEVENTF_MIDDLEUP) ||
    (flags =? MOUSEEVENTF_RIGHTUP)
  end.
(** [m] appends only events that satisfy [P]. *)
Definition appends {A} (P : INPUT -> Prop) (m : M A) : Prop :=
  forall g, exists l, g_trace (m g).1 = g_trace g ++ l /\ Forall P l.
Lemma appends_bind {A B} P (m : M A) (k : A -> M B) :
  appends P m -> (forall a, appends P (k a)) -> appends P (m ≫= k).
Proof.
  intros Hm Hk g. unfold mbind, M_bind. destruct (Hm g) as (l & Hl & Hp).
  destruct (m g) as [g1 [a|e]]; cbn in *; [|by exists l].
  destruct (Hk a g1) as (l2 & Hl2 & Hp2). exists (l ++ l2).
  rewrite Hl2, Hl, app_assoc. split; [done|]. by apply Forall_app.
Qed.
Lemma appends_silent {A} P (m : M A) : (forall g, g_trace (m g).1 = g_trace g) -> appends P m.
Proof. intros Hm g. exists []. rewrite Hm, app_nil_r. by split. Qed.
Lemma appends_send P l : Forall P l -> appends P (send env l).
Proof. intros Hl g. eexists. split; [done|]. by apply Forall_take. Qed.
Lemma appends_ignore {A} P (m : M A) : appends P m -> appends P (ignore m).
Proof. intros Hm g. unfold ignore. destruct (Hm g) as (l & ? & ?). destruct (m g). by exists l. Qed.
Lemma appends_weaken {A} (P Q : INPUT -> Prop) (m : M A) :
  (forall e, P e -> Q e) -> appends P m -> appends Q m.
Proof.
  intros HPQ Hm g. destruct (Hm g) as (l & ? & Hl). exists l. split; [done|].
  eapply Forall_impl; eauto.
Qed.

Lemma disarm_releases : appends (fun e => is_release e = true) (disarm env).
Proof.
  assert (forall ks, appends (fun e => is_release e = true) (release_keys env ks)) as Hk.
  { induction ks as [|[scan ext] ks IH]; cbn [release_keys]; [by apply appends_silent|].
    apply appends_bind; [|done]. apply appends_ignore, appends_send.
    constructor; [by destruct ext|constructor]. }
  assert (forall bs, appends (fun e => is_release e = true) (release_buttons env bs)) as Hb.
  { induction bs as [|b bs IH]; cbn [release_buttons]; [by apply appends_silent|].
    apply appends_bind; [|done]. unfold button_flag.
    repeat case_match; try (by apply appends_silent); simplify_eq;
      apply appends_ignore, appends_send; by repeat constructor. }
  unfold disarm, release_injected.
  repeat (apply appends_bind; [first [by apply appends_silent|apply Hk]|intros ?]). apply Hb.
Qed.
Lemma or_disarm_appends m g acts :
  g_trace (m g).1 = g_trace g ++ acts ->
  exists rels, g_trace (or_disarm env m g).1 = g_trace g ++ acts ++ rels /\
    Forall (fun e => is_release e = true) rels.
Proof.
  intros Hm. unfold or_disarm. destruct (m g) as [g1 [u|e]]; cbn in *.
  - exists []. rewrite app_nil_r. by split.
  - destruct (disarm_releases g1) as (l & Hl & Hr). exists l. by rewrite Hl, Hm, app_assoc.
Qed.

(** A move to a pixel of the selected source that belongs to the selected and
    permitted window. *)
Definition move_event (b : InputBackend) (x y : f64) (e : INPUT) : Prop :=
  exists px py ax ay t root,
    rect_map (lo_rect (ib_source b)) x y = Ok (px, py) /\
    os_point_root (env t) = Some root /\ os_integrity (env t) = true /\
    wrong_window (lo_native (ib_source b)) root = Some false /\
    rect_absolute (ib_desktop b) px py = Ok (ax, ay) /\
    e = mouse (Z.lor (Z.lor MOUSEEVENTF_MOVE MOUSEEVENTF_ABSOLUTE) MOUSEEVENTF_VIRTUALDESK)
              ax ay 0.
(** What an action injects before any release. *)
Definition action_events (b : InputBackend) (a : GuiAction) (acts : list INPUT) : Prop :=
  match a with
  | Move x y => acts = [] \/ exists e, move_event b x y e /\ acts = [e]
  | Button x y n down =>
    acts = [] \/ exists e, move_event b x y e /\ (acts = [e] \/
      exists flag, button_flag n down = Ok flag /\ acts = [e; mouse flag 0 0 0])
  | Wheel x y delta =>
    acts = [] \/ exists e, move_event b x y e /\ (acts = [e] \/
      acts = [e; mouse MOUSEEVENTF_WHEEL 0 0 (delta mod 4294967296)])
  | Key scan ext down => acts = [] \/ acts = [key scan ext down false]
  | GText text =>
    Forall (fun e => is_release e = true \/
      exists c, c ∈ encode_utf16 text /\ e = key c false true true) acts
  end.

Lemma send_one_trace e g :
  g_b (send env [e] g).1 = g_b g /\
  ((g_trace (send env [e] g).1 = g_trace g /\ (send env [e] g).2 <> Ok tt) \/
   g_trace (send env [e] g).1 = g_trace g ++ [e]).
Proof.
  unfold send. destruct (os_sent (env (g_t g))) as [|n]; cbn; split; try done.
  - left. by rewrite app_nil_r.
  - rewrite Nat.min_0_r. by right.
Qed.
Lemma move_to_trace x y g :
  g_b (move_to env x y g).1 = g_b g /\
  ((g_trace (move_to env x y g).1 = g_trace g /\ (move_to env x y g).2 <> Ok tt) \/
   exists e, move_event (g_b g) x y e /\ g_trace (move_to env x y g).1 = g_trace g ++ [e]).
Proof.
  split; [by apply quiet_move_to|].
  unfold move_to, mbind, M_bind, get_b, observe, bail_if, bail, mret, M_ret. cbn -[send].
  destruct (rect_map _ x y) as [[px py]|] eqn:Em; [|by left]. cbn -[send].
  destruct (os_point_root _) as [root|] eqn:Er; [|by left].
  destruct (os_integrity _) eqn:Ei; cbn -[send]; [|by left].
  destruct (wrong_window _ root) as [[]|] eqn:Ew; [by left| |by left].
  destruct (rect_absolute _ px py) as [[ax ay]|] eqn:Ea; [|by left].
  match goal with |- context [send env [?e] ?g1] =>
    destruct (send_one_trace e g1) as [_ [[Ht Hr]|Ht]] end; cbn in Ht; [by left|right].
  eexists. split; [|exact Ht]. by exists px, py, ax, ay, (g_t g), root.
Qed.
Lemma require_allowed_trace e g :
  (require_allowed env e g).1 = after_observe g.
Proof. unfold require_allowed, mbind, M_bind, observe. cbn. by destruct (negb _). Qed.

Lemma type_units_trace us : appends (fun e => is_release e = true \/
  exists c, c ∈ us /\ e = key c false true true) (type_units env us).
Proof.
  induction us as [|c us IH]; cbn [type_units]; [by apply appends_silent|].
  apply appends_bind; [apply appends_silent; intros; by rewrite require_allowed_trace|intros _].
  apply appends_bind; [|intros _; apply appends_bind; [|intros _]].
  - intros g. destruct (or_disarm_appends (check env) g []) as (rels & Hr & Hf).
    { rewrite (proj1 (check_spec g)), app_nil_r. done. }
    exists rels. split; [exact Hr|]. eapply Forall_impl; [exact Hf|]. by left.
  - assert (forall l, Forall (fun e => e = key c false true true \/ e = key c false false true) l ->
      Forall (fun e => is_release e = true \/
        exists c', c' ∈ c :: us /\ e = key c' false true true) l) as Hl.
    { intros l Hl. eapply Forall_impl; [exact Hl|]. intros e [->| ->]; [right|by left].
      exists c. split; [left|done]. }
    intros g. unfold type_unit, send at 1. cbn [length].
    match goal with |- context [take ?n ?l] => assert (Forall (fun e => e = key c false true true \/
      e = key c false false true) (take n l)) as Hn by (apply Forall_take; auto) end.
    destruct (_ =? 2)%nat; cbn [fst g_trace]; [by eexists; split; [done|apply Hl]|].
    match goal with |- context [send env [?e] ?g1] =>
      destruct (send_one_trace e g1) as [_ [[Ht _]|Ht]] end; rewrite Ht; cbn [g_trace].
    + eexists. split; [done|by apply Hl].
    + eexists. rewrite <- app_assoc. split; [done|]. apply Hl, Forall_app. auto.
  - eapply appends_weaken; [|exact IH]. intros e [?|(c' & ? & ?)]; [by left|right].
    exists c'. split; [by right|done].
Qed.

(** At most one event is injected, and it is a [Q]. *)
Definition at_most (Q : INPUT -> Prop) (m : M unit) : Prop :=
  forall g, exists acts, g_trace (m g).1 = g_trace g ++ acts /\
    (acts = [] \/ exists e, Q e /\ acts = [e]).
Lemma at_most_none Q (m : M unit) : (forall g, g_trace (m g).1 = g_trace g) -> at_most Q m.
Proof. intros Hm g. exists []. rewrite app_nil_r. auto. Qed.
Lemma at_most_require Q msg (m : M unit) :
  at_most Q m -> at_most Q (_ ← require_allowed env msg; m).
Proof.
  intros Hm g. unfold mbind, M_bind. pose proof (require_allowed_trace msg g) as Hq.
  destruct (require_allowed env msg g) as [g2 r2]. cbn in Hq. subst g2.
  destruct r2 as [[]|]; [apply (Hm (after_observe g))|]. exists []. rewrite app_nil_r. auto.
Qed.
Lemma at_most_send (Q : INPUT -> Prop) e (k : M unit) :
  Q e -> (forall g, g_trace (k g).1 = g_trace g) -> at_most Q (_ ← send env [e]; k).
Proof.
  intros He Hk g. unfold mbind, M_bind. destruct (send_one_trace e g) as [_ Hs].
  destruct (send env [e] g) as [g1 r1]. cbn [fst snd] in Hs.
  assert (g_trace (match r1 with Ok _ => k g1 | Err e0 => (g1, Err e0) end).1 = g_trace g1) as Hg
    by (by destruct r1).
  rewrite Hg. destruct Hs as [[Hs _]|Hs]; rewrite Hs;
    [exists []; rewrite app_nil_r; auto|exists [e]; eauto].
Qed.
(** A move, and then at most one event. *)
Lemma move_then_trace x y Q (m : M unit) g :
  at_most Q m ->
  exists acts, g_trace ((_ ← move_to env x y; m) g).1 = g_trace g ++ acts /\
    (acts = [] \/ exists v, move_event (g_b g) x y v /\ (acts = [v] \/ exists e, Q e /\ acts = [v; e])).
Proof.
  intros Hm. unfold mbind, M_bind. destruct (move_to_trace x y g) as [_ Ht].
  destruct (move_to env x y g) as [g1 r1]. cbn [fst snd] in Ht.
  destruct Ht as [[Ht Hr]|(v & Hv & Ht)].
  - destruct r1 as [[]|]; [done|]. exists []. rewrite app_nil_r. auto.
  - destruct r1 as [[]|]; [|exists [v]; split; [exact Ht|right; eauto]].
    destruct (Hm g1) as (acts & Ha & Hcases). rewrite Ha, Ht, <- app_assoc.
    exists (v :: acts). split; [done|]. right. exists v. split; [done|].
    destruct Hcases as [->|(e & He & ->)]; eauto.
Qed.
Lemma perform_trace a g :
  exists acts, g_trace (perform env a g).1 = g_trace g ++ acts /\ action_events (g_b g) a acts.
Proof.
  destruct a as [x y|x y n down|x y delta|scan ext down|text]; cbn [perform action_events].
  - destruct (move_to_trace x y g) as [_ [[Ht _]|(e & He & Ht)]]; rewrite Ht;
      [exists []; rewrite app_nil_r|exists [e]]; eauto.
  - destruct (move_then_trace x y (fun e => exists flag, button_flag n down = Ok flag /\ e = mouse flag 0 0 0)
      (_ ← require_allowed env "Input revoked before click";
       match button_flag n down with
       | Err e => bail e
       | Ok flag => _ ← send env [mouse flag 0 0 0]; b ← get_b;
           put_b (set_buttons (if down then {[n]} ∪ ib_buttons b else ib_buttons b ∖ {[n]}) b)
       end) g) as (acts & Ha & Hc).
    { apply at_most_require. destruct (button_flag n down) as [flag|]; [|by apply at_most_none].
      apply at_most_send; eauto. }
    exists acts. split; [exact Ha|]. destruct Hc as [?|(v & Hv & [?|(e & (flag & Hf & ->) & ?)])]; eauto 10.
  - destruct (move_then_trace x y (fun e => e = mouse MOUSEEVENTF_WHEEL 0 0 (delta mod 4294967296))
      (_ ← require_allowed env "Input revoked before wheel";
       send env [mouse MOUSEEVENTF_WHEEL 0 0 (delta mod 4294967296)]) g) as (acts & Ha & Hc).
    { apply at_most_require. intros g1. destruct (send_one_trace (mouse MOUSEEVENTF_WHEEL 0 0
        (delta mod 4294967296)) g1) as [_ [[Hs _]|Hs]]; rewrite Hs.
      - exists []. rewrite app_nil_r. auto.
      - eexists. split; [reflexivity|]. right. by eexists. }
    exists acts. split; [exact Ha|]. destruct Hc as [?|(v & Hv & [?|(e & -> & ?)])]; eauto 10.
  - unfold mbind at 1 2, M_bind at 1 2, get_b at 1, bail_if.
    destruct (secure_attention _ _ _ _); cbn [bail mret M_ret].
    { exists []. rewrite app_nil_r. auto. }
    assert (at_most (fun e => e = key scan ext down false)
      (_ ← send env [key scan ext down false]; b ← get_b;
       put_b (set_keys (if down then {[(scan, ext)]} ∪ ib_keys b else ib_keys b ∖ {[(scan, ext)]}) b)))
      as Hm by (by apply at_most_send).
    destruct (at_most_require _ "Input revoked before key" _ Hm g) as (acts & Ha & Hc).
    exists acts. split; [exact Ha|]. destruct Hc as [?|(e & -> & ?)]; auto.
  - apply type_units_trace.
Qed.

(** What one action may do.  [apply] injects anything but releases only when
    the backend is armed, the session allows it, the action is valid and the
    check passed right before: a frame younger than 500 ms, an unlocked desktop,
    unchanged geometry and the selected, permitted window in the foreground.
    What it injects is then at most the action itself: a click or wheel step only
    directly after a move, and a move only to a pixel of the selected source on
    which the selected window is on top. *)
Theorem gui_apply_guarded a g :
  exists acts rels,
    g_trace (apply_action env a g).1 = g_trace g ++ acts ++ rels /\
    Forall (fun e => is_release e = true) rels /\
    (acts <> [] -> ib_enabled (g_b g) = true /\ os_allowed (env (g_t g)) = true /\
       gui_validate a = Ok tt /\ check_passed (g_b g) (env (S (g_t g)))) /\
    action_events (g_b g) a acts /\
    (forall x y e, valid64 x -> valid64 y -> move_event (g_b g) x y e ->
       exists px py, rect_map (lo_rect (ib_source (g_b g))) x y = Ok (px, py) /\
         let r := lo_rect (ib_source (g_b g)) in
         left r <= px <= left r + width r - 1 /\ top r <= py <= top r + height r - 1).
Proof.
  assert (forall x y e, valid64 x -> valid64 y -> move_event (g_b g) x y e ->
       exists px py, rect_map (lo_rect (ib_source (g_b g))) x y = Ok (px, py) /\
         let r := lo_rect (ib_source (g_b g)) in
         left r <= px <= left r + width r - 1 /\ top r <= py <= top r + height r - 1) as Hin.
  { intros x y e Hx Hy (px & py & _ & _ & _ & _ & Hm & _). exists px, py. split; [done|].
    by apply (rect_map_inside _ x y). }
  assert (action_events (g_b g) a []) as Hnone by (destruct a; cbn; auto).
  unfold apply_action, mbind, M_bind, get_b, observe, bail_if.
  cbn -[check_live or_disarm perform gui_validate].
  destruct (negb (ib_enabled (g_b g)) || negb (os_allowed (env (g_t g)))) eqn:Eg;
    cbn -[check_live or_disarm perform gui_validate].
  { exists [], []. rewrite app_nil_r. by repeat split. }
  bools. destruct (gui_validate a) as [[]|] eqn:Ev;
    [|exists [], []; rewrite app_nil_r; by repeat split].
  fold (after_observe g). unfold check_live.
  destruct (or_disarm_appends (check env) (after_observe g) []) as (rels & Hr & Hf).
  { by rewrite (proj1 (check_spec (after_observe g))), app_nil_r. }
  destruct (check_spec (after_observe g)) as [Hc1 Hc2].
  unfold or_disarm at 1 in Hr. unfold or_disarm at 1.
  destruct (check env (after_observe g)) as [g1 [[]|e]]; cbn [fst snd] in *.
  - subst g1. destruct (perform_trace a (after_observe (after_observe g))) as (acts & Ht & Ha).
    destruct (or_disarm_appends (perform env a) _ acts Ht) as (rels' & Hr' & Hf').
    exists acts, rels'. split; [exact Hr'|]. split; [done|]. split; [|by split].
    intros _. by specialize (Hc2 eq_refl).
  - exists [], rels. split; [exact Hr|]. by split.
Qed.
End Guarded.

(** ** A concrete run: a key goes down and the backend is disarmed *)
Definition demo_rect : Rect := {| left := 0; top := 0; width := 1920; height := 1080 |}.
Definition demo_source : LocalSource :=
  {| lo_native := Monitor "1" "DISPLAY1"; lo_label := "screen"; lo_rect := demo_rect |}.
Definition demo_os (t : nat) : Os :=
  {| os_now := Z.of_nat t; os_desktop_available := true; os_validate := Some demo_rect;
     os_virtual := Some demo_rect; os_foreground := Some 7; os_integrity := true;
     os_point_root := Some 7; os_sent := 2; os_allowed := true |}.
Definition demo_ops : list GuiOp := [OpFrame; OpArm; OpApply (Key 30 false true)].
Example gui_click_runs :
  map (fun e => match e with MOUSEINPUT f x y _ => (f, x, y) | KEYBDINPUT s f => (s, f, 0) end)
    (g_trace (gui_run demo_os (gui_start demo_source demo_rect 0)
      [OpFrame; OpArm; OpApply (Button f64_one f64_zero 0 true); OpApply (GText [65])])) =
  [(49153, 65535, 0); (2, 0, 0); (65, 4, 0); (65, 6, 0)].
Proof. by vm_compute. Qed.
