(* ===== verification/GuiSession.v ===== *)
(** * The GUI safety thread ([crates/rc-platform-windows/src/gui_session.rs])
    The shared flags [armed], [revision] and [closed], the bounded command queue,
    the thread that owns the input backend, and everybody who can revoke: callers
    of [disarm], the keyboard and mouse hooks, the timer.  The thread's atomic loads,
    stores and exchanges that the others can come between are steps of their own,
    and so are the two halves of a revocation; a caller's own checks are one step.  The backend itself is [GuiInput]; here
    only whether it is enabled matters. *)
From Stdlib Require Import SpecFloat.
From S2P Require Import Prelude Errors Text Float Geometry MediaWire.
#[global] Open Scope Z_scope.

Definition QUEUE : Z := 64.
Definition DRAIN : nat := 64.

Record Safety := { sf_closed : bool; sf_armed : bool; sf_revision : Z }.
Definition safety_default : Safety :=
  {| sf_closed := false; sf_armed := false; sf_revision := 0 |}.
Definition set_closed (s : Safety) : Safety :=
  {| sf_closed := true; sf_armed := sf_armed s; sf_revision := sf_revision s |}.
Definition set_armed (b : bool) (s : Safety) : Safety :=
  {| sf_closed := sf_closed s; sf_armed := b; sf_revision := sf_revision s |}.
Definition set_revision (r : Z) (s : Safety) : Safety :=
  {| sf_closed := sf_closed s; sf_armed := sf_armed s; sf_revision := r |}.

Inductive Command : Type :=
| CFrame
| CArm (expected : Z)
| CAction (epoch : Z) (action : GuiAction)
| CDisarm
| CStop.

(** Where the safety thread is: waiting for a message, draining with so many
    commands left, between two atomic operations of an [Arm] or of an action, or
    gone. *)
Inductive Pc : Type :=
| PWait
| PDrain (n : nat)
| PArmBackend (n : nat) (expected : Z)   (* the revision was as expected *)
| PArmSwap (n : nat) (expected : Z)      (* the backend armed *)
| PArmStore (n : nat) (next : Z)         (* the exchange succeeded *)
| PArmAgain (n : nat) (next : Z)         (* [armed] stored *)
| PArmFailed (n : nat)
| PActionRevision (n : nat) (epoch : Z) (action : GuiAction)  (* [armed] was set *)
| PApply (n : nat) (epoch : Z) (action : GuiAction)           (* in [apply] *)
| PAllowedRevision (n : nat) (epoch : Z) (action : GuiAction) (* [allowed]: [armed] was set *)
| PAllowedClosed (n : nat) (epoch : Z) (action : GuiAction)
| PAfter                                 (* the end of the loop's body *)
| PStopping                              (* after the loop *)
| PStopped.

(** What happened, for the theorems. *)
Inductive Event : Type :=
| EArmed (epoch : Z)      (* an [Arm] exchanged the revision *)
| ERevoked                (* a revocation incremented the revision *)
| EGranted (epoch : Z)    (* an [Arm] answered its caller *)
| EAllowed (epoch : Z).   (* a revision check let an action of this epoch go on *)

Record State := {
  st_safety : Safety;
  st_queue : list Command;
  st_pc : Pc;
  st_revoking : nat;     (* revocations between their two atomic operations *)
  st_enabled : bool;     (* the backend *)
  st_log : list Event
}.
Definition gui_init : State :=
  {| st_safety := safety_default; st_queue := []; st_pc := PWait; st_revoking := 0;
     st_enabled := false; st_log := [] |}.

Definition with_safety (f : Safety -> Safety) (s : State) : State :=
  {| st_safety := f (st_safety s); st_queue := st_queue s; st_pc := st_pc s;
     st_revoking := st_revoking s; st_enabled := st_enabled s; st_log := st_log s |}.
Definition goto (pc : Pc) (s : State) : State :=
  {| st_safety := st_safety s; st_queue := st_queue s; st_pc := pc;
     st_revoking := st_revoking s; st_enabled := st_enabled s; st_log := st_log s |}.
Definition enable (b : bool) (s : State) : State :=
  {| st_safety := st_safety s; st_queue := st_queue s; st_pc := st_pc s;
     st_revoking := st_revoking s; st_enabled := b; st_log := st_log s |}.
Definition set_queue (q : list Command) (s : State) : State :=
  {| st_safety := st_safety s; st_queue := q; st_pc := st_pc s;
     st_revoking := st_revoking s; st_enabled := st_enabled s; st_log := st_log s |}.
Definition note (e : Event) (s : State) : State :=
  {| st_safety := st_safety s; st_queue := st_queue s; st_pc := st_pc s;
     st_revoking := st_revoking s; st_enabled := st_enabled s; st_log := st_log s ++ [e] |}.

(** ** Revocation, by anybody: [armed.store(false)], then [revision.fetch_add(1)] *)
Definition revoke_first (s : State) : State :=
  let s := with_safety (set_armed false) s in
  {| st_safety := st_safety s; st_queue := st_queue s; st_pc := st_pc s;
     st_revoking := S (st_revoking s); st_enabled := st_enabled s; st_log := st_log s |}.
Definition revoke_second (s : State) : State :=
  match st_revoking s with
  | O => s
  | S k =>
    note ERevoked
      {| st_safety := set_revision (wrap64 (sf_revision (st_safety s) + 1)) (st_safety s);
         st_queue := st_queue s; st_pc := st_pc s; st_revoking := k;
         st_enabled := st_enabled s; st_log := st_log s |}
  end.

(** ** The callers *)
(** [tx.try_send]; a failing wake revokes. *)
Definition post (c : Command) (wake_ok : bool) (s : State) : option State :=
  if sf_closed (st_safety s) || (QUEUE <=? zlen (st_queue s)) then None else
  let s := set_queue (st_queue s ++ [c]) s in
  Some (if wake_ok then s else revoke_first s).
(** [action] refuses before posting. *)
Definition action (epoch : Z) (a : GuiAction) (wake_ok : bool) (s : State) : option State :=
  if negb (sf_armed (st_safety s)) || negb (epoch =? sf_revision (st_safety s)) then None
  else post (CAction epoch a) wake_ok s.

(** ** The thread *)
Inductive Msg : Type := MQuit | MHotkey | MTimer (desktop live : bool) | MWake | MOther.

(** One message: unless armed the backend is disarmed first. *)
Definition on_message (m : Msg) (s : State) : State :=
  match m with
  | MQuit | MHotkey => goto PStopping s
  | _ =>
    let s := if sf_armed (st_safety s) then s else enable false s in
    match m with
    | MTimer desktop live =>
      if negb desktop then goto PStopping s else
      if sf_armed (st_safety s) && negb live
      then goto PAfter (revoke_first (enable false s)) else goto PAfter s
    | MWake => goto (PDrain DRAIN) s
    | _ => goto PAfter s
    end
  end.

(** One atomic operation of the thread.  [arm_ok]: the backend's [arm]; [reply_ok]:
    the caller still waits; [applied]: [apply] needs no further check, and how it
    ended; [disconnected]: every sender is gone. *)
Record Answer := {
  an_message : Msg;
  an_arm_ok : bool;
  an_reply_ok : bool;
  an_applied : option bool;
  an_disconnected : bool
}.

Definition drain (n : nat) (a : Answer) (s : State) : State :=
  match n with
  | O => goto PAfter s
  | S n =>
    match st_queue s with
    | [] => goto PAfter (if an_disconnected a then with_safety set_closed s else s)
    | c :: rest =>
      let s := set_queue rest s in
      match c with
      | CFrame => goto (PDrain n) s
      | CArm expected =>
        if sf_revision (st_safety s) =? expected then goto (PArmBackend n expected) s
        else goto (PArmFailed n) s
      | CAction epoch act =>
        if sf_armed (st_safety s) then goto (PActionRevision n epoch act) s
        else goto (PDrain n) s
      | CDisarm => goto (PDrain n) (enable false s)
      | CStop => goto PAfter (with_safety set_closed s)
      end
    end
  end.
(** [result.is_err()], or the reply could not be sent: disarm and revoke. *)
Definition arm_failed (n : nat) (s : State) : State :=
  goto (PDrain n) (revoke_first (enable false s)).
Definition thread_step (a : Answer) (s : State) : State :=
  match st_pc s with
  | PWait => on_message (an_message a) s
  | PDrain n => drain n a s
  | PArmBackend n expected =>
    if an_arm_ok a then goto (PArmSwap n expected) (enable true s) else goto (PArmFailed n) s
  | PArmSwap n expected =>
    match checked_add64 expected 1 with
    | None => goto (PArmFailed n) s
    | Some next =>
      if sf_revision (st_safety s) =? expected
      then goto (PArmStore n next) (note (EArmed next) (with_safety (set_revision next) s))
      else goto (PArmFailed n) s
    end
  | PArmStore n next => goto (PArmAgain n next) (with_safety (set_armed true) s)
  | PArmAgain n next =>
    if sf_revision (st_safety s) =? next
    then if an_reply_ok a then goto (PDrain n) (note (EGranted next) s) else arm_failed n s
    else arm_failed n (with_safety (set_armed false) s)
  | PArmFailed n => arm_failed n s
  | PActionRevision n epoch act =>
    if sf_revision (st_safety s) =? epoch
    then goto (PApply n epoch act) (note (EAllowed epoch) s) else goto (PDrain n) s
  | PApply n epoch act =>
    match an_applied a with
    | Some true => goto (PDrain n) s
    | Some false => arm_failed n s
    | None =>      (* the next [allowed()] *)
      if sf_armed (st_safety s) then goto (PAllowedRevision n epoch act) s else arm_failed n s
    end
  | PAllowedRevision n epoch act =>
    if sf_revision (st_safety s) =? epoch
    then goto (PAllowedClosed n epoch act) (note (EAllowed epoch) s) else arm_failed n s
  | PAllowedClosed n epoch act =>
    if sf_closed (st_safety s) then arm_failed n s
    else goto (PApply n epoch act) s
  | PAfter => if sf_closed (st_safety s) then goto PStopping s else goto PWait s
  | PStopping => goto PStopped (with_safety set_closed (revoke_first (revoke_first (enable false s))))
  | PStopped => s
  end.

(** ** Interleavings *)
Inductive gui_step : State -> State -> Prop :=
| gs_thread s a : gui_step s (thread_step a s)
| gs_revoke_first s : gui_step s (revoke_first s)
| gs_revoke_second s : gui_step s (revoke_second s)
| gs_post s c wake_ok s' :
    (forall epoch a, c <> CAction epoch a) -> post c wake_ok s = Some s' -> gui_step s s'
| gs_action s epoch a wake_ok s' : action epoch a wake_ok s = Some s' -> gui_step s s'.

(** ** The log numbers the revisions *)
Definition is_change (e : Event) : bool :=
  match e with EArmed _ | ERevoked => true | _ => false end.
Definition changes (l : list Event) : Z := zlen (List.filter is_change l).
(** What every event says about the revision at its time. *)
Definition event_ok (before : Z) (e : Event) : Prop :=
  match e with
  | EArmed n => n = before + 1
  | ERevoked => True
  | EGranted n | EAllowed n => n = before
  end.
Fixpoint log_ok (before : Z) (l : list Event) : Prop :=
  match l with
  | [] => True
  | e :: l => event_ok before e /\ log_ok (before + if is_change e then 1 else 0) l
  end.

Lemma changes_app l k : changes (l ++ k) = changes l + changes k.
Proof. unfold changes. by rewrite List.filter_app, zlen_app. Qed.
Lemma changes_cons e l : changes (e :: l) = (if is_change e then 1 else 0) + changes l.
Proof. unfold changes. cbn. destruct (is_change e); rewrite ?zlen_cons; lia. Qed.
Lemma changes_nonneg l : 0 <= changes l.
Proof. unfold changes. auto with rc. Qed.
Lemma changes_le l : changes l <= zlen l.
Proof.
  induction l as [|e l IH]; [done|]. rewrite changes_cons, zlen_cons. destruct (is_change e); lia.
Qed.
Lemma log_ok_app n l k : log_ok n (l ++ k) <-> log_ok n l /\ log_ok (n + changes l) k.
Proof.
  revert n. induction l as [|e l IH]; intros n; cbn [app log_ok].
  - change (changes []) with 0. rewrite Z.add_0_r. naive_solver.
  - rewrite IH, changes_cons. replace (n + (if is_change e then 1 else 0) + changes l)
      with (n + ((if is_change e then 1 else 0) + changes l)) by lia. naive_solver.
Qed.

(** While the log is shorter than the revision's range, the revision counts the
    changes. *)
Definition gui_log_inv (s : State) : Prop :=
  zlen (st_log s) <= u64_max ->
  sf_revision (st_safety s) = changes (st_log s) /\ log_ok 0 (st_log s).

(** Steps that touch neither the revision nor the log. *)
Definition silent (s s' : State) : Prop :=
  st_log s' = st_log s /\ sf_revision (st_safety s') = sf_revision (st_safety s).
Lemma silent_inv s s' : silent s s' -> gui_log_inv s -> gui_log_inv s'.
Proof. intros [Hl Hr]. unfold gui_log_inv. by rewrite Hl, Hr. Qed.
(** A step that records one event. *)
Lemma note_inv s s' e :
  st_log s' = st_log s ++ [e] ->
  (sf_revision (st_safety s) = changes (st_log s) -> zlen (st_log s') <= u64_max ->
     event_ok (changes (st_log s)) e /\
     sf_revision (st_safety s') = changes (st_log s) + if is_change e then 1 else 0) ->
  gui_log_inv s -> gui_log_inv s'.
Proof.
  intros Hl He Hinv Hlen. rewrite Hl, zlen_snoc in Hlen.
  destruct (Hinv ltac:(lia)) as [Hr Hok]. destruct (He Hr) as [Hev Hr'].
  { rewrite Hl, zlen_snoc. lia. }
  rewrite Hl. split.
  - rewrite changes_app, changes_cons, Hr'. change (changes []) with 0. lia.
  - apply log_ok_app. split; [done|]. cbn. by rewrite Z.add_0_l.
Qed.

Lemma thread_step_inv a s : gui_log_inv s -> gui_log_inv (thread_step a s).
Proof.
  intros Hinv. unfold thread_step, on_message, drain, arm_failed.
  destruct (st_pc s) eqn:Epc; try (by apply (silent_inv s));
    try (repeat case_match; by apply (silent_inv s)).
  - (* the exchange *)
    destruct (checked_add64 expected 1) as [next|] eqn:Ec; [|by apply (silent_inv s)].
    apply checked_add64_Some in Ec as [-> _].
    destruct (Z.eqb_spec (sf_revision (st_safety s)) expected) as [He|]; [|by apply (silent_inv s)].
    eapply (note_inv s); [reflexivity| |done]. intros Hr _. cbn. lia.
  - (* the answer *)
    destruct (Z.eqb_spec (sf_revision (st_safety s)) next) as [He|]; [|by apply (silent_inv s)].
    destruct (an_reply_ok a); [|by apply (silent_inv s)].
    eapply (note_inv s); [reflexivity| |done]. intros Hr _. cbn. lia.
  - destruct (Z.eqb_spec (sf_revision (st_safety s)) epoch) as [He|]; [|by apply (silent_inv s)].
    eapply (note_inv s); [reflexivity| |done]. intros Hr _. cbn. lia.
  - destruct (Z.eqb_spec (sf_revision (st_safety s)) epoch) as [He|]; [|by apply (silent_inv s)].
    eapply (note_inv s); [reflexivity| |done]. intros Hr _. cbn. lia.
Qed.
Lemma post_silent c wake_ok s s' : post c wake_ok s = Some s' -> silent s s'.
Proof. unfold post. case_match; [done|]. intros [= <-]. by destruct wake_ok. Qed.
Lemma gui_step_inv s s' : gui_log_inv s -> gui_step s s' -> gui_log_inv s'.
Proof.
  intros Hinv Hs. destruct Hs as [s a|s|s|s c w s' _ Hp|s e a w s' Ha].
  - by apply thread_step_inv.
  - by apply (silent_inv s).
  - unfold revoke_second. destruct (st_revoking s) as [|k]; [done|].
    eapply (note_inv s); [reflexivity| |done]. cbn. rewrite zlen_snoc. intros Hr Hlen.
    pose proof (changes_le (st_log s)). pose proof (changes_nonneg (st_log s)).
    rewrite wrap64_small by lia. lia.
  - eapply silent_inv; [by eapply post_silent|done].
  - unfold action in Ha. case_match; [done|].
    eapply silent_inv; [by eapply post_silent|done].
Qed.

(** C21: local input and every other revocation fence the remote actions.  In
    every interleaving of the safety thread, its callers and any number of
    revocations, however their atomic operations are ordered: once a revocation
    has incremented the revision after an arming of epoch [e], no revision check
    lets an action of [e] go on again and no [Arm] answers [e]; and between an
    arming of [e] and any action of [e] that is let through, nothing was revoked
    and nothing else was armed. *)
Theorem gui_epoch_fencing s e :
  steps gui_step gui_init s -> zlen (st_log s) <= u64_max ->
  (forall l1 l2, st_log s = l1 ++ ERevoked :: l2 -> EArmed e ∈ l1 ->
     EAllowed e ∉ l2 /\ EGranted e ∉ l2) /\
  (forall l1 l2 l3, st_log s = l1 ++ EArmed e :: l2 ++ EAllowed e :: l3 ->
     ERevoked ∉ l2 /\ forall n, EArmed n ∉ l2).
Proof.
  intros Hs Hlen. assert (log_ok 0 (st_log s)) as Hok.
  { assert (gui_log_inv s) as Hinv; [|by apply Hinv].
    eapply (steps_invariant gui_step gui_log_inv gui_step_inv); [exact Hs|].
    unfold gui_log_inv. by cbn. }
  clear Hs Hlen.
  assert (forall l1 l2 x, st_log s = l1 ++ x :: l2 -> event_ok (changes l1) x) as Hat.
  { intros l1 l2 x Hl. rewrite Hl in Hok. apply log_ok_app in Hok as [_ [Hx _]]. exact Hx. }
  assert (forall l x, x ∈ l -> is_change x = true -> 1 <= changes l) as Hpos.
  { intros l x (k1 & k2 & ->)%list_elem_of_split Hx. rewrite changes_app, changes_cons, Hx.
    pose proof (changes_nonneg k1). pose proof (changes_nonneg k2). lia. }
  split.
  - intros l1 l2 Hl Ha. apply list_elem_of_split in Ha as (k1 & k2 & ->).
    assert (e = changes k1 + 1) as He.
    { apply (Hat k1 (k2 ++ ERevoked :: l2) (EArmed e)). by rewrite Hl, <- app_assoc. }
    assert (forall x, (x = EAllowed e \/ x = EGranted e) -> x ∉ l2) as Hno.
    { intros x Hx (j1 & j2 & ->)%list_elem_of_split.
      assert (event_ok (changes ((k1 ++ EArmed e :: k2) ++ ERevoked :: j1)) x) as Hev.
      { apply (Hat _ j2). rewrite Hl. by rewrite <- !app_assoc. }
      rewrite !changes_app, !changes_cons in Hev.
      pose proof (changes_nonneg k2). pose proof (changes_nonneg j1).
      destruct Hx as [-> | ->]; cbn in Hev; lia. }
    split; apply Hno; auto.
  - intros l1 l2 l3 Hl.
    assert (e = changes l1 + 1) as He by (apply (Hat l1 _ (EArmed e) Hl)).
    assert (e = changes (l1 ++ EArmed e :: l2)) as He2.
    { apply (Hat _ l3 (EAllowed e)). rewrite Hl. by rewrite <- app_assoc. }
    rewrite changes_app, changes_cons in He2. cbn in He2.
    split; [intros Hin|intros n Hin]; pose proof (Hpos _ _ Hin eq_refl); lia.
Qed.

(** A run: arm, inject, physical input; the second action is refused. *)
Definition demo_answer : Answer :=
  {| an_message := MWake; an_arm_ok := true; an_reply_ok := true; an_applied := Some true;
     an_disconnected := false |}.
Definition run_thread (n : nat) (s : State) : State := Nat.iter n (thread_step demo_answer) s.
Definition posted (o : option State) : State := match o with Some s => s | None => gui_init end.
Definition demo_armed : State := run_thread 7 (posted (post (CArm 0) true gui_init)).
Definition demo_two : State :=
  posted (action 1 (Key 30 false false) true
    (posted (action 1 (Key 30 false true) true demo_armed))).
Definition demo_fenced : State :=
  run_thread 8 (revoke_second (revoke_first (run_thread 4 demo_two))).
Lemma run_thread_steps n s : steps gui_step s (run_thread n s).
Proof.
  induction n as [|n IH]; [constructor|].
  eapply steps_app; [exact IH|]. apply steps_one, gs_thread.
Qed.
Lemma posted_steps c wake_ok s :
  (forall epoch a, c <> CAction epoch a) -> post c wake_ok s <> None ->
  steps gui_step s (posted (post c wake_ok s)).
Proof.
  intros Hc Hp. destruct (post c wake_ok s) as [s'|] eqn:E; [|done].
  apply steps_one. by eapply gs_post.
Qed.
Lemma action_steps epoch a s :
  action epoch a true s <> None -> steps gui_step s (posted (action epoch a true s)).
Proof.
  intros Hp. destruct (action epoch a true s) as [s'|] eqn:E; [|done].
  apply steps_one. by eapply gs_action.
Qed.
Lemma demo_fenced_steps : steps gui_step gui_init demo_fenced.
Proof.
  assert (steps gui_step gui_init demo_armed) as H1.
  { eapply steps_app; [|apply run_thread_steps]. by apply posted_steps. }
  assert (steps gui_step demo_armed demo_two) as H2.
  { eapply steps_app; [apply (action_steps 1 (Key 30 false true)); by vm_compute|].
    apply (action_steps 1 (Key 30 false false)). by vm_compute. }
  eapply steps_app; [exact H1|]. eapply steps_app; [exact H2|].
  eapply steps_app; [apply (run_thread_steps 4)|].
  eapply steps_app; [apply steps_one, gs_revoke_first|].
  eapply steps_app; [apply steps_one, gs_revoke_second|]. apply run_thread_steps.
Qed.
Lemma gui_epoch_fencing_witness :
  st_log demo_fenced = [EArmed 1; EGranted 1; EAllowed 1; ERevoked] /\
  EAllowed 1 ∉ @nil Event /\ ERevoked ∉ [EGranted 1].
Proof.
  assert (zlen (st_log demo_fenced) <= u64_max) as Hl by (by vm_compute).
  destruct (gui_epoch_fencing demo_fenced 1 demo_fenced_steps Hl) as [H1 H2].
  split; [by vm_compute|]. split.
  - apply (H1 [EArmed 1; EGranted 1; EAllowed 1] []); [by vm_compute|left].
  - by apply (H2 [] [EGranted 1] [ERevoked]).
Defined.
