(* ===== verification/GuiSetup.v ===== *)
(** * The safeguards of GUI sharing ([crates/rc-platform-windows/src/gui_session.rs])
    What the safety thread puts up before anything can be controlled, the hooks through
    which local input revokes, the handle's calls, and how everything is taken down.
    The message loop in between is [GuiSession]. *)
From Stdlib Require Import String.
From S2P Require Import Prelude Errors Text Float Geometry MediaWire GuiInput GuiSession.
#[global] Open Scope Z_scope.
Open Scope string_scope.
Open Scope Z_scope.

(** ** Putting the safeguards up *)
Inductive GuiEffect : Type :=
| GeDpi | GeDpiBack                      (* the thread's DPI context *)
| GeWindow (title : string) | GeShow | GeDestroyWindow
| GeHotkey (id : Z) | GeUnregisterHotkey (id : Z)
| GeKeyHook | GeUnhookKey
| GeMouseHook | GeUnhookMouse
| GeTimer (ms : Z) | GeKillTimer
| GeBackend | GeBackendDrop              (* InputBackend::new *)
| GeReady (ok : bool)                    (* the caller of [start] is answered *)
| GeLoop                                 (* messages are handled *)
| GeDisarm.                              (* backend.disarm *)

(** What the system answers during the set-up. *)
Record GuiSetup := {
  gy_dpi : bool;
  gy_desktop : bool;                     (* input_desktop_available *)
  gy_window : bool;
  gy_hotkey : bool;
  gy_key : bool;
  gy_mouse : bool;
  gy_timer : bool;
  gy_backend : sres ();
  gy_ready : bool                        (* the caller of [start] still waits *)
}.
Definition SHARE_TITLE : string := "RemoteCodex: sharing active - close or Ctrl+Alt+F12 to STOP".
Definition HOTKEY : Z := 91.
(** [Drop] of [Resources]; the calls for what is not there do nothing and are left
    out. *)
Definition resources_drop (key mouse timer hotkey : bool) : list GuiEffect :=
  app (if key then [GeUnhookKey] else [])
  (app (if mouse then [GeUnhookMouse] else [])
  (app (if timer then [GeKillTimer] else [])
  (app (if hotkey then [GeUnregisterHotkey HOTKEY] else []) [GeDestroyWindow]))).
(** The set-up; on failure what there is is dropped, last of all the DPI scope. *)
Definition gui_setup (y : GuiSetup) : list GuiEffect * sres () :=
  if negb (gy_dpi y) then ([], Err "Per-monitor DPI context unavailable") else
  if negb (gy_desktop y) then ([GeDpi; GeDpiBack], Err "Desktop unavailable") else
  if negb (gy_window y) then ([GeDpi; GeDpiBack], Err "Visible sharing indicator unavailable") else
  let es := [GeDpi; GeWindow SHARE_TITLE] in
  let fail es key mouse timer hotkey e :=
    (app es (app (resources_drop key mouse timer hotkey) [GeDpiBack]), Err e) in
  if negb (gy_hotkey y)
  then fail es false false false false "Emergency hotkey already used; refusing GUI sharing" else
  let es := app es (GeHotkey HOTKEY ::
    app (if gy_key y then [GeKeyHook] else []) (if gy_mouse y then [GeMouseHook] else [])) in
  if negb (gy_key y) || negb (gy_mouse y)
  then fail es (gy_key y) (gy_mouse y) false true "Local-input preemption hooks unavailable" else
  if negb (gy_timer y) then fail es true true false true "Safety timer unavailable" else
  let es := app es [GeTimer 100; GeShow] in
  match gy_backend y with
  | Err e => fail es true true true true e
  | Ok _ => (app es [GeBackend], Ok tt)
  end.
(** [run]: the thread's life; [handled]: how many messages the loop took. *)
Definition gui_run (y : GuiSetup) (handled : nat) : list GuiEffect * sres () :=
  match gui_setup y with
  | (es, Err e) => (app es [GeReady false], Err e)
  | (es, Ok _) =>
    let down := resources_drop true true true true in
    if negb (gy_ready y) then (app es (GeDpiBack :: GeBackendDrop :: down), Ok tt) else
    (app es (GeReady true :: app (repeat GeLoop handled)
       (GeDisarm :: app down [GeDpiBack; GeBackendDrop])), Ok tt)
  end.
(** [start]: the session's thread, if it answered within three seconds. *)
Definition gui_start (spawned : sres ()) (answer : option (sres ())) : sres () :=
  match spawned with
  | Err e => Err e
  | Ok _ =>
    match answer with
    | None => Err "GUI safety setup timed out"
    | Some r => r
    end
  end.

(** ** Local input *)
Definition INPUT_TAG : Z := 1380140885.
(** [physical] and the two hooks: whether the event is somebody's own; it is passed on
    in any case. *)
Definition input_hook (code extra : Z) (s : State) : State :=
  if (0 <=? code) && negb (extra =? INPUT_TAG) then revoke_second (revoke_first s) else s.
(** [wndproc]: closing the indicator ends the loop. *)
Definition share_window_proc (msg : Z) : option Msg := if msg =? 16 then Some MQuit else None.

(** ** The handle *)
Definition session_frame (wake_ok : bool) (s : State) : option State := post CFrame wake_ok s.
Definition session_arm (wake_ok : bool) (s : State) : option State :=
  post (CArm (sf_revision (st_safety s))) wake_ok s.
(** How [arm] ends for its caller; the answer may come too late. *)
Definition arm_result (posted : bool) (reply : option (sres Z)) : sres Z :=
  if negb posted then Err "GUI input queue full/disconnected" else
  match reply with
  | None => Err "GUI arm timeout"
  | Some r => r
  end.
Definition session_disarm (wake_ok : bool) (s : State) : State :=
  let s := revoke_second (revoke_first s) in
  match post CDisarm wake_ok s with Some s => s | None => s end.
(** [Drop]: revoke, try to queue a stop, and quit the thread's loop. *)
Definition session_drop (s : State) : State :=
  let s := revoke_second (revoke_first s) in
  if QUEUE <=? zlen (st_queue s) then s else set_queue (app (st_queue s) [CStop]) s.

(** ** Nothing is controlled without its safeguards *)
Record Armour := {
  ar_dpi : bool; ar_window : bool; ar_hotkey : bool; ar_key : bool; ar_mouse : bool;
  ar_timer : bool; ar_shown : bool; ar_backend : bool
}.
Definition unarmoured : Armour :=
  {| ar_dpi := false; ar_window := false; ar_hotkey := false; ar_key := false; ar_mouse := false;
     ar_timer := false; ar_shown := false; ar_backend := false |}.
Definition armoured : Armour :=
  {| ar_dpi := true; ar_window := true; ar_hotkey := true; ar_key := true; ar_mouse := true;
     ar_timer := true; ar_shown := true; ar_backend := true |}.
(** Each safeguard is put up once and taken down once; the backend is created behind
    all of them, the caller is told success and messages are handled only behind all
    of them, and failure only when none is left. *)
Definition armour (a : Armour) (e : GuiEffect) : option Armour :=
  let 'Build_Armour d w h k m t s b := a in
  match e with
  | GeDpi => if d then None else Some (Build_Armour true w h k m t s b)
  | GeDpiBack => if d then Some (Build_Armour false w h k m t s b) else None
  | GeWindow _ => if d && negb w then Some (Build_Armour d true h k m t s b) else None
  | GeDestroyWindow => if w then Some (Build_Armour d false h k m t false b) else None
  | GeShow => if w && h && k && m && t then Some (Build_Armour d w h k m t true b) else None
  | GeHotkey _ => if h then None else Some (Build_Armour d w true k m t s b)
  | GeUnregisterHotkey _ => if h then Some (Build_Armour d w false k m t s b) else None
  | GeKeyHook => if k then None else Some (Build_Armour d w h true m t s b)
  | GeUnhookKey => if k then Some (Build_Armour d w h false m t s b) else None
  | GeMouseHook => if m then None else Some (Build_Armour d w h k true t s b)
  | GeUnhookMouse => if m then Some (Build_Armour d w h k false t s b) else None
  | GeTimer _ => if t then None else Some (Build_Armour d w h k m true s b)
  | GeKillTimer => if t then Some (Build_Armour d w h k m false s b) else None
  | GeBackend => if d && w && h && k && m && t && s then Some armoured else None
  | GeBackendDrop => if b then Some (Build_Armour d w h k m t s false) else None
  | GeReady true | GeLoop | GeDisarm =>
    if d && w && h && k && m && t && s && b then Some a else None
  | GeReady false => if d || w || h || k || m || t then None else Some a
  end.
Lemma gui_setup_armour y :
  match gui_setup y with
  | (es, Ok _) => trace armour es unarmoured = Some armoured
  | (es, Err _) => trace armour es unarmoured = Some unarmoured
  end.
Proof.
  destruct y as [d dt w h k m t b r]. unfold gui_setup. cbn.
  destruct d; [|done]. destruct dt; [|done]. destruct w; [|done]. destruct h; [|done].
  destruct k, m, t; try done. by destruct b.
Qed.


(** ** Local input and the epochs *)
(** A local event ends whatever was armed: nothing is armed afterwards, the epoch is
    another one, and so no action of the old epoch is accepted any more. *)
Lemma local_input_revokes code extra s :
  0 <= code -> extra <> INPUT_TAG -> 0 <= sf_revision (st_safety s) < u64_max ->
  let s' := input_hook code extra s in
  sf_armed (st_safety s') = false /\ sf_revision (st_safety s') = sf_revision (st_safety s) + 1 /\
  forall epoch a wake_ok, action epoch a wake_ok s' = None.
Proof.
  intros Hc Hx Hr. unfold input_hook.
  destruct (Z.leb_spec 0 code); [|lia]. destruct (Z.eqb_spec extra INPUT_TAG); [done|].
  cbn. split; [done|]. split; [|done]. unfold wrap64, u64_max in *. apply Z.mod_small. lia.
Qed.
(** The agent's own injections do not. *)
Lemma own_input_keeps code s : input_hook code INPUT_TAG s = s.
Proof. unfold input_hook. by rewrite Z.eqb_refl, andb_false_r. Qed.
Lemma disarm_disarms wake_ok s : sf_armed (st_safety (session_disarm wake_ok s)) = false.
Proof.
  unfold session_disarm, post. destruct (_ || _); [done|]. by destruct wake_ok.
Qed.
(** Each of these is a path of [gui_step]. *)
Lemma input_hook_steps code extra s : steps gui_step s (input_hook code extra s).
Proof.
  unfold input_hook. destruct (_ && _); [|constructor].
  eapply steps_trans; [apply gs_revoke_first|]. apply steps_one, gs_revoke_second.
Qed.
Lemma session_disarm_steps wake_ok s : steps gui_step s (session_disarm wake_ok s).
Proof.
  unfold session_disarm. eapply steps_trans; [apply gs_revoke_first|].
  eapply steps_trans; [apply gs_revoke_second|].
  destruct (post CDisarm wake_ok _) as [s'|] eqn:E; [|constructor].
  apply steps_one. by eapply gs_post; [|exact E].
Qed.
