(* ===== verification/MediaStream.v ===== *)
(** * Screen sharing on the agent ([crates/rc-agent/src/media.rs])
    The host's media settings, the approved sources with the one active stream
    ([MediaManager]), and the loop that ties one client's WebSocket, the media
    helper and the GUI safety session together ([run]). *)
From Stdlib Require Import String SpecFloat Sorted.
From S2P Require Import Prelude Errors Protocol Text Paths Auth Float Geometry MediaWire.
#[global] Open Scope Z_scope.

(** ** Settings *)
Record MediaConfig := {
  mc_enabled : bool;
  mc_allow_control : bool;
  mc_tailnet_ip : option bytes;
  mc_allowed_peer_ips : list bytes;
  mc_min_port : Z;
  mc_max_port : Z;
  mc_helper_path : option (bool * Components);   (* and whether it is absolute *)
  mc_profile : VideoProfile
}.
Definition media_config_default : MediaConfig :=
  {| mc_enabled := false; mc_allow_control := false; mc_tailnet_ip := None;
     mc_allowed_peer_ips := []; mc_min_port := 50000; mc_max_port := 50010;
     mc_helper_path := None; mc_profile := profile_default |}.
Definition media_config_validate (c : MediaConfig) : sres unit :=
  match profile_validate (mc_profile c) with
  | Err e => Err e
  | Ok _ =>
    if (mc_min_port c <? 1024) || (mc_max_port c <? mc_min_port c) ||
       (31 <? mc_max_port c - mc_min_port c)
    then Err "Media UDP range must contain at most 32 ports above 1023"%string else
    if (16 <? zlen (mc_allowed_peer_ips c)) ||
       existsb (fun x => negb (tailnet_ip x)) (mc_allowed_peer_ips c)
    then Err "Media peers must be explicitly listed numeric Tailscale IPv4 addresses"%string else
    if mc_enabled c &&
       (is_none_or (fun x => negb (tailnet_ip x)) (mc_tailnet_ip c) ||
        bool_decide (mc_allowed_peer_ips c = []))
    then Err "Enabled media needs company tailnet_ip and allowed_peer_ips"%string else
    if is_some_and (fun p => negb p.1) (mc_helper_path c)
    then Err "Explicit helper_path must be absolute"%string else Ok tt
  end.

(** [now.duration_since(x)], [x.elapsed()] *)
Definition since (now x : Z) : Z := saturating_sub now x.

Definition helper_control_ready (helper_control_allowed : bool) (capture_state : CaptureState)
    (last_encoded last_presented now : Z) : bool :=
  helper_control_allowed && bool_decide (capture_state = Live) &&
  (since now last_encoded <=? millis 500) && (since now last_presented <=? millis 500).
Definition capture_age_ms (now_ms captured_at_ms : Z) : sres Z :=
  if now_ms <? captured_at_ms then Err "Captured frame timestamp is in the future"%string else
  let age := now_ms - captured_at_ms in
  if 60000 <? age then Err "Captured frame age exceeded safety bound"%string else Ok age.

(** ** The manager *)
Record Approved := { ap_view : SourceView; ap_local : LocalSource; ap_until : Z }.
Record Active := { ac_id : Uuid; ac_client : Uuid; ac_cancel : Token }.
Record Inner := { in_sources : gmap Uuid Approved; in_active : option Active }.
(** The manager with the cancelled tokens its streams watch. *)
Record MediaManager := {
  mm_config : MediaConfig;
  mm_inner : Inner;
  mm_cancelled : gset Token;
  mm_gui_controlled : bool
}.
Definition media_new (config : MediaConfig) : MediaManager :=
  {| mm_config := config; mm_inner := {| in_sources := ∅; in_active := None |};
     mm_cancelled := ∅; mm_gui_controlled := false |}.
Definition set_inner (i : Inner) (m : MediaManager) : MediaManager :=
  {| mm_config := mm_config m; mm_inner := i; mm_cancelled := mm_cancelled m;
     mm_gui_controlled := mm_gui_controlled m |}.
Definition set_sources (s : gmap Uuid Approved) (m : MediaManager) : MediaManager :=
  set_inner {| in_sources := s; in_active := in_active (mm_inner m) |} m.
Definition set_active (a : option Active) (m : MediaManager) : MediaManager :=
  set_inner {| in_sources := in_sources (mm_inner m); in_active := a |} m.
(** [a.cancel.cancel()] of the active stream, if it satisfies [p]. *)
Definition cancel_active (p : Active -> bool) (m : MediaManager) : MediaManager :=
  match in_active (mm_inner m) with
  | Some a =>
    if p a then
      {| mm_config := mm_config m; mm_inner := mm_inner m;
         mm_cancelled := {[ac_cancel a]} ∪ mm_cancelled m;
         mm_gui_controlled := mm_gui_controlled m |}
    else m
  | None => m
  end.

Definition native_matches (kind handle : string) (s : LocalSource) : bool :=
  bool_decide (native_kind (lo_native s) = kind) &&
  match native_handle (lo_native s) with
  | Ok h => bool_decide (dec h = handle)
  | Err _ => false
  end.
(** [enumerated]: the sources the operating system lists, if it does. *)
Definition media_approve (kind handle : string) (control : bool)
    (enumerated : option (list LocalSource)) (id : Uuid) (now : Z) (m : MediaManager)
  : MediaManager * sres SourceView :=
  if negb (mc_enabled (mm_config m))
  then (m, Err "Media is disabled in host configuration"%string) else
  if control && negb (mc_allow_control (mm_config m))
  then (m, Err "GUI control disabled in configuration"%string) else
  match enumerated with
  | None => (m, Err "enumerate_sources"%string)
  | Some l =>
    match List.find (native_matches kind handle) l with
    | None => (m, Err "Local source no longer exists"%string)
    | Some source =>
      let sources := base.filter (fun kv => now < ap_until kv.2) (in_sources (mm_inner m)) in
      let m := set_sources sources m in
      if (16 <=? size sources)%nat then (m, Err "At most 16 approved sources"%string) else
      let view := {| sv_id := id; sv_generation := 1; sv_geometry_version := "1";
                     sv_label := lo_label source; sv_kind := native_kind (lo_native source);
                     sv_rect := lo_rect source; sv_control_allowed := control |} in
      (set_sources (<[id := {| ap_view := view; ap_local := source;
                               ap_until := now + secs (8 * 3600) |}]> sources) m, Ok view)
    end
  end.
Definition view_scope (v : SourceView) : Scope :=
  if bool_decide (sv_kind v = "window"%string) then WindowView else DesktopView.
(** [cancelled]: the revoked principals' tokens. *)
Definition media_get (cancelled : gset Token) (id : Uuid) (p : Principal) (now : Z)
    (m : MediaManager) : res Approved :=
  if negb (mc_enabled (mm_config m)) then Err MediaUnavailable else
  match option_keep (fun s => now <? ap_until s) (in_sources (mm_inner m) !! id) with
  | None => Err Forbidden
  | Some source =>
    match principal_require cancelled p (view_scope (ap_view source)) now with
    | Err e => Err e
    | Ok _ => Ok source
    end
  end.
Definition media_begin (cancelled : gset Token) (p : Principal) (id stream : Uuid) (cancel : Token)
    (now : Z) (m : MediaManager) : MediaManager * res (Uuid * Token) :=
  match media_get cancelled id p now m with
  | Err e => (m, Err e)
  | Ok _ =>
    match in_active (mm_inner m) with
    | Some _ => (m, Err LeaseBusy)
    | None =>
      (set_active (Some {| ac_id := stream; ac_client := p_client_id p; ac_cancel := cancel |}) m,
       Ok (stream, cancel))
    end
  end.
Definition media_finish (id : Uuid) (m : MediaManager) : MediaManager :=
  if is_some_and (fun a => ac_id a =? id) (in_active (mm_inner m)) then set_active None m else m.
Definition media_cancel_all : MediaManager -> MediaManager := cancel_active (fun _ => true).
Definition media_revoke_client (id : Uuid) : MediaManager -> MediaManager :=
  cancel_active (fun a => ac_client a =? id).
Definition media_clear_sources (m : MediaManager) : MediaManager :=
  cancel_active (fun _ => true) (set_sources ∅ m).
Definition public_sources (cancelled : gset Token) (p : Principal) (now : Z) (m : MediaManager)
  : gmap Uuid SourceView :=
  ap_view <$> base.filter (fun kv => now < ap_until kv.2 /\
    is_ok (principal_require cancelled p (view_scope (ap_view kv.2)) now) = true)
    (in_sources (mm_inner m)).

(** ** One stream *)
Record Stream := {
  s_p : Principal;
  s_last_encoded : Z;
  s_last_presented : Z;
  s_lease_until : Z;
  s_lease : option Z;
  s_last_seq : Z;
  s_last_frame_seq : Z;
  s_input_window : Z;
  s_input_count : Z;
  s_helper_control_allowed : bool;
  s_helper_capture_state : CaptureState;
  s_negotiated : bool;
  s_gui_controlled : bool       (* the manager's flag *)
}.
Definition stream_start (p : Principal) (now : Z) : Stream :=
  {| s_p := p; s_last_encoded := now - secs 60; s_last_presented := now - secs 60;
     s_lease_until := now - secs 60; s_lease := None; s_last_seq := 0; s_last_frame_seq := 0;
     s_input_window := now; s_input_count := 0; s_helper_control_allowed := false;
     s_helper_capture_state := Starting; s_negotiated := false; s_gui_controlled := false |}.

(** What a round does to the outside. *)
Inductive Effect : Type :=
| EfError (code : string)
| EfLease (epoch : option Z)
| EfOffer (sdp : bytes)
| EfIce (candidate : bytes) (mline : Z)
| EfStatus (control_allowed : bool)
| EfPong
| EfHelper (m : HelperIn)
| EfDisarm
| EfFrame
| EfAction (epoch seq : Z) (a : GuiAction).

Inductive ClientFrame : Type :=
| CfText (m : option MediaClientMessage)   (* [None]: not a message *)
| CfPing
| CfOther.
Inductive MediaEvent : Type :=
| MeTick
| MeHelper (m : option HelperOut)
| MeClient (f : ClientFrame).

(** What a round observes. *)
Record MediaEnv := {
  me_now : Z;
  me_monotonic_ms : Z;
  me_shutdown : bool;
  me_stopped : bool;                 (* the stream's own token *)
  me_revoked : gset Token;
  me_event : MediaEvent;
  me_source_rect : option Rect;      (* validate_source *)
  me_gui_armed : bool;
  me_gui_revision : Z;
  me_gui_closed : bool;
  me_arm : option Z;                 (* what [gui.arm()] answers *)
  me_io_ok : bool;                   (* sends, and posts to the GUI session *)
  me_refresh : res (Principal * option Uuid);   (* what [consume_ws] answers *)
  me_refresh_get : bool              (* whether [media.get] accepts the new principal *)
}.

Section Stream.
Context (config : MediaConfig) (source : Approved) (started : Z).

Definition set_lease (lease : option Z) (controlled : bool) (st : Stream) : Stream :=
  {| s_p := s_p st; s_last_encoded := s_last_encoded st;
     s_last_presented := s_last_presented st; s_lease_until := s_lease_until st;
     s_lease := lease; s_last_seq := s_last_seq st; s_last_frame_seq := s_last_frame_seq st;
     s_input_window := s_input_window st; s_input_count := s_input_count st;
     s_helper_control_allowed := s_helper_control_allowed st;
     s_helper_capture_state := s_helper_capture_state st; s_negotiated := s_negotiated st;
     s_gui_controlled := controlled |}.
(** [gui.disarm(); gui_controlled.store(false); lease = None;] *)
Definition drop_lease (st : Stream) : Stream := set_lease None false st.
Definition set_until (until : Z) (st : Stream) : Stream :=
  {| s_p := s_p st; s_last_encoded := s_last_encoded st;
     s_last_presented := s_last_presented st; s_lease_until := until;
     s_lease := s_lease st; s_last_seq := s_last_seq st; s_last_frame_seq := s_last_frame_seq st;
     s_input_window := s_input_window st; s_input_count := s_input_count st;
     s_helper_control_allowed := s_helper_control_allowed st;
     s_helper_capture_state := s_helper_capture_state st; s_negotiated := s_negotiated st;
     s_gui_controlled := s_gui_controlled st |}.
Definition set_last_seq (n : Z) (st : Stream) : Stream :=
  {| s_p := s_p st; s_last_encoded := s_last_encoded st;
     s_last_presented := s_last_presented st; s_lease_until := s_lease_until st;
     s_lease := s_lease st; s_last_seq := n; s_last_frame_seq := s_last_frame_seq st;
     s_input_window := s_input_window st; s_input_count := s_input_count st;
     s_helper_control_allowed := s_helper_control_allowed st;
     s_helper_capture_state := s_helper_capture_state st; s_negotiated := s_negotiated st;
     s_gui_controlled := s_gui_controlled st |}.
Definition set_frames (encoded presented frame_seq : Z) (st : Stream) : Stream :=
  {| s_p := s_p st; s_last_encoded := encoded;
     s_last_presented := presented; s_lease_until := s_lease_until st;
     s_lease := s_lease st; s_last_seq := s_last_seq st; s_last_frame_seq := frame_seq;
     s_input_window := s_input_window st; s_input_count := s_input_count st;
     s_helper_control_allowed := s_helper_control_allowed st;
     s_helper_capture_state := s_helper_capture_state st; s_negotiated := s_negotiated st;
     s_gui_controlled := s_gui_controlled st |}.
Definition set_helper (allowed : bool) (state : CaptureState) (st : Stream) : Stream :=
  {| s_p := s_p st; s_last_encoded := s_last_encoded st;
     s_last_presented := s_last_presented st; s_lease_until := s_lease_until st;
     s_lease := s_lease st; s_last_seq := s_last_seq st; s_last_frame_seq := s_last_frame_seq st;
     s_input_window := s_input_window st; s_input_count := s_input_count st;
     s_helper_control_allowed := allowed; s_helper_capture_state := state;
     s_negotiated := s_negotiated st; s_gui_controlled := s_gui_controlled st |}.
Definition set_window (window count : Z) (st : Stream) : Stream :=
  {| s_p := s_p st; s_last_encoded := s_last_encoded st;
     s_last_presented := s_last_presented st; s_lease_until := s_lease_until st;
     s_lease := s_lease st; s_last_seq := s_last_seq st; s_last_frame_seq := s_last_frame_seq st;
     s_input_window := window; s_input_count := count;
     s_helper_control_allowed := s_helper_control_allowed st;
     s_helper_capture_state := s_helper_capture_state st; s_negotiated := s_negotiated st;
     s_gui_controlled := s_gui_controlled st |}.
Definition set_negotiated (p : Principal) (n : bool) (st : Stream) : Stream :=
  {| s_p := p; s_last_encoded := s_last_encoded st;
     s_last_presented := s_last_presented st; s_lease_until := s_lease_until st;
     s_lease := s_lease st; s_last_seq := s_last_seq st; s_last_frame_seq := s_last_frame_seq st;
     s_input_window := s_input_window st; s_input_count := s_input_count st;
     s_helper_control_allowed := s_helper_control_allowed st;
     s_helper_capture_state := s_helper_capture_state st; s_negotiated := n;
     s_gui_controlled := s_gui_controlled st |}.

(** A round's outcome: the stream, or how the loop is left: [Err false] by [break],
    [Err true] by an error. *)
Definition Round : Type := result bool Stream * list Effect.
Definition break : Round := (Err false, []).
Definition bail : Round := (Err true, []).
(** Effects whose failure ends the loop. *)
Definition emits (env : MediaEnv) (st : Stream) (es : list Effect) : Round :=
  ((if me_io_ok env then Ok st else Err true), es).
(** The last message before a [break]. *)
Definition breaks (env : MediaEnv) (es : list Effect) : Round := (Err (negb (me_io_ok env)), es).

Definition control_ready (env : MediaEnv) (st : Stream) : bool :=
  helper_control_ready (s_helper_control_allowed st) (s_helper_capture_state st)
    (s_last_encoded st) (s_last_presented st) (me_now env).
Definition lease_is (o : option Z) (e : Z) : bool := bool_decide (o = Some e).
Definition geometry_is (generation : Z) (version : string) : bool :=
  (generation =? sv_generation (ap_view source)) &&
  bool_decide (version = sv_geometry_version (ap_view source)).

Definition on_tick (env : MediaEnv) (st : Stream) : Round :=
  if is_err (principal_require (me_revoked env) (s_p st) TerminalRead (me_now env)) ||
     (ap_until source <=? me_now env) || me_gui_closed env then break else
  if negb (bool_decide (me_source_rect env = Some (lo_rect (ap_local source))))
  then breaks env [EfError "SOURCE_CHANGED_REOPEN_REQUIRED"] else
  if negb (s_negotiated st) && (secs 20 <? since (me_now env) started)
  then breaks env [EfError "WEBRTC_NEGOTIATION_TIMEOUT"] else
  if option_is_some (s_lease st) &&
     (negb (control_ready env st) || (s_lease_until st <=? me_now env) ||
      negb (me_gui_armed env) || negb (lease_is (s_lease st) (me_gui_revision env)))
  then emits env (drop_lease st) [EfDisarm; EfLease None]
  else (Ok st, []).

Definition on_helper (env : MediaEnv) (m : option HelperOut) (st : Stream) : Round :=
  match m with
  | Some (HoFrame sequence captured) =>
    match parse_unsigned u64_max sequence with
    | None => bail
    | Some seq =>
      if seq <=? s_last_frame_seq st then bail else
      match capture_age_ms (me_monotonic_ms env) captured with
      | Err _ => bail
      | Ok age =>
        let now := me_now env in
        (* Instant::checked_sub: [None] before the clock's origin *)
        let encoded := if now - millis age <? 0 then now else now - millis age in
        (Ok (set_frames encoded (s_last_presented st) seq st), [])
      end
    end
  | Some (HoOffer sdp) =>
    match sanitize_sdp sdp with
    | Err _ => bail
    | Ok s => emits env st [EfOffer s]
    end
  | Some (HoIce candidate mline) =>
    if negb (mline =? 0) || negb (candidate_allowed candidate (mc_tailnet_ip config))
    then bail else emits env st [EfIce candidate mline]
  | Some (HoReady protocol) => if negb (protocol =? 1) then bail else (Ok st, [])
  | Some (HoStatus _ state _ _ _ control_allowed awaiting) =>
    let allowed := control_allowed && negb awaiting && bool_decide (state = Live) in
    let st := set_helper allowed state st in
    if allowed then emits env st [EfStatus allowed]
    else emits env (drop_lease st) [EfDisarm; EfStatus allowed]
  | Some (HoError code) => breaks env [EfError code]
  | Some HoStopped | None => break
  end.

Definition on_acquire (env : MediaEnv) (generation : Z) (version : string) (st : Stream) : Round :=
  let scope := if bool_decide (sv_kind (ap_view source) = "window"%string)
               then WindowControl else DesktopControl in
  if negb (control_ready env st) || negb (mc_allow_control config) ||
     negb (sv_control_allowed (ap_view source)) ||
     is_err (principal_require (me_revoked env) (s_p st) scope (me_now env)) ||
     negb (geometry_is generation version)
  then emits env st [EfError "GUI_CONTROL_NOT_READY_OR_FORBIDDEN"] else
  match me_arm env with
  | Some n =>
    emits env (set_last_seq 0 (set_until (me_now env + secs 15) (set_lease (Some n) true st)))
      [EfLease (Some n)]
  | None =>
    emits env (drop_lease st) [EfDisarm; EfError "FOREGROUND_OR_NATIVE_SAFETY_DENIED"]
  end.

Definition on_input (env : MediaEnv) (lease_epoch : string) (generation : Z)
    (version seq : string) (a : GuiAction) (st : Stream) : Round :=
  match parse_unsigned u64_max seq, parse_unsigned u64_max lease_epoch with
  | Some n, Some e =>
    if negb (control_ready env st) || negb (lease_is (s_lease st) e) ||
       negb (me_gui_armed env) || (s_lease_until st <=? me_now env) ||
       negb (geometry_is generation version) || (n <=? s_last_seq st)
    then emits env (drop_lease st) [EfDisarm; EfLease None] else
    match gui_validate a with
    | Err _ => bail
    | Ok _ => emits env (set_last_seq n st) [EfAction e n a]
    end
  | _, _ => bail
  end.

Definition on_message (env : MediaEnv) (m : MediaClientMessage) (st : Stream) : Round :=
  match m with
  | McAnswer sdp =>
    if s_negotiated st then bail else
    match sanitize_sdp sdp with
    | Err _ => bail
    | Ok s => emits env (set_negotiated (s_p st) true st) [EfHelper (HiAnswer s)]
    end
  | McIce candidate mline =>
    if negb (mline =? 0) ||
       negb (existsb (fun ip => candidate_allowed candidate (Some ip)) (mc_allowed_peer_ips config))
    then bail else emits env st [EfHelper (HiIce candidate mline)]
  | McPresented generation version =>
    if negb (geometry_is generation version) then bail else
    if since (me_now env) (s_last_encoded st) <=? millis 500
    then emits env (set_frames (s_last_encoded st) (me_now env) (s_last_frame_seq st) st) [EfFrame]
    else (Ok st, [])
  | McAcquire generation version => on_acquire env generation version st
  | McRenew lease_epoch =>
    (* the epoch is only parsed when a lease is held under a ready helper *)
    if control_ready env st && option_is_some (s_lease st) then
      match parse_unsigned u64_max lease_epoch with
      | None => bail
      | Some e =>
        if lease_is (s_lease st) e && me_gui_armed env
        then (Ok (set_until (me_now env + secs 15) st), []) else (Ok st, [])
      end
    else (Ok st, [])
  | McRelease => emits env (drop_lease st) [EfDisarm; EfLease None]
  | McInput lease_epoch generation version seq a =>
    on_input env lease_epoch generation version seq a st
  | McRefreshAuth _ =>
    match me_refresh env with
    | Err _ => bail
    | Ok (next, id) =>
      if negb (p_client_id next =? p_client_id (s_p st)) ||
         negb (bool_decide (id = Some (sv_id (ap_view source)))) then bail else
      if negb (me_refresh_get env) then bail else
      (Ok (set_negotiated next (s_negotiated st) st), [])
    end
  | McPing => emits env st [EfPong]
  | McStop => break
  end.

Definition on_client (env : MediaEnv) (f : ClientFrame) (st : Stream) : Round :=
  match f with
  | CfPing => emits env st []
  | CfOther => break
  | CfText m =>
    let reset := secs 1 <=? since (me_now env) (s_input_window st) in
    let window := if reset then me_now env else s_input_window st in
    let count := (if reset then 0 else s_input_count st) + 1 in
    if 500 <? count then bail else
    let st := set_window window count st in
    match m with
    | None => bail
    | Some m => on_message env m st
    end
  end.

(** One turn of the biased [select!]. *)
Definition media_round (env : MediaEnv) (st : Stream) : Round :=
  if me_shutdown env || me_stopped env || bool_decide (p_revoked (s_p st) ∈ me_revoked env)
  then break else
  match me_event env with
  | MeTick => on_tick env st
  | MeHelper m => on_helper env m st
  | MeClient f => on_client env f st
  end.

(** The loop, and what follows it on every exit: the GUI session is disarmed, the
    flag cleared, the helper stopped. *)
Fixpoint media_loop (envs : list MediaEnv) (st : Stream) : Round :=
  match envs with
  | [] => (Ok st, [])
  | env :: envs =>
    match media_round env st with
    | (Ok st, es) => let '(r, es') := media_loop envs st in (r, es ++ es')
    | (Err failed, es) => (Err failed, es ++ [EfDisarm; EfHelper HiStop])
    end
  end.

(** The cases of a round's result, with names. *)
Ltac cases_of Hr :=
  inversion Hr as [e1 n1 a1 o1 Hg Hst Heq|failed1 es1 Hna Heq|st2 es1 Hna Hsame Heq
    |st2 es1 Hna Hd Hl0 Hc Heq|n1 st2 es1 Hna Hcp Hme Hreq Hl0 Hs0 Hc Heq]; subst.

(** ** What a round can do *)
(** When an action reaches the input session. *)
Definition action_guard (env : MediaEnv) (st : Stream) (e n : Z) (a : GuiAction) : Prop :=
  me_shutdown env = false /\ me_stopped env = false /\
  p_revoked (s_p st) ∉ me_revoked env /\
  s_lease st = Some e /\ me_gui_armed env = true /\ me_now env < s_lease_until st /\
  s_helper_control_allowed st = true /\ s_helper_capture_state st = Live /\
  since (me_now env) (s_last_encoded st) <= millis 500 /\
  since (me_now env) (s_last_presented st) <= millis 500 /\
  s_last_seq st < n /\ gui_validate a = Ok tt.
Definition is_action (ef : Effect) : bool :=
  match ef with EfAction _ _ _ => true | _ => false end.
Definition same_lease (st st' : Stream) : Prop :=
  s_lease st' = s_lease st /\ s_last_seq st' = s_last_seq st /\
  s_gui_controlled st' = s_gui_controlled st.
Definition control_permitted : Prop :=
  mc_allow_control config = true /\ sv_control_allowed (ap_view source) = true.

Inductive round_result (env : MediaEnv) (st : Stream) : Round -> Prop :=
| rr_action e n a o :
    action_guard env st e n a ->
    (forall st', o = Ok st' -> s_lease st' = Some e /\ s_last_seq st' = n /\
       s_gui_controlled st' = s_gui_controlled st) ->
    round_result env st (o, [EfAction e n a])
| rr_leave failed es : existsb is_action es = false -> round_result env st (Err failed, es)
| rr_same st' es :
    existsb is_action es = false -> same_lease st st' -> round_result env st (Ok st', es)
| rr_dropped st' es :
    existsb is_action es = false -> EfDisarm ∈ es -> s_lease st' = None ->
    s_gui_controlled st' = false -> round_result env st (Ok st', es)
| rr_armed n st' es :
    existsb is_action es = false -> control_permitted -> me_arm env = Some n ->
    is_ok (principal_require (me_revoked env) (s_p st)
      (if bool_decide (sv_kind (ap_view source) = "window"%string)
       then WindowControl else DesktopControl) (me_now env)) = true ->
    s_lease st' = Some n -> s_last_seq st' = 0 -> s_gui_controlled st' = true ->
    round_result env st (Ok st', es).

Lemma rr_emits_same env st st' es :
  existsb is_action es = false -> same_lease st st' -> round_result env st (emits env st' es).
Proof. intros. unfold emits. destruct (me_io_ok env); [by apply rr_same|by apply rr_leave]. Qed.
Lemma rr_emits_dropped env st st' es :
  existsb is_action es = false -> EfDisarm ∈ es ->
  round_result env st (emits env (drop_lease st') es).
Proof. intros. unfold emits. destruct (me_io_ok env); [by apply rr_dropped|by apply rr_leave]. Qed.

Lemma on_tick_result env st : round_result env st (on_tick env st).
Proof.
  unfold on_tick. destruct (_ || me_gui_closed env); [by apply rr_leave|].
  destruct (negb (bool_decide _)); [by apply rr_leave|].
  destruct (negb _ && _); [by apply rr_leave|].
  destruct (option_is_some _ && _); [|by apply rr_same].
  apply rr_emits_dropped; [done|set_solver].
Qed.
Lemma on_helper_result env m st : round_result env st (on_helper env m st).
Proof.
  unfold on_helper. destruct m as [[proto|sdp|cand mline|seq cap|mode state f b i c aw|code|]|];
    try (by apply rr_leave).
  - destruct (negb _); [by apply rr_leave|by apply rr_same].
  - destruct (sanitize_sdp sdp); [by apply rr_emits_same|by apply rr_leave].
  - destruct (_ || _); [by apply rr_leave|by apply rr_emits_same].
  - destruct (parse_unsigned _ _) as [n|]; [|by apply rr_leave].
    destruct (n <=? _); [by apply rr_leave|].
    destruct (capture_age_ms _ _); [by apply rr_same|by apply rr_leave].
  - destruct (_ && bool_decide _); [by apply rr_emits_same|].
    apply rr_emits_dropped; [done|set_solver].
Qed.
Lemma on_acquire_result env g v st : round_result env st (on_acquire env g v st).
Proof.
  unfold on_acquire. destruct (_ || negb (geometry_is g v)) eqn:E; [by apply rr_emits_same|]. bools.
  destruct (me_arm env) as [n|] eqn:Ea.
  - unfold emits. destruct (me_io_ok env); [|by apply rr_leave].
    eapply rr_armed; try done. match goal with H : is_err _ = false |- _ =>
      unfold is_err in H; by apply negb_false_iff in H end.
  - apply rr_emits_dropped; [done|set_solver].
Qed.
Lemma on_input_result env le g v seq a st :
  me_shutdown env = false -> me_stopped env = false -> p_revoked (s_p st) ∉ me_revoked env ->
  round_result env st (on_input env le g v seq a st).
Proof.
  intros H1 H2 H3. unfold on_input.
  destruct (parse_unsigned _ seq) as [n|]; [|by apply rr_leave].
  destruct (parse_unsigned _ le) as [e|]; [|by apply rr_leave].
  destruct (_ || (n <=? _)) eqn:E; [apply rr_emits_dropped; [done|set_solver]|].
  destruct (gui_validate a) as [[]|] eqn:Ev; [|by apply rr_leave].
  bools. unfold control_ready, helper_control_ready, lease_is in *. bools.
  unfold emits. apply rr_action; [by repeat split|].
  intros st' Hst. destruct (me_io_ok env); [|done]. injection Hst as <-. done.
Qed.
Lemma on_message_result env m st :
  me_shutdown env = false -> me_stopped env = false -> p_revoked (s_p st) ∉ me_revoked env ->
  round_result env st (on_message env m st).
Proof.
  intros H1 H2 H3. destruct m as [sdp|cand mline|g v|g v|le| |le g v seq a|t| |]; cbn [on_message].
  - destruct (s_negotiated st); [by apply rr_leave|].
    destruct (sanitize_sdp sdp); [by apply rr_emits_same|by apply rr_leave].
  - destruct (_ || _); [by apply rr_leave|by apply rr_emits_same].
  - destruct (negb _); [by apply rr_leave|].
    destruct (_ <=? _); [by apply rr_emits_same|by apply rr_same].
  - apply on_acquire_result.
  - destruct (_ && _); [|by apply rr_same]. destruct (parse_unsigned _ _); [|by apply rr_leave].
    destruct (_ && _); by apply rr_same.
  - apply rr_emits_dropped; [done|set_solver].
  - by apply on_input_result.
  - destruct (me_refresh env) as [[next id]|]; [|by apply rr_leave].
    destruct (_ || _); [by apply rr_leave|]. destruct (negb _); [by apply rr_leave|by apply rr_same].
  - by apply rr_emits_same.
  - by apply rr_leave.
Qed.
Lemma round_result_window env st w c r :
  round_result env (set_window w c st) r -> round_result env st r.
Proof.
  intros Hr. inversion Hr; subst;
    [by eapply rr_action|by apply rr_leave|by apply rr_same|by apply rr_dropped|by eapply rr_armed].
Qed.
Lemma media_round_result env st : round_result env st (media_round env st).
Proof.
  unfold media_round. destruct (_ || bool_decide _) eqn:E; [by apply rr_leave|]. bools.
  destruct (me_event env) as [|m|f].
  - apply on_tick_result.
  - apply on_helper_result.
  - unfold on_client. destruct f as [m| |]; [|by apply rr_emits_same|by apply rr_leave].
    destruct (500 <? _); [by apply rr_leave|]. destruct m as [m|]; [|by apply rr_leave].
    eapply round_result_window. by apply on_message_result.
Qed.

(** C23: what an action needs.  Whenever a round hands an action to the input
    session, that is all the round does, and at that moment: nothing stopped the
    stream and the client's device is not revoked; the client holds the input
    lease under exactly that epoch, the lease has not run out and the input
    session is still armed; the helper is live and allows control, with a frame
    encoded and one presented within the last 500 ms; the action is valid; and
    its sequence number is greater than any before under this lease.  A lease in
    turn is only taken from the input session's [arm], by a client whose
    permission was checked, on a host and a source that allow control. *)
Theorem media_action_guarded env st r es :
  media_round env st = (r, es) ->
  (forall e n a, EfAction e n a ∈ es -> es = [EfAction e n a] /\ action_guard env st e n a) /\
  (forall st' n, r = Ok st' -> s_lease st' = Some n -> s_lease st <> Some n ->
     control_permitted /\ me_arm env = Some n /\
     exists scope, scope ∈ [WindowControl; DesktopControl] /\
       is_ok (principal_require (me_revoked env) (s_p st) scope (me_now env)) = true).
Proof.
  intros Hr. pose proof (media_round_result env st) as Hres. rewrite Hr in Hres.
  assert (forall e n a, existsb is_action es = false -> EfAction e n a ∉ es) as Hno.
  { intros e n a Hex Hin. apply not_true_iff_false in Hex. apply Hex, existsb_exists.
    exists (EfAction e n a). split; [by apply list_elem_of_In|done]. }
  cases_of Hres.
  - split.
    + intros e' n' a' Hin. apply list_elem_of_singleton in Hin. by injection Hin as -> -> ->.
    + intros st' m -> Hl Hn. destruct (Hst st' eq_refl) as [Hl' _].
      destruct Hg as (_ & _ & _ & Hls & _). congruence.
  - split; [intros e n a Hin; by apply Hno in Hin|done].
  - split; [intros e n a Hin; by apply Hno in Hin|].
    intros st' m [= <-] Hl Hn. destruct Hsame as [Hsame _]. congruence.
  - split; [intros e n a Hin; by apply Hno in Hin|].
    intros st' m [= <-] Hl Hn. congruence.
  - split; [intros e n' a Hin; by apply Hno in Hin|].
    intros st' m [= <-] Hl Hn. rewrite Hl0 in Hl. injection Hl as <-.
    split; [done|]. split; [done|]. eexists. split; [|exact Hreq]. case_match; set_solver.
Qed.

(** ** Whole streams *)
Definition actions (es : list Effect) : list (Z * Z) :=
  omap (fun ef => match ef with EfAction e n _ => Some (e, n) | _ => None end) es.
Definition plt (x y : Z * Z) : Prop := x.1 < y.1 \/ (x.1 = y.1 /\ x.2 < y.2).
(** The input session numbers its armings in increasing order ([GuiSession]). *)
Fixpoint arms_increasing (bound : Z) (envs : list MediaEnv) : Prop :=
  match envs with
  | [] => True
  | env :: envs =>
    match me_arm env with
    | Some n => bound < n /\ arms_increasing n envs
    | None => arms_increasing bound envs
    end
  end.
(** No action after the last disarming. *)
Fixpoint disarmed_after (es : list Effect) : Prop :=
  match es with
  | [] => True
  | ef :: rest => (is_action ef = true -> EfDisarm ∈ rest) /\ disarmed_after rest
  end.

Lemma actions_app l k : actions (l ++ k) = actions l ++ actions k.
Proof. apply omap_app. Qed.
Lemma actions_none es : existsb is_action es = false -> actions es = [].
Proof.
  induction es as [|ef es IH]; [done|]. cbn. intros [H1 H2]%orb_false_iff.
  destruct ef; try done; by apply IH.
Qed.
(** The actions still to come are above what the lease and the armings allow. *)
Definition above (bound : Z) (lease : option Z) (seq : Z) (x : Z * Z) : Prop :=
  bound < x.1 \/ (lease = Some x.1 /\ seq < x.2).
Lemma media_loop_sorted envs : forall st bound,
  arms_increasing bound envs -> (forall e, s_lease st = Some e -> e <= bound) ->
  StronglySorted plt (actions (media_loop envs st).2) /\
  Forall (above bound (s_lease st) (s_last_seq st)) (actions (media_loop envs st).2).
Proof.
  induction envs as [|env envs IH]; intros st bound Harm Hl; [by repeat constructor|].
  cbn [media_loop]. pose proof (media_round_result env st) as Hr.
  assert (exists bound', bound <= bound' /\ arms_increasing bound' envs /\
    forall n, me_arm env = Some n -> bound' = n /\ bound < n) as (bound' & Hb & Harm' & Hn).
  { cbn in Harm. destruct (me_arm env) as [n|].
    - destruct Harm as [? ?]. exists n. split; [lia|]. split; [done|]. by intros ? [= <-].
    - exists bound. split; [lia|]. by split. }
  destruct (media_round env st) as [[st1|] es].
  - destruct (IH st1 bound' Harm') as [Hsort Habove].
    { intros e0 He0. cases_of Hr.
      - destruct (Hst st1 eq_refl) as [He _]. destruct Hg as (_ & _ & _ & Hls & _).
        rewrite He in He0. injection He0 as <-. specialize (Hl _ Hls). lia.
      - destruct Hsame as [Hs _]. rewrite Hs in He0. specialize (Hl _ He0). lia.
      - congruence.
      - rewrite Hl0 in He0. injection He0 as <-. destruct (Hn _ Hme). lia. }
    destruct (media_loop envs st1) as [o es']. cbn [snd] in *. rewrite actions_app. cases_of Hr.
    + destruct (Hst st1 eq_refl) as (He & Hs & _).
      destruct Hg as (_ & _ & _ & Hls & _ & _ & _ & _ & _ & _ & Hseq & _).
      specialize (Hl _ Hls). cbn [actions omap list_omap app]. rewrite He, Hs in Habove.
      split; constructor; [done| |by right|]; (eapply Forall_impl; [exact Habove|]);
        intros [e' n'] [Hgt|[[= ->] Hgt]]; cbn in *; [left; cbn; lia|by right|left; cbn; lia|right].
      split; [done|]. cbn. lia.
    + rewrite (actions_none _ Hna). destruct Hsame as (Hs1 & Hs2 & _). rewrite Hs1, Hs2 in Habove.
      split; [done|]. eapply Forall_impl; [exact Habove|]. intros x [?|?]; [left; lia|by right].
    + rewrite (actions_none _ Hna), Hl0 in *. split; [done|]. eapply Forall_impl; [exact Habove|].
      intros x [?|[? _]]; [left; lia|done].
    + rewrite (actions_none _ Hna). split; [done|]. eapply Forall_impl; [exact Habove|].
      destruct (Hn _ Hme) as [-> ?]. intros x [?|[Hx _]]; [left; lia|].
      rewrite Hl0 in Hx. injection Hx as Hx. left. rewrite <- Hx. lia.
  - cbn [snd]. rewrite actions_app. cbn [actions omap list_omap]. rewrite app_nil_r.
    cases_of Hr; [|by rewrite (actions_none _ Hna); repeat constructor].
    destruct Hg as (_ & _ & _ & Hls & _ & _ & _ & _ & _ & _ & Hseq & _). cbn.
    split; [by repeat constructor|]. constructor; [by right|constructor].
Qed.

Lemma disarmed_after_app es k :
  disarmed_after k -> (existsb is_action es = false \/ EfDisarm ∈ k) -> disarmed_after (es ++ k).
Proof.
  intros Hk. induction es as [|ef es IH]; [done|]. intros He. cbn. split.
  - intros Ha. destruct He as [He|He]; [|by apply elem_of_app; right].
    cbn in He. by rewrite Ha in He.
  - apply IH. destruct He as [[_ He]%orb_false_iff|He]; auto.
Qed.
Lemma media_loop_disarmed envs : forall st,
  match media_loop envs st with
  | (Err _, es) => disarmed_after es /\ EfDisarm ∈ es
  | (Ok st', es) =>
    s_lease st' = None -> disarmed_after es /\ (s_lease st <> None -> EfDisarm ∈ es)
  end.
Proof.
  induction envs as [|env envs IH]; intros st; [done|].
  cbn [media_loop]. pose proof (media_round_result env st) as Hr.
  destruct (media_round env st) as [[st1|] es].
  - specialize (IH st1). destruct (media_loop envs st1) as [[st'|] es'].
    + intros Hn. destruct (IH Hn) as [Hd1 Hin]. rewrite elem_of_app. cases_of Hr.
      * destruct (Hst st1 eq_refl) as (He & _). rewrite He in Hin. specialize (Hin ltac:(done)).
        split; [|auto]. apply disarmed_after_app; auto.
      * destruct Hsame as [Hsl _]. rewrite Hsl in Hin.
        split; [apply disarmed_after_app; auto|auto].
      * split; [apply disarmed_after_app; auto|auto].
      * rewrite Hl0 in Hin. specialize (Hin ltac:(done)).
        split; [apply disarmed_after_app; auto|auto].
    + destruct IH as [Hd1 Hin]. split; [apply disarmed_after_app; auto|].
      apply elem_of_app. by right.
  - split; [|apply elem_of_app; right; left].
    apply disarmed_after_app; [by repeat split|right; left].
Qed.
Lemma media_loop_flag envs : forall st,
  s_gui_controlled st = option_is_some (s_lease st) ->
  (s_lease st <> None -> control_permitted) ->
  (forall st', (media_loop envs st).1 = Ok st' ->
     s_gui_controlled st' = option_is_some (s_lease st')) /\
  (actions (media_loop envs st).2 <> [] -> control_permitted).
Proof.
  induction envs as [|env envs IH]; intros st Hf Hp.
  { cbn. split; [by intros st' [= <-]|done]. }
  cbn [media_loop]. pose proof (media_round_result env st) as Hr.
  destruct (media_round env st) as [[st1|] es].
  - destruct (IH st1) as [IH1 IH2].
    { cases_of Hr; [|by destruct Hsame as (-> & _ & ->)|by rewrite Hl0, Hc|by rewrite Hl0, Hc].
      destruct (Hst st1 eq_refl) as (-> & _ & ->). destruct Hg as (_ & _ & _ & Hls & _).
      by rewrite Hf, Hls. }
    { cases_of Hr; [|by destruct Hsame as (-> & _)|by rewrite Hl0|done].
      intros _. apply Hp. destruct Hg as (_ & _ & _ & -> & _). done. }
    destruct (media_loop envs st1) as [o es']. cbn [fst snd] in *. split; [done|].
    rewrite actions_app. cases_of Hr; [|by rewrite (actions_none _ Hna)..].
    intros _. apply Hp. destruct Hg as (_ & _ & _ & -> & _). done.
  - cbn [fst snd]. split; [done|]. rewrite actions_app. cbn [actions omap list_omap].
    rewrite app_nil_r. cases_of Hr; [|by rewrite (actions_none _ Hna)].
    intros _. apply Hp. destruct Hg as (_ & _ & _ & -> & _). done.
Qed.

(** C22: one client's remote control, over the whole life of its stream.  The
    actions handed to the input session carry strictly increasing (epoch,
    sequence) pairs: nothing is replayed or reordered, also across leases.  There
    are actions only where host and source allow control.  The host's "controlled"
    indicator is on exactly while a lease is held.  And whenever no lease is held
    or the stream is over, the input session has been disarmed after the last
    action. *)
Theorem media_inputs_fenced p now bound envs :
  arms_increasing bound envs ->
  let '(r, es) := media_loop envs (stream_start p now) in
  StronglySorted plt (actions es) /\
  (actions es <> [] -> control_permitted) /\
  match r with
  | Ok st => s_gui_controlled st = option_is_some (s_lease st) /\
             (s_lease st = None -> disarmed_after es)
  | Err _ => disarmed_after es /\ EfDisarm ∈ es
  end.
Proof.
  intros Harm. destruct (media_loop_sorted envs (stream_start p now) bound Harm) as [Hs _];
    [done|].
  destruct (media_loop_flag envs (stream_start p now)) as [Hf Hp]; [done|done|].
  pose proof (media_loop_disarmed envs (stream_start p now)) as Hd.
  destruct (media_loop envs _) as [[st|] es]; (split; [done|split; [done|]]); [|done].
  split; [by apply Hf|]. intros Hn. by apply Hd.
Qed.
End Stream.

(** ** One stream at a time *)
Inductive MediaOp : Type :=
| MoApprove (kind handle : string) (control : bool) (enumerated : option (list LocalSource))
    (id : Uuid)
| MoBegin (cancelled : gset Token) (p : Principal) (id stream : Uuid) (cancel : Token)
| MoFinish (id : Uuid)
| MoCancelAll
| MoRevokeClient (id : Uuid)
| MoClearSources.
(** The manager after a call; whether a stream began. *)
Definition media_op (now : Z) (op : MediaOp) (m : MediaManager) : MediaManager * bool :=
  match op with
  | MoApprove k h c e id => ((media_approve k h c e id now m).1, false)
  | MoBegin can p id stream cancel =>
    let '(m, r) := media_begin can p id stream cancel now m in (m, is_ok r)
  | MoFinish id => (media_finish id m, false)
  | MoCancelAll => (media_cancel_all m, false)
  | MoRevokeClient id => (media_revoke_client id m, false)
  | MoClearSources => (media_clear_sources m, false)
  end.
Fixpoint media_ops (ops : list (Z * MediaOp)) (m : MediaManager) : MediaManager * list bool :=
  match ops with
  | [] => (m, [])
  | (now, op) :: ops =>
    let '(m, b) := media_op now op m in let '(m, bs) := media_ops ops m in (m, b :: bs)
  end.
Lemma cancel_active_inner p m : mm_inner (cancel_active p m) = mm_inner m.
Proof. unfold cancel_active. by repeat case_match. Qed.
Lemma cancel_active_grows p m : mm_cancelled m ⊆ mm_cancelled (cancel_active p m).
Proof. unfold cancel_active. repeat case_match; cbn; set_solver. Qed.
Lemma media_approve_active k h c e id now m :
  in_active (mm_inner (media_approve k h c e id now m).1) = in_active (mm_inner m) /\
  mm_cancelled (media_approve k h c e id now m).1 = mm_cancelled m.
Proof. unfold media_approve. repeat case_match; done. Qed.

Lemma media_op_busy now op m a :
  in_active (mm_inner m) = Some a -> op <> MoFinish (ac_id a) ->
  in_active (mm_inner (media_op now op m).1) = Some a /\ (media_op now op m).2 = false /\
  mm_cancelled m ⊆ mm_cancelled (media_op now op m).1.
Proof.
  intros Ha Hop. destruct op as [k h c e id|can p id stream cancel|id| |id|]; cbn [media_op].
  - cbn [fst snd]. destruct (media_approve_active k h c e id now m) as [-> ->]. done.
  - unfold media_begin. destruct (media_get _ _ _ _ _); [|done]. by rewrite Ha.
  - unfold media_finish. rewrite Ha. cbn [is_some_and fst snd].
    destruct (Z.eqb_spec (ac_id a) id) as [<-|]; done.
  - cbn [fst snd]. unfold media_cancel_all. rewrite cancel_active_inner.
    split; [done|]. split; [done|]. apply cancel_active_grows.
  - cbn [fst snd]. unfold media_revoke_client. rewrite cancel_active_inner.
    split; [done|]. split; [done|]. apply cancel_active_grows.
  - cbn [fst snd]. unfold media_clear_sources. rewrite cancel_active_inner.
    split; [done|]. split; [done|]. etrans; [|apply cancel_active_grows]. done.
Qed.

Lemma media_ops_busy a ops m :
  Forall (fun op => op.2 <> MoFinish (ac_id a)) ops -> in_active (mm_inner m) = Some a ->
  in_active (mm_inner (media_ops ops m).1) = Some a /\
  Forall (fun began => began = false) (media_ops ops m).2 /\
  mm_cancelled m ⊆ mm_cancelled (media_ops ops m).1.
Proof.
  revert m. induction ops as [|[now op] ops IH]; intros m Hops Ha; [done|].
  apply Forall_cons in Hops as [Hop Hops].
  destruct (media_op_busy now op m a Ha Hop) as (Ha1 & Hb & Hsub). cbn [media_ops].
  destruct (media_op now op m) as [m1 b]. cbn [fst snd] in *. subst b.
  destruct (IH m1 Hops Ha1) as (H1 & H2 & H3).
  destruct (media_ops ops m1) as [m2 bs]. cbn [fst snd] in *.
  split; [done|]. split; [by constructor|]. by etrans.
Qed.

(** One stream at a time, and a way to stop it.  While a stream is active,
    until that very stream is finished, no call makes another one begin and the
    active stream stays the same, whatever is approved, cleared, cancelled or
    finished in between; once its token was cancelled it stays cancelled.
    Cancelling everything, clearing the sources and revoking its client all
    cancel it. *)
Theorem media_one_stream ops m a :
  in_active (mm_inner m) = Some a ->
  Forall (fun op => op.2 <> MoFinish (ac_id a)) ops ->
  in_active (mm_inner (media_ops ops m).1) = Some a /\
  Forall (fun began => began = false) (media_ops ops m).2 /\
  mm_cancelled m ⊆ mm_cancelled (media_ops ops m).1 /\
  ac_cancel a ∈ mm_cancelled (media_cancel_all m) /\
  ac_cancel a ∈ mm_cancelled (media_clear_sources m) /\
  ac_cancel a ∈ mm_cancelled (media_revoke_client (ac_client a) m).
Proof.
  intros Ha Hops.
  assert (ac_cancel a ∈ mm_cancelled (media_cancel_all m) /\
    ac_cancel a ∈ mm_cancelled (media_clear_sources m) /\
    ac_cancel a ∈ mm_cancelled (media_revoke_client (ac_client a) m)) as Hc.
  { unfold media_cancel_all, media_clear_sources, media_revoke_client, cancel_active.
    cbn [mm_inner in_active set_sources set_inner]. rewrite Ha, Z.eqb_refl. cbn. set_solver. }
  destruct (media_ops_busy a ops m Hops Ha) as (? & ? & ?). done.
Qed.

(** ** A concrete stream: frames, a lease, two actions, a replay that is refused *)
Definition demo_config : MediaConfig :=
  {| mc_enabled := true; mc_allow_control := true; mc_tailnet_ip := Some (str_bytes "100.64.0.1");
     mc_allowed_peer_ips := [str_bytes "100.64.0.2"]; mc_min_port := 50000;
     mc_max_port := 50010; mc_helper_path := None; mc_profile := profile_default |}.
Definition demo_local : LocalSource :=
  {| lo_native := Monitor "65537" "DISPLAY1"; lo_label := "screen";
     lo_rect := {| left := 0; top := 0; width := 1920; height := 1080 |} |}.
Definition demo_viewer : Principal :=
  {| p_client_id := 5; p_scopes := [TerminalRead; DesktopView; DesktopControl];
     p_expires := secs 1000000; p_revoked := (9, 5) |}.
Definition demo_manager : MediaManager :=
  (media_approve "monitor" "65537" true (Some [demo_local]) 11 0 (media_new demo_config)).1.
Definition demo_approved : Approved :=
  match in_sources (mm_inner demo_manager) !! 11 with
  | Some a => a
  | None => {| ap_view := {| sv_id := 0; sv_generation := 0; sv_geometry_version := "";
      sv_label := ""; sv_kind := ""; sv_control_allowed := false;
      sv_rect := lo_rect demo_local |}; ap_local := demo_local; ap_until := 0 |}
  end.
Definition demo_env (arm : option Z) (ev : MediaEvent) : MediaEnv :=
  {| me_now := secs 100; me_monotonic_ms := 5000; me_shutdown := false; me_stopped := false;
     me_revoked := ∅; me_event := ev; me_source_rect := Some (lo_rect demo_local);
     me_gui_armed := true; me_gui_revision := 1; me_gui_closed := false; me_arm := arm;
     me_io_ok := true; me_refresh := Err Unauthenticated; me_refresh_get := false |}.
Definition say (m : MediaClientMessage) : MediaEvent := MeClient (CfText (Some m)).
Definition demo_input (seq : string) : MediaEvent :=
  say (McInput "1" 1 "1" seq (Key 30 false true)).
Definition demo_envs : list MediaEnv :=
  [demo_env None (MeHelper (Some (HoStatus Hardware Live 15 2500 false true false)));
   demo_env None (MeHelper (Some (HoFrame "1" 4990)));
   demo_env None (say (McPresented 1 "1"));
   demo_env (Some 1) (say (McAcquire 1 "1"));
   demo_env None (demo_input "1"); demo_env None (demo_input "2"); demo_env None (demo_input "2")].
Lemma media_inputs_fenced_witness :
  let es := (media_loop demo_config demo_approved 0 demo_envs
               (stream_start demo_viewer (secs 90))).2 in
  actions es = [(1, 1); (1, 2)] /\ StronglySorted plt (actions es) /\
  control_permitted demo_config demo_approved.
Proof.
  pose proof (media_inputs_fenced demo_config demo_approved 0 demo_viewer (secs 90) 0 demo_envs) as H.
  specialize (H ltac:(by vm_compute)).
  assert (actions (media_loop demo_config demo_approved 0 demo_envs
    (stream_start demo_viewer (secs 90))).2 = [(1, 1); (1, 2)]) as Ha by (by vm_compute).
  destruct (media_loop demo_config demo_approved 0 demo_envs (stream_start demo_viewer (secs 90)))
    as [r es]. cbn [snd] in *. destruct H as (H1 & H2 & _).
  split; [exact Ha|]. split; [exact H1|]. apply H2. by rewrite Ha.
Defined.
Definition demo_holder : Stream :=
  match (media_loop demo_config demo_approved 0 (take 4 demo_envs)
           (stream_start demo_viewer (secs 90))).1 with
  | Ok st => st
  | Err _ => stream_start demo_viewer 0
  end.
Lemma media_action_guarded_witness :
  let env := demo_env None (demo_input "1") in
  s_lease demo_holder = Some 1 /\ action_guard env demo_holder 1 1 (Key 30 false true).
Proof.
  intros env. split; [by vm_compute|].
  assert (exists o, media_round demo_config demo_approved 0 env demo_holder =
    (o, [EfAction 1 1 (Key 30 false true)])) as [o Ho] by (eexists; by vm_compute).
  destruct (media_action_guarded demo_config demo_approved 0 env demo_holder o _ Ho) as [Hact _].
  apply (Hact 1 1 (Key 30 false true)). left.
Defined.
Definition demo_busy : MediaManager := (media_begin ∅ demo_viewer 11 21 (31, 0) 0 demo_manager).1.
Lemma media_one_stream_witness :
  let ops := [(0, MoBegin ∅ demo_viewer 11 22 (32, 0)); (0, MoFinish 22); (0, MoCancelAll)] in
  in_active (mm_inner (media_ops ops demo_busy).1) =
    Some {| ac_id := 21; ac_client := 5; ac_cancel := (31, 0) |} /\
  Forall (fun began => began = false) (media_ops ops demo_busy).2.
Proof.
  intros ops.
  destruct (media_one_stream ops demo_busy {| ac_id := 21; ac_client := 5; ac_cancel := (31, 0) |})
    as (H1 & H2 & _); [by vm_compute| |by split].
  repeat constructor; by intros [=].
Defined.
