(* ===== verification/MediaPipe.v ===== *)
(** * The parts of the media helper ([adaptation.rs], [encoder.rs], [pump.rs] and the
    construction of the pipeline in [native.rs], [main.rs] and [lib.rs] of rc-media)
    The rate policy, the choice of an encoder, the pump between capture and encoder,
    the proofs of freshness, and the search for a pipeline this host can run.
    GStreamer is third-party code: its answers are the record [Gst]. *)
From Stdlib Require Import String.
From S2P Require Import Prelude Errors Text Float Geometry MediaWire.
#[global] Open Scope Z_scope.

(** ** The rate policy *)
Definition IDLE_AFTER_MS : Z := 2000.
Record AdaptiveTarget := { tg_fps : Z; tg_bitrate_kbps : Z; tg_adaptive_idle : bool }.
#[global] Instance AdaptiveTarget_eq_dec : EqDecision AdaptiveTarget.
Proof. solve_decision. Defined.
Record AdaptivePolicy := {
  ap_requested_fps : Z;
  ap_requested_bitrate_kbps : Z;
  ap_last_source_ms : Z
}.
Definition policy_new (fps bitrate_kbps now_ms : Z) : AdaptivePolicy :=
  {| ap_requested_fps := fps; ap_requested_bitrate_kbps := bitrate_kbps;
     ap_last_source_ms := now_ms |}.
Definition observe_source (p : AdaptivePolicy) (now_ms : Z) : AdaptivePolicy :=
  {| ap_requested_fps := ap_requested_fps p;
     ap_requested_bitrate_kbps := ap_requested_bitrate_kbps p;
     ap_last_source_ms := Z.max (ap_last_source_ms p) now_ms |}.
Definition policy_target (p : AdaptivePolicy) (now_ms : Z) : AdaptiveTarget :=
  if saturating_sub now_ms (ap_last_source_ms p) <? IDLE_AFTER_MS then
    {| tg_fps := ap_requested_fps p; tg_bitrate_kbps := ap_requested_bitrate_kbps p;
       tg_adaptive_idle := false |}
  else
    {| tg_fps := Z.min (ap_requested_fps p) 3;
       tg_bitrate_kbps := Z.max (ap_requested_bitrate_kbps p / 4) 256;
       tg_adaptive_idle := true |}.
Example policy_runs :
  policy_target (policy_new 15 2500 100) 2099 =
    {| tg_fps := 15; tg_bitrate_kbps := 2500; tg_adaptive_idle := false |} /\
  policy_target (policy_new 15 2500 100) 2100 =
    {| tg_fps := 3; tg_bitrate_kbps := 625; tg_adaptive_idle := true |} /\
  policy_target (policy_new 2 128 0) 2000 =
    {| tg_fps := 2; tg_bitrate_kbps := 256; tg_adaptive_idle := true |}.
Proof. done. Qed.

(** ** The encoder *)
Inductive EncoderChoice : Type := EncHardware | EncSoftwareViewOnlySlow.
Definition encoder_select (hw_d3d11 openh264 : bool) : option EncoderChoice :=
  if hw_d3d11 then Some EncHardware
  else if openh264 then Some EncSoftwareViewOnlySlow else None.
Definition encoder_profile (c : EncoderChoice) (requested : VideoProfile) (source : Rect)
  : sres VideoProfile :=
  match c with
  | EncHardware => profile_fit requested source
  | EncSoftwareViewOnlySlow =>
    profile_fit
      {| vp_width := Z.min (vp_width requested) 640; vp_height := Z.min (vp_height requested) 360;
         vp_fps := Z.min (vp_fps requested) 5;
         vp_bitrate_kbps := Z.min (vp_bitrate_kbps requested) 768 |} source
  end.
Definition encoder_mode (c : EncoderChoice) : MediaMode :=
  match c with EncHardware => Hardware | EncSoftwareViewOnlySlow => SoftwareViewOnlySlow end.
Definition encoder_control_allowed (c : EncoderChoice) : bool :=
  match c with EncHardware => true | EncSoftwareViewOnlySlow => false end.
Definition saturating_mul32 (x y : Z) : Z := Z.min u32_max (x * y).
(** The value of the encoder's [bitrate] property. *)
Definition encoder_bitrate (c : EncoderChoice) (kbps : Z) : Z :=
  match c with EncHardware => kbps | EncSoftwareViewOnlySlow => saturating_mul32 kbps 1000 end.

(** ** The pump *)
Definition frame_interval (fps : Z) : Z := 1000000000 / Z.max fps 1.
Record CapturedFrame := { cf_serial : Z; cf_captured_at_ms : Z }.
Record PushedFrame := { pf_pts_ns : Z; pf_serial : Z; pf_captured_at_ms : Z }.
(** [latest], the serial counter of the callback and [next_pts_ns].  [run] never
    pauses the capture. *)
Record SourcePump := {
  pu_latest : option CapturedFrame;
  pu_serial : Z;
  pu_next_pts_ns : Z
}.
Definition pump_attach : SourcePump := {| pu_latest := None; pu_serial := 0; pu_next_pts_ns := 0 |}.
(** The [new_sample] callback with a sample that has a buffer. *)
Definition new_sample (p : SourcePump) (ms : Z) : SourcePump :=
  let serial := wrap64 (pu_serial p + 1) in
  {| pu_latest := Some {| cf_serial := serial; cf_captured_at_ms := ms |};
     pu_serial := serial; pu_next_pts_ns := pu_next_pts_ns p |}.
(** What GStreamer makes of a push: the sample may have no buffer, and the
    element may refuse it after the callback has run. *)
Inductive PushAnswer : Type := PushOk | PushNoBuffer | PushRefused.
(** [push_latest_with]: the frame handed to the callback, and the result. *)
Definition push_latest_with (p : SourcePump) (fps : Z) (answer : PushAnswer)
  : SourcePump * option PushedFrame * sres (option PushedFrame) :=
  match pu_latest p with
  | None => (p, None, Ok None)
  | Some captured =>
    let pts_ns := pu_next_pts_ns p in
    let p := {| pu_latest := pu_latest p; pu_serial := pu_serial p;
                pu_next_pts_ns := wrap64 (pu_next_pts_ns p + Z.min (frame_interval fps) u64_max) |} in
    let pushed := {| pf_pts_ns := pts_ns; pf_serial := cf_serial captured;
                     pf_captured_at_ms := cf_captured_at_ms captured |} in
    match answer with
    | PushNoBuffer => (p, None, Err "Sample has no buffer"%string)
    | PushRefused => (p, Some pushed, Err "appsrc push failed"%string)
    | PushOk => (p, Some pushed, Ok (Some pushed))
    end
  end.

(** ** Proofs of freshness *)
Definition MAX_PENDING_FRESH_PROOFS : Z := 128.
Record FreshProof := { fp_serial : Z; fp_captured_at_ms : Z }.
(** A [BTreeMap] as its entries in the order of the keys. *)
Abbreviation FreshProofMap := (list (Z * FreshProof)).
Fixpoint bt_insert {V} (k : Z) (v : V) (l : list (Z * V)) : list (Z * V) :=
  match l with
  | [] => [(k, v)]
  | (k', v') :: r =>
    if k <? k' then (k, v) :: l
    else if k =? k' then (k, v) :: r
    else (k', v') :: bt_insert k v r
  end.
Fixpoint bt_remove {V} (k : Z) (l : list (Z * V)) : option V * list (Z * V) :=
  match l with
  | [] => (None, [])
  | (k', v') :: r =>
    if k =? k' then (Some v', r)
    else let '(o, r) := bt_remove k r in (o, (k', v') :: r)
  end.
(** The [while self.entries.len() >= MAX { pop_first }] loop. *)
Fixpoint proof_evict (l : FreshProofMap) : FreshProofMap :=
  if MAX_PENDING_FRESH_PROOFS <=? zlen l then match l with _ :: r => proof_evict r | [] => [] end
  else l.
Definition proof_insert (pts_ns : Z) (p : FreshProof) (l : FreshProofMap) : FreshProofMap :=
  bt_insert pts_ns p (proof_evict l).
Definition proof_take (pts_ns : Z) (l : FreshProofMap) : option FreshProof * FreshProofMap :=
  bt_remove pts_ns l.

(** ** Building the pipeline *)
#[local] Open Scope string_scope.
Definition REQUIRED_FACTORIES : list string :=
  ["d3d11screencapturesrc"; "d3d11convert"; "h264parse"; "rtph264pay"; "webrtcbin"; "nicesrc";
   "nicesink"].
Definition SOFTWARE_FACTORIES : list string := ["d3d11download"; "openh264enc"].
Definition source_arg (source : NativeSource) (handle : Z) : string :=
  match source with
  | Window _ _ _ => "window-handle=" ++ dec handle ++ " window-capture-mode=client"
  | Monitor _ _ => "monitor-handle=" ++ dec handle
  end.
Definition encoder_description (p : VideoProfile) (choice : EncoderChoice) : string :=
  match choice with
  | EncHardware =>
    "d3d11convert ! video/x-raw(memory:D3D11Memory),format=NV12,width=" ++ dec (vp_width p) ++
    ",height=" ++ dec (vp_height p) ++
    " ! mfh264enc name=encoder low-latency=true cabac=false bitrate=" ++ dec (vp_bitrate_kbps p) ++
    " gop-size=" ++ dec (wrap32 (vp_fps p * 2))
  | EncSoftwareViewOnlySlow =>
    "d3d11download ! video/x-raw,format=NV12,width=" ++ dec (vp_width p) ++
    ",height=" ++ dec (vp_height p) ++
    " ! videoconvert ! openh264enc name=encoder bitrate=" ++
    dec (saturating_mul32 (vp_bitrate_kbps p) 1000)
  end.
Inductive OutputMode : Type := OmWebRtc | OmFakesink.
#[global] Instance OutputMode_eq_dec : EqDecision OutputMode.
Proof. solve_decision. Defined.
Definition capture_description (source_arg : string) : string :=
  "d3d11screencapturesrc name=capture capture-api=wgc " ++ source_arg ++
  " show-border=true show-cursor=true ! appsink name=source_sink emit-signals=true" ++
  " max-buffers=1 drop=true sync=false async=false".
Definition output_tail (output_mode : OutputMode) : string :=
  match output_mode with
  | OmWebRtc => "! rtph264pay name=pay pt=96 config-interval=-1 aggregate-mode=zero-latency"
  | OmFakesink => "! fakesink name=probe_sink sync=false"
  end.
Definition output_description (p : VideoProfile) (choice : EncoderChoice) (output_mode : OutputMode)
  : string :=
  "appsrc name=source_pump is-live=false do-timestamp=false format=time block=false" ++
  " ! queue max-size-buffers=2 max-size-bytes=0 max-size-time=0 leaky=downstream ! " ++
  encoder_description p choice ++
  " ! video/x-h264,profile=constrained-baseline" ++
  " ! identity name=timestamp_bridge single-segment=true" ++
  " ! h264parse name=encoded config-interval=-1 " ++ output_tail output_mode.
#[local] Close Scope string_scope.

(** What GStreamer says of the host: whether it starts, which factories it has,
    whether it makes the WebRTC element, what it makes of a description, which
    parts a pipeline takes, the pads and their link; and the [d3d11-aware] property
    of a description's encoder, where the encoder is found. *)
Inductive Part : Type := PartRtc | PartSource | PartOutput.
Record Gst := {
  gs_init : sres unit;
  gs_version : string;
  gs_find : string -> bool;
  gs_make_rtc : sres unit;
  gs_bin : string -> bool -> sres unit;
  gs_add : Part -> sres unit;
  gs_sink_pad : bool;
  gs_src_pad : bool;
  gs_link : sres unit;
  gs_aware : string -> option bool
}.
(** [probe().missing] *)
Definition probe_missing (g : Gst) : list string :=
  match gs_init g with
  | Err e => [e]
  | Ok _ =>
    let missing := List.filter (fun n => negb (gs_find g n)) REQUIRED_FACTORIES in
    let hardware := gs_find g "mfh264enc" in
    let software := forallb (gs_find g) SOFTWARE_FACTORIES in
    if negb hardware && negb software
    then missing ++ ["mfh264enc or d3d11download+openh264enc"%string] else missing
  end.
Record Capabilities := {
  cb_protocol : Z;
  cb_native_backend : bool;
  cb_available : bool;
  cb_sdk_version : option string;
  cb_missing : list string;
  cb_windows_runtime_verified : bool
}.
Definition probe (g : Gst) : Capabilities :=
  {| cb_protocol := 1; cb_native_backend := true;
     cb_available := bool_decide (probe_missing g = []); cb_sdk_version := Some (gs_version g);
     cb_missing := probe_missing g; cb_windows_runtime_verified := false |}.
Definition no_capabilities : Capabilities :=
  {| cb_protocol := 1; cb_native_backend := false; cb_available := false; cb_sdk_version := None;
     cb_missing := ["Build rc-media on Windows with --features native-media and the documented native GStreamer SDK"%string];
     cb_windows_runtime_verified := false |}.
(** [capabilities] of a build with ([Some]) or without the native feature. *)
Definition capabilities (native : option Gst) : Capabilities :=
  match native with Some g => probe g | None => no_capabilities end.
(** What [main] does for its arguments. *)
Inductive MediaMain : Type :=
| MmRun | MmUnavailable | MmProbe (c : Capabilities) | MmUsage.
Definition media_main (native : option Gst) (args : list string) : MediaMain :=
  if bool_decide (args = ["--stdio"%string]) then
    match native with Some _ => MmRun | None => MmUnavailable end
  else if bool_decide (args = []) || bool_decide (args = ["--probe"%string])
  then MmProbe (capabilities native) else MmUsage.

(** The pipeline of a source and an encoder; what is known of its encoder. *)
Definition parse_pipeline_with_output (g : Gst) (source_arg : string) (p : VideoProfile)
    (c : EncoderChoice) (mode : OutputMode) : sres (option bool) :=
  let rtc := bool_decide (mode = OmWebRtc) in
  _ ← (if rtc then gs_make_rtc g else Ok tt);
  _ ← gs_bin g (capture_description source_arg) false;
  _ ← gs_bin g (output_description p c mode) true;
  _ ← (if rtc then gs_add g PartRtc else Ok tt);
  _ ← gs_add g PartSource;
  _ ← gs_add g PartOutput;
  _ ← (if rtc then
         _ ← reject_if (negb (gs_sink_pad g)) "WebRTC video sink pad missing"%string;
         _ ← reject_if (negb (gs_src_pad g)) "RTP payloader source pad missing"%string;
         gs_link g
       else Ok tt);
  Ok (gs_aware g (output_description p c mode)).
Definition parse_pipeline (g : Gst) (source_arg : string) (p : VideoProfile) (c : EncoderChoice)
  : sres (option bool) :=
  parse_pipeline_with_output g source_arg p c OmWebRtc.
(** The encoder that is used and the profile it gets. *)
Definition build_pipeline (g : Gst) (init : MediaInit) (handle : Z)
  : sres (EncoderChoice * VideoProfile) :=
  let source := source_arg (lo_native (mi_source init)) handle in
  let rect := lo_rect (mi_source init) in
  match encoder_profile EncHardware (mi_profile init) rect with
  | Err e => Err e
  | Ok hardware_profile =>
    let software :=
      if forallb (gs_find g) SOFTWARE_FACTORIES then
        profile ← encoder_profile EncSoftwareViewOnlySlow (mi_profile init) rect;
        _ ← parse_pipeline g source profile EncSoftwareViewOnlySlow;
        Ok (EncSoftwareViewOnlySlow, profile)
      else Err "No compatible D3D11 hardware or software view-only encoder"%string in
    if gs_find g "mfh264enc" then
      match parse_pipeline g source hardware_profile EncHardware with
      | Ok None => Err "Hardware encoder missing"%string
      | Ok (Some true) => Ok (EncHardware, hardware_profile)
      | Ok (Some false) | Err _ => software
      end
    else software
  end.
(** The same search for the measuring runs, without WebRTC. *)
Definition build_capture_encode_pipeline (g : Gst) (init : MediaInit) (handle : Z)
  : sres (EncoderChoice * VideoProfile) :=
  let source := source_arg (lo_native (mi_source init)) handle in
  let rect := lo_rect (mi_source init) in
  hardware_profile ← encoder_profile EncHardware (mi_profile init) rect;
  let software :=
    if forallb (gs_find g) SOFTWARE_FACTORIES then
      profile ← encoder_profile EncSoftwareViewOnlySlow (mi_profile init) rect;
      _ ← parse_pipeline_with_output g source profile EncSoftwareViewOnlySlow OmFakesink;
      Ok (EncSoftwareViewOnlySlow, profile)
    else Err "No compatible D3D11 hardware or software view-only encoder"%string in
  if gs_find g "mfh264enc" then
    match parse_pipeline_with_output g source hardware_profile EncHardware OmFakesink with
    | Ok None => Err "Hardware encoder missing"%string
    | Ok (Some true) => Ok (EncHardware, hardware_profile)
    | Ok (Some false) | Err _ => software
    end
  else software.

(** ** What a pipeline is given *)
Lemma reject_if_ok {E} c (e : E) : reject_if c e = Ok tt -> c = false.
Proof. unfold reject_if. by destruct c. Qed.
Lemma profile_fit_rate p r q :
  profile_fit p r = Ok q ->
  vp_fps q = vp_fps p /\ vp_bitrate_kbps q = vp_bitrate_kbps p /\ 1 <= vp_fps p <= 30 /\
  128 <= vp_bitrate_kbps p <= 12000.
Proof.
  unfold profile_fit, profile_validate. destruct (_ || _) eqn:E; [done|]. bools.
  destruct (_ || _); [done|]. intros [= <-]. cbn. unfold in_range in *. bools. lia.
Qed.
Lemma encoder_profile_rate c p r q :
  encoder_profile c p r = Ok q ->
  1 <= vp_fps q <= Z.min (vp_fps p) 30 /\ 128 <= vp_bitrate_kbps q <= Z.min (vp_bitrate_kbps p) 12000 /\
  (c = EncSoftwareViewOnlySlow -> vp_fps q <= 5 /\ vp_bitrate_kbps q <= 768).
Proof.
  destruct c; cbn [encoder_profile]; intros (H1 & H2 & H3 & H4)%profile_fit_rate; cbn in *; lia || idtac.
  all: split; [lia|split; [lia|]]; done || lia.
Qed.
Lemma build_capture_profile g config handle choice profile :
  build_capture_encode_pipeline g config handle = Ok (choice, profile) ->
  encoder_profile choice (mi_profile config) (lo_rect (mi_source config)) = Ok profile.
Proof.
  unfold build_capture_encode_pipeline. destruct (encoder_profile EncHardware _ _) as [hp|] eqn:Eh; [|done].
  cbn [mbind result_bind]. set (software := if forallb _ _ then _ else _).
  assert (software = Ok (choice, profile) ->
    encoder_profile choice (mi_profile config) (lo_rect (mi_source config)) = Ok profile) as Hsoft.
  { unfold software. destruct (forallb _ _); [|done].
    destruct (encoder_profile EncSoftwareViewOnlySlow _ _) as [sp|] eqn:Esp; [|done].
    cbn [mbind result_bind]. destruct (parse_pipeline_with_output _ _ sp _ _); [|done]. cbn.
    by intros [= <- <-]. }
  destruct (gs_find g "mfh264enc"); [|done].
  destruct (parse_pipeline_with_output g _ hp _ _) as [[[]|]|]; try done. by intros [= <- <-].
Qed.
