(* ===== verification/MediaProbe.v ===== *)
(** * The measuring runs of the media helper ([native.rs], [pump.rs] of rc-media)
    [run_owned_capture_encode_fixture] proves, on a window of its own, that an
    encoded picture is called fresh only when it was captured; the runs below
    interleave its thread with the capture's callback, step by step, and with the
    encoder's.  [run_owned_capture_encode_benchmark] counts what it pushes. *)
From Stdlib Require Import String.
From S2P Require Import Prelude Errors Text Float Geometry MediaWire MediaPipe.
#[global] Open Scope Z_scope.

(** ** The pump with a capture that can be paused *)
(** The [new_sample] callback is between its statements: it has seen the capture
    enabled, holds the lock of the latest frame, has seen it enabled again. *)
Inductive Callback : Type := CbIdle | CbLoaded | CbLocked | CbChecked.
#[global] Instance Callback_eq_dec : EqDecision Callback.
Proof. solve_decision. Defined.
Record Capture := { ca_pump : SourcePump; ca_enabled : bool; ca_callback : Callback }.
Definition capture_attach : Capture :=
  {| ca_pump := pump_attach; ca_enabled := true; ca_callback := CbIdle |}.
Definition set_callback (pc : Callback) (c : Capture) : Capture :=
  {| ca_pump := ca_pump c; ca_enabled := ca_enabled c; ca_callback := pc |}.
Definition pause_capture (c : Capture) : Capture :=
  {| ca_pump := ca_pump c; ca_enabled := false; ca_callback := ca_callback c |}.
Definition ca_set_pump (p : SourcePump) (c : Capture) : Capture :=
  {| ca_pump := p; ca_enabled := ca_enabled c; ca_callback := ca_callback c |}.
(** The lock of the latest frame is held by the callback. *)
Definition lock_held (c : Capture) : bool :=
  bool_decide (ca_callback c = CbLocked) || bool_decide (ca_callback c = CbChecked).
Definition has_latest (c : Capture) : bool := option_is_some (pu_latest (ca_pump c)).
(** One step of the callback; a sample arrives only when the last call is over.
    [buffer]: the sample has one; [ms]: the clock when the frame is stored. *)
Definition callback_step (buffer : bool) (ms : Z) (c : Capture) : Capture :=
  match ca_callback c with
  | CbIdle => if buffer && ca_enabled c then set_callback CbLoaded c else c
  | CbLoaded => set_callback CbLocked c
  | CbLocked => set_callback (if ca_enabled c then CbChecked else CbIdle) c
  | CbChecked => set_callback CbIdle (ca_set_pump (new_sample (ca_pump c) ms) c)
  end.

(** ** The fixture *)
Record FixtureReport := {
  fr_encoder : EncoderChoice;
  fr_source_serial : Z;
  fr_fresh_proofs : Z;
  fr_encoded_buffers : Z;
  fr_cached_repeat_proofs : Z;
  fr_stale_capture_age_ms : Z;
  fr_stopped_cleanly : bool
}.
Inductive FixturePc : Type :=
| FxSample                                  (* while !pump.has_latest() *)
| FxPause
| FxFirst
| FxWait1 (first : PushedFrame)             (* wait_for_observations(.., 1, ..) *)
| FxCached (first : PushedFrame)
| FxWait2 (first : PushedFrame)
| FxThird (first : PushedFrame)
| FxWait3 (first : PushedFrame)
| FxReport (first : PushedFrame)
| FxDone (r : sres FixtureReport).
Record Fixture := {
  fx_capture : Capture;
  fx_pending : FreshProofMap;
  fx_observations : list (option FreshProof);
  fx_pc : FixturePc
}.
(** What the thread meets at a step: the clock, the errors on the bus, the answer to
    a push, the clock in milliseconds, whether the pipeline stops. *)
Record FixtureTurn := {
  ft_now : Z;
  ft_errors : list string;
  ft_push : PushAnswer;
  ft_millis : Z;
  ft_stopped : bool
}.
Record FixtureConf := { fc_choice : EncoderChoice; fc_fps : Z; fc_deadline : Z }.
Definition fx_go (pc : FixturePc) (x : Fixture) : Fixture :=
  {| fx_capture := fx_capture x; fx_pending := fx_pending x;
     fx_observations := fx_observations x; fx_pc := pc |}.
Definition fx_set_capture (c : Capture) (x : Fixture) : Fixture :=
  {| fx_capture := c; fx_pending := fx_pending x; fx_observations := fx_observations x;
     fx_pc := fx_pc x |}.
Definition fx_insert (f : PushedFrame) (x : Fixture) : Fixture :=
  {| fx_capture := fx_capture x;
     fx_pending := proof_insert (pf_pts_ns f)
       {| fp_serial := pf_serial f; fp_captured_at_ms := pf_captured_at_ms f |} (fx_pending x);
     fx_observations := fx_observations x; fx_pc := fx_pc x |}.
(** The probe of the encoder's output. *)
Definition fx_encoded (pts : option Z) (x : Fixture) : Fixture :=
  let '(proof, pending) :=
    match pts with Some pts => proof_take pts (fx_pending x) | None => (None, fx_pending x) end in
  {| fx_capture := fx_capture x; fx_pending := pending;
     fx_observations := fx_observations x ++ [proof]; fx_pc := fx_pc x |}.
Definition fresh_count (l : list (option FreshProof)) : Z :=
  wrap32 (zlen (base.filter (fun o => is_Some o) l)).

Section Fixture.
Context (conf : FixtureConf).
(** [drain_fixture_bus] *)
Definition drain_fixture_bus (t : FixtureTurn) : sres unit :=
  match ft_errors t with [] => Ok tt | e :: _ => Err e end.
(** A turn of [wait_for_observations]; without an answer it sleeps 25 ms. *)
Definition wait_for_observations (count : Z) (next : FixturePc) (t : FixtureTurn) (x : Fixture)
  : Fixture :=
  match drain_fixture_bus t with
  | Err e => fx_go (FxDone (Err e)) x
  | Ok _ =>
    if count <=? zlen (fx_observations x) then fx_go next x
    else if fc_deadline conf <=? ft_now t
    then fx_go (FxDone (Err "Owned fixture encoder produced fewer buffers"%string)) x
    else x
  end.
(** [push_latest_with(profile.fps, before_push)?] *)
Definition fx_push (before_push : PushedFrame -> Fixture -> Fixture)
    (next : option PushedFrame -> Fixture -> Fixture) (t : FixtureTurn) (x : Fixture) : Fixture :=
  let '(p, pushed, r) := push_latest_with (ca_pump (fx_capture x)) (fc_fps conf) (ft_push t) in
  let x := fx_set_capture (ca_set_pump p (fx_capture x)) x in
  let x := match pushed with Some f => before_push f x | None => x end in
  match r with Err e => fx_go (FxDone (Err e)) x | Ok o => next o x end.
Definition fx_report (first : PushedFrame) (t : FixtureTurn) (x : Fixture) : sres FixtureReport :=
  let fresh_proofs := fresh_count (fx_observations x) in
  let cached_repeat_proofs := fresh_count (drop 1 (fx_observations x)) in
  let stale_capture_age_ms := saturating_sub (ft_millis t) (pf_captured_at_ms first) in
  if negb (fresh_proofs =? 1) || negb (cached_repeat_proofs =? 0) || (stale_capture_age_ms <? 500)
  then Err "Fixture freshness proof failed"%string else
  Ok {| fr_encoder := fc_choice conf; fr_source_serial := pf_serial first;
        fr_fresh_proofs := fresh_proofs;
        fr_encoded_buffers := wrap32 (zlen (fx_observations x));
        fr_cached_repeat_proofs := cached_repeat_proofs;
        fr_stale_capture_age_ms := stale_capture_age_ms; fr_stopped_cleanly := ft_stopped t |}.
(** Steps that take the lock of the latest frame wait while the callback holds it. *)
Definition needs_lock (pc : FixturePc) : bool :=
  match pc with FxSample | FxFirst | FxCached _ | FxThird _ => true | _ => false end.
Definition fx_blocked (x : Fixture) : bool := needs_lock (fx_pc x) && lock_held (fx_capture x).
Definition fx_main (t : FixtureTurn) (x : Fixture) : Fixture :=
  if fx_blocked x then x else
  match fx_pc x with
  | FxSample =>
    if has_latest (fx_capture x) then fx_go FxPause x else
    match drain_fixture_bus t with
    | Err e => fx_go (FxDone (Err e)) x
    | Ok _ =>
      if fc_deadline conf <=? ft_now t
      then fx_go (FxDone (Err "Owned fixture produced no WGC sample before timeout"%string)) x
      else x
    end
  | FxPause => fx_go FxFirst (fx_set_capture (pause_capture (fx_capture x)) x)
  | FxFirst =>
    fx_push fx_insert (fun o x =>
      match o with
      | Some first => fx_go (FxWait1 first) x
      | None => fx_go (FxDone (Err "First cached fixture frame was unavailable"%string)) x
      end) t x
  | FxWait1 first => wait_for_observations 1 (FxCached first) t x
  | FxCached first =>
    fx_push (fun _ x => x) (fun o x =>
      match o with
      | Some cached =>
        if negb (pf_serial cached =? pf_serial first)
        then fx_go (FxDone (Err "Fixture repeat did not use the cached source serial"%string)) x
        else fx_go (FxWait2 first) x
      | None => fx_go (FxDone (Err "Cached fixture repeat was unavailable"%string)) x
      end) t x
  | FxWait2 first => wait_for_observations 2 (FxThird first) t x
  | FxThird first => fx_push (fun _ x => x) (fun _ x => fx_go (FxWait3 first) x) t x
  | FxWait3 first => wait_for_observations 3 (FxReport first) t x
  | FxReport first => fx_go (FxDone (fx_report first t x)) x
  | FxDone _ => x
  end.
Inductive FixtureInput : Type :=
| FiCapture (buffer : bool) (ms : Z)
| FiEncoded (pts : option Z)
| FiMain (t : FixtureTurn).
Definition fx_step (x : Fixture) (i : FixtureInput) : Fixture :=
  match i with
  | FiCapture buffer ms => fx_set_capture (callback_step buffer ms (fx_capture x)) x
  | FiEncoded pts => fx_encoded pts x
  | FiMain t => fx_main t x
  end.
Definition fx_run (l : list FixtureInput) (x : Fixture) : Fixture := foldl fx_step x l.
End Fixture.
Definition fixture_new : Fixture :=
  {| fx_capture := capture_attach; fx_pending := []; fx_observations := []; fx_pc := FxSample |}.

(** [run_owned_capture_encode_fixture] up to its first look at the pump. *)
Record FixtureHost := {
  fh_attach : sres unit;       (* both ends of the pump *)
  fh_parser : bool;
  fh_pad : bool;
  fh_bus : bool;
  fh_playing : sres unit;
  fh_now : Z
}.
Definition fixture_init (handle : Z) : MediaInit :=
  {| mi_protocol := 1;
     mi_source := {| lo_native := Window (dec handle) 0 "owned-fixture";
                     lo_label := "RemoteCodex owned capture fixture";
                     lo_rect := {| left := 0; top := 0; width := 760; height := 520 |} |};
     mi_profile := {| vp_width := 640; vp_height := 360; vp_fps := 5; vp_bitrate_kbps := 512 |};
     mi_tailnet_ip := str_bytes "100.64.0.1"; mi_min_port := 40000; mi_max_port := 40031 |}.
Definition fixture_start (g : Gst) (host : FixtureHost) (handle : Z) : sres FixtureConf :=
  _ ← gs_init g;
  _ ← reject_if (handle =? 0) "Fixture window handle is required"%string;
  built ← build_capture_encode_pipeline g (fixture_init handle) handle;
  _ ← fh_attach host;
  _ ← reject_if (negb (fh_parser host)) "Fixture parser missing"%string;
  _ ← reject_if (negb (fh_pad host)) "Fixture encoded pad missing"%string;
  _ ← reject_if (negb (fh_bus host)) "Fixture pipeline has no bus"%string;
  _ ← fh_playing host;
  Ok {| fc_choice := built.1; fc_fps := vp_fps built.2;
        fc_deadline := fh_now host + 8 * 1000000000 |}.

(** ** What a fixture has captured and pushed *)
Definition stored_frame (x : Fixture) (i : FixtureInput) : list CapturedFrame :=
  match i with
  | FiCapture _ ms =>
    if bool_decide (ca_callback (fx_capture x) = CbChecked)
    then option_list (pu_latest (new_sample (ca_pump (fx_capture x)) ms)) else []
  | _ => []
  end.
Definition pushed_frame (conf : FixtureConf) (x : Fixture) (i : FixtureInput) : list PushedFrame :=
  match i, fx_pc x with
  | FiMain t, (FxFirst | FxCached _ | FxThird _) =>
    if fx_blocked x then [] else
    match (push_latest_with (ca_pump (fx_capture x)) (fc_fps conf) (ft_push t)).2 with
    | Ok o => option_list o
    | Err _ => []
    end
  | _, _ => []
  end.
(** The frames the callback stored and those the encoder was given. *)
Fixpoint fx_trace (conf : FixtureConf) (x : Fixture) (l : list FixtureInput)
  : list CapturedFrame * list PushedFrame :=
  match l with
  | [] => ([], [])
  | i :: rest =>
    let '(fs, ps) := fx_trace conf (fx_step conf x i) rest in
    (stored_frame x i ++ fs, pushed_frame conf x i ++ ps)
  end.
Lemma fx_trace_snoc conf x l i :
  fx_trace conf x (l ++ [i]) =
    ((fx_trace conf x l).1 ++ stored_frame (fx_run conf l x) i,
     (fx_trace conf x l).2 ++ pushed_frame conf (fx_run conf l x) i).
Proof.
  revert x. induction l as [|j l IH]; intros x; cbn [app fx_trace].
  { cbn. by rewrite !app_nil_r. }
  rewrite IH. change (fx_run conf (j :: l) x) with (fx_run conf l (fx_step conf x j)).
  destruct (fx_trace conf (fx_step conf x j) l) as [fs ps]. cbn. by rewrite !app_assoc.
Qed.

(** ** The invariant *)
Definition proof_of (f : PushedFrame) : FreshProof :=
  {| fp_serial := pf_serial f; fp_captured_at_ms := pf_captured_at_ms f |}.
Definition frame_of_push (f : PushedFrame) : CapturedFrame :=
  {| cf_serial := pf_serial f; cf_captured_at_ms := pf_captured_at_ms f |}.
Definition no_proofs (l : list (option FreshProof)) : Prop := Forall (fun o => o = None) l.
(** The proof waits for its buffer, or one buffer has taken it, or it is gone. *)
Definition one_proof (p : FreshProof) (x : Fixture) : Prop :=
  (exists pts, fx_pending x = [(pts, p)] /\ no_proofs (fx_observations x)) \/
  (fx_pending x = [] /\ exists a b, fx_observations x = a ++ Some p :: b /\ no_proofs a /\ no_proofs b).
(** Once the first frame is pushed the capture stands still. *)
Record frozen (first : PushedFrame) (fs : list CapturedFrame) (ps : list PushedFrame) (n : nat)
    (x : Fixture) : Prop := {
  fz_enabled : ca_enabled (fx_capture x) = false;
  fz_callback : ca_callback (fx_capture x) <> CbChecked;
  fz_latest : pu_latest (ca_pump (fx_capture x)) = Some (frame_of_push first);
  fz_stored : frame_of_push first ∈ fs;
  fz_proof : one_proof (proof_of first) x;
  fz_pushes : exists rest, ps = first :: rest /\ length rest = n /\
    Forall (fun p => frame_of_push p = frame_of_push first) rest
}.
Definition report_of (conf : FixtureConf) (first : PushedFrame) (r : FixtureReport) : Prop :=
  fr_encoder r = fc_choice conf /\ fr_source_serial r = pf_serial first /\ fr_fresh_proofs r = 1 /\
  fr_cached_repeat_proofs r = 0 /\ 500 <= fr_stale_capture_age_ms r.
Definition fixture_inv (conf : FixtureConf) (fs : list CapturedFrame) (ps : list PushedFrame)
    (x : Fixture) : Prop :=
  match fx_pc x with
  | FxSample | FxPause =>
    ps = [] /\ fx_pending x = [] /\ no_proofs (fx_observations x) /\
    (forall f, pu_latest (ca_pump (fx_capture x)) = Some f -> f ∈ fs)
  | FxFirst =>
    ps = [] /\ fx_pending x = [] /\ no_proofs (fx_observations x) /\
    (forall f, pu_latest (ca_pump (fx_capture x)) = Some f -> f ∈ fs) /\
    ca_enabled (fx_capture x) = false
  | FxWait1 first | FxCached first => frozen first fs ps 0 x
  | FxWait2 first | FxThird first => frozen first fs ps 1 x
  | FxWait3 first => frozen first fs ps 2 x
  | FxReport first => frozen first fs ps 2 x /\ 3 <= zlen (fx_observations x)
  | FxDone (Ok r) =>
    exists first b, frame_of_push first ∈ fs /\ report_of conf first r /\
      (exists p1 p2, ps = [first; p1; p2] /\ frame_of_push p1 = frame_of_push first /\
         frame_of_push p2 = frame_of_push first) /\
      (exists o, fx_observations x = o ++ b /\ o = [Some (proof_of first); None; None])
  | FxDone (Err _) => True
  end.

Lemma fresh_none l : no_proofs l -> base.filter (fun o : option FreshProof => is_Some o) l = [].
Proof. induction 1 as [|o l -> Hl IH]; [done|]. cbn. by rewrite decide_False by naive_solver. Qed.
Lemma fresh_count_none l : no_proofs l -> fresh_count l = 0.
Proof. intros Hl. unfold fresh_count. by rewrite fresh_none. Qed.
Lemma fresh_count_one a p b : no_proofs a -> no_proofs b -> fresh_count (a ++ Some p :: b) = 1.
Proof.
  intros Ha Hb. unfold fresh_count. rewrite filter_app, fresh_none by done. cbn.
  rewrite decide_True by done. by rewrite fresh_none.
Qed.
(** A report needs the proof to be on the first buffer. *)
Lemma one_proof_reported p x :
  one_proof p x -> fresh_count (fx_observations x) = 1 ->
  fresh_count (drop 1 (fx_observations x)) = 0 -> 3 <= zlen (fx_observations x) ->
  exists b, fx_observations x = [Some p; None; None] ++ b.
Proof.
  intros [(pts & _ & Hn)|(_ & a & b & He & Ha & Hb)] H1 H0 Hl.
  { by rewrite (fresh_count_none _ Hn) in H1. }
  rewrite He in *. destruct a as [|o a]; cbn [app drop] in *.
  - destruct b as [|o1 [|o2 b]]; [by vm_compute in Hl..|].
    apply Forall_cons in Hb as [-> Hb]. apply Forall_cons in Hb as [-> Hb]. by exists b.
  - apply Forall_cons in Ha as [_ Ha]. change (fresh_count (a ++ Some p :: b) = 0) in H0.
    by rewrite (fresh_count_one a p b Ha Hb) in H0.
Qed.
Lemma no_proofs_snoc l : no_proofs l -> no_proofs (l ++ [None]).
Proof. intros Hl. apply Forall_app. by split; [|repeat constructor]. Qed.
Lemma bt_remove_nil {V} k : bt_remove k ([] : list (Z * V)) = (None, []).
Proof. done. Qed.

Lemma frozen_go first fs ps n pc x : frozen first fs ps n x -> frozen first fs ps n (fx_go pc x).
Proof. by intros []. Qed.

(** The encoder's callback. *)
Lemma fx_encoded_one_proof p pts x : one_proof p x -> one_proof p (fx_encoded pts x).
Proof.
  intros [(k & Hp & Hn)|(Hp & a & b & He & Ha & Hb)]; unfold fx_encoded, proof_take.
  - rewrite Hp. destruct pts as [pts|]; [|left; exists k; split; [done|by apply no_proofs_snoc]].
    cbn [bt_remove]. destruct (pts =? k).
    + right. split; [done|]. exists (fx_observations x), []. by split; [|split; [|constructor]].
    + left. exists k. split; [done|by apply no_proofs_snoc].
  - rewrite Hp. right. destruct pts as [pts|]; cbn [bt_remove]; (split; [done|]);
      exists a, (b ++ [None]); cbn; rewrite He, <- app_assoc; (split; [done|]); split;
      [done|by apply no_proofs_snoc|done|by apply no_proofs_snoc].
Qed.
Lemma fx_encoded_none pts x :
  fx_pending x = [] -> fx_encoded pts x =
    {| fx_capture := fx_capture x; fx_pending := []; fx_observations := fx_observations x ++ [None];
       fx_pc := fx_pc x |}.
Proof. intros Hp. unfold fx_encoded, proof_take. rewrite Hp. by destruct pts. Qed.
Lemma fx_encoded_same pts x :
  fx_capture (fx_encoded pts x) = fx_capture x /\ fx_pc (fx_encoded pts x) = fx_pc x /\
  exists o, fx_observations (fx_encoded pts x) = fx_observations x ++ [o].
Proof. unfold fx_encoded. destruct (match pts with Some _ => _ | None => _ end). eauto. Qed.
Lemma fx_encoded_frozen first fs ps n pts x : frozen first fs ps n x -> frozen first fs ps n (fx_encoded pts x).
Proof.
  intros [H1 H2 H3 H4 H5 H6]. destruct (fx_encoded_same pts x) as (Hc & _ & _).
  split; rewrite ?Hc; try done. by apply fx_encoded_one_proof.
Qed.
Lemma fx_encoded_inv conf fs ps pts x : fixture_inv conf fs ps x -> fixture_inv conf fs ps (fx_encoded pts x).
Proof.
  destruct (fx_encoded_same pts x) as (Hc & Hpc & o & Ho). unfold fixture_inv. rewrite Hpc.
  destruct (fx_pc x) as [| | |f|f|f|f|f|f|[r|e]]; try apply fx_encoded_frozen; try done.
  1-3: intros (-> & Hp & Hn & Hrest); rewrite fx_encoded_none by done; cbn.
  1-3: split; [done|]; split; [done|]; split; [by apply no_proofs_snoc|done].
  - intros [Hf Hl]. split; [by apply fx_encoded_frozen|]. rewrite Ho, zlen_snoc. lia.
  - intros (first & b & H1 & H2 & H3 & o' & He & Hb). exists first, (b ++ [o]). split; [done|].
    split; [done|]. split; [done|]. exists o'. by rewrite Ho, He, app_assoc.
Qed.

(** The capture's callback; once the capture is paused it stores nothing new. *)
Lemma callback_paused buffer ms c :
  ca_enabled c = false -> ca_callback c <> CbChecked ->
  let c' := callback_step buffer ms c in
  ca_pump c' = ca_pump c /\ ca_enabled c' = false /\ ca_callback c' <> CbChecked.
Proof. intros He Hc. unfold callback_step. rewrite He, andb_false_r. destruct (ca_callback c) eqn:E; cbn; rewrite ?E; done. Qed.
Lemma callback_enabled buffer ms c : ca_enabled (callback_step buffer ms c) = ca_enabled c.
Proof. unfold callback_step. destruct (ca_callback c); [by destruct (_ && _)|done..]. Qed.
Lemma callback_inv conf fs ps buffer ms x :
  fixture_inv conf fs ps x ->
  fixture_inv conf (fs ++ stored_frame x (FiCapture buffer ms)) ps
    (fx_set_capture (callback_step buffer ms (fx_capture x)) x).
Proof.
  intros Hx. cbn [stored_frame].
  assert (forall first n, frozen first fs ps n x ->
    frozen first (fs ++ if bool_decide (ca_callback (fx_capture x) = CbChecked)
      then option_list (pu_latest (new_sample (ca_pump (fx_capture x)) ms)) else []) ps n
      (fx_set_capture (callback_step buffer ms (fx_capture x)) x)) as Hfz.
  { intros first n [H1 H2 H3 H4 H5 H6].
    destruct (callback_paused buffer ms _ H1 H2) as (Hp & He & Hc).
    split; cbn; rewrite ?Hp; try done. apply elem_of_app. by left. }
  assert ((forall f, pu_latest (ca_pump (fx_capture x)) = Some f -> f ∈ fs) ->
    forall f, pu_latest (ca_pump (callback_step buffer ms (fx_capture x))) = Some f ->
    f ∈ fs ++ if bool_decide (ca_callback (fx_capture x) = CbChecked)
      then option_list (pu_latest (new_sample (ca_pump (fx_capture x)) ms)) else []) as Hst.
  { intros Hl f. unfold callback_step. rewrite elem_of_app.
    destruct (ca_callback (fx_capture x)); cbn; [destruct (_ && _); cbn; auto|by auto|by auto|].
    intros [= <-]. right. by apply list_elem_of_singleton. }
  unfold fixture_inv in *. cbn [fx_pc fx_set_capture] in *.
  destruct (fx_pc x) as [| | |f|f|f|f|f|f|[r|e]]; try done; try by apply Hfz.
  1-2: destruct Hx as (-> & Hp & Hn & Hrest); cbn; by eauto 10.
  - destruct Hx as (-> & Hp & Hn & Hrest & Hen). cbn. split_and!; try done; [by auto|].
    by rewrite callback_enabled.
  - destruct Hx as [Hf Hl]. split; [by apply Hfz|done].
  - destruct Hx as (first & b & H1 & H2). exists first, b. split; [|done]. apply elem_of_app. by left.
Qed.

(** The thread itself. *)
Lemma push_latest_spec p fps answer :
  pu_latest (push_latest_with p fps answer).1.1 = pu_latest p /\
  match (push_latest_with p fps answer).2 with
  | Ok (Some f) => pu_latest p = Some (frame_of_push f) /\ (push_latest_with p fps answer).1.2 = Some f
  | Ok None => pu_latest p = None
  | Err _ => True
  end.
Proof.
  unfold push_latest_with. destruct (pu_latest p) as [[serial at_]|] eqn:E; [|done].
  destruct answer; cbn; by rewrite ?E.
Qed.
(** A push of a capture that stands still pushes its one frame. *)
Lemma fx_push_frozen conf first fs ps n next t x :
  frozen first fs ps n x ->
  let r := (push_latest_with (ca_pump (fx_capture x)) (fc_fps conf) (ft_push t)).2 in
  (exists e x', r = Err e /\ fx_push conf (fun _ x => x) next t x = fx_go (FxDone (Err e)) x') \/
  exists f x', r = Ok (Some f) /\ frame_of_push f = frame_of_push first /\
    fx_push conf (fun _ x => x) next t x = next (Some f) x' /\ frozen first fs (ps ++ [f]) (S n) x'.
Proof.
  intros [H1 H2 H3 H4 H5 (rest & -> & Hn & Hr)] r. unfold fx_push.
  destruct (push_latest_spec (ca_pump (fx_capture x)) (fc_fps conf) (ft_push t)) as [Hp Hf]. fold r in Hf.
  destruct (push_latest_with _ _ _) as [[p pushed] r']. cbn in r, Hp, Hf.
  destruct r as [o|e] eqn:Er; unfold r in Er; subst r'.
  - right. destruct o as [f|]; [|by rewrite H3 in Hf]. destruct Hf as [Hl ->]. rewrite H3 in Hl.
    assert (frame_of_push f = frame_of_push first) as Hfr by congruence.
    exists f, (fx_set_capture (ca_set_pump p (fx_capture x)) x).
    split; [done|]. split; [done|]. split; [done|].
    split; cbn; rewrite ?Hp; try done. exists (rest ++ [f]). rewrite length_app. cbn.
    split; [done|]. split; [lia|]. apply Forall_app. by split; [|constructor].
  - left. destruct pushed; by eexists _, _.
Qed.
Lemma wait_inv conf fs ps count next t x :
  fixture_inv conf fs ps x -> (count <= zlen (fx_observations x) -> fixture_inv conf fs ps (fx_go next x)) ->
  fixture_inv conf fs ps (wait_for_observations conf count next t x).
Proof.
  intros Hx Hn. unfold wait_for_observations. destruct (drain_fixture_bus t); [|done].
  destruct (count <=? zlen (fx_observations x)) eqn:E; [apply Hn; lia|].
  destruct (_ <=? ft_now t); [exact I|exact Hx].
Qed.
Lemma fx_report_inv conf fs ps first t x :
  fx_pc x = FxReport first -> fixture_inv conf fs ps x ->
  fixture_inv conf fs ps (fx_go (FxDone (fx_report conf first t x)) x).
Proof.
  intros Hpc Hx. unfold fixture_inv in *. rewrite Hpc in Hx. destruct Hx as [[H1 H2 H3 H4 H5 H6] Hl].
  cbn [fx_pc fx_go]. destruct (fx_report conf first t x) as [r|e] eqn:Er; [|done]. unfold fx_report in Er.
  destruct (_ || _) eqn:Eb; [done|]. bools. injection Er as <-.
  destruct (one_proof_reported _ _ H5) as [b Hb]; [lia..|done|].
  destruct H6 as (rest & -> & Hn & Hr). destruct rest as [|p1 [|p2 [|]]]; try done.
  exists first, b. split; [done|]. split; [by repeat split; cbn; lia|].
  apply Forall_cons in Hr as [Hr1 Hr]. apply Forall_cons in Hr as [Hr2 _].
  split; [by exists p1, p2|]. by eexists.
Qed.
Lemma fx_main_inv conf fs ps t x :
  fixture_inv conf fs ps x -> fixture_inv conf fs (ps ++ pushed_frame conf x (FiMain t)) (fx_main conf t x).
Proof.
  intros Hx. unfold fx_main, pushed_frame.
  destruct (fx_blocked x) eqn:Eb.
  { by replace (match fx_pc x with FxFirst | FxCached _ | FxThird _ => _ | _ => _ end) with ([] : list PushedFrame)
      by (by destruct (fx_pc x)); rewrite app_nil_r. }
  destruct (fx_pc x) as [| | |f|f|f|f|f|f|[r|e]] eqn:Epc; rewrite ?app_nil_r; try done.
  - destruct (has_latest _); [by unfold fixture_inv in *; rewrite Epc in Hx|].
    destruct (drain_fixture_bus t); [|done]. destruct (_ <=? ft_now t); [exact I|exact Hx].
  - unfold fixture_inv in *. rewrite Epc in Hx. destruct Hx as (-> & H1 & H2 & H3). by cbn.
  - unfold fixture_inv in Hx. rewrite Epc in Hx. destruct Hx as (-> & H1 & H2 & H3 & H4). unfold fx_push.
    destruct (push_latest_spec (ca_pump (fx_capture x)) (fc_fps conf) (ft_push t)) as [Hp Hf].
    destruct (push_latest_with _ _ _) as [[p pushed] [o|e]]; cbn in Hp, Hf; [|by destruct pushed].
    destruct o as [f|]; [|by destruct pushed]. destruct Hf as [Hl ->]. cbn.
    split; cbn; rewrite ?Hp; try done.
    + unfold fx_blocked, lock_held in Eb. rewrite Epc in Eb. cbn in Eb. bools. tauto.
    + by apply H3.
    + left. exists (pf_pts_ns f). cbn. by rewrite H1.
    + by exists [].
  - apply wait_inv; [done|]. intros _. unfold fixture_inv in *. rewrite Epc in Hx. by apply frozen_go.
  - unfold fixture_inv in Hx. rewrite Epc in Hx.
    destruct (fx_push_frozen conf f fs ps 0 (fun o x => match o with
      | Some cached => if negb (pf_serial cached =? pf_serial f)
        then fx_go (FxDone (Err "Fixture repeat did not use the cached source serial"%string)) x
        else fx_go (FxWait2 f) x
      | None => fx_go (FxDone (Err "Cached fixture repeat was unavailable"%string)) x
      end) t x Hx) as [(e & x' & -> & ->)|(f' & x' & -> & Hfr & -> & Hx')]; [done|].
    cbn [option_list option_rect]. injection Hfr as Hs _. rewrite Hs, Z.eqb_refl. by apply (frozen_go _ _ _ _ (FxWait2 f)).
  - apply wait_inv; [done|]. intros _. unfold fixture_inv in *. rewrite Epc in Hx. by apply frozen_go.
  - unfold fixture_inv in Hx. rewrite Epc in Hx.
    destruct (fx_push_frozen conf f fs ps 1 (fun _ x => fx_go (FxWait3 f) x) t x Hx)
      as [(e & x' & -> & ->)|(f' & x' & -> & Hfr & -> & Hx')]; [done|].
    by apply (frozen_go _ _ _ _ (FxWait3 f)).
  - apply wait_inv; [done|]. intros Hl. unfold fixture_inv in *. rewrite Epc in Hx. cbn. split; [|done].
    by apply frozen_go.
  - by apply fx_report_inv.
Qed.
Lemma fx_run_inv conf l :
  let '(fs, ps) := fx_trace conf fixture_new l in fixture_inv conf fs ps (fx_run conf l fixture_new).
Proof.
  induction l as [|i l IH] using rev_ind; [by cbn; split; [|split; [|split; [constructor|]]]|].
  rewrite fx_trace_snoc. unfold fx_run. rewrite foldl_app. fold (fx_run conf l fixture_new). cbn [foldl].
  destruct (fx_trace conf fixture_new l) as [fs ps]. cbn [fst snd].
  destruct i as [buffer ms|pts|t]; cbn [fx_step].
  - cbn [pushed_frame]. rewrite app_nil_r. by apply callback_inv.
  - cbn [stored_frame pushed_frame]. rewrite !app_nil_r. by apply fx_encoded_inv.
  - cbn [stored_frame]. rewrite app_nil_r. by apply fx_main_inv.
Qed.

(** A report of the fixture is honest.  However the capture's callback, the encoder
    and the thread interleave, and whatever the encoder does with its buffers: if a
    run reports success, the three pictures it pushed were one captured frame, whose
    serial it reports; the first buffer the encoder made carried that frame's proof
    and none of the repeats did; and at the end the picture was half a second old.
    From the first push on nothing replaces that frame, so the check that the repeat
    is the same frame never fails: a callback that had seen the capture enabled looks
    again under the lock. *)
Theorem fixture_report_honest conf l :
  let '(stored, pushes) := fx_trace conf fixture_new l in
  let x := fx_run conf l fixture_new in
  (forall first, fx_pc x = FxCached first \/ fx_pc x = FxThird first ->
     pu_latest (ca_pump (fx_capture x)) = Some (frame_of_push first)) /\
  (forall r, fx_pc x = FxDone (Ok r) ->
     exists first p1 p2 rest, frame_of_push first ∈ stored /\ pushes = [first; p1; p2] /\
       frame_of_push p1 = frame_of_push first /\ frame_of_push p2 = frame_of_push first /\
       fr_source_serial r = pf_serial first /\ fr_fresh_proofs r = 1 /\
       fr_cached_repeat_proofs r = 0 /\ 500 <= fr_stale_capture_age_ms r /\
       fx_observations x = [Some (proof_of first); None; None] ++ rest).
Proof.
  pose proof (fx_run_inv conf l) as Hi. destruct (fx_trace conf fixture_new l) as [fs ps]. cbn zeta.
  unfold fixture_inv in Hi. split.
  - intros first [Hpc|Hpc]; rewrite Hpc in Hi; apply (fz_latest _ _ _ _ _ Hi).
  - intros r Hpc. rewrite Hpc in Hi.
    destruct Hi as (first & b & Hf & (_ & Hs & H1 & H0 & H5) & (p1 & p2 & -> & Hp1 & Hp2) & o & Ho & ->).
    exists first, p1, p2, b. auto 10.
Qed.

(** ** The fixture ends *)
Definition PROBE_POLL : Z := 25 * 1000000.
(** The statements a turn has left. *)
Definition fx_rank (pc : FixturePc) : Z :=
  match pc with
  | FxSample => 9 | FxPause => 8 | FxFirst => 7 | FxWait1 _ => 6 | FxCached _ => 5 | FxWait2 _ => 4
  | FxThird _ => 3 | FxWait3 _ => 2 | FxReport _ => 1 | FxDone _ => 0
  end.
(** The thread's clock is never set back and a wait sleeps its 25 milliseconds. *)
Fixpoint fx_clocked (conf : FixtureConf) (last : Z) (x : Fixture) (l : list FixtureInput) : Prop :=
  match l with
  | [] => True
  | FiMain t :: rest =>
    let x' := fx_main conf t x in
    if fx_blocked x then fx_clocked conf last x' rest else
    last <= ft_now t /\
    fx_clocked conf (if fx_rank (fx_pc x') =? fx_rank (fx_pc x) then ft_now t + PROBE_POLL else ft_now t)
      x' rest
  | i :: rest => fx_clocked conf last (fx_step conf x i) rest
  end.
(** The turns in which the thread did not wait for the callback's lock. *)
Fixpoint fx_turns (conf : FixtureConf) (x : Fixture) (l : list FixtureInput) : Z :=
  match l with
  | [] => 0
  | FiMain t :: rest => (if fx_blocked x then 0 else 1) + fx_turns conf (fx_main conf t x) rest
  | i :: rest => fx_turns conf (fx_step conf x i) rest
  end.
Definition fx_done (x : Fixture) : Prop := exists r, fx_pc x = FxDone r.
#[global] Instance fx_done_dec x : Decision (fx_done x).
Proof. unfold fx_done. destruct (fx_pc x) as [| | |f|f|f|f|f|f|r]; solve [left; by eexists|right; by intros [? ?]]. Defined.
Lemma fx_rank_nonneg pc : 0 <= fx_rank pc.
Proof. destruct pc; cbn; lia. Qed.
Lemma fx_step_other conf x i : (forall t, i <> FiMain t) -> fx_pc (fx_step conf x i) = fx_pc x.
Proof. destruct i as [buffer ms|pts|t]; [done| |naive_solver]. intros _. apply fx_encoded_same. Qed.
Lemma fx_done_stays conf l x : fx_done x -> fx_done (fx_run conf l x).
Proof.
  revert x. induction l as [|i l IH]; intros x [r Hr]; [by exists r|]. apply IH. exists r.
  destruct i as [buffer ms|pts|t]; [done| |].
  - cbn. by rewrite (proj1 (proj2 (fx_encoded_same pts x))).
  - cbn. unfold fx_main. by rewrite Hr, andb_false_l || (destruct (fx_blocked x); by rewrite ?Hr).
Qed.
(** A turn gets on or ends, but for a wait before the deadline, which changes nothing. *)
Lemma fx_main_progress conf t x :
  fx_blocked x = false -> ~ fx_done x ->
  fx_rank (fx_pc (fx_main conf t x)) < fx_rank (fx_pc x) \/
  (fx_main conf t x = x /\ ft_now t < fc_deadline conf).
Proof.
  intros Hb Hd. unfold fx_main. rewrite Hb.
  assert (forall count next, fx_rank next < fx_rank (fx_pc x) ->
    0 < fx_rank (fx_pc x) ->
    fx_rank (fx_pc (wait_for_observations conf count next t x)) < fx_rank (fx_pc x) \/
    (wait_for_observations conf count next t x = x /\ ft_now t < fc_deadline conf)) as Hwait.
  { intros count next Hn H0. unfold wait_for_observations.
    destruct (drain_fixture_bus t); [|by left]. destruct (count <=? _); [by left|].
    destruct (fc_deadline conf <=? ft_now t) eqn:E; [by left|]. right. split; [done|lia]. }
  assert (forall before next, (forall o y, fx_rank (fx_pc (next o y)) < fx_rank (fx_pc x)) ->
    0 < fx_rank (fx_pc x) -> fx_rank (fx_pc (fx_push conf before next t x)) < fx_rank (fx_pc x)) as Hpush.
  { intros before next Hn H0. unfold fx_push. destruct (push_latest_with _ _ _) as [[p pushed] [o|e]];
      [apply Hn|done]. }
  destruct (fx_pc x) as [| | |f|f|f|f|f|f|r] eqn:E; cbn [fx_rank] in *;
    try (apply Hwait; cbn; lia); try (left; apply Hpush; [intros [o|] y|]; cbn; lia).
  - destruct (has_latest _); [by left|]. destruct (drain_fixture_bus t); [|by left].
    destruct (fc_deadline conf <=? ft_now t) eqn:Et; [by left|]. right. split; [done|lia].
  - by left.
  - left. apply Hpush; [intros [o|] y; [destruct (negb _)|]; cbn; lia|lia].
  - by left.
  - destruct Hd. by exists r.
Qed.
Definition fx_budget (conf : FixtureConf) (last : Z) (x : Fixture) : Z :=
  Z.max 0 ((fc_deadline conf - last + PROBE_POLL - 1) / PROBE_POLL) + fx_rank (fx_pc x).
Lemma fx_turns_bound conf l x last :
  fx_clocked conf last x l -> fx_done (fx_run conf l x) \/ fx_turns conf x l <= fx_budget conf last x.
Proof.
  revert x last. induction l as [|i l IH]; intros x last Hc.
  { right. unfold fx_budget. cbn. pose proof (fx_rank_nonneg (fx_pc x)). lia. }
  assert ((forall t, i <> FiMain t) -> fx_clocked conf last (fx_step conf x i) l ->
    fx_done (fx_run conf (i :: l) x) \/ fx_turns conf (fx_step conf x i) l <= fx_budget conf last x) as Hother.
  { intros Hi Hc'. destruct (IH _ _ Hc') as [Hd|Hb]; [by left|right].
    unfold fx_budget in *. by rewrite fx_step_other in Hb. }
  destruct i as [buffer ms|pts|t]; [by apply Hother|by apply Hother|]. cbn [fx_clocked fx_turns] in *.
  change (fx_run conf (FiMain t :: l) x) with (fx_run conf l (fx_main conf t x)).
  destruct (fx_blocked x) eqn:Eb.
  { assert (fx_main conf t x = x) as Hx by (unfold fx_main; by rewrite Eb).
    rewrite Hx in *. destruct (IH _ _ Hc) as [|Hb]; [by left|right; lia]. }
  destruct Hc as [Hl Hc].
  destruct (decide (fx_done x)) as [Hd|Hd].
  { left. by apply (fx_done_stays conf (FiMain t :: l)). }
  destruct (IH _ _ Hc) as [|Hb]; [by left|right]. unfold fx_budget, PROBE_POLL in *.
  destruct (fx_main_progress conf t x Eb Hd) as [Hr|[Hx Hn]].
  - rewrite (proj2 (Z.eqb_neq _ _)) in Hb by lia.
    assert ((fc_deadline conf - ft_now t + 25 * 1000000 - 1) / (25 * 1000000) <=
      (fc_deadline conf - last + 25 * 1000000 - 1) / (25 * 1000000)) by (apply Z.div_le_mono; lia). lia.
  - rewrite Hx in *. rewrite Z.eqb_refl in Hb.
    assert ((fc_deadline conf - (ft_now t + 25 * 1000000) + 25 * 1000000 - 1) / (25 * 1000000) + 1 <=
      (fc_deadline conf - last + 25 * 1000000 - 1) / (25 * 1000000)).
    { rewrite <- Z.div_add by lia. apply Z.div_le_mono; lia. }
    assert (0 <= (fc_deadline conf - (ft_now t + 25 * 1000000) + 25 * 1000000 - 1) / (25 * 1000000))
      by (apply Z.div_pos; lia). lia.
Qed.
(** The fixture ends: after eight seconds of its clock, at most 330 turns, whatever
    the capture and the encoder do. *)
Theorem fixture_returns conf start l :
  fc_deadline conf = start + 8 * 1000000000 -> fx_clocked conf start fixture_new l ->
  330 <= fx_turns conf fixture_new l -> exists r, fx_pc (fx_run conf l fixture_new) = FxDone r.
Proof.
  intros Hd Hc Ht. destruct (fx_turns_bound _ _ _ _ Hc) as [H|Hb]; [done|].
  unfold fx_budget in Hb. rewrite Hd in Hb.
  replace (start + 8 * 1000000000 - start) with (8 * 1000000000) in Hb by lia.
  assert (Z.max 0 ((8 * 1000000000 + PROBE_POLL - 1) / PROBE_POLL) = 320) as He by reflexivity.
  rewrite He in Hb. cbn [fixture_new fx_pc fx_rank] in Hb. lia.
Qed.

Definition sample_fixture_turn : FixtureTurn :=
  {| ft_now := 0; ft_errors := []; ft_push := PushOk; ft_millis := 1600; ft_stopped := true |}.
Definition sample_fixture_conf : FixtureConf :=
  {| fc_choice := EncHardware; fc_fps := 5; fc_deadline := 8000000000 |}.
(** The callback is caught by the pause between its two looks. *)
Definition sample_fixture_inputs : list FixtureInput :=
  let m := FiMain sample_fixture_turn in
  let c := FiCapture true 1000 in
  [m; c; c; c; c; m; c; c; m; m; c; m; c; m; FiEncoded (Some 0); m; m;
   FiEncoded (Some 200000000); m; m; FiEncoded None; m; m].
Example fixture_runs :
  fx_pc (fx_run sample_fixture_conf sample_fixture_inputs fixture_new) =
    FxDone (Ok {| fr_encoder := EncHardware; fr_source_serial := 1; fr_fresh_proofs := 1;
                  fr_encoded_buffers := 3; fr_cached_repeat_proofs := 0;
                  fr_stale_capture_age_ms := 600; fr_stopped_cleanly := true |}).
Proof. vm_compute. done. Qed.

(** ** The benchmark *)
Inductive BusMessage : Type := BusError (e : string) | BusEos | BusOther.
Record BenchArgs := {
  ba_handle : Z; ba_width : Z; ba_height : Z; ba_fps : Z; ba_bitrate_kbps : Z; ba_seconds : Z
}.
Definition benchmark_checks (a : BenchArgs) : sres unit :=
  _ ← reject_if (ba_handle a =? 0) "Benchmark window handle is required"%string;
  _ ← reject_if (negb (in_range 2 1920 (ba_width a)) || negb (in_range 2 1080 (ba_height a)))
        "Benchmark dimensions out of range"%string;
  _ ← reject_if (negb (in_range 1 30 (ba_fps a))) "Benchmark fps out of range"%string;
  _ ← reject_if (negb (in_range 1 20000 (ba_bitrate_kbps a))) "Benchmark bitrate out of range"%string;
  reject_if (negb (in_range 1 610 (ba_seconds a))) "Benchmark duration out of range"%string.
Definition benchmark_profile (a : BenchArgs) : VideoProfile :=
  {| vp_width := ba_width a; vp_height := ba_height a; vp_fps := ba_fps a;
     vp_bitrate_kbps := ba_bitrate_kbps a |}.
Definition benchmark_init (a : BenchArgs) : MediaInit :=
  {| mi_protocol := 1;
     mi_source := {| lo_native := Window (dec (ba_handle a)) 0 "owned-benchmark";
                     lo_label := "RemoteCodex owned capture benchmark";
                     lo_rect := {| left := 0; top := 0; width := ba_width a; height := ba_height a |} |};
     mi_profile := benchmark_profile a; mi_tailnet_ip := str_bytes "100.64.0.1";
     mi_min_port := 40000; mi_max_port := 40031 |}.
(** The frames the callback stores meanwhile. *)
Definition samples (ms : list Z) (p : SourcePump) : SourcePump := foldl new_sample p ms.

(** Waiting for the first frame: the loop ends at the first message that fails it. *)
Record FirstTurn := { bf_samples : list Z; bf_messages : list BusMessage; bf_now : Z }.
Fixpoint first_failure (eos : string) (l : list BusMessage) : option string :=
  match l with
  | [] => None
  | BusError e :: _ => Some e
  | BusEos :: _ => Some eos
  | BusOther :: rest => first_failure eos rest
  end.
Fixpoint bench_first (deadline : Z) (turns : list FirstTurn) (p : SourcePump) : option (sres SourcePump) :=
  match turns with
  | [] => None
  | t :: rest =>
    let p := samples (bf_samples t) p in
    if option_is_some (pu_latest p) then Some (Ok p) else
    match first_failure "Benchmark pipeline reached EOS before first frame" (bf_messages t) with
    | Some e => Some (Err e)
    | None =>
      if deadline <=? bf_now t then Some (Err "Benchmark produced no source sample before timeout"%string)
      else bench_first deadline rest p
    end
  end.
(** The pushing loop.  It keeps the last failure of the bus. *)
Definition last_failure (eos : string) (l : list BusMessage) : option string :=
  first_failure eos (rev l).
Record BenchTurn := {
  bt_check : Z;            (* while Instant::now() < deadline *)
  bt_samples : list Z;
  bt_now : Z;
  bt_extra : Z;            (* what the sleep until [next] takes beyond it *)
  bt_push : PushAnswer;
  bt_messages : list BusMessage;
  bt_end : Z
}.
Record Bench := {
  bn_pump : SourcePump;
  bn_next : Z;
  bn_pushes : Z;
  bn_unique : Z;
  bn_last : option Z
}.
Definition bench_start (p : SourcePump) (now : Z) : Bench :=
  {| bn_pump := p; bn_next := now; bn_pushes := 0; bn_unique := 0; bn_last := None |}.
Definition count_push (o : option PushedFrame) (b : Bench) : Bench :=
  match o with
  | None => b
  | Some pushed =>
    let new := match bn_last b with Some s => negb (s =? pf_serial pushed) | None => true end in
    {| bn_pump := bn_pump b; bn_next := bn_next b; bn_pushes := wrap64 (bn_pushes b + 1);
       bn_unique := if new then wrap64 (bn_unique b + 1) else bn_unique b;
       bn_last := if new then Some (pf_serial pushed) else bn_last b |}
  end.
Definition bench_set_pump (p : SourcePump) (b : Bench) : Bench :=
  {| bn_pump := p; bn_next := bn_next b; bn_pushes := bn_pushes b; bn_unique := bn_unique b;
     bn_last := bn_last b |}.
Definition bench_set_next (n : Z) (b : Bench) : Bench :=
  {| bn_pump := bn_pump b; bn_next := n; bn_pushes := bn_pushes b; bn_unique := bn_unique b;
     bn_last := bn_last b |}.
(** The clock after the sleep. *)
Definition bt_after (t : BenchTurn) (b : Bench) : Z := Z.max (bt_now t) (bn_next b) + bt_extra t.
(** The frames pushed, and how the loop ended. *)
Fixpoint bench_loop (fps deadline : Z) (turns : list BenchTurn) (b : Bench)
  : option (list PushedFrame * sres Bench) :=
  match turns with
  | [] => None
  | t :: rest =>
    if deadline <=? bt_check t then Some ([], Ok b) else
    let b := bench_set_pump (samples (bt_samples t) (bn_pump b)) b in
    if deadline <=? bt_after t b then Some ([], Ok b) else
    let '(p, _, r) := push_latest_with (bn_pump b) fps (bt_push t) in
    match r with
    | Err e => Some ([], Err e)
    | Ok o =>
      let b := count_push o (bench_set_pump p b) in
      match last_failure "Benchmark pipeline reached EOS during run" (bt_messages t) with
      | Some e => Some (option_list o, Err e)
      | None =>
        match bench_loop fps deadline rest
                (bench_set_next (Z.max (bn_next b + frame_interval fps) (bt_end t)) b) with
        | None => None
        | Some (ps, r) => Some (option_list o ++ ps, r)
        end
      end
    end
  end.
Record BenchReport := {
  br_encoder : EncoderChoice;
  br_requested : VideoProfile;
  br_effective : VideoProfile;
  br_source_pushes : Z;
  br_unique_pushed_source_frames : Z;
  br_encoded_buffers : Z;
  br_actual_encoded_fps : f64;
  br_unique_pushed_fps : f64;
  br_elapsed_ms : Z;
  br_stopped_cleanly : bool
}.
Definition per_second (count elapsed_ms : Z) : f64 :=
  if 0 <? elapsed_ms then fdiv (f64_of_Z count) (fdiv (f64_of_Z elapsed_ms) (f64_of_Z 1000))
  else f64_zero.
(** What the host answers outside the two loops. *)
Record BenchHost := {
  bh_attach : sres unit;
  bh_parser : bool;
  bh_pad : bool;
  bh_bus : bool;
  bh_playing : sres unit;
  bh_first : list FirstTurn;
  bh_first_now : Z;
  bh_start : Z;
  bh_next : Z;
  bh_turns : list BenchTurn;
  bh_drain : list BusMessage;
  bh_elapsed_ms : Z;
  bh_encoded : Z;
  bh_stopped : sres unit
}.
Definition bench_outcome (host : BenchHost) (a : BenchArgs) (choice : EncoderChoice)
    (effective : VideoProfile) : option (list PushedFrame * sres BenchReport) :=
  let ready :=
    _ ← bh_attach host;
    _ ← reject_if (negb (bh_parser host)) "Benchmark parser missing"%string;
    _ ← reject_if (negb (bh_pad host)) "Benchmark encoded pad missing"%string;
    _ ← reject_if (negb (bh_bus host)) "Benchmark pipeline has no bus"%string;
    bh_playing host in
  match ready with
  | Err e => Some ([], Err e)
  | Ok _ =>
    match bench_first (bh_first_now host + 10 * 1000000000) (bh_first host) pump_attach with
    | None => None
    | Some (Err e) => Some ([], Err e)
    | Some (Ok p) =>
      match bench_loop (vp_fps effective) (bh_start host + ba_seconds a * 1000000000) (bh_turns host)
              (bench_start p (bh_next host)) with
      | None => None
      | Some (ps, Err e) => Some (ps, Err e)
      | Some (ps, Ok b) =>
        match first_failure "Benchmark reached EOS during final drain" (bh_drain host) with
        | Some e => Some (ps, Err e)
        | None =>
          Some (ps, Ok {| br_encoder := choice; br_requested := benchmark_profile a;
             br_effective := effective; br_source_pushes := bn_pushes b;
             br_unique_pushed_source_frames := bn_unique b; br_encoded_buffers := bh_encoded host;
             br_actual_encoded_fps := per_second (bh_encoded host) (bh_elapsed_ms host);
             br_unique_pushed_fps := per_second (bn_unique b) (bh_elapsed_ms host);
             br_elapsed_ms := bh_elapsed_ms host; br_stopped_cleanly := false |})
        end
      end
    end
  end.
Definition stopped_cleanly (r : BenchReport) : BenchReport :=
  {| br_encoder := br_encoder r; br_requested := br_requested r; br_effective := br_effective r;
     br_source_pushes := br_source_pushes r;
     br_unique_pushed_source_frames := br_unique_pushed_source_frames r;
     br_encoded_buffers := br_encoded_buffers r; br_actual_encoded_fps := br_actual_encoded_fps r;
     br_unique_pushed_fps := br_unique_pushed_fps r; br_elapsed_ms := br_elapsed_ms r;
     br_stopped_cleanly := true |}.
(** [run_owned_capture_encode_benchmark]; [None] is an oracle that ran out. *)
Definition benchmark (g : Gst) (host : BenchHost) (a : BenchArgs)
  : option (list PushedFrame * sres BenchReport) :=
  match
    _ ← gs_init g;
    _ ← benchmark_checks a;
    build_capture_encode_pipeline g (benchmark_init a) (ba_handle a)
  with
  | Err e => Some ([], Err e)
  | Ok (choice, effective) =>
    match bench_outcome host a choice effective with
    | None => None
    | Some (ps, outcome) =>
      Some (ps, value ← outcome; _ ← bh_stopped host; Ok (stopped_cleanly value))
    end
  end.

(** ** What the benchmark counts *)
Definition serials (ps : list PushedFrame) : gset Z := list_to_set (map pf_serial ps).
Lemma samples_serial ms p :
  0 <= pu_serial p -> pu_serial p + zlen ms <= u64_max ->
  (forall f, pu_latest p = Some f -> cf_serial f <= pu_serial p) ->
  pu_serial (samples ms p) = pu_serial p + zlen ms /\
  (forall f, pu_latest (samples ms p) = Some f -> cf_serial f <= pu_serial p + zlen ms) /\
  (forall f, pu_latest (samples ms p) = Some f -> pu_latest p = Some f \/ pu_serial p < cf_serial f).
Proof.
  revert p. induction ms as [|m ms IH]; intros p H0 Hm Hl; cbn.
  { rewrite zlen_nil, Z.add_0_r. auto. }
  rewrite zlen_cons in *. pose proof (zlen_nonneg ms).
  assert (pu_serial (new_sample p m) = pu_serial p + 1) as Hs by (cbn; rewrite wrap64_small; lia).
  destruct (IH (new_sample p m)) as (H1 & H2 & H3); [lia|lia| |].
  { intros f. cbn. intros [= <-]. cbn. lia. }
  change (foldl new_sample (new_sample p m) ms) with (samples ms (new_sample p m)).
  rewrite Hs in H1, H2, H3. split; [lia|]. split; [intros f Hf; specialize (H2 f Hf); lia|].
  intros f Hf. right. destruct (H3 f Hf) as [Hn|Hn]; [|lia].
  cbn in Hn. injection Hn as <-. cbn. rewrite wrap64_small; lia.
Qed.

(** [seen] are the serials pushed so far. *)
Record counted (seen : gset Z) (room : Z) (b : Bench) : Prop := {
  cn_serial : 0 <= pu_serial (bn_pump b);
  cn_room : pu_serial (bn_pump b) + room <= u64_max;
  cn_latest f : pu_latest (bn_pump b) = Some f -> cf_serial f <= pu_serial (bn_pump b);
  cn_unique : bn_unique b = Z.of_nat (size seen);
  cn_pushes : bn_unique b <= bn_pushes b;
  cn_last : match bn_last b with
            | None => seen = ∅
            | Some m => m ∈ seen /\ (forall s, s ∈ seen -> s <= m) /\
                forall f, pu_latest (bn_pump b) = Some f -> m <= cf_serial f
            end;
  cn_last_le m : bn_last b = Some m -> m <= pu_serial (bn_pump b)
}.
Lemma counted_samples seen room ms b :
  0 <= room -> counted seen (zlen ms + room) b ->
  counted seen room (bench_set_pump (samples ms (bn_pump b)) b).
Proof.
  intros H0 [H1 H2 H3 H4 H5 H6 H7]. pose proof (zlen_nonneg ms).
  destruct (samples_serial ms (bn_pump b)) as (Hs & Hl & Hn); [done|lia|done|].
  split; cbn; rewrite ?Hs; try done; try lia; [|intros m Hm; specialize (H7 m Hm); lia].
  destruct (bn_last b) as [m|]; [|done]. destruct H6 as (Hin & Hle & Hge). split; [done|]. split; [done|].
  intros f Hf. specialize (H7 m eq_refl). destruct (Hn f Hf) as [Hf'|]; [by apply Hge|lia].
Qed.
Lemma counted_push seen room b fps answer p o :
  push_latest_with (bn_pump b) fps answer = (p, o, Ok o) -> counted seen room b ->
  bn_pushes b + 1 <= u64_max ->
  let b' := count_push o (bench_set_pump p b) in
  counted (serials (option_list o) ∪ seen) room b' /\
  bn_pushes b' = bn_pushes b + zlen (option_list o) /\ bn_next b' = bn_next b.
Proof.
  intros He [H1 H2 H3 H4 H5 H6 H7] Hm.
  destruct (push_latest_spec (bn_pump b) fps answer) as [Hlat Hf]. rewrite He in Hlat, Hf. cbn in Hlat, Hf.
  assert (pu_serial p = pu_serial (bn_pump b)) as Hser.
  { unfold push_latest_with in He. destruct (pu_latest _); [|by injection He as <-].
    destruct answer; by injection He as <-. }
  destruct o as [f|]; cbn -[zlen].
  2:{ unfold serials. cbn. rewrite union_empty_l_L. split; [|split; [rewrite zlen_nil; lia|done]].
      split; cbn; rewrite ?Hlat, ?Hser; done. }
  destruct Hf as [Hf _]. pose proof (H3 _ Hf) as Hle. cbn in Hle.
  unfold serials. cbn -[zlen]. rewrite union_empty_r_L. change (zlen [f]) with 1.
  rewrite wrap64_small by lia. split; [|done].
  destruct (bn_last b) as [m|] eqn:El; [destruct H6 as (Hin & Hmax & Hge); specialize (Hge _ Hf); cbn in Hge|subst seen].
  - destruct (m =? pf_serial f) eqn:E; cbn; bools.
    + subst m. replace ({[pf_serial f]} ∪ seen) with seen by set_solver.
      split; cbn; rewrite ?Hlat, ?Hser, ?El; try done; try lia.
      split; [done|]. split; [done|]. intros g Hg. rewrite Hf in Hg. by injection Hg as <-.
    + assert (pf_serial f ∉ seen) as Hni by (intros Hin'; specialize (Hmax _ Hin'); lia).
      split; cbn; rewrite ?Hlat, ?Hser; try done.
      * rewrite size_union by set_solver. rewrite size_singleton, wrap64_small by lia. lia.
      * rewrite wrap64_small by lia. lia.
      * split; [set_solver|]. split; [|intros g Hg; rewrite Hf in Hg; by injection Hg as <-].
        intros s [->%elem_of_singleton|Hs]%elem_of_union; [lia|]. specialize (Hmax _ Hs). lia.
      * by intros m' [= <-].
  - rewrite size_empty in H4.
    split; cbn; rewrite ?Hlat, ?Hser; try done.
    + rewrite union_empty_r_L, size_singleton, wrap64_small by lia. lia.
    + rewrite wrap64_small by lia. lia.
    + split; [set_solver|]. split; [set_solver by lia|]. intros g Hg. rewrite Hf in Hg. by injection Hg as <-.
    + by intros m' [= <-].
Qed.
Definition taken (turns : list BenchTurn) : Z := zsum (fun t => zlen (bt_samples t)) turns.
Lemma taken_nonneg turns : 0 <= taken turns.
Proof. apply zsum_nonneg. intros t _. apply zlen_nonneg. Qed.
Lemma push_pushed p fps answer q o o' : push_latest_with p fps answer = (q, o, Ok o') -> o = o'.
Proof.
  unfold push_latest_with. destruct (pu_latest p); [|by intros [= _ <- <-]].
  by destruct answer; intros [= _ <- <-].
Qed.
Lemma serials_app ps qs : serials (ps ++ qs) = serials ps ∪ serials qs.
Proof. unfold serials. by rewrite map_app, list_to_set_app_L. Qed.
Lemma bench_loop_counts fps deadline turns seen b ps b' :
  bench_loop fps deadline turns b = Some (ps, Ok b') -> counted seen (taken turns) b ->
  bn_pushes b + zlen ps <= u64_max ->
  bn_pushes b' = bn_pushes b + zlen ps /\ bn_unique b' = Z.of_nat (size (serials ps ∪ seen)).
Proof.
  revert seen b ps. induction turns as [|t turns IH]; intros seen b ps He Hc Hm; [done|].
  cbn [bench_loop] in He.
  destruct (deadline <=? bt_check t).
  { injection He as <- <-. split; [rewrite zlen_nil; lia|]. unfold serials. cbn. rewrite union_empty_l_L. apply Hc. }
  unfold taken in Hc. rewrite zsum_cons in Hc. fold (taken turns) in Hc.
  pose proof (taken_nonneg turns) as Ht. apply counted_samples in Hc; [|done].
  set (b1 := bench_set_pump _ b) in *. destruct (deadline <=? bt_after t b1).
  { injection He as <- <-. split; [rewrite zlen_nil; cbn; lia|]. unfold serials. cbn. rewrite union_empty_l_L. apply Hc. }
  destruct (push_latest_with (bn_pump b1) fps (bt_push t)) as [[p pushed] [o|e]] eqn:Ep; [|done].
  pose proof (push_pushed _ _ _ _ _ _ Ep) as ->.
  destruct (last_failure _ _); [done|].
  destruct (bench_loop fps deadline turns _) as [[qs r]|] eqn:El; [|done]. injection He as <- ->.
  rewrite zlen_app in *. pose proof (zlen_nonneg qs).
  assert (bn_pushes b1 = bn_pushes b) as Hb1 by done.
  destruct (decide (bn_pushes b1 + 1 <= u64_max)) as [Hr|Hr].
  - destruct (counted_push _ _ _ _ _ _ _ Ep Hc Hr) as (Hc2 & Hp2 & _).
    destruct (IH (serials (option_list o) ∪ seen) _ _ El) as [Hp Hu].
    + by destruct Hc2.
    + cbn. lia.
    + cbn in Hp. split; [lia|]. rewrite Hu, serials_app. f_equal. f_equal. set_solver.
  - destruct o as [f|]; [change (zlen (option_list (Some f))) with 1 in Hm; lia|].
    change (zlen (option_list (@None PushedFrame))) with 0 in *.
    destruct (IH seen _ _ El) as [Hp Hu].
    + destruct Hc as [H1 H2 H3 H4 H5 H6 H7]. destruct (push_latest_spec (bn_pump b1) fps (bt_push t)) as [Hl Hf].
      rewrite Ep in Hl, Hf. cbn [fst snd] in Hl, Hf. unfold push_latest_with in Ep. rewrite Hf in Ep.
      injection Ep as <-. by split.
    + cbn. lia.
    + cbn in Hp. split; [lia|]. by rewrite Hu.
Qed.
Lemma count_push_next o b : bn_next (count_push o b) = bn_next b.
Proof. by destruct o. Qed.
(** The loop pushes at most once an interval. *)
Lemma bench_loop_paced fps deadline turns b ps r :
  bench_loop fps deadline turns b = Some (ps, r) -> Forall (fun t => 0 <= bt_extra t) turns ->
  ps = [] \/ bn_next b + (zlen ps - 1) * frame_interval fps < deadline.
Proof.
  assert (0 <= frame_interval fps) as Hi by (apply Z.div_pos; lia).
  revert b ps. induction turns as [|t turns IH]; intros b ps He Hx; [done|]. cbn [bench_loop] in He.
  apply Forall_cons in Hx as [Ht Hx].
  destruct (deadline <=? bt_check t); [injection He as <- _; by left|].
  set (b1 := bench_set_pump _ b) in *. destruct (deadline <=? bt_after t b1) eqn:Ea; [injection He as <- _; by left|].
  unfold bt_after in Ea. change (bn_next b1) with (bn_next b) in Ea. bools.
  destruct (push_latest_with _ _ _) as [[p pushed] [o|e]]; [|injection He as <- _; by left].
  assert (bn_next b + (zlen (option_list o) - 1) * frame_interval fps < deadline) as H1.
  { destruct o as [f|]; [change (zlen (option_list (Some f))) with 1|
      change (zlen (option_list (@None PushedFrame))) with 0]; nia. }
  destruct (last_failure _ _); [injection He as <- _; by right|].
  destruct (bench_loop fps deadline turns _) as [[qs r']|] eqn:El; [|done]. injection He as <- ->.
  destruct (IH _ _ El Hx) as [->|Hq]; [rewrite app_nil_r; by right|].
  right. cbn [bn_next bench_set_next] in Hq. rewrite count_push_next in Hq. cbn in Hq. rewrite zlen_app.
  change (bn_next b1) with (bn_next b) in Hq.
  destruct o as [f|]; [change (zlen (option_list (Some f))) with 1|
    change (zlen (option_list (@None PushedFrame))) with 0]; nia.
Qed.

Lemma bench_first_pump deadline turns p p' :
  bench_first deadline turns p = Some (Ok p') -> 0 <= pu_serial p ->
  pu_serial p + zsum (fun t => zlen (bf_samples t)) turns <= u64_max ->
  (forall f, pu_latest p = Some f -> cf_serial f <= pu_serial p) ->
  0 <= pu_serial p' <= pu_serial p + zsum (fun t => zlen (bf_samples t)) turns /\
  (forall f, pu_latest p' = Some f -> cf_serial f <= pu_serial p').
Proof.
  revert p. induction turns as [|t turns IH]; intros p He H0 Hm Hl; [done|]. cbn [bench_first] in He.
  rewrite zsum_cons in *. pose proof (zlen_nonneg (bf_samples t)).
  assert (0 <= zsum (fun t => zlen (bf_samples t)) turns) by (apply zsum_nonneg; intros x _; apply zlen_nonneg).
  destruct (samples_serial (bf_samples t) p) as (Hs & Hf & _); [done|lia|done|].
  rewrite <- Hs in Hf. destruct (option_is_some _).
  - injection He as <-. split; [lia|done].
  - destruct (first_failure _ _); [done|]. destruct (deadline <=? bf_now t); [done|].
    destruct (IH _ He) as [Hb Hl']; [lia|lia|done|]. split; [lia|done].
Qed.
Lemma benchmark_checks_seconds a u : benchmark_checks a = Ok u -> 1 <= ba_seconds a <= 610.
Proof.
  unfold benchmark_checks, reject_if, in_range.
  repeat match goal with |- context [if ?c then Err _ else Ok tt] => destruct c eqn:?; cbn [mbind result_bind]; [done|] end.
  intros _. bools. lia.
Qed.
Lemma frame_interval_fast fps : 1 <= fps <= 30 -> 33333333 <= frame_interval fps.
Proof. intros H. unfold frame_interval. apply Z.div_le_lower_bound; nia. Qed.
(** The benchmark's report is what happened: its pushes are counted one by one, the
    unique ones are the different captured frames among them, the loop never pushed
    faster than the profile's rate, whose rate is at most the one asked for, and a
    report exists only when the pipeline was stopped. *)
Theorem benchmark_counts_exact g host a ps r :
  benchmark g host a = Some (ps, Ok r) ->
  Forall (fun t => 0 <= bt_extra t) (bh_turns host) -> bh_start host <= bh_next host ->
  zsum (fun t => zlen (bf_samples t)) (bh_first host) + taken (bh_turns host) <= u64_max ->
  let fps := vp_fps (br_effective r) in
  1 <= fps <= Z.min (ba_fps a) 30 /\
  br_source_pushes r = zlen ps /\
  br_unique_pushed_source_frames r = Z.of_nat (size (serials ps)) /\
  (zlen ps - 1) * frame_interval fps < ba_seconds a * 1000000000 /\
  bh_stopped host = Ok tt /\ br_stopped_cleanly r = true.
Proof.
  unfold benchmark. intros He Hx Hn Hm.
  destruct (gs_init g); [|done]. cbn [mbind result_bind] in He.
  destruct (benchmark_checks a) eqn:Ec; [|done]. cbn [mbind result_bind] in He.
  apply benchmark_checks_seconds in Ec.
  destruct (build_capture_encode_pipeline _ _ _) as [[choice effective]|] eqn:Eb; [|done].
  apply build_capture_profile, encoder_profile_rate in Eb as (Hfps & _ & _). cbn in Hfps.
  assert (1 <= vp_fps effective <= 30) as Hfps0 by lia.
  unfold bench_outcome in He. destruct (_ ← bh_attach host; _); [|done].
  destruct (bench_first _ _ _) as [[p|e]|] eqn:Ef; [|done|done].
  destruct (bench_first_pump _ _ _ _ Ef) as [Hp Hl]; [done| |done|].
  { pose proof (taken_nonneg (bh_turns host)). cbn. lia. }
  destruct (bench_loop _ _ _ _) as [[qs [b|e]]|] eqn:El; [|done|done].
  destruct (first_failure _ (bh_drain host)); [done|]. cbn [mbind result_bind] in He.
  destruct (bh_stopped host) as [[]|]; [|done]. cbn [mbind result_bind] in He. injection He as <- <-.
  cbn [br_effective br_source_pushes br_unique_pushed_source_frames br_stopped_cleanly stopped_cleanly].
  assert ((zlen qs - 1) * frame_interval (vp_fps effective) < ba_seconds a * 1000000000) as Hpace.
  { pose proof (frame_interval_fast _ Hfps0).
    destruct (bench_loop_paced _ _ _ _ _ _ El Hx) as [->|Hq]; [rewrite zlen_nil; lia|cbn in Hq; lia]. }
  destruct (bench_loop_counts _ _ _ ∅ _ _ _ El) as [H1 H2].
  - cbn in Hp. split; cbn; try done; lia.
  - pose proof (frame_interval_fast _ Hfps0). cbn. unfold u64_max. nia.
  - cbn in H1. rewrite union_empty_r_L in H2. split; [lia|]. done.
Qed.

Definition sample_bench_args : BenchArgs :=
  {| ba_handle := 9; ba_width := 1280; ba_height := 720; ba_fps := 10; ba_bitrate_kbps := 2500;
     ba_seconds := 1 |}.
Definition sample_bench_turn (now : Z) (ms : list Z) : BenchTurn :=
  {| bt_check := now; bt_samples := ms; bt_now := now; bt_extra := 1000; bt_push := PushOk;
     bt_messages := [BusOther]; bt_end := now |}.
(** Two frames captured, three pushes, then the second is over. *)
Definition sample_bench_host : BenchHost :=
  {| bh_attach := Ok tt; bh_parser := true; bh_pad := true; bh_bus := true; bh_playing := Ok tt;
     bh_first := [{| bf_samples := []; bf_messages := []; bf_now := 0 |};
                  {| bf_samples := [40]; bf_messages := []; bf_now := 25000000 |}];
     bh_first_now := 0; bh_start := 30000000; bh_next := 30000000;
     bh_turns := [sample_bench_turn 30000000 []; sample_bench_turn 30000000 [];
                  sample_bench_turn 130000000 [200]; sample_bench_turn 1030000000 []];
     bh_drain := []; bh_elapsed_ms := 1100; bh_encoded := 3; bh_stopped := Ok tt |}.
Definition sample_bench_gst : Gst :=
  {| gs_init := Ok tt; gs_version := "1.26"; gs_find := fun _ => true; gs_make_rtc := Ok tt;
     gs_bin := fun _ _ => Ok tt; gs_add := fun _ => Ok tt; gs_sink_pad := true; gs_src_pad := true;
     gs_link := Ok tt; gs_aware := fun _ => Some false |}.
Example benchmark_runs :
  match benchmark sample_bench_gst sample_bench_host sample_bench_args with
  | Some (ps, Ok r) =>
    zlen ps = 3 /\ br_source_pushes r = 3 /\ br_unique_pushed_source_frames r = 2 /\
    br_encoder r = EncSoftwareViewOnlySlow /\ vp_fps (br_effective r) = 5
  | _ => False
  end.
Proof. vm_compute. done. Qed.
Lemma fixture_returns_witness :
  let conf := {| fc_choice := EncHardware; fc_fps := 5; fc_deadline := 8000000000 |} in
  let turn k := FiMain {| ft_now := Z.of_nat k * PROBE_POLL; ft_errors := []; ft_push := PushOk;
                          ft_millis := 0; ft_stopped := true |} in
  exists r, fx_pc (fx_run conf (map turn (seq 0 330)) fixture_new) = FxDone r.
Proof.
  intros conf turn. apply (fixture_returns conf 0 (map turn (seq 0 330))).
  - reflexivity.
  - vm_compute. repeat (split; [discriminate|]). exact I.
  - vm_compute. discriminate.
Defined.
Lemma benchmark_counts_exact_witness :
  match benchmark sample_bench_gst sample_bench_host sample_bench_args with
  | Some (ps, Ok r) =>
    let fps := vp_fps (br_effective r) in
    1 <= fps <= Z.min 10 30 /\ br_source_pushes r = zlen ps /\
    br_unique_pushed_source_frames r = Z.of_nat (size (serials ps)) /\
    (zlen ps - 1) * frame_interval fps < 1 * 1000000000 /\
    bh_stopped sample_bench_host = Ok tt /\ br_stopped_cleanly r = true
  | _ => False
  end.
Proof.
  destruct (benchmark _ _ _) as [[ps [r|e]]|] eqn:E; [|by vm_compute in E..].
  apply (benchmark_counts_exact sample_bench_gst sample_bench_host sample_bench_args ps r).
  - exact E.
  - by repeat constructor.
  - done.
  - by vm_compute.
Defined.
