(* ===== verification/MediaHelper.v ===== *)
(** * The media helper ([crates/rc-media/src])
    The process that captures the shared screen, encodes it and talks WebRTC: the
    threads around the loop of [run] ([native.rs]) over the parts of [MediaPipe].
    GStreamer is third-party code: its callbacks arrive in
    any order and with any contents, and its answers are arguments. *)
From Stdlib Require Import String.
From S2P Require Import Prelude Errors Text Float Geometry MediaWire MediaPipe.
#[global] Open Scope Z_scope.

(** ** The threads *)
Record Bus := {
  bu_pending : FreshProofMap;
  bu_events : list HelperOut;       (* the channel to the loop, of 64 *)
  bu_inputs : list HelperIn;        (* the commands read, of 32 *)
  bu_reading : bool;                (* the reader thread runs *)
  bu_stop : bool;
  bu_negotiating : bool;
  bu_offering : bool                (* an offer was asked for *)
}.
Definition bus_new : Bus :=
  {| bu_pending := []; bu_events := []; bu_inputs := []; bu_reading := true; bu_stop := false;
     bu_negotiating := false; bu_offering := false |}.
Definition set_proofs (l : FreshProofMap) (b : Bus) : Bus :=
  {| bu_pending := l; bu_events := bu_events b; bu_inputs := bu_inputs b; bu_reading := bu_reading b;
     bu_stop := bu_stop b; bu_negotiating := bu_negotiating b; bu_offering := bu_offering b |}.
Definition set_events (l : list HelperOut) (b : Bus) : Bus :=
  {| bu_pending := bu_pending b; bu_events := l; bu_inputs := bu_inputs b; bu_reading := bu_reading b;
     bu_stop := bu_stop b; bu_negotiating := bu_negotiating b; bu_offering := bu_offering b |}.
Definition set_inputs (l : list HelperIn) (b : Bus) : Bus :=
  {| bu_pending := bu_pending b; bu_events := bu_events b; bu_inputs := l; bu_reading := bu_reading b;
     bu_stop := bu_stop b; bu_negotiating := bu_negotiating b; bu_offering := bu_offering b |}.
Definition stop_bus (b : Bus) : Bus :=
  {| bu_pending := bu_pending b; bu_events := bu_events b; bu_inputs := bu_inputs b;
     bu_reading := bu_reading b; bu_stop := true; bu_negotiating := bu_negotiating b;
     bu_offering := bu_offering b |}.
(** The reader leaves its loop. *)
Definition stop_reading (b : Bus) : Bus :=
  {| bu_pending := bu_pending b; bu_events := bu_events b; bu_inputs := bu_inputs b;
     bu_reading := false; bu_stop := true; bu_negotiating := bu_negotiating b;
     bu_offering := bu_offering b |}.
Definition set_offering (negotiating offering : bool) (b : Bus) : Bus :=
  {| bu_pending := bu_pending b; bu_events := bu_events b; bu_inputs := bu_inputs b;
     bu_reading := bu_reading b; bu_stop := bu_stop b; bu_negotiating := negotiating;
     bu_offering := offering |}.
Definition EVENTS_CAP : Z := 64.
Definition INPUTS_CAP : Z := 32.
Definition send_event (e : HelperOut) (b : Bus) : Bus :=
  if zlen (bu_events b) <? EVENTS_CAP then set_events (bu_events b ++ [e]) b else stop_bus b.

(** The encoded buffer's probe. *)
Definition encoded_probe (pts : option Z) (b : Bus) : Bus :=
  match pts with
  | None => b
  | Some pts =>
    match proof_take pts (bu_pending b) with
    | (Some proof, rest) =>
      send_event (HoFrame (dec (fp_serial proof)) (fp_captured_at_ms proof)) (set_proofs rest b)
    | (None, rest) => set_proofs rest b
    end
  end.
(** The two halves of [on-negotiation-needed]; [offer] is the promise's text. *)
Definition on_negotiation (element : bool) (b : Bus) : Bus :=
  if bu_negotiating b then b
  else if element then set_offering true true b else stop_bus (set_offering true false b).
Definition on_offer (offer : option bytes) (b : Bus) : Bus :=
  if negb (bu_offering b) then b else
  let b := set_offering (bu_negotiating b) false b in
  match match offer with Some sdp => sanitize_sdp sdp | None => Err "No SDP offer"%string end with
  | Ok text => send_event (HoOffer text) b
  | Err _ => stop_bus (send_event (HoError "OFFER_FAILED") b)
  end.
Definition on_ice_candidate (ip : bytes) (mline : Z) (candidate : bytes) (b : Bus) : Bus :=
  if (mline =? 0) && candidate_allowed candidate (Some ip)
  then send_event (HoIce candidate mline) b else b.
(** The reader thread with a line of standard input; the send waits for room. *)
Definition read_input (m : option HelperIn) (b : Bus) : Bus :=
  if negb (bu_reading b) then b else
  match m with
  | None => stop_reading b
  | Some m =>
    if INPUTS_CAP <=? zlen (bu_inputs b) then b else
    let b := set_inputs (bu_inputs b ++ [m]) b in
    match m with HiStop => stop_reading b | _ => b end
  end.

(** ** The loop of [run] *)
Record Conf := {
  co_init : MediaInit;
  co_choice : EncoderChoice;
  co_profile : VideoProfile;
  co_started_tick : Z
}.
Record MainState := {
  mn_policy : AdaptivePolicy;
  mn_target : AdaptiveTarget;
  mn_bitrate : option Z;            (* the encoder's property, once it is set *)
  mn_last_source_serial : Z;
  mn_last_enqueued_serial : Z;
  mn_last_source_tick : option Z;
  mn_next_push : Z;
  mn_last_status : Z;
  mn_answer_seen : bool
}.
(** Where the loop is, between two accesses to what the threads share. *)
Inductive HelperPc : Type := PcSelect | PcPush | PcStatus (now : Z) | PcDone (r : sres unit).
Record Helper := {
  hp_pump : SourcePump;
  hp_bus : Bus;
  hp_main : MainState;
  hp_out : list HelperOut;          (* the lines written *)
  hp_pc : HelperPc
}.
Definition set_bus (b : Bus) (h : Helper) : Helper :=
  {| hp_pump := hp_pump h; hp_bus := b; hp_main := hp_main h; hp_out := hp_out h; hp_pc := hp_pc h |}.
Definition set_main (m : MainState) (h : Helper) : Helper :=
  {| hp_pump := hp_pump h; hp_bus := hp_bus h; hp_main := m; hp_out := hp_out h; hp_pc := hp_pc h |}.
Definition set_pump (p : SourcePump) (h : Helper) : Helper :=
  {| hp_pump := p; hp_bus := hp_bus h; hp_main := hp_main h; hp_out := hp_out h; hp_pc := hp_pc h |}.
Definition go (pc : HelperPc) (h : Helper) : Helper :=
  {| hp_pump := hp_pump h; hp_bus := hp_bus h; hp_main := hp_main h; hp_out := hp_out h; hp_pc := pc |}.
Definition fail (e : string) (h : Helper) : Helper := go (PcDone (Err e)) h.

Inductive Selected : Type := SelEvent | SelInput | SelTimeout.
(** One pass through the loop: what [select!] picks, the clocks, and what
    GStreamer and standard output answer. *)
Record Turn := {
  tn_select : Selected;
  tn_sdp_parses : bool;
  tn_now : Z;                       (* [Instant::now()] *)
  tn_elapsed_ms : Z;                (* [started.elapsed()] *)
  tn_has_bitrate : bool;
  tn_push : PushAnswer;
  tn_status_due : Z;                (* [last_status.elapsed()]'s reading of the clock *)
  tn_tick : Z;                      (* [monotonic_millis()] *)
  tn_written : bool;
  tn_stopped : sres unit            (* [set_state(Null)] *)
}.

Section Helper.
Context (to_vec : HelperOut -> option bytes).   (* serde_json::to_vec *)
Context (conf : Conf).

Definition write_event (e : HelperOut) (written : bool) : sres unit :=
  match to_vec e with
  | None => Err "serde"%string
  | Some bytes =>
    if MAX_SIGNAL - 1 <? zlen bytes then Err "Oversized signaling output"%string
    else if written then Ok tt else Err "write"%string
  end.
(** [write_event(&mut output, &e)?], then [next] *)
Definition emit_event (e : HelperOut) (t : Turn) (h : Helper) (next : HelperPc) : Helper :=
  match write_event e (tn_written t) with
  | Err err => fail err h
  | Ok _ => {| hp_pump := hp_pump h; hp_bus := hp_bus h; hp_main := hp_main h;
               hp_out := hp_out h ++ [e]; hp_pc := next |}
  end.
(** After the loop. *)
Definition finish (t : Turn) (h : Helper) : Helper :=
  match tn_stopped t with
  | Err e => fail e h
  | Ok _ => emit_event HoStopped t h (PcDone (Ok tt))
  end.

Definition set_answer_seen (m : MainState) : MainState :=
  {| mn_policy := mn_policy m; mn_target := mn_target m; mn_bitrate := mn_bitrate m;
     mn_last_source_serial := mn_last_source_serial m;
     mn_last_enqueued_serial := mn_last_enqueued_serial m;
     mn_last_source_tick := mn_last_source_tick m; mn_next_push := mn_next_push m;
     mn_last_status := mn_last_status m; mn_answer_seen := true |}.
(** A command of the agent. *)
Definition on_command (m : HelperIn) (t : Turn) (h : Helper) : Helper :=
  match m with
  | HiAnswer answer =>
    if mn_answer_seen (hp_main h) then fail "Renegotiation is not supported in this stream" h else
    match sanitize_sdp answer with
    | Err e => fail e h
    | Ok _ =>
      if tn_sdp_parses t then go PcPush (set_main (set_answer_seen (hp_main h)) h)
      else fail "sdp" h
    end
  | HiIce candidate mline =>
    if negb (mline =? 0) || negb (candidate_allowed candidate None)
    then fail "ICE candidate rejected" h else go PcPush h
  | HiStop => finish t h
  | HiInit _ => fail "Duplicate init" h
  end.
(** The head of the loop and its [select!].  An empty channel is not picked,
    unless its sender is gone. *)
Definition main_select (t : Turn) (h : Helper) : Helper :=
  let b := hp_bus h in
  if bu_stop b then finish t h else
  match tn_select t with
  | SelEvent =>
    match bu_events b with
    | e :: rest => emit_event e t (set_bus (set_events rest b) h) PcPush
    | [] => h
    end
  | SelInput =>
    match bu_inputs b with
    | m :: rest => on_command m t (set_bus (set_inputs rest b) h)
    | [] => if bu_reading b then h else finish t h
    end
  | SelTimeout => go PcPush h
  end.

Definition set_target (target : AdaptiveTarget) (bitrate : option Z) (m : MainState) : MainState :=
  {| mn_policy := mn_policy m; mn_target := target; mn_bitrate := bitrate;
     mn_last_source_serial := mn_last_source_serial m;
     mn_last_enqueued_serial := mn_last_enqueued_serial m;
     mn_last_source_tick := mn_last_source_tick m; mn_next_push := mn_next_push m;
     mn_last_status := mn_last_status m; mn_answer_seen := mn_answer_seen m |}.
Definition update_rate (t : Turn) (m : MainState) : MainState :=
  let next_target := policy_target (mn_policy m) (Z.min (tn_elapsed_ms t) u64_max) in
  if bool_decide (next_target = mn_target m) then m else
  set_target next_target
    (if tn_has_bitrate t then Some (encoder_bitrate (co_choice conf) (tg_bitrate_kbps next_target))
     else mn_bitrate m) m.
(** The source frame was pushed. *)
Definition pushed_frame (frame : PushedFrame) (m : MainState) : MainState :=
  if mn_last_source_serial m <? pf_serial frame then
    {| mn_policy := observe_source (mn_policy m)
         (saturating_sub (pf_captured_at_ms frame) (co_started_tick conf));
       mn_target := mn_target m; mn_bitrate := mn_bitrate m;
       mn_last_source_serial := pf_serial frame; mn_last_enqueued_serial := pf_serial frame;
       mn_last_source_tick := Some (pf_captured_at_ms frame); mn_next_push := mn_next_push m;
       mn_last_status := mn_last_status m; mn_answer_seen := mn_answer_seen m |}
  else m.
Definition set_next_push (at_ : Z) (m : MainState) : MainState :=
  {| mn_policy := mn_policy m; mn_target := mn_target m; mn_bitrate := mn_bitrate m;
     mn_last_source_serial := mn_last_source_serial m;
     mn_last_enqueued_serial := mn_last_enqueued_serial m;
     mn_last_source_tick := mn_last_source_tick m; mn_next_push := at_;
     mn_last_status := mn_last_status m; mn_answer_seen := mn_answer_seen m |}.
(** The callback of the push: only a source frame that was not enqueued before
    gets a proof. *)
Definition before_push (last_enqueued : Z) (frame : PushedFrame) (b : Bus) : Bus :=
  if last_enqueued <? pf_serial frame then
    set_proofs (proof_insert (pf_pts_ns frame)
      {| fp_serial := pf_serial frame; fp_captured_at_ms := pf_captured_at_ms frame |}
      (bu_pending b)) b
  else b.
Definition main_push (t : Turn) (h : Helper) : Helper :=
  let m := update_rate t (hp_main h) in
  let now := tn_now t in
  if mn_next_push m <=? now then
    let '(pump, called, r) := push_latest_with (hp_pump h) (tg_fps (mn_target m)) (tn_push t) in
    let h := set_pump pump h in
    let h := match called with
             | Some frame => set_bus (before_push (mn_last_enqueued_serial m) frame (hp_bus h)) h
             | None => h
             end in
    match r with
    | Err e => fail e (set_main m h)
    | Ok pushed =>
      let m := match pushed with Some frame => pushed_frame frame m | None => m end in
      go (PcStatus now) (set_main (set_next_push (now + frame_interval (tg_fps (mn_target m))) m) h)
    end
  else go (PcStatus now) (set_main m h).

Definition capture_state_at (last_source_tick : option Z) (now_tick : Z) : CaptureState :=
  match last_source_tick with
  | None => Starting
  | Some at_ => if (at_ <=? now_tick) && (now_tick - at_ <=? 500) then Live else MinimizedOrStalled
  end.
Definition status (m : MainState) (capture_state : CaptureState) (control_allowed : bool) : HelperOut :=
  HoStatus (encoder_mode (co_choice conf)) capture_state (tg_fps (mn_target m))
    (tg_bitrate_kbps (mn_target m)) (tg_adaptive_idle (mn_target m)) control_allowed
    (negb (bool_decide (capture_state = Live))).
Definition set_last_status (at_ : Z) (m : MainState) : MainState :=
  {| mn_policy := mn_policy m; mn_target := mn_target m; mn_bitrate := mn_bitrate m;
     mn_last_source_serial := mn_last_source_serial m;
     mn_last_enqueued_serial := mn_last_enqueued_serial m;
     mn_last_source_tick := mn_last_source_tick m; mn_next_push := mn_next_push m;
     mn_last_status := at_; mn_answer_seen := mn_answer_seen m |}.
Definition main_status (now : Z) (t : Turn) (h : Helper) : Helper :=
  let m := hp_main h in
  if 100000000 <=? tn_status_due t - mn_last_status m then
    let cs := capture_state_at (mn_last_source_tick m) (tn_tick t) in
    let h := set_main (set_last_status now m) h in
    emit_event (status m cs
      (encoder_control_allowed (co_choice conf) && bool_decide (cs = Live))) t h PcSelect
  else go PcSelect h.
Definition main_step (t : Turn) (h : Helper) : Helper :=
  match hp_pc h with
  | PcSelect => main_select t h
  | PcPush => main_push t h
  | PcStatus now => main_status now t h
  | PcDone _ => h
  end.

(** The threads and callbacks beside the loop. *)
Inductive Input : Type :=
| InSample (buffer : bool) (ms : Z)
| InEncoded (pts : option Z)
| InNegotiation (element : bool)
| InOffer (offer : option bytes)
| InIceCandidate (mline : Z) (candidate : bytes)
| InPipelineError
| InEos
| InLine (m : option HelperIn)
| InTurn (t : Turn).
Definition helper_step (h : Helper) (i : Input) : Helper :=
  match i with
  | InSample buffer ms => if buffer then set_pump (new_sample (hp_pump h) ms) h else h
  | InEncoded pts => set_bus (encoded_probe pts (hp_bus h)) h
  | InNegotiation element => set_bus (on_negotiation element (hp_bus h)) h
  | InOffer offer => set_bus (on_offer offer (hp_bus h)) h
  | InIceCandidate mline candidate =>
    set_bus (on_ice_candidate (mi_tailnet_ip (co_init conf)) mline candidate (hp_bus h)) h
  | InPipelineError =>
    set_bus (stop_bus (send_event (HoError "NATIVE_PIPELINE_FAILED") (hp_bus h))) h
  | InEos => set_bus (stop_bus (hp_bus h)) h
  | InLine m => set_bus (read_input m (hp_bus h)) h
  | InTurn t => main_step t h
  end.
Definition helper_run (h : Helper) (l : list Input) : Helper := foldl helper_step h l.

(** The state when the loop is entered at the instant [now]. *)
Definition helper_new (now : Z) : Helper :=
  let policy := policy_new (vp_fps (co_profile conf)) (vp_bitrate_kbps (co_profile conf)) 0 in
  let m := {| mn_policy := policy; mn_target := policy_target policy 0; mn_bitrate := None;
              mn_last_source_serial := 0; mn_last_enqueued_serial := 0;
              mn_last_source_tick := None; mn_next_push := now;
              mn_last_status := now - 1000000000; mn_answer_seen := false |} in
  {| hp_pump := pump_attach; hp_bus := bus_new; hp_main := m;
     hp_out := [HoReady 1; status m Starting false]; hp_pc := PcSelect |}.
End Helper.

(** ** Every reported frame is a captured one *)
(** The specification's view of a run: the captures in it, numbered from 1, with
    their times. *)
Definition sample_times (l : list Input) : list Z :=
  omap (fun i => match i with InSample true ms => Some ms | _ => None end) l.
Definition captured (l : list Input) : list (Z * Z) :=
  zip (map wrap64 (seqZ 1 (zlen (sample_times l)))) (sample_times l).
Definition frames (l : list HelperOut) : list (string * Z) :=
  omap (fun e => match e with HoFrame s at_ => Some (s, at_) | _ => None end) l.
Lemma frames_app a b : frames (a ++ b) = frames a ++ frames b.
Proof. apply omap_app. Qed.
Lemma captured_sample l ms :
  captured (l ++ [InSample true ms]) =
  captured l ++ [(wrap64 (zlen (sample_times l) + 1), ms)].
Proof.
  unfold captured. assert (sample_times (l ++ [InSample true ms]) = sample_times l ++ [ms]) as ->
    by (unfold sample_times; by rewrite omap_app).
  rewrite zlen_snoc. pose proof (zlen_nonneg (sample_times l)).
  rewrite seqZ_app, map_app by lia.
  replace (seqZ (1 + zlen (sample_times l)) 1) with [zlen (sample_times l) + 1]
    by (unfold seqZ; cbn; apply (f_equal (fun x => [x])); lia).
  rewrite zip_with_app; [done|]. rewrite length_map, length_seqZ. unfold zlen. lia.
Qed.
Lemma captured_other l i :
  (forall ms, i <> InSample true ms) ->
  captured (l ++ [i]) = captured l /\ sample_times (l ++ [i]) = sample_times l.
Proof.
  intros Hi. assert (sample_times (l ++ [i]) = sample_times l) as H; [|by unfold captured; rewrite H].
  unfold sample_times. rewrite omap_app. destruct i as [[] ms| | | | | | | |]; cbn; try apply app_nil_r.
  by destruct (Hi ms).
Qed.

(** The proofs of frames already reported, on their way, and still waiting for
    their buffer, in this order. *)
Definition frame_of (p : FreshProof) : string * Z := (dec (fp_serial p), fp_captured_at_ms p).
Definition tracked (h : Helper) (ps : list FreshProof) : Prop :=
  exists r1 r2, frames (hp_out h) = map frame_of r1 /\
    frames (bu_events (hp_bus h)) = map frame_of r2 /\
    ps = r1 ++ r2 ++ map snd (bu_pending (hp_bus h)).
(** Distinct captures, none after the serial [lim]. *)
Definition good (cap : list (Z * Z)) (lim : Z) (ps : list FreshProof) : Prop :=
  NoDup (map fp_serial ps) /\
  Forall (fun p => (fp_serial p, fp_captured_at_ms p) ∈ cap /\ fp_serial p <= lim) ps.
Lemma good_sub cap lim ps qs : ps ⊆+ qs -> good cap lim qs -> good cap lim ps.
Proof.
  intros [k Hk]%submseteq_Permutation [Hn Hf]. split.
  - rewrite (Permutation_map fp_serial Hk), map_app in Hn. by apply NoDup_app in Hn as (? & _).
  - rewrite Hk in Hf. by apply Forall_app in Hf as [? _].
Qed.
Lemma good_mono cap cap' lim lim' ps :
  (forall x, x ∈ cap -> x ∈ cap') -> lim <= lim' -> good cap lim ps -> good cap' lim' ps.
Proof.
  intros Hc Hl [Hn Hf]. split; [done|]. eapply Forall_impl; [exact Hf|]. intros p [H1 H2].
  split; [by apply Hc|lia].
Qed.
Lemma good_cons cap lim p ps :
  good cap lim ps -> (fp_serial p, fp_captured_at_ms p) ∈ cap -> lim < fp_serial p ->
  good cap (fp_serial p) (p :: ps).
Proof.
  intros Hg Hc Hl. destruct (good_mono cap cap lim (fp_serial p) _ (fun x H => H) ltac:(lia) Hg) as [Hn Hf].
  split; [|by constructor; [split|]]. cbn [map]. constructor; [|done].
  intros (q & Hq & Hin)%list_elem_of_fmap. destruct Hg as [_ Hg]. rewrite Forall_forall in Hg.
  destruct (Hg q Hin). lia.
Qed.

(** *** The map of proofs *)
Lemma bt_insert_perm {V} k (v : V) l : map snd (bt_insert k v l) ⊆+ v :: map snd l.
Proof.
  induction l as [|[k' v'] l IH]; [done|]. cbn [bt_insert]. destruct (k <? k'); [done|].
  destruct (k =? k'); cbn [map snd].
  - by apply submseteq_skip, submseteq_cons.
  - etrans; [by apply submseteq_skip|]. by rewrite Permutation_swap.
Qed.
Lemma proof_evict_sub l : map snd (proof_evict l) ⊆+ map snd l.
Proof.
  induction l as [|e l IH]; [done|]. cbn [proof_evict].
  destruct (MAX_PENDING_FRESH_PROOFS <=? _); [|done]. cbn [map]. by apply submseteq_cons.
Qed.
Lemma proof_insert_sub k p l : map snd (proof_insert k p l) ⊆+ p :: map snd l.
Proof. etrans; [apply bt_insert_perm|]. apply submseteq_skip, proof_evict_sub. Qed.
Lemma bt_remove_perm {V} k (l : list (Z * V)) v l' :
  bt_remove k l = (Some v, l') -> map snd l ≡ₚ v :: map snd l'.
Proof.
  revert l'. induction l as [|[k' v'] l IH]; intros l' He; [done|]. cbn [bt_remove] in He.
  destruct (k =? k'); [by simplify_eq|]. destruct (bt_remove k l) as [o r] eqn:E. simplify_eq.
  cbn [map snd]. rewrite (IH r eq_refl). apply Permutation_swap.
Qed.
Lemma bt_remove_none {V} k (l : list (Z * V)) l' : bt_remove k l = (None, l') -> l' = l.
Proof.
  revert l'. induction l as [|[k' v'] l IH]; intros l' He; cbn [bt_remove] in He; [by simplify_eq|].
  destruct (k =? k'); [done|]. destruct (bt_remove k l) as [o r] eqn:E. simplify_eq.
  by rewrite (IH r eq_refl).
Qed.

(** *** The invariant of a run *)
Section Runs.
Context (to_vec : HelperOut -> option bytes) (conf : Conf).

Definition done_pc (pc : HelperPc) : Prop := match pc with PcDone _ => True | _ => False end.
Record honest (l : list Input) (h : Helper) : Prop := {
  ho_serial : pu_serial (hp_pump h) = wrap64 (zlen (sample_times l));
  ho_latest : forall f, pu_latest (hp_pump h) = Some f ->
    (cf_serial f, cf_captured_at_ms f) ∈ captured l;
  ho_same : mn_last_enqueued_serial (hp_main h) = mn_last_source_serial (hp_main h);
  ho_tick : forall at_, mn_last_source_tick (hp_main h) = Some at_ ->
    (mn_last_source_serial (hp_main h), at_) ∈ captured l;
  ho_proofs : exists lim ps, tracked h ps /\ good (captured l) lim ps /\
    (done_pc (hp_pc h) \/ lim = mn_last_enqueued_serial (hp_main h))
}.
(** A step that touches neither the pump nor the loop's bookkeeping. *)
Definition quiet (h h' : Helper) : Prop :=
  hp_pump h' = hp_pump h /\
  mn_last_enqueued_serial (hp_main h') = mn_last_enqueued_serial (hp_main h) /\
  mn_last_source_serial (hp_main h') = mn_last_source_serial (hp_main h) /\
  mn_last_source_tick (hp_main h') = mn_last_source_tick (hp_main h) /\
  (done_pc (hp_pc h) -> done_pc (hp_pc h')).
(** What is tracked can only shrink or be reordered. *)
Definition tracks (h h' : Helper) : Prop :=
  forall ps, tracked h ps -> exists ps', tracked h' ps' /\ ps' ⊆+ ps.
Lemma honest_quiet l h h' : quiet h h' -> tracks h h' -> honest l h -> honest l h'.
Proof.
  intros (Hp & He & Hs & Ht & Hd) Htr [H1 H2 H3 H4 (lim & ps & Hps & Hg & Hl)].
  split; rewrite ?Hp, ?He, ?Hs, ?Ht; try done.
  destruct (Htr ps Hps) as (ps' & Hps' & Hsub). exists lim, ps'.
  split; [done|]. split; [by eapply good_sub|]. destruct Hl as [Hl|Hl]; [left; by apply Hd|by right].
Qed.
Lemma quiet_refl h : quiet h h.
Proof. by unfold quiet. Qed.
Lemma quiet_bus b h : quiet h (set_bus b h).
Proof. by unfold quiet. Qed.
Lemma quiet_trans a b c : quiet a b -> quiet b c -> quiet a c.
Proof. unfold quiet. intros (-> & -> & -> & -> & ?) (-> & -> & -> & -> & ?). split_and!; auto. Qed.
Lemma tracks_refl h : tracks h h.
Proof. intros ps Hp. by exists ps. Qed.
Lemma tracks_trans a b c : tracks a b -> tracks b c -> tracks a c.
Proof.
  intros Hab Hbc ps Hps. destruct (Hab ps Hps) as (q & Hq & H1). destruct (Hbc q Hq) as (r & Hr & H2).
  exists r. split; [done|by etrans].
Qed.
(** The queue loses or keeps reports, or gains none. *)
Lemma tracks_same h h' :
  hp_out h' = hp_out h -> bu_pending (hp_bus h') = bu_pending (hp_bus h) ->
  frames (bu_events (hp_bus h')) = frames (bu_events (hp_bus h)) -> tracks h h'.
Proof.
  intros H1 H2 H3 ps (r1 & r2 & Hr1 & Hr2 & ->). eexists. split; [|done]. exists r1, r2.
  by rewrite H1, H2, H3.
Qed.
Lemma send_event_frames e b :
  frames [e] = [] ->
  frames (bu_events (send_event e b)) = frames (bu_events b) /\
  bu_pending (send_event e b) = bu_pending b.
Proof.
  intros He. unfold send_event. destruct (_ <? _); [|done]. cbn [set_events bu_events bu_pending].
  by rewrite frames_app, He, app_nil_r.
Qed.
Lemma encoded_tracks pts h : tracks h (set_bus (encoded_probe pts (hp_bus h)) h).
Proof.
  intros ps (r1 & r2 & Hr1 & Hr2 & ->). unfold encoded_probe, proof_take.
  destruct pts as [pts|]; [|eexists; split; [by exists r1, r2|done]].
  destruct (bt_remove pts (bu_pending (hp_bus h))) as [[p|] rest] eqn:E.
  - apply bt_remove_perm in E. unfold send_event. cbn [bu_events set_proofs].
    destruct (_ <? _).
    + eexists. split; [exists r1, (r2 ++ [p]); cbn; rewrite frames_app, Hr2, map_app; by split|].
      rewrite E. by rewrite <- app_assoc.
    + eexists. split; [exists r1, r2; by cbn|]. rewrite E.
      apply submseteq_skips_l, submseteq_skips_l. by apply submseteq_cons.
  - apply bt_remove_none in E. subst rest. eexists. split; [by exists r1, r2|done].
Qed.
Lemma callback_honest l h i :
  (forall ms, i <> InSample true ms) -> (forall t, i <> InTurn t) ->
  honest l h -> honest l (helper_step to_vec conf h i).
Proof.
  intros H1 H2 Hh. destruct i as [[] ms|pts|el|offer|ml c| | |m|t]; cbn [helper_step];
    try (by destruct (H1 ms)); try (by destruct (H2 t)); try done;
    (eapply honest_quiet; [apply quiet_bus| |exact Hh]); [apply encoded_tracks|..];
    apply tracks_same; try done; cbn [hp_bus set_bus].
  all: unfold on_negotiation, on_offer, on_ice_candidate, read_input;
    repeat case_match; try done; cbn [bu_events bu_pending stop_bus set_offering];
    match goal with |- context [send_event ?e ?b] =>
      first [by rewrite (proj1 (send_event_frames e b eq_refl))
            |by rewrite (proj2 (send_event_frames e b eq_refl))] end.
Qed.

(** *** The loop *)
Definition moves (h h' : Helper) : Prop := quiet h h' /\ tracks h h'.
Lemma moves_honest l h h' : moves h h' -> honest l h -> honest l h'.
Proof. intros [Hq Ht]. by apply honest_quiet. Qed.
Lemma moves_trans a b c : moves a b -> moves b c -> moves a c.
Proof. intros [? ?] [? ?]. split; [by eapply quiet_trans|by eapply tracks_trans]. Qed.
Lemma go_moves pc h : ~ done_pc (hp_pc h) -> moves h (go pc h).
Proof. intros Hd. split; [|by apply tracks_same]. unfold quiet. split_and!; try done. Qed.
Lemma fail_moves e h : moves h (fail e h).
Proof. split; [|by apply tracks_same]. unfold quiet. by split_and!. Qed.
Lemma emit_event_moves e t h next :
  frames [e] = [] -> ~ done_pc (hp_pc h) -> moves h (emit_event to_vec e t h next).
Proof.
  intros He Hd. unfold emit_event. destruct (write_event _ _ _); [|apply fail_moves].
  split; [unfold quiet; split_and!; done|].
  intros ps (r1 & r2 & Hr1 & Hr2 & ->). eexists. split; [|done]. exists r1, r2.
  cbn. by rewrite frames_app, He, app_nil_r.
Qed.
Lemma finish_moves t h : ~ done_pc (hp_pc h) -> moves h (finish to_vec t h).
Proof.
  intros Hd. unfold finish. destruct (tn_stopped t); [|apply fail_moves]. by apply emit_event_moves.
Qed.
(** The first report of the queue is written, or lost with the process. *)
Lemma emit_head_moves e rest t h :
  ~ done_pc (hp_pc h) -> bu_events (hp_bus h) = e :: rest ->
  moves h (emit_event to_vec e t (set_bus (set_events rest (hp_bus h)) h) PcPush).
Proof.
  intros Hd He. unfold emit_event. destruct (write_event _ _ _); cbn.
  - split; [unfold quiet; split_and!; done|]. intros ps (r1 & r2 & Hr1 & Hr2 & ->).
    rewrite He in Hr2. change (e :: rest) with ([e] ++ rest) in Hr2. rewrite frames_app in Hr2.
    symmetry in Hr2. apply map_eq_app in Hr2 as (q1 & q2 & -> & Hq1 & Hq2).
    eexists. split; [|reflexivity]. exists (r1 ++ q1), q2. cbn.
    rewrite frames_app, Hr1, map_app, Hq1, <- !app_assoc. done.
  - split; [unfold quiet; split_and!; done|]. intros ps (r1 & r2 & Hr1 & Hr2 & ->).
    rewrite He in Hr2. change (e :: rest) with ([e] ++ rest) in Hr2. rewrite frames_app in Hr2.
    symmetry in Hr2. apply map_eq_app in Hr2 as (q1 & q2 & -> & Hq1 & Hq2).
    exists (r1 ++ q2 ++ map snd (bu_pending (hp_bus h))). split; [by exists r1, q2|].
    apply submseteq_skips_l. rewrite <- app_assoc. by apply submseteq_inserts_l.
Qed.
Lemma on_command_moves m t h : ~ done_pc (hp_pc h) -> moves h (on_command to_vec m t h).
Proof.
  intros Hd. destruct m as [c|a|c ml|]; cbn [on_command]; [apply fail_moves| | |by apply finish_moves].
  - destruct (mn_answer_seen _); [apply fail_moves|]. destruct (sanitize_sdp a); [|apply fail_moves].
    destruct (tn_sdp_parses t); [|apply fail_moves].
    split; [unfold quiet; split_and!; done|by apply tracks_same].
  - destruct (_ || _); [apply fail_moves|by apply go_moves].
Qed.
Lemma main_select_moves t h : ~ done_pc (hp_pc h) -> moves h (main_select to_vec t h).
Proof.
  intros Hd. unfold main_select. destruct (bu_stop _); [by apply finish_moves|].
  assert (moves h h) as Hr by (split; [apply quiet_refl|apply tracks_refl]).
  destruct (tn_select t).
  - destruct (bu_events (hp_bus h)) eqn:E; [done|by apply emit_head_moves].
  - destruct (bu_inputs (hp_bus h)) as [|m rest] eqn:E.
    + destruct (bu_reading _); [done|by apply finish_moves].
    + eapply (moves_trans _ (set_bus (set_inputs rest (hp_bus h)) h));
        [split; [apply quiet_bus|by apply tracks_same]|by apply on_command_moves].
  - by apply go_moves.
Qed.
Lemma update_rate_same t m :
  mn_last_enqueued_serial (update_rate conf t m) = mn_last_enqueued_serial m /\
  mn_last_source_serial (update_rate conf t m) = mn_last_source_serial m /\
  mn_last_source_tick (update_rate conf t m) = mn_last_source_tick m.
Proof. unfold update_rate. by case_bool_decide. Qed.
Lemma main_status_moves now t h :
  ~ done_pc (hp_pc h) -> moves h (main_status to_vec conf now t h).
Proof.
  intros Hd. unfold main_status. destruct (_ <=? _); [|by apply go_moves].
  eapply moves_trans; [|by apply emit_event_moves]. split; [unfold quiet; by split_and!|by apply tracks_same].
Qed.

(** The push. *)
Lemma before_push_tracked cap lim frame h ps :
  tracked h ps -> good cap lim ps -> (pf_serial frame, pf_captured_at_ms frame) ∈ cap ->
  exists ps', tracked (set_bus (before_push lim frame (hp_bus h)) h) ps' /\
    good cap (if lim <? pf_serial frame then pf_serial frame else lim) ps'.
Proof.
  intros (r1 & r2 & Hr1 & Hr2 & ->) Hg Hc. unfold before_push. destruct (Z.ltb_spec lim (pf_serial frame)).
  - eexists. split; [by exists r1, r2|]. set (p := {| fp_serial := pf_serial frame;
      fp_captured_at_ms := pf_captured_at_ms frame |}).
    eapply good_sub; [|exact (good_cons cap lim p _ Hg Hc ltac:(done))].
    cbn [set_bus hp_bus set_proofs bu_pending].
    etrans; [apply submseteq_skips_l, submseteq_skips_l, proof_insert_sub|].
    by rewrite !app_assoc, <- Permutation_middle.
  - eexists. split; [by exists r1, r2|done].
Qed.
Lemma main_push_honest l t h :
  ~ done_pc (hp_pc h) -> honest l h -> honest l (main_push conf t h).
Proof.
  intros Hd Hh. pose proof Hh as [H1 H2 H3 H4 (lim & ps & Hps & Hg & Hl)].
  destruct Hl as [?| ->]; [done|]. unfold main_push.
  destruct (update_rate_same t (hp_main h)) as (He & Hs & Ht). set (m := update_rate conf t (hp_main h)) in *.
  destruct (mn_next_push m <=? tn_now t); cycle 1.
  { split; cbn; rewrite ?He, ?Hs, ?Ht; try done.
    exists (mn_last_enqueued_serial (hp_main h)), ps. auto. }
  unfold push_latest_with. destruct (pu_latest (hp_pump h)) as [f|] eqn:El; cycle 1.
  { split; cbn; rewrite ?He, ?Hs, ?Ht, ?El; try done.
    exists (mn_last_enqueued_serial (hp_main h)), ps. auto. }
  set (frame := {| pf_pts_ns := _ |}). specialize (H2 f eq_refl).
  destruct (before_push_tracked (captured l) (mn_last_enqueued_serial (hp_main h)) frame h ps Hps Hg H2)
    as (ps' & Hps' & Hg').
  assert (mn_last_source_serial (hp_main h) = mn_last_enqueued_serial (hp_main h)) as Hsame by done.
  destruct (tn_push t).
  - unfold pushed_frame. rewrite Hs, He, Hsame. split; cbn.
    + done.
    + by intros f' [= <-].
    + destruct (_ <? _); cbn; by rewrite ?He, ?Hs.
    + destruct (_ <? _); cbn; [by intros ? [= <-]|]. rewrite Hs, Ht. exact H4.
    + eexists _, ps'. split; [exact Hps'|]. split; [exact Hg'|]. right.
      change (cf_serial f) with (pf_serial frame). destruct (_ <? _); cbn; by rewrite ?He.
  - split; cbn; rewrite ?He, ?Hs, ?Ht; try done; [by intros f' [= <-]|].
    exists (mn_last_enqueued_serial (hp_main h)), ps. split; [done|]. split; [done|]. by left.
  - split; cbn; rewrite ?He, ?Hs, ?Ht; try done; [by intros f' [= <-]|].
    eexists _, ps'. split; [exact Hps'|]. split; [exact Hg'|]. by left.
Qed.
Lemma sample_honest l ms h :
  honest l h -> honest (l ++ [InSample true ms]) (set_pump (new_sample (hp_pump h) ms) h).
Proof.
  intros [H1 H2 H3 H4 (lim & ps & Hps & Hg & Hl)].
  assert (forall x, x ∈ captured l -> x ∈ captured (l ++ [InSample true ms])) as Hc.
  { intros x Hx. rewrite captured_sample. apply elem_of_app. by left. }
  assert (wrap64 (pu_serial (hp_pump h) + 1) = wrap64 (zlen (sample_times l) + 1)) as Hserial.
  { rewrite H1. unfold wrap64. by rewrite Zplus_mod_idemp_l. }
  split; cbn [hp_pump hp_main set_pump new_sample pu_serial pu_latest]; rewrite ?Hserial.
  - unfold sample_times at 2. rewrite omap_app. cbn. by rewrite zlen_snoc.
  - intros f [= <-]. cbn. rewrite captured_sample. apply elem_of_app. right. by apply list_elem_of_singleton.
  - done.
  - intros at_ Hat. by apply Hc, H4.
  - exists lim, ps. split; [done|]. split; [|done]. by eapply good_mono; [exact Hc| |exact Hg].
Qed.
Lemma honest_other l i h :
  (forall ms, i <> InSample true ms) -> honest l h -> honest (l ++ [i]) h.
Proof.
  intros Hi [H1 H2 H3 H4 H5]. destruct (captured_other l i Hi) as [E1 E2].
  split; rewrite ?E1, ?E2; done.
Qed.
Lemma main_step_honest l t h : honest l h -> honest l (main_step to_vec conf t h).
Proof.
  intros Hh. unfold main_step. destruct (hp_pc h) as [| |now|r] eqn:E; [| | |done].
  - eapply moves_honest; [|exact Hh]. apply main_select_moves. rewrite E. by intros [].
  - apply main_push_honest; [|done]. rewrite E. by intros [].
  - eapply moves_honest; [|exact Hh]. apply main_status_moves. rewrite E. by intros [].
Qed.
Lemma helper_step_honest l h i :
  honest l h -> honest (l ++ [i]) (helper_step to_vec conf h i).
Proof.
  intros Hh. destruct i as [[] ms| | | | | | | |t] eqn:E; try (by apply sample_honest);
    (apply honest_other; [intros; discriminate|]); try (by apply main_step_honest);
    by apply (callback_honest l h).
Qed.
Lemma helper_new_honest now : honest [] (helper_new conf now).
Proof.
  split; try done. exists 0, []. split; [by exists [], []|]. split; [split; constructor|by right].
Qed.
Lemma helper_run_honest now l : honest l (helper_run to_vec conf (helper_new conf now) l).
Proof.
  induction l as [|i l IH] using rev_ind; [apply helper_new_honest|].
  unfold helper_run. rewrite foldl_app. by apply helper_step_honest.
Qed.
End Runs.

Lemma captured_nonneg l serial at_ : (serial, at_) ∈ captured l -> 0 <= serial.
Proof.
  unfold captured. intros H%list_elem_of_In%in_combine_l%list_elem_of_In.
  apply list_elem_of_fmap in H as (k & -> & _). unfold wrap64. by apply Z.mod_pos_bound.
Qed.
Lemma reported_nonneg l lim ps x :
  Forall (fun p => (fp_serial p, fp_captured_at_ms p) ∈ captured l /\ fp_serial p <= lim) ps ->
  x ∈ map fp_serial ps -> 0 <= x.
Proof.
  intros Hf (p & -> & Hp)%list_elem_of_fmap. rewrite Forall_forall in Hf.
  destruct (Hf p Hp) as [Hc _]. by eapply captured_nonneg.
Qed.
(** C40: no report of a frame is made up or repeated.  Whatever the encoder does
    with the buffers it is given - drops, repeats, reorders them, gives them any
    time stamp - and however its callbacks, the capture and the loop interleave,
    the frames the helper reports are frames that were captured, each with its own
    serial number and capture time, and none is reported twice.  (So a cached
    picture that is shown again is never taken for a fresh one.) *)
Theorem helper_frames_honest to_vec conf now l :
  let h := helper_run to_vec conf (helper_new conf now) l in
  NoDup (map fst (frames (hp_out h))) /\
  Forall (fun x => exists serial, x.1 = dec serial /\ (serial, x.2) ∈ captured l) (frames (hp_out h)).
Proof.
  intros h. destruct (helper_run_honest to_vec conf now l) as [_ _ _ _ (lim & ps & (r1 & r2 & Hr1 & _ & ->) & Hg & _)].
  fold h in Hr1. assert (good (captured l) lim r1) as [Hn Hf]
    by (eapply good_sub; [|exact Hg]; by apply submseteq_inserts_r).
  rewrite Hr1. split.
  - assert (map fst (map frame_of r1) = map dec (map fp_serial r1)) as -> by (by rewrite !map_map).
    apply NoDup_fmap_2_strong; [|done]. intros x y Hx Hy.
    apply dec_inj; by eapply reported_nonneg; [exact Hf|].
  - apply Forall_map. eapply Forall_impl; [exact Hf|]. intros p [Hc _]. by exists (fp_serial p).
Qed.

(** ** What else the helper says *)
Section Reports.
Context (to_vec : HelperOut -> option bytes) (conf : Conf).

(** At the turn that wrote the report a capture was at most 500 ms old. *)
Definition fresh (l : list Input) : Prop :=
  exists l1 t l2 serial at_, l = l1 ++ InTurn t :: l2 /\ (serial, at_) ∈ captured l1 /\
  at_ <= tn_tick t <= at_ + 500.
Definition rate_ok (fps bitrate : Z) (idle : bool) : Prop :=
  if idle then fps = Z.min (vp_fps (co_profile conf)) 3 /\
    bitrate = Z.max (vp_bitrate_kbps (co_profile conf) / 4) 256
  else fps = vp_fps (co_profile conf) /\ bitrate = vp_bitrate_kbps (co_profile conf).
Definition report_ok (l : list Input) (e : HelperOut) : Prop :=
  match e with
  | HoOffer sdp => exists text, sanitize_sdp text = Ok sdp
  | HoIce candidate mline =>
    mline = 0 /\ candidate_allowed candidate (Some (mi_tailnet_ip (co_init conf))) = true
  | HoStatus mode cs fps bitrate idle control awaiting =>
    mode = encoder_mode (co_choice conf) /\ awaiting = negb (bool_decide (cs = Live)) /\
    (control = true -> co_choice conf = EncHardware /\ cs = Live) /\
    (cs = Live -> fresh l) /\ rate_ok fps bitrate idle
  | HoReady protocol => protocol = 1
  | HoFrame _ _ | HoError _ | HoStopped => True
  end.
Lemma report_ok_snoc l i e : report_ok l e -> report_ok (l ++ [i]) e.
Proof.
  destruct e; try done. cbn. intros (H1 & H2 & H3 & H4 & H5). split_and!; try done.
  intros Hl. destruct (H4 Hl) as (l1 & t & l2 & s & a & -> & Hc & Ha).
  exists l1, t, (l2 ++ [i]), s, a. by rewrite <- app_assoc.
Qed.
Definition target_ok (m : MainState) : Prop :=
  ap_requested_fps (mn_policy m) = vp_fps (co_profile conf) /\
  ap_requested_bitrate_kbps (mn_policy m) = vp_bitrate_kbps (co_profile conf) /\
  rate_ok (tg_fps (mn_target m)) (tg_bitrate_kbps (mn_target m)) (tg_adaptive_idle (mn_target m)).
Record reports (l : list Input) (h : Helper) : Prop := {
  re_out : Forall (report_ok l) (hp_out h);
  re_events : Forall (report_ok l) (bu_events (hp_bus h));
  re_main : target_ok (hp_main h)
}.
Lemma reports_snoc l i h : reports l h -> reports (l ++ [i]) h.
Proof.
  intros [H1 H2 H3]. split; [| |done]; (eapply Forall_impl; [done|]); intros; by apply report_ok_snoc.
Qed.
Lemma policy_target_ok p now_ms :
  ap_requested_fps p = vp_fps (co_profile conf) ->
  ap_requested_bitrate_kbps p = vp_bitrate_kbps (co_profile conf) ->
  let t := policy_target p now_ms in rate_ok (tg_fps t) (tg_bitrate_kbps t) (tg_adaptive_idle t).
Proof. intros H1 H2. unfold policy_target. destruct (_ <? _); cbn; by rewrite H1, H2. Qed.
Lemma send_event_reports l e b :
  report_ok l e -> Forall (report_ok l) (bu_events b) -> Forall (report_ok l) (bu_events (send_event e b)).
Proof.
  intros He Hb. unfold send_event. destruct (_ <? _); [|done]. cbn.
  apply Forall_app. split; [done|by apply Forall_singleton].
Qed.
Lemma callback_reports l h i :
  (forall t, i <> InTurn t) -> reports l h -> reports l (helper_step to_vec conf h i).
Proof.
  intros H2 [Ho He Hm]. destruct i as [[] ms|pts|el|offer|ml c| | |m|t]; cbn [helper_step];
    try (by destruct (H2 t)); (split; [done| |done]); try done; cbn [hp_bus set_bus].
  - unfold encoded_probe, proof_take. destruct pts as [pts|]; [|done].
    destruct (bt_remove _ _) as [[p|] rest]; [by apply send_event_reports|done].
  - unfold on_negotiation. repeat case_match; done.
  - unfold on_offer. destruct (bu_offering _); [|done]. cbn [negb].
    destruct offer as [sdp|]; [destruct (sanitize_sdp sdp) eqn:E|];
      apply send_event_reports; try done. by exists sdp.
  - unfold on_ice_candidate. destruct ((ml =? 0) && _) eqn:E; [|done]. bools.
    by apply send_event_reports.
  - by apply send_event_reports.
  - unfold read_input. repeat case_match; done.
Qed.
Lemma emit_event_reports l e t h next :
  report_ok l e -> reports l h -> reports l (emit_event to_vec e t h next).
Proof.
  intros He [Ho Hb Hm]. unfold emit_event. destruct (write_event _ _ _); [|by split].
  split; [|done|done]. apply Forall_app. split; [done|by apply Forall_singleton].
Qed.
Lemma finish_reports l t h : reports l h -> reports l (finish to_vec t h).
Proof.
  intros Hh. unfold finish. destruct (tn_stopped t); [by apply emit_event_reports|by destruct Hh].
Qed.
Lemma main_select_reports l t h : reports l h -> reports l (main_select to_vec t h).
Proof.
  intros Hh. pose proof Hh as [Ho Hb Hm]. unfold main_select.
  destruct (bu_stop _); [by apply finish_reports|]. destruct (tn_select t); [| |by split].
  - destruct (bu_events (hp_bus h)) as [|e rest]; [done|]. apply Forall_cons in Hb as [He Hb].
    by apply emit_event_reports.
  - destruct (bu_inputs (hp_bus h)) as [|m rest]; [destruct (bu_reading _); [done|by apply finish_reports]|].
    assert (reports l (set_bus (set_inputs rest (hp_bus h)) h)) as Hset by done.
    destruct m; cbn [on_command]; try (by apply finish_reports); repeat case_match; by split.
Qed.
Lemma update_rate_ok t m : target_ok m -> target_ok (update_rate conf t m).
Proof.
  intros (H1 & H2 & H3). unfold update_rate. case_bool_decide; [done|].
  split; [done|]. split; [done|]. by apply policy_target_ok.
Qed.
Lemma main_push_reports l t h : reports l h -> reports l (main_push conf t h).
Proof.
  intros [Ho Hb Hm]. unfold main_push. pose proof (update_rate_ok t _ Hm) as Hm'.
  set (m := update_rate conf t (hp_main h)) in *.
  assert (forall f, target_ok (pushed_frame conf f m)) as Hf.
  { intros f. unfold pushed_frame. by destruct (_ <? _). }
  assert (forall lim f, bu_events (before_push lim f (hp_bus h)) = bu_events (hp_bus h)) as Hbp.
  { intros lim f. unfold before_push. by destruct (_ <? _). }
  destruct (_ <=? _); [|by split]. unfold push_latest_with.
  destruct (pu_latest _); [destruct (tn_push t)|]; split; cbn; rewrite ?Hbp; done || apply Hf.
Qed.
Lemma main_status_reports l now t h :
  honest l h -> reports l h -> reports (l ++ [InTurn t]) (main_status to_vec conf now t h).
Proof.
  intros Hh Hr. pose proof (reports_snoc _ (InTurn t) _ Hr) as [Ho Hb Hm]. unfold main_status.
  destruct (_ <=? _); [|by split]. apply emit_event_reports; [|by split].
  split; [done|]. split; [done|]. destruct Hm as (_ & _ & Hm). split.
  { intros [Hc Hl]%andb_true_iff. apply bool_decide_eq_true in Hl. split; [by destruct (co_choice conf)|done]. }
  split; [|done]. unfold capture_state_at. destruct (mn_last_source_tick (hp_main h)) as [at_|] eqn:E; [|done].
  destruct ((at_ <=? tn_tick t) && _) eqn:Ea; [|done]. bools. intros _.
  exists l, t, [], (mn_last_source_serial (hp_main h)), at_.
  split; [done|]. split; [by apply (ho_tick _ _ Hh)|]. lia.
Qed.
Lemma helper_run_reports now l : reports l (helper_run to_vec conf (helper_new conf now) l).
Proof.
  induction l as [|i l IH] using rev_ind.
  { assert (target_ok (hp_main (helper_new conf now))) as Hm.
    { split; [done|]. split; [done|]. by apply policy_target_ok. }
    split; [|constructor|exact Hm]. repeat constructor; done. }
  pose proof (helper_run_honest to_vec conf now l) as Hh. unfold helper_run in *. rewrite foldl_app.
  cbn [foldl]. set (h := foldl _ _ l) in *.
  assert ((exists t, i = InTurn t) \/ forall t, i <> InTurn t) as [[t ->]|Hi]
    by (destruct i; first [by right|left; by eexists]).
  - cbn [helper_step]. unfold main_step. destruct (hp_pc h); [| | |by apply reports_snoc].
    + by apply reports_snoc, main_select_reports.
    + by apply reports_snoc, main_push_reports.
    + by apply main_status_reports.
  - by apply reports_snoc, callback_reports.
Qed.
End Reports.

(** What the helper reports is justified.  Over a whole run, in every
    interleaving: it says that the capture is live, or that control is allowed,
    only in a turn in which some capture was at most 500 ms old, and control only
    with the hardware encoder; the rate it reports is the requested one, or the
    idle one (at most 3 frames a second, a quarter of the bit rate but at least
    256); an offer is the result of sanitizing; an ICE candidate is one the
    configured tailnet address allows. *)
Theorem helper_reports_justified to_vec conf now l :
  Forall (report_ok conf l) (hp_out (helper_run to_vec conf (helper_new conf now) l)).
Proof. apply helper_run_reports. Qed.

(** ** Bounds *)
Record bounded (b : Bus) : Prop := {
  bd_pending : zlen (bu_pending b) <= MAX_PENDING_FRESH_PROOFS;
  bd_events : zlen (bu_events b) <= EVENTS_CAP;
  bd_inputs : zlen (bu_inputs b) <= INPUTS_CAP
}.
Lemma bt_insert_len {V} k (v : V) l : zlen (bt_insert k v l) <= zlen l + 1.
Proof.
  induction l as [|[k' v'] l IH]; [done|]. cbn [bt_insert]. rewrite zlen_cons in *.
  destruct (k <? k'); [rewrite !zlen_cons; lia|]. destruct (k =? k'); rewrite ?zlen_cons; lia.
Qed.
Lemma proof_evict_len l : zlen (proof_evict l) <= MAX_PENDING_FRESH_PROOFS - 1.
Proof.
  induction l as [|e l IH]; [by vm_compute|]. cbn [proof_evict].
  destruct (Z.leb_spec MAX_PENDING_FRESH_PROOFS (zlen (e :: l))); [done|lia].
Qed.
Lemma bt_remove_len {V} k (l : list (Z * V)) o l' : bt_remove k l = (o, l') -> zlen l' <= zlen l.
Proof.
  destruct o as [v|].
  - intros H%bt_remove_perm%Permutation_length. unfold zlen. cbn in H. rewrite !length_map in H. lia.
  - by intros ->%bt_remove_none.
Qed.
Lemma send_event_bounded e b : bounded b -> bounded (send_event e b).
Proof.
  intros [H1 H2 H3]. unfold send_event.
  destruct (Z.ltb_spec (zlen (bu_events b)) EVENTS_CAP); [|by split].
  split; [done| |done]. cbn [set_events bu_events]. rewrite zlen_snoc. lia.
Qed.
Lemma callback_bounded to_vec conf h i :
  (forall t, i <> InTurn t) ->
  bounded (hp_bus h) -> bounded (hp_bus (helper_step to_vec conf h i)).
Proof.
  intros Hi Hb. pose proof Hb as [H1 H2 H3].
  destruct i as [[] ms|pts|el|offer|ml c| | |m|t]; cbn [helper_step]; try done; try (by destruct (Hi t)); cbn [hp_bus set_bus].
  - unfold encoded_probe, proof_take. destruct pts as [pts|]; [|done].
    destruct (bt_remove pts _) as [o rest] eqn:E. apply bt_remove_len in E.
    assert (bounded (set_proofs rest (hp_bus h))) as Hr by (split; [cbn; lia|done|done]).
    destruct o; [by apply send_event_bounded|done].
  - unfold on_negotiation. repeat case_match; done.
  - unfold on_offer. destruct (bu_offering _); [|done]. cbn [negb].
    destruct (match offer with Some _ => _ | None => _ end);
      [by apply send_event_bounded|].
    assert (bounded (set_offering (bu_negotiating (hp_bus h)) false (hp_bus h))) as Hs by done.
    by apply (send_event_bounded (HoError "OFFER_FAILED")) in Hs as [? ? ?].
  - unfold on_ice_candidate. destruct (_ && _); [by apply send_event_bounded|done].
  - by apply (send_event_bounded (HoError "NATIVE_PIPELINE_FAILED")) in Hb as [? ? ?].
  - unfold read_input. destruct (bu_reading _); [|done]. cbn [negb]. destruct m as [m|]; [|done].
    destruct (Z.leb_spec INPUTS_CAP (zlen (bu_inputs (hp_bus h)))); [done|].
    destruct m; split; cbn; rewrite ?zlen_snoc; try done; lia.
Qed.
Lemma main_step_bounded to_vec conf t h :
  bounded (hp_bus h) -> bounded (hp_bus (main_step to_vec conf t h)).
Proof.
  intros Hb. pose proof Hb as [H1 H2 H3].
  assert (forall e t' h next, bounded (hp_bus h) -> bounded (hp_bus (emit_event to_vec e t' h next))) as Hem.
  { intros e t' h' next Hh. unfold emit_event. by destruct (write_event _ _ _). }
  assert (forall t' h, bounded (hp_bus h) -> bounded (hp_bus (finish to_vec t' h))) as Hfi.
  { intros t' h' Hh. unfold finish. destruct (tn_stopped t'); [by apply Hem|done]. }
  unfold main_step, main_select, main_push, main_status. destruct (hp_pc h); [| | |done].
  - destruct (bu_stop _); [by apply Hfi|]. destruct (tn_select t); [| |done].
    + destruct (bu_events (hp_bus h)) eqn:E; [done|]. apply Hem. rewrite zlen_cons in H2.
      split; cbn; [done|lia|done].
    + destruct (bu_inputs (hp_bus h)) as [|m rest] eqn:E; [destruct (bu_reading _); [done|by apply Hfi]|].
      assert (bounded (set_inputs rest (hp_bus h))) as Hr
        by (rewrite zlen_cons in H3; split; cbn; [done|done|lia]).
      destruct m; cbn [on_command]; [done| |by case_match|by apply Hfi].
      repeat case_match; done.
  - assert (forall lim f, bounded (before_push lim f (hp_bus h))) as Hp.
    { intros lim f. unfold before_push. destruct (_ <? _); [|done]. split; [|done|done].
      cbn [set_proofs bu_pending]. unfold proof_insert.
      etrans; [apply bt_insert_len|]. pose proof (proof_evict_len (bu_pending (hp_bus h))). lia. }
    unfold push_latest_with. repeat case_match; simplify_eq; try done; apply Hp.
  - destruct (_ <=? _); [|done]. by apply Hem.
Qed.
(** The proofs that wait and both channels stay within their bounds. *)
Lemma helper_step_bounded to_vec conf h i :
  bounded (hp_bus h) -> bounded (hp_bus (helper_step to_vec conf h i)).
Proof.
  destruct i; first [by apply callback_bounded|by apply main_step_bounded].
Qed.
Lemma helper_run_bounded to_vec conf now l :
  bounded (hp_bus (helper_run to_vec conf (helper_new conf now) l)).
Proof.
  induction l as [|i l IH] using rev_ind; [by split|]. unfold helper_run. rewrite foldl_app.
  by apply helper_step_bounded.
Qed.

(** ** Starting *)
Record Host := {
  hs_first : sres (option HelperIn);             (* the first line of standard input *)
  hs_validate_source : LocalSource -> sres Rect;
  hs_elements : bool;                            (* the WebRTC and encoder elements *)
  hs_ice_ports : bool;                           (* the agent has both port properties *)
  hs_bound : bool;                               (* [add-local-ip-address] *)
  hs_tick : Z;
  hs_written : bool;
  hs_playing : sres unit
}.
Definition helper_conf (g : Gst) (host : Host) : sres Conf :=
  _ ← gs_init g;
  first ← hs_first host;
  match first with
  | Some (HiInit config) =>
    _ ← media_init_validate config;
    rect ← hs_validate_source host (mi_source config);
    _ ← reject_if (negb (bool_decide (rect = lo_rect (mi_source config))))
          "Approved geometry changed before capture"%string;
    _ ← reject_if (negb (bool_decide (probe_missing g = []))) "Missing native factories"%string;
    handle ← native_handle (lo_native (mi_source config));
    built ← build_pipeline g config handle;
    _ ← reject_if (negb (hs_elements host)) "WebRTC element missing"%string;
    _ ← reject_if (negb (hs_ice_ports host)) "ICE port bounds unavailable"%string;
    _ ← reject_if (negb (hs_bound host))
          "Could not bind WebRTC to the approved Tailscale IP"%string;
    Ok {| co_init := config; co_choice := built.1; co_profile := built.2;
          co_started_tick := hs_tick host |}
  | _ => Err "First message must be Init"%string
  end.
Definition helper_start (to_vec : HelperOut -> option bytes) (g : Gst) (host : Host) (now : Z)
  : sres (Conf * Helper) :=
  conf ← helper_conf g host;
  let h := helper_new conf now in
  _ ← write_event to_vec (HoReady 1) (hs_written host);
  _ ← write_event to_vec (status conf (hp_main h) Starting false) (hs_written host);
  _ ← hs_playing host;
  Ok (conf, h).

Lemma build_pipeline_profile g config handle choice profile :
  build_pipeline g config handle = Ok (choice, profile) ->
  encoder_profile choice (mi_profile config) (lo_rect (mi_source config)) = Ok profile.
Proof.
  unfold build_pipeline. destruct (encoder_profile EncHardware _ _) as [hp|] eqn:Eh; [|done].
  set (software := if forallb _ _ then _ else _).
  assert (software = Ok (choice, profile) ->
    encoder_profile choice (mi_profile config) (lo_rect (mi_source config)) = Ok profile) as Hsoft.
  { unfold software. destruct (forallb _ _); [|done].
    destruct (encoder_profile EncSoftwareViewOnlySlow _ _) as [sp|] eqn:Esp; [|done].
    cbn [mbind result_bind]. destruct (parse_pipeline _ _ sp _); [|done]. cbn. by intros [= <- <-]. }
  destruct (gs_find g "mfh264enc"); [|done].
  destruct (parse_pipeline g _ hp _) as [[[]|]|]; try done. by intros [= <- <-].
Qed.
(** What a started helper was given. *)
Lemma helper_conf_checked g host conf :
  helper_conf g host = Ok conf ->
  hs_first host = Ok (Some (HiInit (co_init conf))) /\
  media_init_validate (co_init conf) = Ok tt /\
  hs_validate_source host (mi_source (co_init conf)) = Ok (lo_rect (mi_source (co_init conf))) /\
  hs_bound host = true /\ hs_ice_ports host = true /\
  encoder_profile (co_choice conf) (mi_profile (co_init conf)) (lo_rect (mi_source (co_init conf))) =
    Ok (co_profile conf).
Proof.
  unfold helper_conf. destruct (gs_init g); [|done]. cbn [mbind result_bind].
  destruct (hs_first host) as [[[config| | |]|]|]; try done. cbn [mbind result_bind].
  destruct (media_init_validate config) as [[]|] eqn:Ev; [|done]. cbn [mbind result_bind].
  destruct (hs_validate_source host _) as [rect|] eqn:Es; [|done]. cbn [mbind result_bind].
  destruct (reject_if _ "Approved geometry changed before capture"%string) as [[]|] eqn:Er; [|done].
  cbn [mbind result_bind]. apply reject_if_ok in Er. bools. subst rect.
  destruct (reject_if (negb (bool_decide (probe_missing g = []))) _) as [[]|]; [|done].
  cbn [mbind result_bind].
  destruct (native_handle _) as [handle|]; [|done]. cbn [mbind result_bind].
  destruct (build_pipeline g config handle) as [[choice profile]|] eqn:Eb; [|done]. cbn [mbind result_bind].
  destruct (hs_elements host), (hs_ice_ports host) eqn:Ei, (hs_bound host) eqn:Ebd; try done.
  intros [= <-]. cbn. split_and!; try done. by eapply build_pipeline_profile.
Qed.

(** ** The lines the agent reads *)
Section Wire.
Context (to_vec : HelperOut -> option bytes) (parse : bytes -> option HelperOut).

(** What [write_event] puts on standard output. *)
Definition wire (out : list HelperOut) : bytes :=
  concat (map (fun e => default [] (to_vec e) ++ [10]) out).
(** The agent's loop: lines until the end of the stream or an error. *)
Fixpoint read_lines (fuel : nat) (input : bytes) : list HelperOut * bool :=
  match fuel with
  | O => ([], false)
  | S fuel =>
    match read_json_line parse input with
    | (Some (Some e), rest) => let '(l, ended) := read_lines fuel rest in (e :: l, ended)
    | (Some None, _) => ([], true)
    | (None, _) => ([], false)
    end
  end.
Definition writable (e : HelperOut) : Prop :=
  exists b, to_vec e = Some b /\ zlen b <= MAX_SIGNAL - 1.
Lemma write_event_writable e written : write_event to_vec e written = Ok tt -> writable e.
Proof.
  unfold write_event. destruct (to_vec e) as [b|] eqn:E; [|done].
  destruct (Z.ltb_spec (MAX_SIGNAL - 1) (zlen b)); [done|]. intros _. by exists b.
Qed.
(** A step writes at most one line. *)
Definition writes_one (h h' : Helper) : Prop :=
  hp_out h' = hp_out h \/ exists e, hp_out h' = hp_out h ++ [e] /\ writable e.
Lemma emit_event_writes e t h next : writes_one h (emit_event to_vec e t h next).
Proof.
  unfold emit_event. destruct (write_event _ _ _) as [[]|] eqn:E; [right|by left].
  exists e. split; [done|]. by eapply write_event_writable.
Qed.
Lemma finish_writes t h : writes_one h (finish to_vec t h).
Proof. unfold finish. destruct (tn_stopped t); [apply emit_event_writes|by left]. Qed.
Lemma helper_step_writes conf h i : writes_one h (helper_step to_vec conf h i).
Proof.
  destruct i as [[] ms|pts|el|offer|ml c| | |m|t]; try (by left). cbn [helper_step].
  unfold main_step, main_select, main_push, main_status. destruct (hp_pc h).
  - destruct (bu_stop _); [apply finish_writes|]. destruct (tn_select t); [| |by left].
    + destruct (bu_events _); [by left|].
      apply (emit_event_writes _ t (set_bus (set_events _ (hp_bus h)) h)).
    + destruct (bu_inputs _) as [|[]]; [destruct (bu_reading _); [by left|apply finish_writes]|by left| | |].
      * cbn [on_command]. repeat case_match; by left.
      * cbn [on_command]. repeat case_match; by left.
      * apply (finish_writes t (set_bus (set_inputs _ (hp_bus h)) h)).
  - unfold push_latest_with. repeat case_match; simplify_eq; by left.
  - destruct (_ <=? _); [|by left]. apply (emit_event_writes _ t (set_main _ h)).
  - by left.
Qed.
Lemma helper_run_writable conf h l :
  Forall writable (hp_out h) -> Forall writable (hp_out (helper_run to_vec conf h l)).
Proof.
  revert h. induction l as [|i l IH]; intros h Hh; [done|]. cbn [helper_run foldl]. apply IH.
  destruct (helper_step_writes conf h i) as [->|(e & -> & He)]; [done|].
  apply Forall_app. split; [done|by apply Forall_singleton].
Qed.
Lemma helper_start_writable g host now conf h :
  helper_start to_vec g host now = Ok (conf, h) -> h = helper_new conf now /\ Forall writable (hp_out h).
Proof.
  unfold helper_start. destruct (helper_conf g host) as [c|]; [|done]. cbn [mbind result_bind].
  destruct (write_event to_vec (HoReady 1) _) as [[]|] eqn:E1; [|done]. cbn [mbind result_bind].
  destruct (write_event to_vec (status c _ _ _) _) as [[]|] eqn:E2; [|done]. cbn [mbind result_bind].
  destruct (hs_playing host); [|done]. intros [= <- <-]. split; [done|].
  constructor; [by eapply write_event_writable|]. constructor; [by eapply write_event_writable|constructor].
Qed.
Lemma read_until_line limit b rest :
  10 ∉ b -> (length b < limit)%nat -> read_until limit (b ++ 10 :: rest) = (b ++ [10], rest).
Proof.
  revert limit. induction b as [|x b IH]; intros [|limit] Hb Hl; cbn in Hl; try lia; cbn [app read_until].
  - done.
  - apply not_elem_of_cons in Hb as [Hx Hb]. destruct (Z.eqb_spec x 10); [congruence|].
    by rewrite IH by (done || lia).
Qed.
Lemma read_line b rest e :
  10 ∉ b -> zlen b <= MAX_SIGNAL - 1 -> parse (b ++ [10]) = Some e ->
  read_json_line parse (b ++ 10 :: rest) = (Some (Some e), rest).
Proof.
  intros Hb Hl Hp. pose proof (zlen_nonneg b). unfold read_json_line.
  rewrite read_until_line by (done || unfold zlen in *; lia).
  rewrite zlen_snoc. destruct (Z.eqb_spec (zlen b + 1) 0); [lia|].
  destruct (Z.ltb_spec MAX_SIGNAL (zlen b + 1)); [lia|].
  rewrite last_snoc, bool_decide_eq_true_2 by done. cbn. by rewrite Hp.
Qed.
Lemma read_lines_wire out :
  (forall e b, to_vec e = Some b -> 10 ∉ b /\ parse (b ++ [10]) = Some e) ->
  Forall writable out -> read_lines (S (length out)) (wire out) = (out, true).
Proof.
  intros Hrt Hout. induction Hout as [|e out (b & Hb & Hl) Hout IH]; [done|].
  destruct (Hrt e b Hb) as [Hn Hp]. cbn [length].
  change (wire (e :: out)) with ((default [] (to_vec e) ++ [10]) ++ wire out). rewrite Hb. change (default [] (Some b)) with b.
  rewrite <- app_assoc. cbn [app].
  change (read_lines (S (S (length out))) ?i) with
    (match read_json_line parse i with
     | (Some (Some e), rest) => let '(l, ended) := read_lines (S (length out)) rest in (e :: l, ended)
     | (Some None, _) => ([], true)
     | (None, _) => ([], false)
     end).
  rewrite (read_line b (wire out) e) by done. by rewrite IH.
Qed.
End Wire.

(** The agent reads what the helper said.  For any encoding whose texts hold
    no line feed and that the decoder inverts, reading the standard output of a
    run of the helper line by line gives back exactly the reports it wrote, in
    order, and then the end of the stream: no line is over the limit of the
    reader, whatever the SDP and candidate texts are. *)
Theorem helper_wire_roundtrip to_vec parse g host now conf h0 l :
  (forall e b, to_vec e = Some b -> 10 ∉ b /\ parse (b ++ [10]) = Some e) ->
  helper_start to_vec g host now = Ok (conf, h0) ->
  let out := hp_out (helper_run to_vec conf h0 l) in
  read_lines parse (S (length out)) (wire to_vec out) = (out, true).
Proof.
  intros Hrt Hs out. apply read_lines_wire; [done|]. apply helper_run_writable.
  by apply (helper_start_writable _ _ _ _ _ _ Hs).
Qed.

(** ** A run *)
Definition sample_init : MediaInit :=
  {| mi_protocol := 1;
     mi_source := {| lo_native := Window "4660" 7 "t"; lo_label := "w";
                     lo_rect := {| left := 0; top := 0; width := 1280; height := 720 |} |};
     mi_profile := profile_default; mi_tailnet_ip := str_bytes "100.64.0.1";
     mi_min_port := 40000; mi_max_port := 40031 |}.
Definition sample_gst : Gst :=
  {| gs_init := Ok tt; gs_version := "1.26"; gs_find := fun _ => true; gs_make_rtc := Ok tt;
     gs_bin := fun _ _ => Ok tt; gs_add := fun _ => Ok tt; gs_sink_pad := true; gs_src_pad := true;
     gs_link := Ok tt; gs_aware := fun _ => Some true |}.
Definition sample_host : Host :=
  {| hs_first := Ok (Some (HiInit sample_init)); hs_validate_source := fun s => Ok (lo_rect s);
     hs_elements := true; hs_ice_ports := true; hs_bound := true; hs_tick := 0; hs_written := true;
     hs_playing := Ok tt |}.
Definition sample_to_vec (e : HelperOut) : option bytes :=
  match e with
  | HoReady 1 => Some [82]
  | HoStatus Hardware Starting 15 2500 false false true => Some [83]
  | HoFrame s 7 => if bool_decide (s = "1"%string) then Some [70] else None
  | HoStopped => Some [84]
  | _ => None
  end.
Definition sample_parse (b : bytes) : option HelperOut :=
  match b with
  | [82; 10] => Some (HoReady 1)
  | [83; 10] => Some (HoStatus Hardware Starting 15 2500 false false true)
  | [70; 10] => Some (HoFrame "1" 7)
  | [84; 10] => Some HoStopped
  | _ => None
  end.
Definition sample_turn (select : Selected) : Turn :=
  {| tn_select := select; tn_sdp_parses := true; tn_now := 0; tn_elapsed_ms := 8; tn_has_bitrate := true;
     tn_push := PushOk; tn_status_due := -1000000000; tn_tick := 8; tn_written := true;
     tn_stopped := Ok tt |}.
(** A capture, the pass that pushes it, its buffer from the encoder (twice), the
    pass that writes the report, and the end. *)
Definition sample_inputs : list Input :=
  [InSample true 7; InTurn (sample_turn SelTimeout); InTurn (sample_turn SelTimeout);
   InTurn (sample_turn SelTimeout); InEncoded (Some 0); InEncoded (Some 0);
   InTurn (sample_turn SelEvent); InTurn (sample_turn SelTimeout); InTurn (sample_turn SelTimeout);
   InEos; InTurn (sample_turn SelTimeout)].
Definition sample_conf : Conf :=
  {| co_init := sample_init; co_choice := EncHardware; co_profile := profile_default;
     co_started_tick := 0 |}.
Example helper_sample_run :
  hp_out (helper_run sample_to_vec sample_conf (helper_new sample_conf 0) sample_inputs) =
  [HoReady 1; HoStatus Hardware Starting 15 2500 false false true; HoFrame "1" 7; HoStopped].
Proof. vm_compute. reflexivity. Qed.
Lemma helper_wire_roundtrip_witness :
  let out := hp_out (helper_run sample_to_vec sample_conf (helper_new sample_conf 0) sample_inputs) in
  read_lines sample_parse (S (length out)) (wire sample_to_vec out) = (out, true).
Proof.
  apply (helper_wire_roundtrip sample_to_vec sample_parse sample_gst sample_host 0 sample_conf
           (helper_new sample_conf 0) sample_inputs); [|vm_compute; reflexivity].
  intros e b He. unfold sample_to_vec in He.
  repeat case_match; simplify_eq; bools; subst;
    (split; [rewrite list_elem_of_singleton; discriminate|reflexivity]).
Defined.
