(* ===== verification/Config.v ===== *)
(** * Host settings ([crates/rc-agent/src/config.rs])
    Validation of the settings, and the two allow lists every HTTP request is
    held against.  URLs are parsed by a third-party crate, a parameter here. *)
From Stdlib Require Import Ascii String.
From S2P Require Import Prelude Errors Text Float Geometry MediaWire MediaStream.
#[global] Open Scope Z_scope.

(** [SocketAddr]: its address as [Display] writes it before the port (an IPv6
    address in brackets), and whether it is loopback. *)
Record SocketAddr := { sa_ip : string; sa_loopback : bool; sa_port : Z }.
Definition addr_string (a : SocketAddr) : string := sa_ip a ++ ":" ++ dec (sa_port a).

(** What the [url] crate reports of a URL. *)
Record Url := {
  u_scheme : string;
  u_host_str : option string;
  u_username : string;
  u_password : option string;
  u_path : string;
  u_query : option string;
  u_fragment : option string;
  u_port : option Z
}.

Record Config := {
  cf_bind : SocketAddr;
  cf_public_origin : option string;
  cf_local_ui_origins : list string;
  cf_max_sessions : Z;
  cf_ring_bytes : Z;
  cf_allow_gui_experiments : bool;
  cf_media : MediaConfig
}.
Definition config_default : Config :=
  {| cf_bind := {| sa_ip := "127.0.0.1"; sa_loopback := true; sa_port := 3847 |};
     cf_public_origin := None;
     cf_local_ui_origins := ["http://tauri.localhost"; "tauri://localhost"]%string;
     cf_max_sessions := 8; cf_ring_bytes := 8 * 1024 * 1024;
     cf_allow_gui_experiments := false; cf_media := media_config_default |}.

(** [p.trim_end_matches('/')] *)
Fixpoint drop_slashes (l : list Ascii.ascii) : list Ascii.ascii :=
  match l with
  | c :: r => if Ascii.eqb c "/"%char then drop_slashes r else l
  | [] => []
  end.
Definition trim_end_slash (s : string) : string :=
  string_of_list_ascii (rev (drop_slashes (rev (list_ascii_of_string s)))).

Section Config.
Context (parse_url : string -> option Url).

Definition exact_origin (u : Url) : bool :=
  bool_decide (u_scheme u = "https"%string) && option_is_some (u_host_str u) &&
  bool_decide (u_username u = ""%string) && option_is_none (u_password u) &&
  bool_decide (u_path u = "/"%string) && option_is_none (u_query u) &&
  option_is_none (u_fragment u).
Definition fixed_ui_origins : list string :=
  ["http://tauri.localhost"; "tauri://localhost"; "http://localhost:1420";
   "http://127.0.0.1:1420"]%string.
Definition config_validate (c : Config) : sres unit :=
  if negb (sa_loopback (cf_bind c)) then Err "Agent must bind to loopback"%string else
  if sa_port (cf_bind c) =? 0 then Err "Management port cannot be zero"%string else
  if (cf_max_sessions c =? 0) || (8 <? cf_max_sessions c) then Err "max_sessions"%string else
  if (cf_ring_bytes c <? 32768) || (8 * 1024 * 1024 <? cf_ring_bytes c)
  then Err "ring_bytes outside supported bounds"%string else
  if (match cf_public_origin c with
      | None => false
      | Some s => match parse_url s with Some u => negb (exact_origin u) | None => true end
      end) then Err "public_origin must be an exact HTTPS origin"%string else
  if existsb (fun o => negb (bool_decide (o ∈ fixed_ui_origins))) (cf_local_ui_origins c)
  then Err "Only the fixed local UI origins are permitted"%string else
  if cf_allow_gui_experiments c then Err "allow_gui_experiments"%string else
  media_config_validate (cf_media c).

Definition local_origin (c : Config) : string := "http://" ++ addr_string (cf_bind c).
Definition origins (c : Config) : list string :=
  (cf_local_ui_origins c ++ [local_origin c] ++
   match cf_public_origin c with Some p => [trim_end_slash p] | None => [] end)%list.
Definition origin_allowed (c : Config) (s : string) : bool :=
  existsb (fun v => bool_decide (v = s)) (origins c).
Definition url_authority (u : Url) : string :=
  let h := match u_host_str u with Some h => h | None => ""%string end in
  match u_port u with Some p => h ++ ":" ++ dec p | None => h end.
Definition host_allowed (c : Config) (s : string) : bool :=
  bool_decide (s = addr_string (cf_bind c)) ||
  match cf_public_origin c with
  | Some p =>
    match parse_url p with Some u => bool_decide (s = url_authority u) | None => false end
  | None => false
  end.
End Config.

Example config_runs :
  origin_allowed config_default "http://127.0.0.1:3847" = true /\
  origin_allowed config_default "http://127.0.0.1:3847.attacker.test" = false /\
  host_allowed (fun _ => None) config_default "attacker.test" = false /\
  config_validate (fun _ => None) config_default = Ok tt.
Proof. by vm_compute. Qed.
