(* ===== verification/Program.v ===== *)
(** * Programs with effects
    A sequence of calls to the outside world as data, so that a program can be
    cut off after any of them: the process may die, or a caller may stop waiting,
    between two calls.  Used for the code that keeps several files and a foreign
    service in step. *)
From S2P Require Import Prelude.

Section Program.
Context {Eff : Type -> Type}.

Inductive prog (A : Type) : Type :=
| Ret (a : A)
| Call {X : Type} (e : Eff X) (k : X -> prog A).
Arguments Ret {A} a.
Arguments Call {A X} e k.

(** Sequencing with the source's [?]: an error ends the program. *)
Definition io (E A : Type) : Type := prog (result E A).
Fixpoint prog_bind {A B} (m : prog A) (f : A -> prog B) : prog B :=
  match m with
  | Ret a => f a
  | Call e k => Call e (fun x => prog_bind (k x) f)
  end.
Definition io_bind {E A B} (m : io E A) (f : A -> io E B) : io E B :=
  prog_bind m (fun r => match r with Ok a => f a | Err e => Ret (Err e) end).
Definition io_ok {E A} (a : A) : io E A := Ret (Ok a).
Definition io_err {E A} (e : E) : io E A := Ret (Err e).
(** A [Result] computed without calls. *)
Definition io_lift {E A} (r : result E A) : io E A := Ret r.
Definition io_map_err {E F A} (f : E -> F) (m : io E A) : io F A :=
  prog_bind m (fun r => Ret (map_err f r)).
Definition call {X} (e : Eff X) : prog X := Call e (fun x => Ret x).

(** ** Executions
    [step w e w' x]: in world [w] the call [e] may answer [x] and leave [w']. *)
Context {W : Type} (step : forall X, W -> Eff X -> W -> X -> Prop).

(** [None]: cut off before the end. *)
Inductive exec {A : Type} : W -> prog A -> W -> option A -> Prop :=
| exec_cut w p : exec w p w None
| exec_ret w a : exec w (Ret a) w (Some a)
| exec_call w X (e : Eff X) k w1 x w2 r :
    step X w e w1 x -> exec w1 (k x) w2 r -> exec w (Call e k) w2 r.

(** [safe I p w Q]: wherever the program is cut off [I] holds, and [Q] at its
    end. *)
Fixpoint safe {A} (I : W -> Prop) (p : prog A) (w : W) (Q : W -> A -> Prop) : Prop :=
  I w /\
  match p with
  | Ret a => Q w a
  | Call e k => forall w' x, step _ w e w' x -> safe I (k x) w' Q
  end.

Lemma safe_exec {A} I (p : prog A) w Q w' r :
  safe I p w Q -> exec w p w' r ->
  I w' /\ match r with Some a => Q w' a | None => True end.
Proof.
  intros Hs He. induction He as [w p|w a|w X e k w1 x w2 r Hst _ IH].
  - split; [|done]. by destruct p, Hs.
  - by destruct Hs.
  - apply IH. destruct Hs as [_ Hs]. by apply Hs.
Qed.
Lemma safe_now {A} I (p : prog A) w Q : safe I p w Q -> I w.
Proof. by destruct p; intros []. Qed.
Lemma safe_mono {A} I (p : prog A) w (Q R : W -> A -> Prop) :
  safe I p w Q -> (forall w' a, Q w' a -> R w' a) -> safe I p w R.
Proof.
  intros Hs Hqr. revert w Hs. induction p as [a|X e k IH]; intros w [HI Hs]; split; auto.
Qed.
Lemma safe_weaken {A} (I J : W -> Prop) (p : prog A) w Q :
  (forall w, I w -> J w) -> safe I p w Q -> safe J p w Q.
Proof.
  intros HIJ. revert w. induction p as [a|X e k IH]; intros w [HI Hs]; split; auto.
Qed.
Lemma safe_bind {A B} I (m : prog A) (f : A -> prog B) w (Q : W -> A -> Prop) R :
  safe I m w Q -> (forall w' a, I w' -> Q w' a -> safe I (f a) w' R) ->
  safe I (prog_bind m f) w R.
Proof.
  intros Hm Hf. revert w Hm. induction m as [a|X e k IH]; intros w [HI Hm]; cbn [prog_bind].
  - by apply Hf.
  - split; [done|]. intros w' x Hst. apply IH. by apply Hm.
Qed.
Lemma safe_io_bind {E A B} I (m : io E A) (f : A -> io E B) w (Q : W -> A -> Prop) R :
  safe I m w (fun w' r => match r with Ok a => Q w' a | Err e => R w' (Err e) end) ->
  (forall w' a, I w' -> Q w' a -> safe I (f a) w' R) ->
  safe I (io_bind m f) w R.
Proof.
  intros Hm Hf. eapply safe_bind; [exact Hm|]. intros w' [a|e] HI H; [by apply Hf|by split].
Qed.
Lemma safe_ret {A} (I : W -> Prop) (a : A) w (Q : W -> A -> Prop) :
  I w -> Q w a -> safe I (Ret a) w Q.
Proof. by split. Qed.

(** ** Total runs: an oracle answers every call. *)
Fixpoint run {A} (answer : forall X, W -> Eff X -> W * X) (p : prog A) (w : W) : W * A :=
  match p with
  | Ret a => (w, a)
  | Call e k => let '(w', x) := answer _ w e in run answer (k x) w'
  end.
Lemma run_exec {A} answer (p : prog A) w :
  (forall X w (e : Eff X), step X w e (answer X w e).1 (answer X w e).2) ->
  exec w p (run answer p w).1 (Some (run answer p w).2).
Proof.
  intros Ha. revert w. induction p as [a|X e k IH]; intros w; cbn [run]; [constructor|].
  pose proof (Ha X w e) as H. destruct (answer X w e) as [w' x].
  eapply exec_call; [exact H|apply IH].
Qed.
(** A run that is cut off after [n] calls. *)
Fixpoint run_for {A} (answer : forall X, W -> Eff X -> W * X) (n : nat) (p : prog A) (w : W) : W :=
  match n, p with
  | S n, Call e k => let '(w', x) := answer _ w e in run_for answer n (k x) w'
  | _, _ => w
  end.
Lemma run_for_exec {A} answer n (p : prog A) w :
  (forall X w (e : Eff X), step X w e (answer X w e).1 (answer X w e).2) ->
  exec w p (run_for answer n p w) None.
Proof.
  intros Ha. revert n w. induction p as [a|X e k IH]; intros [|n] w; cbn [run_for]; try constructor.
  pose proof (Ha X w e) as H. destruct (answer X w e) as [w' x].
  eapply exec_call; [exact H|apply IH].
Qed.
End Program.
Arguments prog Eff A : clear implicits.
Arguments io Eff E A : clear implicits.
Arguments Ret {Eff A} a.
Arguments Call {Eff A X} e k.

Notation "x <- m ;; k" := (io_bind m (fun x => k))
  (at level 100, m at next level, right associativity, only parsing) : rc_scope.
