(* ===== verification/Tailscale.v ===== *)
(** * Tailscale Serve ([apps/desktop/src-tauri/src/tailscale.rs])
    What the desktop shell reads from the tailscale command's output, who owns
    the HTTPS 443 rule, and the commands that change it.  Parsing JSON text is a
    parameter; the command itself is an effect ([Program.v]). *)
From Stdlib Require Import Ascii String.
From S2P Require Import Prelude Text Program.
#[global] Open Scope Z_scope.

(** ** JSON values ([serde_json::Value]); an object's keys are distinct. *)
Inductive Json : Type :=
| JNull
| JBool (b : bool)
| JNumber (n : string)
| JString (s : string)
| JArray (l : list Json)
| JObject (fields : list (string * Json)).
Definition as_object (j : Json) : option (list (string * Json)) :=
  match j with JObject o => Some o | _ => None end.
Definition as_bool (j : Json) : option bool := match j with JBool b => Some b | _ => None end.
Definition as_str (j : Json) : option string := match j with JString s => Some s | _ => None end.
Fixpoint json_get (o : list (string * Json)) (k : string) : option Json :=
  match o with
  | [] => None
  | (k', v) :: r => if bool_decide (k' = k) then Some v else json_get r k
  end.
Definition json_field (j : Json) (k : string) : option Json :=
  match as_object j with Some o => json_get o k | None => None end.

(** ** Data *)
Definition BACKEND : string := "http://127.0.0.1:3847".
Inductive ServeOwnership : Type := Absent | Owned | Conflict.
#[global] Instance ServeOwnership_eq_dec : EqDecision ServeOwnership.
Proof. solve_decision. Defined.
Inductive ServePlan : Type := Apply | Remove.
Inductive ServeError : Type := NotInstalled | CommandFailed | Failed (s : string).
#[global] Instance ServeError_eq_dec : EqDecision ServeError.
Proof. solve_decision. Defined.
(** [Display] *)
Definition serve_error_string (e : ServeError) : string :=
  match e with
  | NotInstalled => "Tailscale CLI is not installed"
  | CommandFailed => "Tailscale Serve command failed"
  | Failed s => s
  end.
Record ServeInspection := {
  si_installed : bool;
  si_ownership : ServeOwnership;
  si_dns_name : option string;
  si_proxy : option string;
  si_public_origin : option string;
  si_restart_required : bool
}.
Record ServeReceipt := {
  sr_dns_name : string;
  sr_proxy : string;
  sr_https_port : Z;
  sr_public_origin : string
}.
Record PendingServe := {
  ps_enabled : bool;
  ps_receipt : option ServeReceipt;
  ps_expected_dns_name : option string;
  ps_expected_proxy : string
}.
Record ServeRequest := { sq_enabled : bool; sq_consent : bool }.

(** ** Names *)
Definition dns_byte (b : Z) : bool := is_ascii_alphanumeric b || (b =? 45).
Definition dns_label (p : string) : bool :=
  negb (str_is_empty p) && (str_len p <=? 63) && forallb dns_byte (str_bytes p) &&
  negb (str_starts_with p "-") && negb (str_ends_with p "-").
Definition valid_dns_name (name : string) : bool :=
  match str_strip_suffix name ".ts.net" with
  | None => false
  | Some prefix => negb (str_is_empty prefix) && forallb dns_label (str_split "."%char prefix)
  end.
Definition public_origin (name : string) : option string :=
  if valid_dns_name name then Some ("https://" ++ name)%string else None.
Definition preview_ports : list (Z * Z) := map (fun p => (p, p + 5400)) (seqZ 8444 8).
Definition not_installed : ServeInspection :=
  {| si_installed := false; si_ownership := Absent; si_dns_name := None; si_proxy := None;
     si_public_origin := None; si_restart_required := false |}.

(** ** The status of Serve *)
Record ObservedServe := {
  ob_dns_name : option string;
  ob_proxy : option string;
  ob_occupied : bool;
  ob_funnel_enabled : bool
}.
Abbreviation serve_res := (result ServeError) (only parsing).
Definition failed {A} (s : string) : serve_res A := Err (Failed s).

(** The optional field [k] must be an object. *)
Definition object_field (root : list (string * Json)) (k : string) : serve_res unit :=
  match json_get root k with
  | Some (JObject _) | None => Ok tt
  | Some _ => failed ("Tailscale Serve field " ++ k ++ " has an invalid type")
  end.
Fixpoint funnel_values (o : list (string * Json)) (enabled : bool) : serve_res bool :=
  match o with
  | [] => Ok enabled
  | (_, v) :: r =>
    match as_bool v with
    | None => failed "Tailscale AllowFunnel value has an invalid type"
    | Some b => funnel_values r (enabled || b)
    end
  end.
Definition funnel_status (root : list (string * Json)) : serve_res bool :=
  match json_get root "AllowFunnel" with
  | None => Ok false
  | Some x =>
    match as_object x with
    | None => failed "Tailscale AllowFunnel has an invalid type"
    | Some o => funnel_values o false
    end
  end.
(** Port 443 occupied, and forwarding raw TCP. *)
Definition tcp443_status (root : list (string * Json)) : serve_res (bool * bool) :=
  match (json_get root "TCP" ≫= as_object) ≫= (fun m => json_get m "443") with
  | None => Ok (false, false)
  | Some x =>
    match as_object x with
    | None => failed "Tailscale TCP 443 has an invalid type"
    | Some o =>
      match (match json_get o "HTTPS" with
             | None => Ok false
             | Some h =>
               match as_bool h with
               | None => failed "Tailscale TCP 443 HTTPS has an invalid type"
               | Some b => Ok b
               end
             end) with
      | Err e => Err e
      | Ok https =>
        match json_get o "TCPForward" with
        | None => Ok (https, false)
        | Some (JString _) => Ok (true, true)
        | Some _ => failed "Tailscale TCP 443 TCPForward has an invalid type"
        end
      end
    end
  end.
Definition is_object (j : Json) : bool := option_is_some (as_object j).
Definition foreground_status (root : list (string * Json)) : serve_res bool :=
  match json_get root "Foreground" with
  | None => Ok false
  | Some f =>
    match as_object f with
    | None => failed "Tailscale Foreground has an invalid type"
    | Some sessions =>
      if forallb (fun kv => is_object kv.2) sessions then Ok (negb (bool_decide (sessions = [])))
      else failed "Tailscale Foreground session has an invalid type"
    end
  end.
(** [host.trim_end_matches(":443")]: each round removes four bytes, so the
    length is enough fuel. *)
Fixpoint trim_port (fuel : nat) (host : string) : string :=
  match fuel, str_strip_suffix host ":443" with
  | S n, Some h => trim_port n h
  | _, _ => host
  end.
Definition trim_443 (host : string) : string := trim_port (String.length host) host.
(** One rule of [Web]. *)
Definition web_rule (host : string) (rule : Json) : serve_res (option (string * string)) :=
  if negb (str_ends_with host ":443") then Ok None else
  let name := trim_443 host in
  if negb (valid_dns_name name) then failed "Tailscale Serve returned an invalid DNS name" else
  match as_object rule with
  | None => failed "Tailscale Web rule has an invalid type"
  | Some ro =>
    match json_get ro "Handlers" ≫= as_object with
    | None => failed "Tailscale Web Handlers has an invalid type"
    | Some handlers =>
      if negb (zlen handlers =? 1) || option_is_none (json_get handlers "/")
      then failed "Tailscale Web Handlers must contain only the root handler" else
      match json_get handlers "/" ≫= as_object with
      | None => failed "Tailscale Web root handler has an invalid type"
      | Some root =>
        if negb (zlen root =? 1) || option_is_none (json_get root "Proxy")
        then failed "Tailscale Web root handler must contain only Proxy" else
        match json_get root "Proxy" ≫= as_str with
        | None => failed "Tailscale Web Proxy has an invalid type"
        | Some proxy => Ok (Some (name, proxy))
        end
      end
    end
  end.
Fixpoint web_rules (web : list (string * Json)) : serve_res (list (string * string)) :=
  match web with
  | [] => Ok []
  | (host, rule) :: r =>
    match web_rule host rule with
    | Err e => Err e
    | Ok o =>
      match web_rules r with
      | Err e => Err e
      | Ok l => Ok (match o with Some x => x :: l | None => l end)
      end
    end
  end.
Definition parse_status (v : Json) : serve_res ObservedServe :=
  match as_object v with
  | None => failed "Tailscale Serve status must be a JSON object"
  | Some root =>
    _ ← object_field root "TCP";
    _ ← object_field root "Web";
    _ ← object_field root "Foreground";
    funnel ← funnel_status root;
    tcp ← tcp443_status root;
    foreground ← foreground_status root;
    let exposed := funnel || tcp.2 || foreground in
    let bare := {| ob_dns_name := None; ob_proxy := None;
                   ob_occupied := tcp.1 || foreground || funnel;
                   ob_funnel_enabled := exposed |} in
    match json_get root "Web" ≫= as_object with
    | None => Ok bare
    | Some web =>
      rules ← web_rules web;
      if (1 <? zlen rules) || (negb (bool_decide (rules = [])) && negb tcp.1)
      then failed "Tailscale Serve 443 configuration is mixed or incomplete" else
      match rules with
      | (dns_name, proxy) :: _ =>
        Ok {| ob_dns_name := Some dns_name; ob_proxy := Some proxy; ob_occupied := true;
              ob_funnel_enabled := exposed |}
      | [] => Ok bare
      end
    end
  end.

Definition receipt_matches (r : ServeReceipt) (dns proxy : string) (origin : option string) : bool :=
  (sr_https_port r =? 443) && bool_decide (sr_dns_name r = dns) &&
  bool_decide (sr_proxy r = proxy) && bool_decide (sr_proxy r = BACKEND) &&
  bool_decide (sr_public_origin r = default ""%string origin).
Definition inspection_from (v : Json) (receipt : option ServeReceipt) : serve_res ServeInspection :=
  observed ← parse_status v;
  let conflict := {| si_installed := true; si_ownership := Conflict; si_dns_name := None;
                     si_proxy := None; si_public_origin := None; si_restart_required := false |} in
  if negb (ob_occupied observed) then
    Ok {| si_installed := true; si_ownership := Absent; si_dns_name := None; si_proxy := None;
          si_public_origin := None; si_restart_required := false |}
  else
  match ob_dns_name observed, ob_proxy observed with
  | Some dns, Some proxy =>
    let origin := public_origin dns in
    let owned := negb (ob_funnel_enabled observed) &&
                 is_some_and (fun r => receipt_matches r dns proxy origin) receipt in
    Ok {| si_installed := true; si_ownership := if owned then Owned else Conflict;
          si_dns_name := Some dns; si_proxy := Some proxy; si_public_origin := origin;
          si_restart_required := false |}
  | _, _ => Ok conflict
  end.
Definition receipt_from (i : ServeInspection) : result string ServeReceipt :=
  match si_dns_name i with
  | None => Err "Serve status has no DNS name"%string
  | Some dns =>
    match si_public_origin i with
    | None => Err "Serve status has no validated public origin"%string
    | Some o => Ok {| sr_dns_name := dns; sr_proxy := BACKEND; sr_https_port := 443;
                      sr_public_origin := o |}
    end
  end.
Definition restart_required (stored running : option string) : bool :=
  negb (bool_decide (stored = running)).
(** What [update_public_origin] refuses to write. *)
Definition origin_writable (o : option string) : bool :=
  match o with
  | None => true
  | Some o =>
    match str_strip_prefix o "https://" with
    | None => false
    | Some host => bool_decide (public_origin host = Some o)
    end
  end.

(** ** Facts about ownership *)
Lemma web_rule_valid host rule name proxy :
  web_rule host rule = Ok (Some (name, proxy)) -> valid_dns_name name = true.
Proof.
  unfold web_rule. destruct (negb (str_ends_with host ":443")); [done|].
  destruct (valid_dns_name (trim_443 host)) eqn:E; cbn [negb]; [|done].
  intros H. repeat case_match; naive_solver.
Qed.
Lemma web_rules_valid web rules :
  web_rules web = Ok rules -> Forall (fun r => valid_dns_name r.1 = true) rules.
Proof.
  revert rules. induction web as [|[host rule] web IH]; intros rules; cbn [web_rules];
    [by intros [= <-]|].
  destruct (web_rule host rule) as [o|] eqn:Eo; [|done].
  destruct (web_rules web) as [l|]; [|done]. intros [= <-]. destruct o as [[name proxy]|]; [|by apply IH].
  constructor; [by eapply web_rule_valid|by apply IH].
Qed.
Lemma parse_status_valid v o dns :
  parse_status v = Ok o -> ob_dns_name o = Some dns -> valid_dns_name dns = true.
Proof.
  unfold parse_status, mbind, result_bind. destruct (as_object v) as [root|]; [|done].
  intros H Hd. repeat (case_match; try done); simplify_eq/=; try done.
  match goal with H : web_rules _ = Ok _ |- _ => apply web_rules_valid in H;
    by apply Forall_inv in H end.
Qed.
(** Whoever owns the rule can prove it: the receipt names exactly the rule that is
    served, for the agent's own address, and nothing is exposed to the internet. *)
Lemma inspection_owned v receipt i :
  inspection_from v receipt = Ok i -> si_ownership i = Owned ->
  exists r dns, receipt = Some r /\ sr_dns_name r = dns /\ sr_proxy r = BACKEND /\
    sr_https_port r = 443 /\ valid_dns_name dns = true /\
    si_dns_name i = Some dns /\ si_proxy i = Some BACKEND /\
    si_public_origin i = Some (sr_public_origin r) /\ public_origin dns = Some (sr_public_origin r).
Proof.
  unfold inspection_from, mbind, result_bind. destruct (parse_status v) as [o|] eqn:Ep; [|done].
  destruct (ob_occupied o); cbn [negb]; [|by intros [= <-]].
  destruct (ob_dns_name o) as [dns|] eqn:Ed; [|by intros [= <-]].
  destruct (ob_proxy o) as [proxy|]; [|by intros [= <-]]. intros [= <-]. cbn.
  destruct (ob_funnel_enabled o); [done|]. cbn [negb andb].
  destruct receipt as [r|]; [|done]. cbn [is_some_and].
  destruct (receipt_matches r dns proxy (public_origin dns)) eqn:Er; [|done]. intros _.
  pose proof (parse_status_valid _ _ _ Ep Ed) as Hv. unfold receipt_matches in Er.
  assert (public_origin dns = Some ("https://" ++ dns)%string) as Ho
    by (unfold public_origin; by rewrite Hv).
  rewrite Ho in Er. cbn [default] in Er. bools. exists r, dns. rewrite Ho. split; [done|].
  split; [done|]. split; [done|]. split; [done|]. split; [done|]. split; [done|].
  split; [congruence|]. split; f_equal; symmetry; assumption.
Qed.
Lemma inspection_receipt_origin v receipt i r :
  inspection_from v receipt = Ok i -> receipt_from i = Ok r ->
  si_public_origin i = Some (sr_public_origin r).
Proof.
  unfold receipt_from. intros _. destruct (si_dns_name i); [|done].
  destruct (si_public_origin i); [|done]. by intros [= <-].
Qed.

Example inspection_runs :
  let rule := fun p => JObject [("TCP", JObject [("443", JObject [("HTTPS", JBool true)])]);
     ("Web", JObject [("host.ts.net:443", JObject [("Handlers",
        JObject [("/", JObject [("Proxy", JString p)])])])])]%string in
  let r := {| sr_dns_name := "host.ts.net"; sr_proxy := BACKEND; sr_https_port := 443;
              sr_public_origin := "https://host.ts.net" |} in
  let owner := fun v r => match inspection_from v r with Ok i => Some (si_ownership i) | Err _ => None end in
  owner (JObject []) None = Some Absent /\ owner (rule BACKEND) (Some r) = Some Owned /\
  owner (rule BACKEND) None = Some Conflict /\
  owner (rule "http://127.0.0.1:9999") (Some r) = Some Conflict /\
  owner (JObject [("TCP", JNull)]%string) None = None.
Proof. by vm_compute. Qed.
