(* ===== verification/Serve.v ===== *)
(** * The Serve transaction
    ([apps/desktop/src-tauri/src/tailscale.rs] and [main.rs])
    The desktop shell keeps three files in step with a rule of the tailscale
    daemon: the receipt of the rule it made, the agent's [public_origin], and a
    journal of the change under way.  Every call to a file or to the command is an
    effect, so that the process may die between any two of them. *)
From Stdlib Require Import String.
From S2P Require Import Prelude Text Autostart Program Tailscale.
#[global] Open Scope Z_scope.

(** ** Effects *)
Record CommandOutput := { co_success : bool; co_stdout : string }.
Abbreviation io_res A := (result string A) (only parsing).
(** The files hold what was last written: a write goes to a temporary file that is
    renamed, so it happens or fails as a whole. *)
Inductive Eff : Type -> Type :=
| ERun (args : list string) : Eff (io_res CommandOutput)
| EAcquire : Eff (io_res bool)            (* the mutex; whether it was abandoned *)
| EPaths : Eff (io_res unit)
| EPreflight : Eff (io_res unit)
| ELoadPending : Eff (io_res (option PendingServe))
| EWritePending (p : PendingServe) : Eff (io_res unit)
| ERemovePending : Eff (io_res unit)
| ELoadReceipt : Eff (io_res (option ServeReceipt))
| EWriteReceipt (r : ServeReceipt) : Eff (io_res unit)
| ERemoveReceipt : Eff (io_res unit)
| EReadOrigin : Eff (io_res (option string))
| EWriteOrigin (o : option string) : Eff (io_res unit)
| ERunning : Eff (option string)          (* the origin the running agent reports *)
| EAutostart : Eff (io_res AutostartStatus)
| ESetAutostart (enabled : bool) : Eff (io_res unit).

Record World := {
  w_pending : option PendingServe;
  w_receipt : option ServeReceipt;
  w_origin : option string;
  w_log : list (list string * io_res CommandOutput)   (* newest first *)
}.
Definition put_pending (p : option PendingServe) (w : World) : World :=
  {| w_pending := p; w_receipt := w_receipt w; w_origin := w_origin w; w_log := w_log w |}.
Definition put_receipt (r : option ServeReceipt) (w : World) : World :=
  {| w_pending := w_pending w; w_receipt := r; w_origin := w_origin w; w_log := w_log w |}.
Definition put_origin (o : option string) (w : World) : World :=
  {| w_pending := w_pending w; w_receipt := w_receipt w; w_origin := o; w_log := w_log w |}.
Definition put_log (args : list string) (x : io_res CommandOutput) (w : World) : World :=
  {| w_pending := w_pending w; w_receipt := w_receipt w; w_origin := w_origin w;
     w_log := (args, x) :: w_log w |}.

(** A write may fail and then changes nothing; a read may fail; the command may
    answer anything. *)
Definition writes (w w1 w' : World) (x : io_res unit) : Prop :=
  (x = Ok tt /\ w' = w1) \/ (exists e, x = Err e) /\ w' = w.
Definition reads {A} (a : A) (w w' : World) (x : io_res A) : Prop :=
  w' = w /\ (x = Ok a \/ exists e, x = Err e).
Definition eff_step (X : Type) (w : World) (e : Eff X) : World -> X -> Prop :=
  match e in Eff X return World -> X -> Prop with
  | ERun args => fun w' x => w' = put_log args x w
  | EAcquire | EPaths | EPreflight | ERunning | EAutostart | ESetAutostart _ =>
    fun w' _ => w' = w
  | ELoadPending => reads (w_pending w) w
  | EWritePending p => writes w (put_pending (Some p) w)
  | ERemovePending => writes w (put_pending None w)
  | ELoadReceipt => reads (w_receipt w) w
  | EWriteReceipt r => writes w (put_receipt (Some r) w)
  | ERemoveReceipt => writes w (put_receipt None w)
  | EReadOrigin => reads (w_origin w) w
  | EWriteOrigin o => writes w (put_origin o w)
  end.

Section Serve.
Context (parse_json : string -> option Json).

(** ** The command *)
Definition version_cmd : list string := ["version"%string].
Definition serve_status_cmd : list string := ["serve"; "status"; "--json"]%string.
Definition status_cmd : list string := ["status"; "--json"]%string.
Definition apply_cmd : list string := ["serve"; "--bg"; "--yes"; "--https=443"; BACKEND]%string.
Definition remove_cmd : list string := ["serve"; "--yes"; "--https=443"; "off"]%string.

Fixpoint str_contains (s p : string) : bool :=
  str_starts_with s p || match s with EmptyString => false | String _ s' => str_contains s' p end.
Definition cli_error (e : string) : ServeError :=
  if str_contains (to_ascii_lowercase e) "not found" then NotInstalled else Failed e.

(** The part of [inspect_with_receipt] after the status command. *)
Definition read_status (o : io_res CommandOutput) (receipt : option ServeReceipt)
  : result ServeError ServeInspection :=
  match o with
  | Err e => Err (cli_error e)
  | Ok o =>
    if negb (co_success o) then failed "Tailscale Serve status failed" else
    match parse_json (co_stdout o) with
    | None => failed "Tailscale returned invalid Serve status JSON"
    | Some v => inspection_from v receipt
    end
  end.
Definition inspect_with_receipt (receipt : option ServeReceipt) : io Eff ServeError ServeInspection :=
  Call (ERun version_cmd) (fun v =>
    match v with
    | Ok v =>
      if negb (co_success v) then io_err (Failed "Tailscale CLI version check failed") else
      Call (ERun serve_status_cmd) (fun o => Ret (read_status o receipt))
    | Err e => io_err (cli_error e)
    end).
Definition dns_name_of (value : Json) : result string string :=
  match match (json_field value "Self" ≫= (fun v => json_field v "DNSName")) ≫= as_str with
        | Some r => Some r
        | None => json_field value "DNSName" ≫= as_str
        end with
  | None => Err "Tailscale status has no DNS name"%string
  | Some raw =>
    let name := default raw (str_strip_suffix raw ".") in
    if valid_dns_name name then Ok name else Err "Tailscale status has an invalid DNS name"%string
  end.
Definition expected_dns_name : io Eff string string :=
  Call (ERun status_cmd) (fun o =>
    match o with
    | Err e => io_err e
    | Ok o =>
      if negb (co_success o) then io_err "Tailscale status query failed"%string else
      match parse_json (co_stdout o) with
      | None => io_err "Tailscale returned invalid status JSON"%string
      | Some value => io_lift (dns_name_of value)
      end
    end).

Definition plan_args (plan : ServePlan) (o : ServeOwnership) : option (list string) :=
  match plan, o with
  | Apply, Absent => Some apply_cmd
  | Remove, Owned => Some remove_cmd
  | _, _ => None
  end.
Definition serve_apply (plan : ServePlan) (current : ServeInspection)
  : io Eff ServeError ServeInspection :=
  match plan_args plan (si_ownership current) with
  | None => io_err (Failed
      "Serve configuration changed or is not exclusively owned by RemoteCodex")
  | Some args =>
    Call (ERun args) (fun o =>
      match o with
      | Err e => io_err (Failed e)
      | Ok o =>
        if negb (co_success o) then io_err CommandFailed else
        (a <- inspect_with_receipt None ;;
         match plan with
         | Apply =>
           candidate <- io_lift (map_err Failed (receipt_from a)) ;;
           verified <- inspect_with_receipt (Some candidate) ;;
           if bool_decide (si_ownership verified = Owned) then io_ok verified
           else io_err (Failed "Tailscale Serve postcondition was not an exclusive RemoteCodex rule")
         | Remove =>
           if bool_decide (si_ownership a = Absent) then io_ok a
           else io_err (Failed "Tailscale Serve postcondition was not met")
         end)%rc
      end)
  end.

(** ** The files *)
Definition update_public_origin (o : option string) : io Eff string unit :=
  if origin_writable o then call (EWriteOrigin o) else io_err "Invalid public_origin"%string.
Definition read_public_origin : io Eff string (option string) :=
  (o <- call EReadOrigin ;;
   if origin_writable o then io_ok o else io_err "Agent public_origin is invalid"%string)%rc.
(** [restart_required] against the running agent. *)
Definition with_restart (i : ServeInspection) : io Eff string ServeInspection :=
  (stored <- read_public_origin ;;
   Call ERunning (fun running =>
     io_ok {| si_installed := si_installed i; si_ownership := si_ownership i;
              si_dns_name := si_dns_name i; si_proxy := si_proxy i;
              si_public_origin := si_public_origin i;
              si_restart_required := restart_required stored running |}))%rc.

(** ** The three operations *)
Definition interrupted : string :=
  "A previous settings transaction was interrupted without a recovery journal".
(** What the journal and the rule that is served give as the receipt. *)
Definition recovery_candidate (p : PendingServe) (value : ServeInspection) : option ServeReceipt :=
  match ps_receipt p with
  | Some r => Some r
  | None =>
    if bool_decide (si_proxy value = Some (ps_expected_proxy p)) &&
       bool_decide (si_dns_name value = ps_expected_dns_name p)
    then match receipt_from value with Ok r => Some r | Err _ => None end else None
  end.
(** Completing the change that the journal records, where the rule shows it. *)
Definition recover (pending : option PendingServe) (value : ServeInspection)
  : io Eff string ServeInspection :=
  match pending with
  | None => io_ok value
  | Some p =>
    if ps_enabled p then
      match recovery_candidate p value with
      | None => io_ok value
      | Some candidate =>
        (verified <- io_map_err serve_error_string (inspect_with_receipt (Some candidate)) ;;
         if bool_decide (si_ownership verified = Owned) then
           _ <- call (EWriteReceipt candidate) ;;
           _ <- update_public_origin (si_public_origin verified) ;;
           _ <- call ERemovePending ;;
           io_ok verified
         else io_ok value)%rc
      end
    else if bool_decide (si_ownership value = Absent) then
      (_ <- call ERemoveReceipt ;;
       _ <- update_public_origin None ;;
       _ <- call ERemovePending ;;
       io_ok value)%rc
    else io_ok value
  end.
Definition tailscale_status : io Eff string ServeInspection :=
  (abandoned <- call EAcquire ;;
   _ <- call EPaths ;;
   receipt <- call ELoadReceipt ;;
   pending <- call ELoadPending ;;
   if (abandoned : bool) && option_is_none pending then io_err interrupted else
   prog_bind (inspect_with_receipt receipt) (fun r =>
     match r with
     | Ok value => value <- recover pending value ;; with_restart value
     | Err NotInstalled => io_ok not_installed
     | Err e => io_err (serve_error_string e)
     end))%rc.

(** A failed command leaves nothing to recover; other failures keep the journal. *)
Definition apply_or_retract (plan : ServePlan) (current : ServeInspection)
  : io Eff string ServeInspection :=
  prog_bind (serve_apply plan current) (fun r =>
    match r with
    | Ok value => io_ok value
    | Err CommandFailed =>
      (_ <- call ERemovePending ;; io_err (serve_error_string CommandFailed))%rc
    | Err e => io_err (serve_error_string e)
    end).
Definition enable_serve (current : ServeInspection) : io Eff string ServeInspection :=
  (dns <- expected_dns_name ;;
   let journal := fun r => {| ps_enabled := true; ps_receipt := r;
                              ps_expected_dns_name := Some dns; ps_expected_proxy := BACKEND |} in
   _ <- call (EWritePending (journal None)) ;;
   after <- apply_or_retract Apply current ;;
   new_receipt <- io_lift (receipt_from after) ;;
   _ <- call (EWritePending (journal (Some new_receipt))) ;;
   _ <- call (EWriteReceipt new_receipt) ;;
   _ <- update_public_origin (si_public_origin after) ;;
   _ <- call ERemovePending ;;
   with_restart after)%rc.
Definition disable_serve (current : ServeInspection) (receipt : option ServeReceipt)
  : io Eff string ServeInspection :=
  if negb (bool_decide (si_ownership current = Owned)) || option_is_none receipt
  then io_err "Only a matching RemoteCodex Serve receipt can be removed"%string else
  (_ <- call (EWritePending {| ps_enabled := false; ps_receipt := receipt;
                               ps_expected_dns_name := si_dns_name current;
                               ps_expected_proxy := BACKEND |}) ;;
   after <- apply_or_retract Remove current ;;
   _ <- call ERemoveReceipt ;;
   _ <- update_public_origin None ;;
   _ <- call ERemovePending ;;
   with_restart after)%rc.
Definition set_tailscale_serve (request : ServeRequest) : io Eff string ServeInspection :=
  if negb (sq_consent request) then io_err "Explicit consent is required"%string else
  (abandoned <- call EAcquire ;;
   _ <- call EPaths ;;
   _ <- call EPreflight ;;
   _ <- (if (abandoned : bool) then
           p <- call ELoadPending ;;
           if option_is_none p then io_err interrupted else io_ok tt
         else io_ok tt) ;;
   pending <- call ELoadPending ;;
   if option_is_some pending
   then io_err "A previous settings transaction requires recovery before a new change"%string else
   receipt <- call ELoadReceipt ;;
   current <- io_map_err serve_error_string (inspect_with_receipt receipt) ;;
   if sq_enabled request && negb (bool_decide (si_ownership current = Absent))
   then io_err "Serve 443 is not exclusively unused"%string else
   if sq_enabled request then enable_serve current else disable_serve current receipt)%rc.

(** [uninstall_cleanup]; it does not retract the journal of a failed command, and
    clears the files of a rule that is gone without one. *)
Definition clear_files (after : io Eff string unit) : io Eff string unit :=
  (_ <- call ERemoveReceipt ;;
   _ <- update_public_origin None ;;
   _ <- call ERemovePending ;; after)%rc.
Definition cleanup_serve (current : ServeInspection) (matching : ServeReceipt)
  (after : io Eff string unit) : io Eff string unit :=
  (_ <- call EPreflight ;;
   match si_ownership current with
   | Owned =>
     _ <- call (EWritePending {| ps_enabled := false; ps_receipt := Some matching;
                                 ps_expected_dns_name := Some (sr_dns_name matching);
                                 ps_expected_proxy := sr_proxy matching |}) ;;
     a <- io_map_err serve_error_string (serve_apply Remove current) ;;
     if negb (bool_decide (si_ownership a = Absent))
     then io_err "Owned Serve rule did not clear"%string else clear_files after
   | Absent => clear_files after
   | Conflict => io_err "Serve ownership could not be verified"%string
   end)%rc.
Definition uninstall_cleanup : io Eff string unit :=
  (abandoned <- call EAcquire ;;
   _ <- call EPaths ;;
   autostart <- call EAutostart ;;
   if bool_decide (autostart = Autostart.Conflict)
   then io_err "A foreign autostart value is present"%string else
   _ <- (if (abandoned : bool) then
           p <- call ELoadPending ;;
           if option_is_none p then io_err interrupted else io_ok tt
         else io_ok tt) ;;
   pending <- call ELoadPending ;;
   if option_is_some pending
   then io_err "A pending Serve transaction requires recovery before uninstall cleanup"%string else
   receipt <- call ELoadReceipt ;;
   let disable := if bool_decide (autostart = Autostart.Enabled) then call (ESetAutostart false)
                  else io_ok tt in
   prog_bind (inspect_with_receipt receipt) (fun r =>
     match r, receipt with
     | Ok current, Some matching => cleanup_serve current matching disable
     | Ok _, None | Err NotInstalled, None => disable
     | Err e, _ => io_err (serve_error_string e)
     end))%rc.

(** ** What every command is preceded by *)
Definition read_only (args : list string) : bool :=
  bool_decide (args ∈ [version_cmd; serve_status_cmd; status_cmd]).
Definition status_json (x : io_res CommandOutput) : option Json :=
  match x with
  | Ok o => if co_success o then parse_json (co_stdout o) else None
  | Err _ => None
  end.
(** The last status of Serve, unless a command was run since. *)
Fixpoint last_status (log : list (list string * io_res CommandOutput)) : option Json :=
  match log with
  | [] => None
  | (args, x) :: rest =>
    if bool_decide (args = serve_status_cmd) then status_json x
    else if read_only args then last_status rest else None
  end.
(** The last status was read with [receipt] as [i]. *)
Definition inspected (log : list (list string * io_res CommandOutput))
    (receipt : option ServeReceipt) (i : ServeInspection) : Prop :=
  exists v, last_status log = Some v /\ inspection_from v receipt = Ok i.
Definition justified (log : list (list string * io_res CommandOutput)) (args : list string) : Prop :=
  read_only args = true \/
  (args = apply_cmd /\ exists receipt i, inspected log receipt i /\ si_ownership i = Absent) \/
  (args = remove_cmd /\ exists receipt i, inspected log (Some receipt) i /\ si_ownership i = Owned).
Fixpoint log_ok (log : list (list string * io_res CommandOutput)) : Prop :=
  match log with
  | [] => True
  | (args, _) :: rest => justified rest args /\ log_ok rest
  end.

(** The files agree unless a journal says that a change is under way. *)
Definition files_agree (p : option PendingServe) (r : option ServeReceipt) (o : option string) : Prop :=
  p = None -> o = option_map sr_public_origin r.
Definition same_files (w w' : World) : Prop :=
  w_pending w' = w_pending w /\ w_receipt w' = w_receipt w /\ w_origin w' = w_origin w.

Section Safety.
(** A property [F] of the files, beside the log. *)
Context (F : option PendingServe -> option ServeReceipt -> option string -> Prop).
Definition serve_inv (w : World) : Prop :=
  log_ok (w_log w) /\ F (w_pending w) (w_receipt w) (w_origin w).

Lemma serve_inv_log args x w :
  serve_inv w -> justified (w_log w) args -> serve_inv (put_log args x w).
Proof. by intros [Hl Hf] Hj. Qed.
Lemma same_files_refl w : same_files w w.
Proof. done. Qed.
Lemma same_files_trans w1 w2 w3 : same_files w1 w2 -> same_files w2 w3 -> same_files w1 w3.
Proof. intros (?&?&?) (?&?&?). repeat split; congruence. Qed.
Lemma read_status_Ok x receipt i :
  read_status x receipt = Ok i ->
  exists v, status_json x = Some v /\ inspection_from v receipt = Ok i.
Proof.
  unfold read_status, status_json. destruct x as [o|]; [|done]. destruct (co_success o); [|done].
  cbn [negb]. destruct (parse_json (co_stdout o)) as [v|]; [|done]. eauto.
Qed.

Lemma inspect_safe receipt w :
  serve_inv w ->
  safe eff_step serve_inv (inspect_with_receipt receipt) w (fun w' r =>
    same_files w w' /\ match r with Ok i => inspected (w_log w') receipt i | Err _ => True end).
Proof.
  intros Hw. split; [done|]. intros w1 x ->.
  pose proof (serve_inv_log version_cmd x w Hw (or_introl eq_refl)) as Hw1.
  destruct x as [v|e]; [|by split]. destruct (co_success v); [|by split].
  split; [done|]. intros w2 y ->.
  pose proof (serve_inv_log serve_status_cmd y _ Hw1 (or_introl eq_refl)) as Hw2.
  split; [done|]. split; [done|]. destruct (read_status y receipt) as [i|] eqn:E; [|done].
  apply read_status_Ok in E as (v' & Hv & Hi). by exists v'.
Qed.
Lemma expected_dns_name_safe w receipt i :
  serve_inv w -> inspected (w_log w) receipt i ->
  safe eff_step serve_inv expected_dns_name w (fun w' _ =>
    same_files w w' /\ inspected (w_log w') receipt i).
Proof.
  intros Hw Hi. split; [done|]. intros w1 x ->.
  pose proof (serve_inv_log status_cmd x w Hw (or_introl eq_refl)) as Hw1.
  assert (forall r : result string string, safe eff_step serve_inv (Ret r) (put_log status_cmd x w)
    (fun w' _ => same_files w w' /\ inspected (w_log w') receipt i)) as Hret by (by split).
  destruct x as [o|e]; [|apply Hret]. destruct (co_success o); [|apply Hret].
  cbn [negb]. destruct (parse_json (co_stdout o)); apply Hret.
Qed.

(** [apply] leaves the files alone; what it answers was verified. *)
Definition applied (plan : ServePlan) (a : ServeInspection) : Prop :=
  match plan with
  | Apply => exists v c, inspection_from v (Some c) = Ok a /\ si_ownership a = Owned
  | Remove => si_ownership a = Absent
  end.
Lemma plan_args_justified plan current args log receipt :
  plan_args plan (si_ownership current) = Some args -> inspected log receipt current ->
  justified log args.
Proof.
  intros Hp Hi. destruct plan, (si_ownership current) eqn:E; try done; cbn in Hp; simplify_eq.
  - right. left. eauto.
  - right. right. split; [done|]. destruct Hi as (v & Hl & Hi).
    destruct (inspection_owned v receipt current Hi E) as (r & _ & -> & _).
    exists r, current. by split; [exists v|].
Qed.
Lemma serve_apply_safe plan current receipt w :
  serve_inv w -> inspected (w_log w) receipt current ->
  safe eff_step serve_inv (serve_apply plan current) w (fun w' r =>
    same_files w w' /\ match r with Ok a => applied plan a | Err _ => True end).
Proof.
  intros Hw Hi. unfold serve_apply.
  destruct (plan_args plan (si_ownership current)) as [args|] eqn:Ep; [|by split].
  split; [done|]. intros w1 x ->.
  pose proof (serve_inv_log args x w Hw (plan_args_justified _ _ _ _ _ Ep Hi)) as Hw1.
  destruct x as [o|e]; [|by split]. destruct (co_success o); [|by split]. cbn [negb].
  eapply (safe_io_bind eff_step _ _ _ _ (fun w' _ => same_files w w')).
  { eapply safe_mono; [by apply inspect_safe|]. intros w' [i|e] [Hs _]; [done|by split]. }
  intros w2 a Hw2 Hs2. destruct plan; cycle 1.
  { destruct (bool_decide _) eqn:Ea; bools; split; try done; by split. }
  destruct (receipt_from a) as [c|] eqn:Ec; cycle 1.
  { by split. }
  cbn [map_err io_lift io_bind prog_bind].
  eapply (safe_io_bind eff_step _ _ _ _ (fun w' i => same_files w w' /\ inspected (w_log w') (Some c) i)).
  { eapply safe_mono; [by apply inspect_safe|]. intros w' [i|e] [Hs Hi']; (split; [|done]);
      by eapply same_files_trans. }
  intros w3 i Hw3 [Hs3 (v & Hl & Hv)]. destruct (bool_decide _) eqn:Eo; bools; split; try done.
  split; [done|]. by exists v, c.
Qed.
End Safety.

(** ** Every cut leaves the files in step *)
Lemma safe_call {X B} I (e : Eff (io_res X)) (f : X -> io Eff string B) w :
  I w -> (forall w' err, eff_step _ w e w' (Err err) -> I w') ->
  (forall w' a, eff_step _ w e w' (Ok a) -> safe eff_step I (f a) w' (fun _ _ => True)) ->
  safe eff_step I (io_bind (call e) f) w (fun _ _ => True).
Proof.
  intros Hw He Ho. split; [done|]. intros w' [a|err] Hs; [by apply Ho|].
  split; [by eapply He|done].
Qed.
(** Calls that change no file, and writes. *)
Lemma safe_quiet {X B} I (e : Eff (io_res X)) (f : X -> io Eff string B) w :
  I w -> (forall w' x, eff_step _ w e w' x -> w' = w) ->
  (forall a, eff_step _ w e w (Ok a) -> safe eff_step I (f a) w (fun _ _ => True)) ->
  safe eff_step I (io_bind (call e) f) w (fun _ _ => True).
Proof.
  intros Hw He Ho. apply safe_call; [done| |].
  - intros w' err Hs. by rewrite (He _ _ Hs).
  - intros w' a Hs. pose proof (He _ _ Hs). subst w'. by apply Ho.
Qed.
Lemma safe_write {B} I (e : Eff (io_res unit)) (f : unit -> io Eff string B) w w1 :
  I w -> (forall w' x, eff_step _ w e w' x -> writes w w1 w' x) ->
  safe eff_step I (f tt) w1 (fun _ _ => True) ->
  safe eff_step I (io_bind (call e) f) w (fun _ _ => True).
Proof.
  intros Hw He Ho. apply safe_call; [done| |].
  - intros w' err Hs. destruct (He _ _ Hs) as [[? _]|[_ ->]]; [done|done].
  - intros w' [] Hs. destruct (He _ _ Hs) as [[_ ->]|[[? ?] _]]; [done|done].
Qed.
Lemma safe_update_origin {B} I o (f : unit -> io Eff string B) w :
  I w -> safe eff_step I (f tt) (put_origin o w) (fun _ _ => True) ->
  safe eff_step I (io_bind (update_public_origin o) f) w (fun _ _ => True).
Proof.
  intros Hw Ho. unfold update_public_origin. destruct (origin_writable o); [|by split].
  by eapply safe_write; [done|by intros|].
Qed.
Lemma safe_done {A} I (a : A) w : I w -> safe eff_step I (Ret a) w (fun _ _ => True).
Proof. by split. Qed.
Lemma with_restart_safe I i w : I w -> safe eff_step I (with_restart i) w (fun _ _ => True).
Proof.
  intros Hw. split; [done|]. intros w' [o|e] [-> _]; [|by split]. cbn.
  destruct (origin_writable o); [|by split].
  split; [done|]. intros w1 r ->. by split.
Qed.
Lemma inv_files F w w1 :
  serve_inv F w -> w_log w1 = w_log w -> F (w_pending w1) (w_receipt w1) (w_origin w1) ->
  serve_inv F w1.
Proof. intros [Hl _] El Hf. split; [by rewrite El|done]. Qed.

Section Cuts.
Context (F : option PendingServe -> option ServeReceipt -> option string -> Prop)
  (agree_pending : forall p r o, p <> None -> F p r o)
  (agree_settled : forall r, F None r (option_map sr_public_origin r)).
Abbreviation agree := (serve_inv F).

(** The last steps of every change, once a journal is in place. *)
Lemma finish_safe {B} (r : option ServeReceipt) o (k : io Eff string B) w :
  agree w -> w_pending w <> None -> w_receipt w = r -> o = option_map sr_public_origin r ->
  (forall w', agree w' -> safe eff_step agree k w' (fun _ _ => True)) ->
  safe eff_step agree
    (io_bind (update_public_origin o) (fun _ => io_bind (call ERemovePending) (fun _ => k)))
    w (fun _ _ => True).
Proof.
  intros Hw Hp Hr Ho Hk. apply safe_update_origin; [done|].
  assert (agree (put_origin o w)) as Hw1 by (by eapply inv_files, agree_pending).
  eapply safe_write; [done|by intros|]. apply Hk.
  eapply inv_files; [exact Hw1|done|]. cbn. rewrite Hr, Ho. apply agree_settled.
Qed.
Lemma apply_or_retract_safe plan current receipt w w0 :
  agree w -> inspected (w_log w) receipt current ->
  agree w0 -> w_pending w0 = None -> w_receipt w = w_receipt w0 -> w_origin w = w_origin w0 ->
  w_pending w <> None ->
  safe eff_step agree (apply_or_retract plan current) w (fun w' r =>
    match r with Ok a => same_files w w' /\ applied plan a | Err _ => True end).
Proof.
  intros Hw Hi Hw0 Hp0 Hr0 Ho0 Hp. unfold apply_or_retract.
  eapply safe_bind; [by eapply serve_apply_safe|].
  intros w1 [a|e] Hw1 [Hs Ha]; [by split|]. destruct e; try by split.
  eapply safe_mono; [|intros w' r Hr; exact Hr].
  split; [done|]. intros w2 x Hst. destruct Hst as [[-> ->]|[[e ->] ->]]; [|by split].
  split; [|done]. destruct Hs as (Hs1 & Hs2 & Hs3).
  eapply inv_files; [exact Hw1|done|]. cbn. rewrite Hs2, Hs3, Hr0, Ho0, <- Hp0. apply Hw0.
Qed.
Lemma enable_safe current receipt w :
  agree w -> w_pending w = None -> inspected (w_log w) receipt current ->
  safe eff_step agree (enable_serve current) w (fun _ _ => True).
Proof.
  intros Hw Hp Hi. unfold enable_serve.
  eapply (safe_io_bind eff_step _ _ _ _ (fun w' _ => same_files w w' /\ inspected (w_log w') receipt current)).
  { eapply safe_mono; [by apply expected_dns_name_safe|]. by intros w' [] H. }
  intros w1 dns Hw1 [(Hs1 & Hs2 & Hs3) Hi1]. cbn zeta.
  set (journal := fun r => {| ps_enabled := true; ps_receipt := r;
    ps_expected_dns_name := Some dns; ps_expected_proxy := BACKEND |}).
  eapply safe_write; [done|by intros|]. set (w2 := put_pending (Some (journal None)) w1).
  assert (agree w2) as Hw2 by (by eapply inv_files, agree_pending).
  eapply safe_io_bind.
  { eapply safe_mono; [eapply (apply_or_retract_safe Apply current receipt w2 w1); try done; congruence|].
    intros w' [a|e] H; exact H. }
  intros w3 after Hw3 [(Hf1 & Hf2 & Hf3) (v & c & Hv & Ho)].
  destruct (receipt_from after) as [r|e] eqn:Er; [|by split].
  cbn [io_lift io_bind prog_bind]. pose proof (inspection_receipt_origin _ _ _ _ Hv Er) as Hor.
  eapply safe_write; [done|by intros|].
  eapply safe_write; [by eapply inv_files, agree_pending|by intros|].
  eapply (finish_safe (Some r)); [by eapply inv_files, agree_pending|done|done|done|].
  intros w' Hw'. by apply with_restart_safe.
Qed.
Lemma disable_safe current receipt w :
  agree w -> w_pending w = None -> inspected (w_log w) receipt current ->
  safe eff_step agree (disable_serve current receipt) w (fun _ _ => True).
Proof.
  intros Hw Hp Hi. unfold disable_serve. destruct (_ || _); [by split|].
  eapply safe_write; [done|by intros|]. set (w2 := put_pending _ w).
  assert (agree w2) as Hw2 by (by eapply inv_files, agree_pending).
  eapply safe_io_bind.
  { eapply safe_mono; [eapply (apply_or_retract_safe Remove current receipt w2 w); try done|].
    intros w' [a|e] H; exact H. }
  intros w3 after Hw3 [(Hf1 & Hf2 & Hf3) _].
  assert (w_pending w3 <> None) as Hp3 by (by rewrite Hf1).
  eapply safe_write; [done|by intros|].
  eapply (finish_safe None); [by eapply inv_files, agree_pending|done|done|done|].
  intros w' Hw'. by apply with_restart_safe.
Qed.

Lemma inspect_mapped_safe receipt w :
  agree w ->
  safe eff_step agree (io_map_err serve_error_string (inspect_with_receipt receipt)) w
    (fun w' r => match r with
                 | Ok i => same_files w w' /\ inspected (w_log w') receipt i
                 | Err _ => True
                 end).
Proof.
  intros Hw. eapply safe_bind; [by apply inspect_safe|].
  intros w' [i|e] HI [Hs Hi]; by apply safe_ret.
Qed.
Lemma recover_safe pending value w :
  agree w -> w_pending w = pending ->
  safe eff_step agree (recover pending value) w (fun _ _ => True).
Proof.
  intros Hw Hp. unfold recover. destruct pending as [p|]; [|by split].
  assert (forall w', agree w' -> safe eff_step agree (io_ok (E := string) value) w' (fun _ _ => True))
    as Hok by (by intros; split).
  destruct (ps_enabled p).
  - destruct (recovery_candidate p value) as [c|]; [|by apply Hok].
    eapply (safe_io_bind eff_step _ _ _ _ (fun w' i => same_files w w' /\ inspected (w_log w') (Some c) i)).
    { by apply inspect_mapped_safe. }
    intros w1 verified Hw1 [(Hs1 & Hs2 & Hs3) (v & Hl & Hv)].
    destruct (bool_decide (si_ownership verified = Owned)) eqn:Eo; [|by apply safe_done]. bools.
    destruct (inspection_owned _ _ _ Hv Eo) as (r & dns & [= <-] & _ & _ & _ & _ & _ & _ & Hor & _).
    assert (w_pending w1 <> None) as Hp1 by (by rewrite Hs1, Hp).
    eapply safe_write; [done|by intros|].
    eapply (finish_safe (Some c)); [by eapply inv_files; eauto|done|done|done|].
    intros w' Hw'. by apply safe_done.
  - destruct (bool_decide (si_ownership value = Absent)); [|by apply Hok].
    assert (w_pending w <> None) as Hp1 by (by rewrite Hp).
    eapply safe_write; [done|by intros|].
    eapply (finish_safe None); [by eapply inv_files; eauto|done|done|done|]. done.
Qed.
Lemma tailscale_status_safe w :
  agree w -> safe eff_step agree tailscale_status w (fun _ _ => True).
Proof.
  intros Hw. unfold tailscale_status.
  eapply safe_quiet; [done|done|]. intros abandoned _.
  eapply safe_quiet; [done|done|]. intros _ _.
  eapply safe_quiet; [done|by intros ? ? [? _]|]. intros receipt _.
  eapply safe_quiet; [done|by intros ? ? [? _]|]. intros pending [_ Hp].
  assert (w_pending w = pending) as Hpw by (destruct Hp as [[= ->]|[? ?]]; done).
  destruct (abandoned && option_is_none pending); [by split|].
  eapply safe_bind; [by apply inspect_safe|]. intros w1 [value|e] Hw1 [(Hs1 & _) _].
  - eapply (safe_io_bind eff_step _ _ _ _ (fun _ _ => True)).
    + eapply safe_mono; [apply recover_safe; [done|congruence]|]. by intros ? [].
    + intros w2 v Hw2 _. by apply with_restart_safe.
  - destruct e; by split.
Qed.

(** The common head of the two changing operations. *)
Lemma checked_journal_safe {B} (abandoned : bool) (k : io Eff string B) w :
  agree w ->
  (w_pending w = None -> safe eff_step agree k w (fun _ _ => True)) ->
  forall e,
  safe eff_step agree
    (io_bind (if abandoned then io_bind (call ELoadPending) (fun p =>
                if option_is_none p then io_err interrupted else io_ok tt) else io_ok tt)
       (fun _ => io_bind (call ELoadPending) (fun p => if option_is_some p then io_err e else k)))
    w (fun _ _ => True).
Proof.
  intros Hw Hk e. eapply (safe_io_bind eff_step _ _ _ _ (fun w' _ => w' = w)).
  - destruct abandoned; [|by split]. split; [done|]. intros w1 [p|err] [-> _]; [|by split].
    destruct p; by split.
  - intros w1 _ _ ->. eapply safe_quiet; [done|by intros ? ? [? _]|]. intros p [_ Hp].
    destruct Hp as [[= ->]|[? ?]]; [|done].
    destruct (w_pending w) eqn:E; [by split|by apply Hk].
Qed.
Lemma set_tailscale_serve_safe request w :
  agree w -> safe eff_step agree (set_tailscale_serve request) w (fun _ _ => True).
Proof.
  intros Hw. unfold set_tailscale_serve. destruct (negb (sq_consent request)); [by split|].
  eapply safe_quiet; [done|done|]. intros abandoned _.
  eapply safe_quiet; [done|done|]. intros _ _.
  eapply safe_quiet; [done|done|]. intros _ _.
  apply checked_journal_safe; [done|]. intros Hp.
  eapply safe_quiet; [done|by intros ? ? [? _]|]. intros receipt _.
  eapply (safe_io_bind eff_step _ _ _ _ (fun w' i => same_files w w' /\ inspected (w_log w') receipt i)).
  { by apply inspect_mapped_safe. }
  intros w1 current Hw1 [(Hs1 & _) Hi].
  assert (w_pending w1 = None) as Hp1 by congruence.
  destruct (_ && _); [by split|].
  destruct (sq_enabled request); [by eapply enable_safe|by eapply disable_safe].
Qed.
End Cuts.

(** ** Uninstalling: only the commands are guarded *)
Abbreviation any_files := (serve_inv (fun _ _ _ => True)) (only parsing).
Lemma any_files_log w w1 : any_files w -> w_log w1 = w_log w -> any_files w1.
Proof. intros Hw El. by eapply inv_files. Qed.
Lemma clear_files_safe after w :
  any_files w -> (forall w', any_files w' -> safe eff_step any_files after w' (fun _ _ => True)) ->
  safe eff_step any_files (clear_files after) w (fun _ _ => True).
Proof.
  intros Hw Ha. unfold clear_files. eapply safe_write; [done|by intros|].
  apply safe_update_origin; [by eapply any_files_log|].
  eapply safe_write; [by eapply any_files_log|by intros|]. apply Ha. by eapply any_files_log.
Qed.
Lemma uninstall_cleanup_safe w :
  any_files w -> safe eff_step any_files uninstall_cleanup w (fun _ _ => True).
Proof.
  intros Hw. unfold uninstall_cleanup.
  eapply safe_quiet; [done|done|]. intros abandoned _.
  eapply safe_quiet; [done|done|]. intros _ _.
  eapply safe_quiet; [done|done|]. intros autostart _.
  destruct (bool_decide (autostart = Autostart.Conflict)); [by split|].
  apply (checked_journal_safe (fun _ _ _ => True)); [done|]. intros _.
  eapply safe_quiet; [done|by intros ? ? [? _]|]. intros receipt _. cbn zeta.
  assert (forall w', any_files w' -> safe eff_step any_files
    (if bool_decide (autostart = Autostart.Enabled) then call (ESetAutostart false) else io_ok tt) w'
    (fun _ _ => True)) as Hd.
  { intros w' Hw'. destruct (bool_decide _); [|by split]. split; [done|]. intros w1 x ->. by split. }
  eapply safe_bind; [by apply inspect_safe|]. intros w1 [current|e] Hw1 [_ Hi].
  - destruct receipt as [matching|]; [|by apply Hd]. unfold cleanup_serve.
    eapply safe_quiet; [done|done|]. intros _ _. destruct (si_ownership current).
    + by apply clear_files_safe.
    + eapply safe_write; [done|by intros|]. set (w2 := put_pending _ w1).
      assert (any_files w2) as Hw2 by (by eapply any_files_log).
      eapply (safe_io_bind eff_step _ _ _ _ (fun _ _ => True)).
      * eapply safe_bind; [by eapply serve_apply_safe|]. intros w3 [a|e] Hw3 _; by apply safe_ret.
      * intros w3 a Hw3 _. destruct (negb _); [by split|]. by apply clear_files_safe.
    + by split.
  - destruct e, receipt; try (by split). by apply Hd.
Qed.

(** ** Runs of the operations, each one cut off anywhere *)
Inductive ServeOp : Type := OpStatus | OpSet (request : ServeRequest) | OpUninstall.
Definition serve_op (step : forall X, World -> Eff X -> World -> X -> Prop) (op : ServeOp)
    (w w' : World) : Prop :=
  match op with
  | OpStatus => exists r, exec step w tailscale_status w' r
  | OpSet request => exists r, exec step w (set_tailscale_serve request) w' r
  | OpUninstall => exists r, exec step w uninstall_cleanup w' r
  end.
Definition serve_step (w w' : World) : Prop := exists op, serve_op eff_step op w w'.
Definition settings_step (w w' : World) : Prop :=
  exists op, op <> OpUninstall /\ serve_op eff_step op w w'.

Lemma serve_step_any w w' : any_files w -> serve_step w w' -> any_files w'.
Proof.
  intros Hw [[|request|] [r He]]; (eapply safe_exec; [|exact He]).
  - by apply tailscale_status_safe.
  - by apply set_tailscale_serve_safe.
  - by apply uninstall_cleanup_safe.
Qed.
Lemma settings_step_agree w w' :
  serve_inv files_agree w -> settings_step w w' -> serve_inv files_agree w'.
Proof.
  intros Hw [[|request|] [Hop Hr]]; [| |done]; destruct Hr as [r He];
    (eapply safe_exec; [|exact He]).
  - apply tailscale_status_safe; [by intros ? ? ? ? ?|by intros ? ?|done].
  - apply set_tailscale_serve_safe; [by intros ? ? ? ? ?|by intros ? ?|done].
Qed.

(** C34: the desktop shell never touches a rule of the tailscale daemon that is
    not its own.  In every run of the three operations, each cut off anywhere and
    whatever the command answers, the only commands besides queries are: making
    the rule for the agent's own address, directly after a status in which HTTPS
    443 was unused, and removing it, directly after a status in which the rule was
    exactly the one of a receipt, for the agent's address, and not exposed. *)
Theorem serve_commands_justified w w' later args x earlier :
  w_log w = [] -> steps serve_step w w' -> w_log w' = later ++ (args, x) :: earlier ->
  read_only args = true \/
  (args = apply_cmd /\ exists receipt i, inspected earlier receipt i /\ si_ownership i = Absent) \/
  (args = remove_cmd /\ exists receipt i dns, inspected earlier (Some receipt) i /\
     sr_dns_name receipt = dns /\ valid_dns_name dns = true /\ si_dns_name i = Some dns /\
     si_proxy i = Some BACKEND /\ sr_https_port receipt = 443).
Proof.
  intros Hl Hs He. assert (any_files w') as [Hlog _].
  { eapply (steps_invariant serve_step any_files); [|exact Hs|]; [intros; by eapply serve_step_any|].
    split; [by rewrite Hl|done]. }
  rewrite He in Hlog. clear He. induction later as [|[a y] later IH]; [|by apply IH; destruct Hlog].
  destruct Hlog as [[H|[H|(-> & receipt & i & Hi & Ho)]] _]; [by left|by right; left|].
  right. right. split; [done|]. destruct Hi as (v & Hv & Hf).
  destruct (inspection_owned _ _ _ Hf Ho) as (r & dns & [= <-] & Hd & _ & Hp & Hva & Hdn & Hpr & _).
  exists receipt, i, dns. by split; [exists v|].
Qed.

(** C35: killing the shell never leaves the files out of step.  Whatever sequence
    of status and change requests runs, each cut off at any point and with any
    failure of a file or of the command, the agent's public origin is the one of
    the receipt (or neither exists) unless a journal of the change is present. *)
Theorem serve_files_consistent w w' :
  w_log w = [] -> files_agree (w_pending w) (w_receipt w) (w_origin w) ->
  steps settings_step w w' ->
  w_pending w' = None -> w_origin w' = option_map sr_public_origin (w_receipt w').
Proof.
  intros Hl Hf Hs. assert (serve_inv files_agree w') as [_ H]; [|exact H].
  eapply (steps_invariant settings_step (serve_inv files_agree)); [|exact Hs|].
  - intros; by eapply settings_step_agree.
  - split; [by rewrite Hl|done].
Qed.

(** ** Completing a journal *)
(** A world in which the daemon serves [v] and nothing fails. *)
Definition answers_rule (v : Json) (X : Type) (e : Eff X) : X -> Prop :=
  match e in Eff X return X -> Prop with
  | ERun args => fun x => exists o, x = Ok o /\ co_success o = true /\
      (args = serve_status_cmd -> parse_json (co_stdout o) = Some v)
  | EAcquire | EPaths | EPreflight | ELoadPending | EWritePending _ | ERemovePending
  | ELoadReceipt | EWriteReceipt _ | ERemoveReceipt | EReadOrigin | EWriteOrigin _
  | EAutostart | ESetAutostart _ => fun x => is_ok x = true
  | ERunning => fun _ => True
  end.
Definition rule_step (v : Json) (X : Type) (w : World) (e : Eff X) (w' : World) (x : X) : Prop :=
  eff_step X w e w' x /\ answers_rule v X e x.
(** A world in which HTTPS 443 is unused, whatever else happens. *)
Definition answers_unused (X : Type) (e : Eff X) : X -> Prop :=
  match e in Eff X return X -> Prop with
  | ERun args => fun x => args = serve_status_cmd ->
      forall v o, status_json x = Some v -> parse_status v = Ok o -> ob_occupied o = false
  | _ => fun _ => True
  end.
Definition unused_step (X : Type) (w : World) (e : Eff X) (w' : World) (x : X) : Prop :=
  eff_step X w e w' x /\ answers_unused X e x.

Lemma strip_https d : str_strip_prefix ("https://" ++ d) "https://" = Some d.
Proof. by destruct d. Qed.
Lemma origin_writable_dns d : valid_dns_name d = true -> origin_writable (Some ("https://" ++ d)%string) = true.
Proof.
  intros Hv. unfold origin_writable. rewrite strip_https. apply bool_decide_eq_true.
  unfold public_origin. by rewrite Hv.
Qed.

(** Both inspections of [tailscale_status] under a rule that is served. *)
Lemma inspect_rule v receipt w (Q : World -> result ServeError ServeInspection -> Prop) i :
  inspection_from v receipt = Ok i ->
  (forall w', same_files w w' -> Q w' (Ok i)) ->
  safe (rule_step v) (fun _ => True) (inspect_with_receipt receipt) w Q.
Proof.
  intros Hi HQ. split; [done|]. intros w1 x [-> (o & -> & Ho & _)]. rewrite Ho.
  split; [done|]. intros w2 y [-> (o2 & -> & Ho2 & Hv)]. split; [done|].
  unfold read_status. rewrite Ho2, (Hv eq_refl), Hi. by apply HQ.
Qed.
Lemma inspect_unused receipt w (Q : World -> result ServeError ServeInspection -> Prop) :
  (forall w' r, same_files w w' ->
     (forall i, r = Ok i -> si_ownership i = Absent /\ si_proxy i = None) -> Q w' r) ->
  safe unused_step (fun w' => w_pending w' = w_pending w) (inspect_with_receipt receipt) w Q.
Proof.
  intros HQ. split; [done|]. intros w1 x [-> _].
  assert (forall e, safe unused_step (fun w' => w_pending w' = w_pending w) (Ret (Err e))
    (put_log version_cmd x w) Q) as Herr by (intros e; split; [done|]; by apply HQ).
  destruct x as [v|e]; [|apply Herr]. destruct (co_success v); [|apply Herr]. cbn [negb].
  split; [done|]. intros w2 y [-> Hy]. split; [done|]. apply HQ; [done|]. intros i Hr.
  apply read_status_Ok in Hr as (j & Hj & Hi). specialize (Hy eq_refl j).
  unfold inspection_from, mbind, result_bind in Hi. destruct (parse_status j) as [o|] eqn:Ep; [|done].
  rewrite (Hy o Hj eq_refl) in Hi. cbn [negb] in Hi. by simplify_eq.
Qed.

(** [recover] in that world. *)
Definition rule_of (v : Json) (d : string) : Prop :=
  exists o, parse_status v = Ok o /\ ob_dns_name o = Some d /\ ob_proxy o = Some BACKEND /\
    ob_occupied o = true /\ ob_funnel_enabled o = false.
Definition rule_receipt (d : string) : ServeReceipt :=
  {| sr_dns_name := d; sr_proxy := BACKEND; sr_https_port := 443;
     sr_public_origin := "https://" ++ d |}.
Definition recorded (p : PendingServe) (d : string) : Prop :=
  ps_enabled p = true /\
  ((ps_receipt p = None /\ ps_expected_dns_name p = Some d /\ ps_expected_proxy p = BACKEND) \/
   ps_receipt p = Some (rule_receipt d)).
Lemma rule_of_inspection v d receipt :
  rule_of v d ->
  valid_dns_name d = true /\
  exists i, inspection_from v receipt = Ok i /\ si_dns_name i = Some d /\ si_proxy i = Some BACKEND /\
    si_public_origin i = Some ("https://" ++ d)%string /\
    (receipt = Some (rule_receipt d) -> si_ownership i = Owned).
Proof.
  intros (o & Ep & Ed & Ex & Eo & Ef). pose proof (parse_status_valid _ _ _ Ep Ed) as Hv.
  split; [done|]. unfold inspection_from, mbind, result_bind. rewrite Ep, Eo, Ed, Ex, Ef. cbn [negb andb].
  assert (public_origin d = Some ("https://" ++ d)%string) as Hp by (unfold public_origin; by rewrite Hv).
  rewrite Hp. eexists. split; [done|]. split; [done|]. split; [done|]. split; [done|].
  intros ->. cbn [si_ownership is_some_and]. unfold receipt_matches. cbn [rule_receipt sr_https_port
    sr_dns_name sr_proxy sr_public_origin default]. by rewrite !bool_decide_eq_true_2 by done.
Qed.

Lemma rule_write {B} v (e : Eff (io_res unit)) (f : unit -> io Eff string B) w w1 Q :
  (forall w' x, eff_step _ w e w' x -> writes w w1 w' x) ->
  (forall x, answers_rule v _ e x -> is_ok x = true) ->
  safe (rule_step v) (fun _ => True) (f tt) w1 Q ->
  safe (rule_step v) (fun _ => True) (io_bind (call e) f) w Q.
Proof.
  intros Hw Ha Hf. split; [done|]. intros w' x [Hs Hx]. apply Ha in Hx.
  destruct (Hw _ _ Hs) as [[-> ->]|[[? ->] _]]; [exact Hf|done].
Qed.
Lemma rule_read {X B} v (e : Eff (io_res X)) (f : X -> io Eff string B) w Q :
  (forall w' x, eff_step _ w e w' x -> w' = w) ->
  (forall x, answers_rule v _ e x -> is_ok x = true) ->
  (forall a, eff_step _ w e w (Ok a) -> safe (rule_step v) (fun _ => True) (f a) w Q) ->
  safe (rule_step v) (fun _ => True) (io_bind (call e) f) w Q.
Proof.
  intros Hw Ha Hf. split; [done|]. intros w' x [Hs Hx]. apply Ha in Hx.
  destruct x as [a|]; [|done]. pose proof (Hw _ _ Hs). subst w'. by apply Hf.
Qed.
Lemma recovery_candidate_rule d p i :
  recorded p d -> valid_dns_name d = true -> si_dns_name i = Some d -> si_proxy i = Some BACKEND ->
  si_public_origin i = Some ("https://" ++ d)%string ->
  recovery_candidate p i = Some (rule_receipt d).
Proof.
  intros [_ [(Hr & Hd & Hp)|Hr]] Hv Hid Hip Hio; unfold recovery_candidate; rewrite Hr; [|done].
  rewrite Hip, Hid, Hd, Hp, !bool_decide_eq_true_2 by done. cbn [andb].
  unfold receipt_from. by rewrite Hid, Hio.
Qed.
Lemma recover_rule v d p value w (Q : World -> result string ServeInspection -> Prop) :
  recorded p d -> rule_of v d -> si_dns_name value = Some d -> si_proxy value = Some BACKEND ->
  si_public_origin value = Some ("https://" ++ d)%string ->
  (forall w' i, si_ownership i = Owned -> w_pending w' = None ->
     w_receipt w' = Some (rule_receipt d) -> w_origin w' = Some ("https://" ++ d)%string ->
     Q w' (Ok i)) ->
  safe (rule_step v) (fun _ => True) (recover (Some p) value) w Q.
Proof.
  intros Hp Hr Hd Hx Ho HQ.
  destruct (rule_of_inspection v d (Some (rule_receipt d)) Hr) as (Hv & i & Hi & _ & _ & Hio & Hown).
  unfold recover. rewrite (proj1 Hp), (recovery_candidate_rule d) by done.
  eapply safe_io_bind with (Q := fun w' i' => i' = i).
  { eapply safe_bind; [eapply (inspect_rule v _ w (fun _ r => r = Ok i)); [exact Hi|done]|].
    intros w' r _ ->. by split. }
  intros w1 i' _ ->. rewrite bool_decide_eq_true_2 by auto. rewrite Hio.
  eapply rule_write; [by intros|done|]. unfold update_public_origin. rewrite origin_writable_dns by done.
  eapply rule_write; [by intros|done|]. eapply rule_write; [by intros|done|].
  split; [done|]. apply HQ; [by apply Hown|done|done|done].
Qed.

(** C36: an interrupted enabling is completed.  If the journal says that the rule
    is to be made - with its receipt, or with the expected name and address - and
    the daemon serves exactly that rule, one status request in which no file
    operation fails answers that the rule is owned, with the receipt and the
    public origin written and the journal gone, whatever was cut off before. *)
Theorem serve_recovery_completes v d p w w' r :
  w_pending w = Some p -> recorded p d -> rule_of v d ->
  exec (rule_step v) w tailscale_status w' (Some r) ->
  exists i, r = Ok i /\ si_ownership i = Owned /\ w_pending w' = None /\
    w_receipt w' = Some (rule_receipt d) /\ w_origin w' = Some ("https://" ++ d)%string.
Proof.
  intros Hp Hrec Hrule He.
  enough (safe (rule_step v) (fun _ => True) tailscale_status w (fun w' r =>
    exists i, r = Ok i /\ si_ownership i = Owned /\ w_pending w' = None /\
      w_receipt w' = Some (rule_receipt d) /\ w_origin w' = Some ("https://" ++ d)%string)) as Hs
    by (by destruct (safe_exec _ _ _ _ _ _ _ Hs He)).
  clear He.
  unfold tailscale_status.
  eapply rule_read; [done|done|]. intros abandoned _. eapply rule_read; [done|done|]. intros _ _.
  eapply rule_read; [by intros ? ? [? _]|done|]. intros receipt _.
  eapply rule_read; [by intros ? ? [? _]|done|]. intros pending [_ [[= ->]|[? ?]]]; [|done].
  rewrite Hp. cbn [option_is_none option_is_some negb]. rewrite andb_false_r.
  destruct (rule_of_inspection v d receipt Hrule) as (Hv & i & Hi & Hid & Hip & Hio & _).
  eapply safe_bind; [eapply (inspect_rule v _ w (fun _ r => r = Ok i)); [exact Hi|done]|].
  intros w1 r1 _ ->.
  eapply safe_io_bind with (Q := fun w2 i2 => si_ownership i2 = Owned /\ w_pending w2 = None /\
    w_receipt w2 = Some (rule_receipt d) /\ w_origin w2 = Some ("https://" ++ d)%string).
  { eapply (recover_rule v d); try done. }
  intros w2 i2 _ (Ho2 & Hp2 & Hr2 & Hor2). unfold with_restart.
  split; [done|]. intros w3 o [[-> Ho] Hok]. destruct Ho as [->|[e ->]]; [|done].
  cbn. rewrite Hor2, origin_writable_dns by done.
  split; [done|]. intros w4 running [-> _]. split; [done|]. by eexists.
Qed.


(** ** A journal that is never completed *)
Lemma unused_io {X B} (e : Eff (io_res X)) (f : X -> io Eff string B) p w Q :
  w_pending w = Some p -> (forall w' x, eff_step _ w e w' x -> w' = w) ->
  (forall err, Q w (Err err)) ->
  (forall a, eff_step _ w e w (Ok a) -> safe unused_step (fun w' => w_pending w' = Some p) (f a) w Q) ->
  safe unused_step (fun w' => w_pending w' = Some p) (io_bind (call e) f) w Q.
Proof.
  intros Hp He Herr Hf. split; [done|]. intros w' x [Hs _]. pose proof (He _ _ Hs). subst w'.
  destruct x as [a|err]; [by apply Hf|by split].
Qed.
(** With a journal the changing operations only refuse. *)
Lemma checked_journal_refuses {B} (abandoned : bool) (k : io Eff string B) p e w :
  w_pending w = Some p ->
  safe unused_step (fun w' => w_pending w' = Some p)
    (io_bind (if abandoned then io_bind (call ELoadPending) (fun p =>
                if option_is_none p then io_err interrupted else io_ok tt) else io_ok tt)
       (fun _ => io_bind (call ELoadPending) (fun p => if option_is_some p then io_err e else k)))
    w (fun _ r => is_ok r = false).
Proof.
  intros Hp. eapply (safe_io_bind unused_step _ _ _ _ (fun w' _ => w' = w)).
  - destruct abandoned; [|by split]. split; [done|]. intros w1 [q|err] [[-> _] _]; [|by split].
    by destruct q; split.
  - intros w1 _ _ ->. eapply unused_io; [done|by intros ? ? [? _]|done|].
    intros q [_ [[= ->]|[? ?]]]; [|done]. rewrite Hp. by split.
Qed.
Lemma set_refuses p request w :
  w_pending w = Some p ->
  safe unused_step (fun w' => w_pending w' = Some p) (set_tailscale_serve request) w
    (fun _ r => is_ok r = false).
Proof.
  intros Hp. unfold set_tailscale_serve. destruct (negb (sq_consent request)); [by split|].
  do 3 (eapply unused_io; [done|done|done|]; intros ? _). by apply checked_journal_refuses.
Qed.
Lemma uninstall_refuses p w :
  w_pending w = Some p ->
  safe unused_step (fun w' => w_pending w' = Some p) uninstall_cleanup w
    (fun _ r => is_ok r = false).
Proof.
  intros Hp. unfold uninstall_cleanup. do 3 (eapply unused_io; [done|done|done|]; intros ? _).
  destruct (bool_decide _); [by split|]. by apply checked_journal_refuses.
Qed.
Lemma status_keeps_journal p w :
  w_pending w = Some p -> ps_enabled p = true ->
  safe unused_step (fun w' => w_pending w' = Some p) tailscale_status w (fun _ _ => True).
Proof.
  intros Hp He. unfold tailscale_status.
  do 2 (eapply unused_io; [done|done|done|]; intros ? _).
  eapply unused_io; [done|by intros ? ? [? _]|done|]. intros receipt _.
  eapply unused_io; [done|by intros ? ? [? _]|done|]. intros pending [_ [[= ->]|[? ?]]]; [|done].
  rewrite Hp. cbn [option_is_none option_is_some negb]. rewrite andb_false_r.
  assert (forall receipt (w : World), w_pending w = Some p ->
    safe unused_step (fun w' => w_pending w' = Some p) (inspect_with_receipt receipt) w
      (fun w' r => w_pending w' = Some p /\
         forall i, r = Ok i -> si_ownership i = Absent /\ si_proxy i = None)) as Hins.
  { intros rc v Hv. eapply safe_weaken; [|apply inspect_unused]; [by intros v' ->|].
    intros w' r' [Hs _] Hr'. by rewrite Hs. }
  eapply safe_bind; [by apply Hins|]. intros w1 [value|e] Hw1 [_ Hval]; [|destruct e; by split].
  destruct (Hval value eq_refl) as [Ha Hpx].
  eapply (safe_io_bind unused_step _ _ _ _ (fun _ _ => True)).
  - unfold recover. rewrite He. unfold recovery_candidate.
    rewrite Hpx. rewrite (bool_decide_eq_false_2 (None = Some _)) by done. cbn [andb].
    destruct (ps_receipt p) as [c|]; [|by split].
    eapply (safe_io_bind unused_step _ _ _ _ (fun _ i => si_ownership i = Absent)).
    + eapply safe_bind; [by apply Hins|]. intros w2 [i|e] Hw2 [_ Hi]; apply safe_ret; [done| |done|done].
      by apply Hi.
    + intros w2 i Hw2 Hi. rewrite Hi. by apply safe_ret.
  - intros w2 i Hw2 _. split; [done|]. intros w3 [o|e] [[-> _] _]; [|by split]. cbn.
    destruct (origin_writable o); [|by split]. split; [done|]. intros w4 running [-> _]. by split.
Qed.

(** A journal whose command never took effect locks the settings.  When an
    enabling was cut off before the command ran (or the command timed out without
    effect), HTTPS 443 stays unused and no status request removes the journal,
    so that every later change and the uninstaller's cleanup fail. *)
Theorem serve_journal_stuck p w w' :
  w_pending w = Some p -> ps_enabled p = true ->
  steps (fun w w' => exists op, serve_op unused_step op w w') w w' ->
  w_pending w' = Some p /\
  (forall request w2 r, exec unused_step w' (set_tailscale_serve request) w2 (Some r) -> is_ok r = false) /\
  (forall w2 r, exec unused_step w' uninstall_cleanup w2 (Some r) -> is_ok r = false).
Proof.
  intros Hp He Hs. assert (w_pending w' = Some p) as Hp'.
  { eapply (steps_invariant _ (fun w => w_pending w = Some p)); [|exact Hs|done].
    clear w w' Hs Hp. intros w w' Hp [[|request|] [r Hr]].
    - by eapply (safe_exec _ (fun w' => w_pending w' = Some p)) in Hr as [? _];
        [|by apply status_keeps_journal].
    - by eapply (safe_exec _ (fun w' => w_pending w' = Some p)) in Hr as [? _];
        [|by apply set_refuses].
    - by eapply (safe_exec _ (fun w' => w_pending w' = Some p)) in Hr as [? _];
        [|by apply uninstall_refuses]. }
  split; [done|]. split.
  - intros request w2 r Hr. by destruct (safe_exec _ _ _ _ _ _ _ (set_refuses p request w' Hp') Hr).
  - intros w2 r Hr. by destruct (safe_exec _ _ _ _ _ _ _ (uninstall_refuses p w' Hp') Hr).
Qed.
End Serve.

(** ** Concrete runs
    A daemon whose output is named by one word, a host [host.ts.net]. *)
Definition sample_rule : Json :=
  JObject [("TCP", JObject [("443", JObject [("HTTPS", JBool true)])]);
           ("Web", JObject [("host.ts.net:443",
              JObject [("Handlers", JObject [("/", JObject [("Proxy", JString BACKEND)])])])])]%string.
Definition sample_parse (s : string) : option Json :=
  if bool_decide (s = "unused"%string) then Some (JObject []) else
  if bool_decide (s = "rule"%string) then Some sample_rule else
  Some (JObject [("Self", JObject [("DNSName", JString "host.ts.net.")])]%string).
(** The rule is served once it was made. *)
Definition sample_serves (w : World) : bool :=
  existsb (fun e => bool_decide (e.1 = apply_cmd)) (w_log w).
Definition sample_output (serves : bool) (args : list string) : string :=
  if bool_decide (args = serve_status_cmd) then if serves then "rule" else "unused" else "self".
Definition sample_answer (serves : World -> bool) (X : Type) (w : World) (e : Eff X) : World * X :=
  match e in Eff X return World * X with
  | ERun args =>
    let x := Ok {| co_success := true; co_stdout := sample_output (serves w) args |} in
    (put_log args x w, x)
  | EAcquire => (w, Ok false)
  | EPaths | EPreflight | ESetAutostart _ => (w, Ok tt)
  | ELoadPending => (w, Ok (w_pending w))
  | EWritePending p => (put_pending (Some p) w, Ok tt)
  | ERemovePending => (put_pending None w, Ok tt)
  | ELoadReceipt => (w, Ok (w_receipt w))
  | EWriteReceipt r => (put_receipt (Some r) w, Ok tt)
  | ERemoveReceipt => (put_receipt None w, Ok tt)
  | EReadOrigin => (w, Ok (w_origin w))
  | EWriteOrigin o => (put_origin o w, Ok tt)
  | ERunning => (w, None)
  | EAutostart => (w, Ok Autostart.Disabled)
  end.
Lemma sample_answer_step serves X w (e : Eff X) :
  eff_step X w e (sample_answer serves X w e).1 (sample_answer serves X w e).2.
Proof. destruct e; cbn; unfold writes, reads; auto. Qed.
Definition fresh_world : World :=
  {| w_pending := None; w_receipt := None; w_origin := None; w_log := [] |}.
Definition enable_request : ServeRequest := {| sq_enabled := true; sq_consent := true |}.
Definition enabled_world : World :=
  (run (sample_answer sample_serves) (set_tailscale_serve sample_parse enable_request) fresh_world).1.
Lemma enabled_world_reached : steps (serve_step sample_parse) fresh_world enabled_world.
Proof.
  eapply steps_one. exists (OpSet enable_request). eexists.
  apply (run_exec eff_step). intros. apply sample_answer_step.
Qed.
Lemma enabled_world_settings : steps (settings_step sample_parse) fresh_world enabled_world.
Proof.
  eapply steps_one. exists (OpSet enable_request). split; [done|]. eexists.
  apply (run_exec eff_step). intros. apply sample_answer_step.
Qed.
(** The journal of an enabling that was cut off before its command. *)
Definition cut_world : World :=
  put_pending (Some {| ps_enabled := true; ps_receipt := None;
                       ps_expected_dns_name := Some "host.ts.net"%string;
                       ps_expected_proxy := BACKEND |}) fresh_world.

Lemma serve_commands_justified_witness :
  exists later x earlier, w_log enabled_world = later ++ (apply_cmd, x) :: earlier /\
    exists receipt i, inspected sample_parse earlier receipt i /\ si_ownership i = Absent.
Proof.
  eexists (take 4 (w_log enabled_world)), _, (drop 5 (w_log enabled_world)).
  split; [by vm_compute|].
  destruct (serve_commands_justified sample_parse fresh_world enabled_world
    (take 4 (w_log enabled_world)) apply_cmd
    (Ok {| co_success := true; co_stdout := "self" |}) (drop 5 (w_log enabled_world))
    eq_refl enabled_world_reached) as [H|[[_ H]|[H _]]];
    [by vm_compute|by vm_compute in H|exact H|by vm_compute in H].
Defined.
Lemma serve_files_consistent_witness :
  w_pending enabled_world = None /\
  w_receipt enabled_world = Some (rule_receipt "host.ts.net") /\
  w_origin enabled_world = option_map sr_public_origin (w_receipt enabled_world).
Proof.
  assert (w_pending enabled_world = None) as Hp by (by vm_compute).
  split; [exact Hp|]. split; [by vm_compute|].
  exact (serve_files_consistent sample_parse fresh_world enabled_world eq_refl (fun _ => eq_refl)
    enabled_world_settings Hp).
Defined.
Definition recovered_run : World * result string ServeInspection :=
  run (sample_answer (fun _ => true)) (tailscale_status sample_parse) cut_world.
Lemma serve_recovery_completes_witness :
  exists i, recovered_run.2 = Ok i /\ si_ownership i = Owned /\
    w_pending recovered_run.1 = None /\
    w_origin recovered_run.1 = Some "https://host.ts.net"%string.
Proof.
  destruct (serve_recovery_completes sample_parse sample_rule "host.ts.net"
    {| ps_enabled := true; ps_receipt := None; ps_expected_dns_name := Some "host.ts.net"%string;
       ps_expected_proxy := BACKEND |} cut_world recovered_run.1 recovered_run.2)
    as (i & Hi & Ho & Hp & _ & Hor).
  - reflexivity.
  - split; [reflexivity|]. left. by split.
  - eexists. by vm_compute.
  - apply (run_exec (rule_step sample_parse sample_rule)). intros X w e.
    split; [apply sample_answer_step|]. destruct e; cbn; try done.
    eexists. split; [reflexivity|]. split; [reflexivity|]. intros ->. by vm_compute.
  - exists i. by repeat split.
Defined.
Lemma serve_journal_stuck_witness :
  w_pending cut_world <> None /\
  is_ok (run (sample_answer (fun _ => false)) (set_tailscale_serve sample_parse enable_request)
           (run (sample_answer (fun _ => false)) (tailscale_status sample_parse) cut_world).1).2 = false.
Proof.
  assert (forall X w (e : Eff X), unused_step sample_parse X w e
    (sample_answer (fun _ => false) X w e).1 (sample_answer (fun _ => false) X w e).2) as Hstep.
  { intros X w e. split; [apply sample_answer_step|]. destruct e; cbn; try done.
    intros -> v o. vm_compute. intros [= <-] [= <-]. reflexivity. }
  split; [done|].
  destruct (serve_journal_stuck sample_parse {| ps_enabled := true; ps_receipt := None;
      ps_expected_dns_name := Some "host.ts.net"%string; ps_expected_proxy := BACKEND |}
    cut_world (run (sample_answer (fun _ => false)) (tailscale_status sample_parse) cut_world).1
    eq_refl eq_refl) as (_ & H & _).
  { eapply steps_one. exists OpStatus. eexists. apply (run_exec _ _ _ _ Hstep). }
  eapply (H enable_request). apply (run_exec _ _ _ _ Hstep).
Defined.

(** Removing the files of a rule that is gone has no journal: an uninstaller that
    dies between two of the files leaves them out of step. *)
Definition gone_world : World :=
  {| w_pending := None; w_receipt := Some (rule_receipt "host.ts.net");
     w_origin := Some "https://host.ts.net"%string; w_log := [] |}.
Definition cut_uninstall : World :=
  run_for (sample_answer (fun _ => false)) 9 (uninstall_cleanup sample_parse) gone_world.
Lemma uninstall_leaves_origin :
  serve_step sample_parse gone_world cut_uninstall /\
  w_pending cut_uninstall = None /\ w_receipt cut_uninstall = None /\
  w_origin cut_uninstall = Some "https://host.ts.net"%string.
Proof.
  split; [|by vm_compute]. exists OpUninstall. eexists. apply (run_for_exec eff_step).
  intros. apply sample_answer_step.
Qed.
