(* ===== verification/Runner.v ===== *)
(** * Running the tailscale command
    ([SystemRunner::run] of [apps/desktop/src-tauri/src/tailscale.rs])
    The child process, the two readers of its output, and the loop that polls it every
    50 milliseconds for five seconds.  What the child and the clock do is given by
    functions of the poll. *)
From Stdlib Require Import String.
From S2P Require Import Prelude Text VtFence Program Tailscale Serve.
#[global] Open Scope Z_scope.

Definition CLI_TIMEOUT : Z := 5000.
Definition POLL_MS : Z := 50.
Definition STDOUT_LIMIT : Z := 262144.

Inductive SpawnError : Type := SpawnNotFound | SpawnOther.
(** [cd_wait i], [cd_elapsed i]: the answer of the [i]-th [try_wait] (still running, or
    whether it succeeded) and the milliseconds since the start right after it. *)
Record Child := {
  cd_stdout_piped : bool;
  cd_stderr_piped : bool;
  cd_wait : nat -> result () (option bool);
  cd_elapsed : nat -> Z;
  cd_stdout : bytes;
  cd_joined : bool            (* the reader did not panic *)
}.
Inductive RunEffect : Type := RTryWait | RSleep (ms : Z) | RKill | RWait.

(** The loop from the [i]-th poll on; [None]: it did not end within [fuel] polls. *)
Fixpoint run_loop (fuel i : nat) (c : Child) : option (list RunEffect * sres bool) :=
  match fuel with
  | O => None
  | S fuel =>
    match cd_wait c i with
    | Ok (Some status) => Some ([RTryWait], Ok status)
    | Ok None =>
      if cd_elapsed c i <? CLI_TIMEOUT
      then match run_loop fuel (S i) c with
           | Some (es, r) => Some (RTryWait :: RSleep POLL_MS :: es, r)
           | None => None
           end
      else Some ([RTryWait; RKill; RWait], Err "Tailscale CLI timed out"%string)
    | Err _ => Some ([RTryWait], Err "Could not wait for Tailscale CLI"%string)
    end
  end.
(** [run] *)
Definition system_run (fuel : nat) (spawned : result SpawnError Child)
  : option (list RunEffect * sres CommandOutput) :=
  match spawned with
  | Err SpawnNotFound => Some ([], Err "Tailscale executable not found"%string)
  | Err SpawnOther => Some ([], Err "Could not start Tailscale CLI"%string)
  | Ok c =>
    if negb (cd_stdout_piped c) then Some ([], Err "Missing Tailscale stdout"%string) else
    if negb (cd_stderr_piped c) then Some ([], Err "Missing Tailscale stderr"%string) else
    match run_loop fuel 0 c with
    | None => None
    | Some (es, Err e) => Some (es, Err e)
    | Some (es, Ok success) =>
      let out := if cd_joined c then take (Z.to_nat STDOUT_LIMIT) (cd_stdout c) else [] in
      Some (es, match from_utf8 out with
                | Utf8Ok => Ok {| co_success := success; co_stdout := bytes_str out |}
                | _ => Err "Tailscale output was not UTF-8"%string
                end)
    end
  end.

Definition polls (es : list RunEffect) : nat :=
  length (List.filter (fun e => match e with RTryWait => true | _ => false end) es).
(** The clock: a sleep lasts at least as long as asked. *)
Definition clock_ok (c : Child) : Prop :=
  0 <= cd_elapsed c 0 /\ forall i, cd_elapsed c i + POLL_MS <= cd_elapsed c (S i).
Definition child_ok (c : Child) : Prop := clock_ok c /\ Forall is_byte (cd_stdout c).
Lemma clock_elapsed c i : clock_ok c -> POLL_MS * Z.of_nat i <= cd_elapsed c i.
Proof.
  intros [H0 H]. induction i as [|i IH]; [unfold POLL_MS; lia|].
  specialize (H i). unfold POLL_MS in *. lia.
Qed.

(** How the loop ends. *)
Definition ended (c : Child) (i : nat) (es : list RunEffect) (r : sres bool) : Prop :=
  exists j, (i <= j)%nat /\ polls es = S (j - i) /\
    (forall k, (i <= k < j)%nat -> cd_wait c k = Ok None /\ cd_elapsed c k < CLI_TIMEOUT) /\
    match r with
    | Ok s => cd_wait c j = Ok (Some s) /\ RKill ∉ es
    | Err _ =>
      (cd_wait c j = Err tt /\ RKill ∉ es) \/
      (cd_wait c j = Ok None /\ CLI_TIMEOUT <= cd_elapsed c j /\ [RKill; RWait] `suffix_of` es /\
       r = Err "Tailscale CLI timed out"%string)
    end.
Lemma run_loop_spec c fuel i :
  match run_loop fuel i c with
  | Some (es, r) => ended c i es r
  | None => forall k, (i <= k < i + fuel)%nat -> cd_wait c k = Ok None /\ cd_elapsed c k < CLI_TIMEOUT
  end.
Proof.
  revert i. induction fuel as [|fuel IH]; intros i; cbn [run_loop]; [intros k; lia|].
  destruct (cd_wait c i) as [[s|]|[]] eqn:Ew.
  - exists i. split; [lia|]. split; [cbn; lia|]. split; [intros k; lia|]. split; [done|set_solver].
  - destruct (Z.ltb_spec (cd_elapsed c i) CLI_TIMEOUT) as [Hlt|Hge].
    + specialize (IH (S i)). destruct (run_loop fuel (S i) c) as [[es r]|].
      * destruct IH as (j & Hj & Hp & Hk & Hr). exists j. split; [lia|].
        split; [unfold polls in *; cbn; lia|]. split.
        { intros k Hk'. destruct (decide (k = i)) as [->|]; [done|]. apply Hk. lia. }
        destruct r as [s|e]; [destruct Hr; set_solver|].
        destruct Hr as [[? ?]|(? & ? & [l ->] & ?)]; [left; set_solver|right]. split; [done|].
        split; [done|]. split; [|done]. by exists (RTryWait :: RSleep POLL_MS :: l).
      * intros k Hk. destruct (decide (k = i)) as [->|]; [done|]. apply IH. lia.
    + exists i. split; [lia|]. split; [cbn; lia|]. split; [intros k; lia|]. right.
      split; [done|]. split; [done|]. split; [|done]. by exists [RTryWait].
  - exists i. split; [lia|]. split; [cbn; lia|]. split; [intros k; lia|]. left. split; [done|set_solver].
Qed.

(** Running the tailscale command always returns: after at most 101 polls, whatever
    the child does.  It reports success or failure only of a child that has exited,
    with output that is valid UTF-8 and at most 256 KiB; a child that is still running
    after five seconds is killed and reaped before the timeout is reported, and none is
    killed before. *)
Theorem run_always_returns spawned fuel :
  (forall c, spawned = Ok c -> child_ok c) -> (101 <= fuel)%nat ->
  exists es r, system_run fuel spawned = Some (es, r) /\ (polls es <= 101)%nat /\
    (forall o, r = Ok o -> exists c i, spawned = Ok c /\ cd_wait c i = Ok (Some (co_success o)) /\
       zlen (str_bytes (co_stdout o)) <= STDOUT_LIMIT /\
       from_utf8 (str_bytes (co_stdout o)) = Utf8Ok) /\
    (RKill ∈ es -> r = Err "Tailscale CLI timed out"%string /\ [RKill; RWait] `suffix_of` es /\
       exists c i, spawned = Ok c /\ cd_wait c i = Ok None /\ CLI_TIMEOUT <= cd_elapsed c i).
Proof.
  intros Hok Hfuel. destruct spawned as [c|[]]; cbn [system_run].
  2,3: do 2 eexists; split; [done|]; split; [cbn; lia|]; split; [done|set_solver].
  destruct (cd_stdout_piped c); cbn [negb]; [destruct (cd_stderr_piped c); cbn [negb]|].
  2,3: do 2 eexists; split; [done|]; split; [cbn; lia|]; split; [done|set_solver].
  destruct (Hok c eq_refl) as [Hclock Hbytes]. pose proof (run_loop_spec c fuel 0) as Hl.
  destruct (run_loop fuel 0 c) as [[es r]|].
  2:{ destruct (Hl 100%nat) as [_ H]; [lia|]. pose proof (clock_elapsed c 100 Hclock).
      unfold CLI_TIMEOUT, POLL_MS in *. lia. }
  destruct Hl as (j & _ & Hp & Hk & Hr). assert (j <= 100)%nat as Hj.
  { destruct j as [|j]; [lia|]. destruct (Hk j) as [_ H]; [lia|]. pose proof (clock_elapsed c j Hclock).
    unfold CLI_TIMEOUT, POLL_MS in *. lia. }
  destruct r as [s|e].
  - do 2 eexists. split; [done|]. split; [lia|]. destruct Hr as [Hw Hnk]. split; [|done].
    set (out := if cd_joined c then take (Z.to_nat STDOUT_LIMIT) (cd_stdout c) else []).
    assert (Forall is_byte out) as Hb by (subst out; destruct (cd_joined c); [by apply Forall_take|done]).
    assert (zlen out <= STDOUT_LIMIT) as Hlen.
    { assert (0 <= STDOUT_LIMIT) as H0 by (by vm_compute). subst out. clear -H0.
      revert H0. generalize STDOUT_LIMIT as n. intros n H0. unfold zlen.
      destruct (cd_joined c); [rewrite length_take|cbn]; lia. }
    intros o Ho. exists c, j. destruct (from_utf8 out) eqn:Eu; [|done..]. injection Ho as <-.
    cbn [co_success co_stdout]. by rewrite str_bytes_of_bytes.
  - do 2 eexists. split; [done|]. split; [lia|]. split; [done|]. intros Hkill.
    destruct Hr as [[_ Hn]|(Hw & He & Hs & [= ->])]; [done|].
    split; [done|]. split; [done|]. by exists c, j.
Qed.

(** A child that never exits, one second per poll. *)
Definition stuck_child : Child :=
  {| cd_stdout_piped := true; cd_stderr_piped := true; cd_wait := fun _ => Ok None;
     cd_elapsed := fun i => 1000 * Z.of_nat i; cd_stdout := []; cd_joined := true |}.
Lemma run_always_returns_witness :
  system_run 101 (Ok stuck_child) =
    Some ([RTryWait; RSleep 50; RTryWait; RSleep 50; RTryWait; RSleep 50; RTryWait; RSleep 50;
           RTryWait; RSleep 50; RTryWait; RKill; RWait], Err "Tailscale CLI timed out"%string) /\
  exists es r, system_run 101 (Ok stuck_child) = Some (es, r) /\ (polls es <= 101)%nat.
Proof.
  split; [by vm_compute|].
  destruct (run_always_returns (Ok stuck_child) 101) as (es & r & Hr & Hp & _).
  - intros c [= <-]. split; [|constructor]. split; [done|]. intros i. unfold POLL_MS.
    cbn [cd_elapsed stuck_child]. lia.
  - lia.
  - exists es, r. by split.
Defined.
