(* ===== verification/Preview.v ===== *)
(** * Local previews ([crates/rc-agent/src/preview.rs])
    Registered development servers: the manager's tables and the operations on
    them, the gateway that stands in front of each server, and the headers it
    lets through in either direction.  URL, base64, SHA-256 and cookie parsing
    are parameters; sockets and the upstream's answers are arguments. *)
From Stdlib Require Import String.
From S2P Require Import Prelude Errors Protocol Text Auth Config.
#[global] Open Scope Z_scope.

(** The methods the source tells apart; everything else is [OTHER]. *)
Inductive Method : Type := GET | HEAD | POST | DELETE | OPTIONS | OTHER.
#[global] Instance Method_eq_dec : EqDecision Method.
Proof. solve_decision. Defined.

(** ** Headers
    A [HeaderMap]: names in lower case, values in bytes, in order. *)
Abbreviation HeaderMap := (list (string * bytes)) (only parsing).
Definition header_get (h : HeaderMap) (name : string) : option bytes :=
  match List.find (fun kv => bool_decide (kv.1 = name)) h with
  | Some kv => Some kv.2
  | None => None
  end.
Definition visible_ascii (b : Z) : bool := (b =? 9) || in_range 32 126 b.
(** [get(name).and_then(|v| v.to_str().ok())] *)
Definition header_text (h : HeaderMap) (name : string) : option bytes :=
  match header_get h name with
  | Some v => if forallb visible_ascii v then Some v else None
  | None => None
  end.
Definition header_remove (name : string) (h : HeaderMap) : HeaderMap :=
  List.filter (fun kv => negb (bool_decide (kv.1 = name))) h.
Definition header_insert (name : string) (v : bytes) (h : HeaderMap) : HeaderMap :=
  header_remove name h ++ [(name, v)].
Definition header_append (name : string) (v : bytes) (h : HeaderMap) : HeaderMap :=
  h ++ [(name, v)].
Definition remove_all (names : list string) (h : HeaderMap) : HeaderMap :=
  fold_left (fun h n => header_remove n h) names h.

Definition hop_by_hop : list string :=
  ["connection"; "keep-alive"; "proxy-authenticate"; "proxy-authorization"; "te"; "trailer";
   "transfer-encoding"; "upgrade"]%string.
(** Names are looked up without regard to case. *)
Definition connection_listed (h : HeaderMap) : list string :=
  map (fun p => bytes_str (map ascii_lower (trim_bytes p)))
    (split_list (Z.eqb 44) (default [] (header_text h "connection")) []).
Definition strip_hop_by_hop (h : HeaderMap) : HeaderMap :=
  remove_all hop_by_hop (remove_all (connection_listed h) h).

(** ** Cookies *)
Definition uuid_simple (id : Uuid) : bytes := hex_bytes (be_enc 16 id).
Definition cookie_name (id : Uuid) : bytes := str_bytes "__Host-rcpv-" ++ uuid_simple id.
Definition cookie_prefix (id : Uuid) : bytes :=
  str_bytes "rcapp_" ++ uuid_simple id ++ str_bytes "_".
(** [s.split_once('=')] *)
Fixpoint split_once (sep : Z) (l : bytes) : option (bytes * bytes) :=
  match l with
  | [] => None
  | x :: r =>
    if x =? sep then Some ([], r)
    else match split_once sep r with Some (a, b) => Some (x :: a, b) | None => None end
  end.
(** [raw.split(';').filter_map(|p| p.trim().split_once('='))] *)
Definition cookie_pairs (raw : bytes) : list (bytes * bytes) :=
  omap (fun p => split_once 61 (trim_bytes p)) (split_list (Z.eqb 59) raw []).
Definition request_cookies (h : HeaderMap) : list (bytes * bytes) :=
  cookie_pairs (default [] (header_text h "cookie")).

Definition private_headers : list string :=
  ["authorization"; "cookie"; "forwarded"; "x-forwarded-for"; "x-forwarded-host";
   "x-forwarded-proto"; "tailscale-user-login"; "tailscale-user-name"; "sec-websocket-key";
   "sec-websocket-version"; "sec-websocket-protocol"]%string.
Definition cookie_byte_bad (b : Z) : bool :=
  (b <=? 32) || (127 <=? b) || (b =? 59) || (b =? 61).

(** ** The manager *)
Record PreviewInfo := {
  pi_id : Uuid;
  pi_project_id : Uuid;
  pi_port : Z;
  pi_gateway_port : Z;
  pi_origin : string;
  pi_pid : Z;
  pi_process_created : string;
  pi_approved_by : Uuid
}.
(** The entry's [stop] token is named by the preview's fresh id. *)
Record Entry := { en_info : PreviewInfo; en_created : Z }.
Record Grant := { gr_preview : Uuid; gr_client : Uuid; gr_until : Z }.
Record PreviewManager := {
  pm_entries : gmap Uuid Entry;
  pm_launches : gmap Digest Grant;
  pm_browsers : gmap Digest Grant;
  pm_stopped : gset Uuid
}.
Definition preview_new : PreviewManager :=
  {| pm_entries := ∅; pm_launches := ∅; pm_browsers := ∅; pm_stopped := ∅ |}.
Definition set_entries (e : gmap Uuid Entry) (m : PreviewManager) : PreviewManager :=
  {| pm_entries := e; pm_launches := pm_launches m; pm_browsers := pm_browsers m;
     pm_stopped := pm_stopped m |}.
Definition set_grants (l b : gmap Digest Grant) (m : PreviewManager) : PreviewManager :=
  {| pm_entries := pm_entries m; pm_launches := l; pm_browsers := b;
     pm_stopped := pm_stopped m |}.
Definition set_stopped (t : gset Uuid) (m : PreviewManager) : PreviewManager :=
  {| pm_entries := pm_entries m; pm_launches := pm_launches m; pm_browsers := pm_browsers m;
     pm_stopped := t |}.

(** [retain] on both tables of grants. *)
Definition retain_grants (keep : Grant -> bool) (m : PreviewManager) : PreviewManager :=
  set_grants (base.filter (fun kv : Digest * Grant => keep kv.2 = true) (pm_launches m))
             (base.filter (fun kv : Digest * Grant => keep kv.2 = true) (pm_browsers m)) m.
Definition preview_revoke_client (id : Uuid) : PreviewManager -> PreviewManager :=
  retain_grants (fun g => negb (gr_client g =? id)).
Definition preview_block_all (m : PreviewManager) : PreviewManager := set_grants ∅ ∅ m.
Definition preview_shutdown (m : PreviewManager) : PreviewManager :=
  {| pm_entries := ∅; pm_launches := ∅; pm_browsers := ∅;
     pm_stopped := dom (pm_entries m) ∪ pm_stopped m |}.
Definition preview_prune (now : Z) : PreviewManager -> PreviewManager :=
  retain_grants (fun g => now <? gr_until g).

(** *** Registration *)
Record Register := { rg_project_id : Uuid; rg_port : Z; rg_public_port : Z }.
(** What the system answers: the listener's process, whether the gateway's port
    can be bound, the fresh id, whether the slot was reserved in the store, and
    whether the HTTP client could be built. *)
Record RegisterEnv := {
  re_identity : option (Z * Z);
  re_bound : bool;
  re_id : Uuid;
  re_reserved : bool;
  re_client : bool
}.
Definition register_ports_ok (bind_port : Z) (body : Register) : bool :=
  negb ((rg_port body <? 1024) || (rg_port body =? bind_port) ||
        in_range 13844 13851 (rg_port body) || negb (in_range 8444 8451 (rg_public_port body))).
Section Register.
Context (url_with_port : string -> Z -> option string).

Definition register_entry (bind_port : Z) (public_origin : option string) (p : Principal)
    (body : Register) (env : RegisterEnv) : res Entry :=
  if negb (register_ports_ok bind_port body) then Err InvalidRequest else
  match public_origin with
  | None => Err PreviewNotApproved
  | Some base =>
    match url_with_port base (rg_public_port body) with
    | None => Err InvalidRequest
    | Some origin =>
      match re_identity env with
      | None => Err UpstreamChanged
      | Some (pid, created) =>
        if negb (re_bound env) then Err PreviewNotApproved else
        Ok {| en_info := {| pi_id := re_id env; pi_project_id := rg_project_id body;
                            pi_port := rg_port body;
                            pi_gateway_port := rg_public_port body + 5400;
                            pi_origin := origin; pi_pid := pid;
                            pi_process_created := dec created;
                            pi_approved_by := p_client_id p |};
              en_created := created |}
      end
    end
  end.
(** Under the lock. *)
Definition register_insert (e : Entry) (m : PreviewManager) : PreviewManager * res unit :=
  if (8 <=? Z.of_nat (size (pm_entries m))) ||
     bool_decide (map_Exists (fun _ x => pi_gateway_port (en_info x) =
                                         pi_gateway_port (en_info e)) (pm_entries m))
  then (m, Err RateLimited)
  else (set_entries (<[pi_id (en_info e) := e]> (pm_entries m)) m, Ok tt).
(** After the store answered.  The entry stays when the client cannot be built. *)
Definition register_finish (e : Entry) (env : RegisterEnv) (m : PreviewManager)
  : PreviewManager * res unit :=
  if negb (re_reserved env)
  then (set_entries (delete (pi_id (en_info e)) (pm_entries m)) m, Err PreviewNotApproved)
  else if negb (re_client env) then (m, Err Internal) else (m, Ok tt).
Definition preview_register (bind_port : Z) (public_origin : option string) (p : Principal)
    (body : Register) (env : RegisterEnv) (m : PreviewManager) : PreviewManager * res Entry :=
  match register_entry bind_port public_origin p body env with
  | Err e => (m, Err e)
  | Ok e =>
    match register_insert e m with
    | (m, Err err) => (m, Err err)
    | (m, Ok _) =>
      let '(m, r) := register_finish e env m in
      (m, match r with Ok _ => Ok e | Err err => Err err end)
    end
  end.

End Register.

Section Preview.
Context (parse_url : string -> option Url) (url_default_port : Url -> option Z)
  (key : string -> Digest) (b64url_decode : string -> option bytes)
  (client_request : string -> option (list (string * bytes))).

(** *** Removal and launch *)
Definition preview_remove (id : Uuid) (m : PreviewManager) : PreviewManager :=
  let m := match pm_entries m !! id with
           | Some _ => set_stopped ({[id]} ∪ pm_stopped m)
                         (set_entries (delete id (pm_entries m)) m)
           | None => m
           end in
  retain_grants (fun g => negb (gr_preview g =? id)) m.
(** The answer is the origin the ticket is for. *)
Definition preview_launch (p : Principal) (id : Uuid) (now : Z) (ticket : string)
    (m : PreviewManager) : PreviewManager * res string :=
  let m := preview_prune now m in
  match pm_entries m !! id with
  | None => (m, Err PreviewNotApproved)
  | Some e =>
    if 64 <=? Z.of_nat (size (pm_launches m)) then (m, Err RateLimited) else
    (set_grants (<[key ticket := {| gr_preview := id; gr_client := p_client_id p;
                                    gr_until := now + secs 30 |}]> (pm_launches m))
       (pm_browsers m) m, Ok (pi_origin (en_info e)))
  end.

(** ** Headers sent upstream *)
Definition app_cookie (id : Uuid) (c : bytes * bytes) : option bytes :=
  match strip_bytes (cookie_prefix id) c.1 with
  | None => None
  | Some encoded =>
    match b64url_decode (bytes_str encoded) with
    | None => None
    | Some decoded =>
      (* [String::from_utf8] fails only on bytes refused here as well *)
      if existsb cookie_byte_bad decoded then None else Some (decoded ++ [61] ++ c.2)
    end
  end.
Definition filtered_request_headers (input : HeaderMap) (id : Uuid) : HeaderMap :=
  let h := remove_all private_headers (strip_hop_by_hop input) in
  let cookies := join_bytes [59; 32] (omap (app_cookie id) (request_cookies input)) in
  if bool_decide (cookies = []) then h
  else if forallb visible_ascii cookies then header_insert "cookie" cookies h else h.
Definition upstream_authority (port : Z) : string := "127.0.0.1:" ++ dec port.
Definition upstream_origin (port : Z) : string := "http://127.0.0.1:" ++ dec port.
Definition http_headers (input : HeaderMap) (id : Uuid) (port : Z) : HeaderMap :=
  let h := header_insert "host" (str_bytes (upstream_authority port))
             (filtered_request_headers input id) in
  if option_is_some (header_get input "origin")
  then header_insert "origin" (str_bytes (upstream_origin port)) h else h.
(** [base]: the headers of a fresh client request for the upstream URL. *)
Definition websocket_headers (base input : HeaderMap) (id : Uuid) (port : Z) : HeaderMap :=
  let h := fold_left (fun h kv => if bool_decide (kv.1 = "host"%string) then h
                                  else header_insert kv.1 kv.2 h)
             (filtered_request_headers input id) base in
  let h := header_insert "origin" (str_bytes (upstream_origin port)) h in
  match header_get input "sec-websocket-protocol" with
  | Some v => header_insert "sec-websocket-protocol" v h
  | None => h
  end.

(** ** The gateway *)
Record GatewayRequest := {
  gq_method : Method;
  gq_path : string;
  gq_suffix : string;         (* path and query *)
  gq_headers : HeaderMap;
  gq_upgrade : bool;          (* a valid WebSocket upgrade *)
  gq_ticket : option (option string)
    (* the [ticket] of the body; [None]: too long or no JSON, [Some None]: no string *)
}.
Record GatewayEnv := {
  ge_now : Z;
  ge_identity : option (Z * Z);
  ge_credential : string      (* a fresh secret *)
}.
Inductive GatewayReply : Type :=
| GrPage
| GrCookie (preview : Uuid) (credential : string)
| GrForward (p : Principal) (url : string) (headers : HeaderMap)
| GrWebsocket (p : Principal) (url : string) (headers : HeaderMap).

Definition gateway_consume (e : Entry) (env : GatewayEnv) (token : string) (a : Auth)
    (m : PreviewManager) : PreviewManager * res GatewayReply :=
  let m := preview_prune (ge_now env) m in
  let grant := option_keep (fun v => gr_preview v =? pi_id (en_info e))
                 (pm_launches m !! key token) in
  let m := set_grants (delete (key token) (pm_launches m)) (pm_browsers m) m in
  match grant with
  | None => (m, Err Unauthenticated)
  | Some grant =>
    match device_principal (gr_client grant) (ge_now env) a with
    | Err err => (m, Err err)
    | Ok p =>
      match principal_require (cancelled a) p PreviewRead (ge_now env) with
      | Err err => (m, Err err)
      | Ok _ =>
        if 128 <=? Z.of_nat (size (pm_browsers m)) then (m, Err RateLimited) else
        (set_grants (pm_launches m)
           (<[key (ge_credential env) :=
                {| gr_preview := gr_preview grant; gr_client := gr_client grant;
                   gr_until := ge_now env + secs 600 |}]> (pm_browsers m)) m,
         Ok (GrCookie (gr_preview grant) (ge_credential env)))
      end
    end
  end.
Definition gateway_forward (e : Entry) (env : GatewayEnv) (rq : GatewayRequest) (a : Auth)
    (m : PreviewManager) : PreviewManager * res GatewayReply :=
  let id := pi_id (en_info e) in
  match List.find (fun c => bool_decide (c.1 = cookie_name id)) (request_cookies (gq_headers rq)) with
  | None => (m, Err Unauthenticated)
  | Some (_, credential) =>
    let m := preview_prune (ge_now env) m in
    match option_keep (fun b => gr_preview b =? id) (pm_browsers m !! key (bytes_str credential)) with
    | None => (m, Err Unauthenticated)
    | Some b =>
      match device_principal (gr_client b) (ge_now env) a with
      | Err err => (m, Err err)
      | Ok p =>
        match principal_require (cancelled a) p PreviewRead (ge_now env) with
        | Err err => (m, Err err)
        | Ok _ =>
          match ge_identity env with
          | None => (m, Err UpstreamChanged)
          | Some identity =>
            if negb (bool_decide (identity = (pi_pid (en_info e), en_created e)))
            then (set_stopped ({[id]} ∪ pm_stopped m) m, Err UpstreamChanged) else
            let port := pi_port (en_info e) in
            let target := ("127.0.0.1:" ++ dec port ++ gq_suffix rq)%string in
            if gq_upgrade rq then
              match client_request ("ws://" ++ target) with
              | None => (m, Err InvalidRequest)
              | Some base =>
                (m, Ok (GrWebsocket p ("ws://" ++ target)
                          (websocket_headers base (gq_headers rq) id port)))
              end
            else (m, Ok (GrForward p ("http://" ++ target) (http_headers (gq_headers rq) id port)))
          end
        end
      end
    end
  end.
(** The [Host] the gateway answers to. *)
Definition gateway_authority (e : Entry) : res string :=
  match parse_url (pi_origin (en_info e)) with
  | None => Err Internal
  | Some u =>
    match u_host_str u with
    | None => Err Internal
    | Some h => Ok (h ++ ":" ++ dec (default 443 (url_default_port u)))%string
    end
  end.
Definition proxy_inner (e : Entry) (env : GatewayEnv) (rq : GatewayRequest) (a : Auth)
    (m : PreviewManager) : PreviewManager * res GatewayReply :=
  if bool_decide (pi_id (en_info e) ∈ pm_stopped m) then (m, Err PreviewNotApproved) else
  match gateway_authority e with
  | Err err => (m, Err err)
  | Ok authority =>
    let origin := str_bytes (pi_origin (en_info e)) in
    if negb (bool_decide (header_text (gq_headers rq) "host" = Some (str_bytes authority)))
    then (m, Err OriginRejected) else
    if option_is_some (header_get (gq_headers rq) "origin") &&
       negb (bool_decide (header_text (gq_headers rq) "origin" = Some origin))
    then (m, Err OriginRejected) else
    if bool_decide (gq_path rq = "/_rc/bootstrap"%string) && bool_decide (gq_method rq = GET)
    then (m, Ok GrPage) else
    if bool_decide (gq_path rq = "/_rc/consume"%string) && bool_decide (gq_method rq = POST) then
      if negb (bool_decide (header_text (gq_headers rq) "origin" = Some origin))
      then (m, Err OriginRejected) else
      match gq_ticket rq with
      | None => (m, Err InvalidRequest)
      | Some t =>
        match option_keep (fun t => str_len t <=? 128) t with
        | None => (m, Err Unauthenticated)
        | Some token => gateway_consume e env token a m
        end
      end
    else if str_starts_with (gq_path rq) "/_rc/" then (m, Err InvalidRequest)
    else gateway_forward e env rq a m
  end.

(** ** Headers of the upstream's answer *)
Section Response.
Context {Cookie : Type} (cookie_parse : bytes -> option Cookie) (cookie_get_name : Cookie -> bytes)
  (cookie_renamed : Cookie -> bytes -> bytes) (b64url_encode : bytes -> bytes).

(** [cookie_renamed]: [set_name], [unset_domain], [set_secure(true)], [to_string]. *)
Definition preview_cookie (id : Uuid) (raw : bytes) : option bytes :=
  if negb (forallb visible_ascii raw) then None else
  match cookie_parse raw with
  | None => None
  | Some c =>
    let old := cookie_get_name c in
    if bytes_starts_with old (str_bytes "__Host-rcpv-") ||
       bytes_starts_with old (str_bytes "rcapp_")
    then None else
    let v := cookie_renamed c (cookie_prefix id ++ b64url_encode old) in
    if forallb visible_ascii v then Some v else None
  end.
Definition header_all (h : HeaderMap) (name : string) : list bytes :=
  map snd (List.filter (fun kv => bool_decide (kv.1 = name)) h).
Definition response_headers (id : Uuid) (upstream : HeaderMap) : HeaderMap :=
  let out := header_remove "set-cookie" (strip_hop_by_hop upstream) in
  let out := fold_left (fun h v => header_append "set-cookie" v h)
               (omap (preview_cookie id) (header_all upstream "set-cookie")) out in
  let out := header_append "content-security-policy" (str_bytes "worker-src 'none'") out in
  header_insert "x-content-type-options" (str_bytes "nosniff")
    (header_insert "referrer-policy" (str_bytes "no-referrer") out).
End Response.

(** ** What reaches an upstream *)
Lemma elem_of_filter_list {A} (f : A -> bool) l x : x ∈ List.filter f l <-> f x = true /\ x ∈ l.
Proof. rewrite !list_elem_of_In, filter_In. tauto. Qed.
Lemma header_remove_elem n h kv : kv ∈ header_remove n h -> kv.1 <> n /\ kv ∈ h.
Proof. unfold header_remove. rewrite elem_of_filter_list. intros [? ?]. by bools. Qed.
Lemma header_insert_elem n v h kv :
  kv ∈ header_insert n v h -> kv = (n, v) \/ (kv.1 <> n /\ kv ∈ h).
Proof.
  unfold header_insert. intros [?%header_remove_elem| ->%list_elem_of_singleton]%elem_of_app; eauto.
Qed.
Lemma remove_all_elem ns h kv : kv ∈ remove_all ns h -> kv.1 ∉ ns /\ kv ∈ h.
Proof.
  unfold remove_all. revert h. induction ns as [|n ns IH]; intros h; cbn [fold_left].
  - intros Hkv. split; [apply not_elem_of_nil|done].
  - intros (Hn & [Hne Hin]%header_remove_elem)%IH. split; [|done]. by apply not_elem_of_cons.
Qed.
Definition forbidden_upstream (input : HeaderMap) : list string :=
  private_headers ++ hop_by_hop ++ connection_listed input.
(** The only origins of a header that is sent upstream. *)
Inductive header_from (input : HeaderMap) (id : Uuid) : string * bytes -> Prop :=
| hf_passed kv : kv ∈ input -> kv.1 ∉ forbidden_upstream input -> header_from input id kv
| hf_cookies :
    header_from input id
      ("cookie"%string, join_bytes [59; 32] (omap (app_cookie id) (request_cookies input))).
Lemma filtered_from input id kv :
  kv ∈ filtered_request_headers input id -> header_from input id kv.
Proof.
  assert (forall kv, kv ∈ remove_all private_headers (strip_hop_by_hop input) ->
    header_from input id kv) as Hh.
  { intros kv' [Hp [Hh [Hc Hin]%remove_all_elem]%remove_all_elem]%remove_all_elem.
    apply hf_passed; [done|]. unfold forbidden_upstream. rewrite !elem_of_app. tauto. }
  unfold filtered_request_headers. destruct (bool_decide _); [by auto|].
  destruct (forallb _ _); [|by auto].
  intros [->|[_ ?]]%header_insert_elem; [apply hf_cookies|by auto].
Qed.
(** A gateway's credential is never an application's cookie. *)
Lemma app_cookie_not_credential id other v : app_cookie id (cookie_name other, v) = None.
Proof. reflexivity. Qed.

Lemma http_headers_from input id port kv :
  kv ∈ http_headers input id port ->
  kv = ("host"%string, str_bytes (upstream_authority port)) \/
  kv = ("origin"%string, str_bytes (upstream_origin port)) \/ header_from input id kv.
Proof.
  unfold http_headers. destruct (option_is_some _);
    [intros [->|[_ H]]%header_insert_elem; [by right; left|]; revert H|];
    intros [->|[_ H]]%header_insert_elem; [by left| |by left|]; right; right;
    by apply filtered_from.
Qed.
Lemma websocket_headers_from base input id port kv :
  kv ∈ websocket_headers base input id port ->
  kv ∈ base \/ kv = ("origin"%string, str_bytes (upstream_origin port)) \/
  (exists v, kv = ("sec-websocket-protocol"%string, v) /\
     header_get input "sec-websocket-protocol" = Some v) \/
  (kv.1 <> "host"%string /\ header_from input id kv).
Proof.
  unfold websocket_headers. set (f := fun h kv' => _). intros H.
  assert (forall l h, (forall x, x ∈ l -> header_from input id x) -> kv ∈ fold_left f l h ->
    kv ∈ h \/ (kv.1 <> "host"%string /\ header_from input id kv)) as Hfold.
  { clear H. induction l as [|x l IH]; cbn [fold_left]; intros h Hl Hkv; [by left|].
    apply IH in Hkv; [|intros y Hy; apply Hl; by right].
    destruct Hkv as [Hkv|?]; [|by right]. unfold f in Hkv.
    destruct (bool_decide (x.1 = "host"%string)) eqn:Ex; [by left|]. bools.
    apply header_insert_elem in Hkv as [->|[_ ?]]; [|by left]. right. split; [done|].
    destruct x; apply Hl; by left. }
  assert (kv ∈ header_insert "origin" (str_bytes (upstream_origin port))
            (fold_left f (filtered_request_headers input id) base) ->
          kv ∈ base \/ kv = ("origin"%string, str_bytes (upstream_origin port)) \/
          (kv.1 <> "host"%string /\ header_from input id kv)) as Ho.
  { intros [->|[_ Hkv]]%header_insert_elem; [by right; left|].
    apply Hfold in Hkv; [tauto|]. intros x. apply filtered_from. }
  destruct (header_get input "sec-websocket-protocol") as [v|]; [|tauto].
  apply header_insert_elem in H as [->|[_ H]]; [|tauto]. right. right. left. eauto.
Qed.

(** ** What a browser gets of an answer *)
Section ResponseFacts.
Context {Cookie : Type} (cookie_parse : bytes -> option Cookie) (cookie_get_name : Cookie -> bytes)
  (cookie_renamed : Cookie -> bytes -> bytes) (b64url_encode : bytes -> bytes).
Notation preview_cookie := (preview_cookie cookie_parse cookie_get_name cookie_renamed b64url_encode).
Notation response_headers := (response_headers cookie_parse cookie_get_name cookie_renamed b64url_encode).

(** The headers the gateway sets itself. *)
Definition gateway_headers : list (string * bytes) :=
  [("content-security-policy"%string, str_bytes "worker-src 'none'");
   ("referrer-policy"%string, str_bytes "no-referrer");
   ("x-content-type-options"%string, str_bytes "nosniff")].
(** The only origins of a header that a browser gets. *)
Inductive response_from (id : Uuid) (upstream : HeaderMap) : string * bytes -> Prop :=
| rf_gateway kv : kv ∈ gateway_headers -> response_from id upstream kv
| rf_cookie raw v :
    ("set-cookie"%string, raw) ∈ upstream -> preview_cookie id raw = Some v ->
    response_from id upstream ("set-cookie"%string, v)
| rf_passed kv :
    kv ∈ upstream ->
    kv.1 ∉ "set-cookie"%string :: "referrer-policy"%string :: "x-content-type-options"%string ::
           hop_by_hop ++ connection_listed upstream ->
    response_from id upstream kv.

Lemma header_all_elem h name v : v ∈ header_all h name -> (name, v) ∈ h.
Proof.
  unfold header_all. intros ([n w] & -> & Hin)%list_elem_of_fmap.
  apply elem_of_filter_list in Hin as [Hn Hin]. cbn in *. bools. by subst.
Qed.
Lemma append_cookies_elem vs h kv :
  kv ∈ fold_left (fun h v => header_append "set-cookie" v h) vs h ->
  kv ∈ h \/ exists v, v ∈ vs /\ kv = ("set-cookie"%string, v).
Proof.
  revert h. induction vs as [|v vs IH]; intros h; cbn [fold_left]; [by left|].
  intros [[?|Hv%list_elem_of_singleton]%elem_of_app|(w & Hw & ->)]%IH; [by left| |];
    right; [exists v; split; [by left|done]|exists w; split; [by right|done]].
Qed.
Lemma response_headers_from id upstream kv :
  kv ∈ response_headers id upstream -> response_from id upstream kv.
Proof.
  unfold Preview.response_headers, header_append. intros Hkv.
  apply header_insert_elem in Hkv as [->|[Hx Hkv]]; [apply rf_gateway; set_solver|].
  apply header_insert_elem in Hkv as [->|[Hr Hkv]]; [apply rf_gateway; set_solver|].
  apply elem_of_app in Hkv as [Hkv| ->%list_elem_of_singleton]; [|apply rf_gateway; set_solver].
  apply append_cookies_elem in Hkv as [Hkv|(v & Hv & ->)].
  - apply header_remove_elem in Hkv as [Hs Hkv].
    apply remove_all_elem in Hkv as [Hh [Hc Hin]%remove_all_elem].
    apply rf_passed; [done|]. rewrite !elem_of_cons, elem_of_app. tauto.
  - apply list_elem_of_omap in Hv as (raw & Hraw & Hv). by eapply rf_cookie; [apply header_all_elem|].
Qed.
Lemma response_headers_set id upstream kv :
  kv ∈ gateway_headers -> kv ∈ response_headers id upstream.
Proof.
  unfold gateway_headers, Preview.response_headers, header_insert, header_append.
  rewrite !elem_of_cons, elem_of_nil. unfold header_remove.
  intros [->|[->|[->|[]]]]; rewrite ?elem_of_app, ?elem_of_filter_list, ?elem_of_app,
    ?elem_of_filter_list, ?elem_of_app, !list_elem_of_singleton; [|tauto|tauto].
  left. split; [done|]. left. split; [done|]. by right.
Qed.
End ResponseFacts.

(** ** Who reaches an upstream *)
Definition preview_access (e : Entry) (env : GatewayEnv) (rq : GatewayRequest) (a : Auth)
    (m : PreviewManager) (p : Principal) : Prop :=
  pi_id (en_info e) ∉ pm_stopped m /\
  (exists authority, gateway_authority e = Ok authority /\
     header_text (gq_headers rq) "host" = Some (str_bytes authority)) /\
  (header_get (gq_headers rq) "origin" = None \/
   header_text (gq_headers rq) "origin" = Some (str_bytes (pi_origin (en_info e)))) /\
  (exists credential g, (cookie_name (pi_id (en_info e)), credential) ∈ request_cookies (gq_headers rq) /\
     pm_browsers m !! key (bytes_str credential) = Some g /\
     gr_preview g = pi_id (en_info e) /\ gr_client g = p_client_id p /\ ge_now env < gr_until g) /\
  device_principal (p_client_id p) (ge_now env) a = Ok p /\
  principal_require (cancelled a) p PreviewRead (ge_now env) = Ok tt /\
  ge_identity env = Some (pi_pid (en_info e), en_created e).

Lemma option_keep_Some' {A} (f : A -> bool) o x : option_keep f o = Some x -> o = Some x /\ f x = true.
Proof. destruct o as [y|]; cbn; [|done]. destruct (f y) eqn:E; [|done]. by intros [= <-]. Qed.
Lemma retain_browsers keep m k g :
  pm_browsers (retain_grants keep m) !! k = Some g -> pm_browsers m !! k = Some g /\ keep g = true.
Proof. cbn. by intros [? ?]%map_lookup_filter_Some. Qed.
Lemma retain_launches keep m k g :
  pm_launches (retain_grants keep m) !! k = Some g -> pm_launches m !! k = Some g /\ keep g = true.
Proof. cbn. by intros [? ?]%map_lookup_filter_Some. Qed.

Lemma device_principal_Err client now a err :
  device_principal client now a = Err err -> err <> UpstreamChanged.
Proof.
  unfold device_principal, ensure_open.
  destruct (a_blocked a); [|destruct (lookup_active a client)]; by intros [= <-].
Qed.
Lemma principal_require_Err can p scope now err :
  principal_require can p scope now = Err err -> err <> UpstreamChanged.
Proof. unfold principal_require. repeat case_match; by intros [= <-]. Qed.
Lemma principal_require_ok can p scope now :
  principal_require can p scope now = Ok tt ->
  p_revoked p ∉ can /\ now < p_expires p /\ scope ∈ p_scopes p.
Proof.
  unfold principal_require. destruct (bool_decide (p_revoked p ∈ can)) eqn:E1; [done|].
  destruct (p_expires p <=? now) eqn:E2; [done|].
  destruct (bool_decide (scope ∈ p_scopes p)) eqn:E3; [|done]. intros _. by bools.
Qed.

(** The reply of the forwarding branch. *)
Definition forward_reply (e : Entry) (rq : GatewayRequest) (p : Principal) (r : GatewayReply) : Prop :=
  let port := pi_port (en_info e) in
  let target := ("127.0.0.1:" ++ dec port ++ gq_suffix rq)%string in
  (exists base, client_request ("ws://" ++ target) = Some base /\ gq_upgrade rq = true /\
     r = GrWebsocket p ("ws://" ++ target)
           (websocket_headers base (gq_headers rq) (pi_id (en_info e)) port)) \/
  (gq_upgrade rq = false /\
     r = GrForward p ("http://" ++ target)
           (http_headers (gq_headers rq) (pi_id (en_info e)) port)).

Lemma gateway_forward_cases e env rq a m m' r :
  gateway_forward e env rq a m = (m', r) ->
  (exists err, r = Err err /\
     (err = UpstreamChanged -> ge_identity env <> None -> pi_id (en_info e) ∈ pm_stopped m')) \/
  (exists p reply, r = Ok reply /\ forward_reply e rq p reply /\
     (exists credential g, (cookie_name (pi_id (en_info e)), credential) ∈ request_cookies (gq_headers rq) /\
        pm_browsers m !! key (bytes_str credential) = Some g /\
        gr_preview g = pi_id (en_info e) /\ gr_client g = p_client_id p /\ ge_now env < gr_until g) /\
     device_principal (p_client_id p) (ge_now env) a = Ok p /\
     principal_require (cancelled a) p PreviewRead (ge_now env) = Ok tt /\
     ge_identity env = Some (pi_pid (en_info e), en_created e)).
Proof.
  unfold gateway_forward. destruct (List.find _ _) as [[n credential]|] eqn:Ef;
    [|intros [= <- <-]; left; eexists; split; [done|]; done].
  apply find_some in Ef as [Hin Hn]. cbn [fst] in Hn. bools. subst n. apply list_elem_of_In in Hin.
  destruct (option_keep _ _) as [b|] eqn:Eb;
    [|intros [= <- <-]; left; eexists; split; [done|]; done].
  apply option_keep_Some' in Eb as [Eb Hb]. apply retain_browsers in Eb as [Eb Hu]. bools.
  destruct (device_principal _ _ _) as [p|err] eqn:Ep;
    [|intros [= <- <-]; left; eexists; split; [done|]; intros Heq; by destruct (device_principal_Err _ _ _ _ Ep)].
  destruct (device_principal_Ok _ _ _ _ Ep) as (_ & Hc & _).
  destruct (principal_require _ _ _ _) as [[]|err] eqn:Er;
    [|intros [= <- <-]; left; eexists; split; [done|]; intros Heq; by destruct (principal_require_Err _ _ _ _ _ Er)].
  destruct (ge_identity env) as [identity|] eqn:Ei;
    [|intros [= <- <-]; left; eexists; split; [done|]; done].
  destruct (bool_decide _) eqn:Ed; cbn [negb];
    [|intros [= <- <-]; left; eexists; split; [done|]; intros _ _; cbn; set_solver].
  bools. subst identity. intros H. cbn zeta in H.
  assert (r = Err InvalidRequest \/ exists reply, r = Ok reply /\ forward_reply e rq p reply)
    as [->|(reply & -> & Hr)].
  { unfold forward_reply. destruct (gq_upgrade rq) eqn:Eu; [|simplify_eq; right; eauto 10].
    destruct (client_request _) as [base|] eqn:Eb'; simplify_eq; [right|by left].
    eexists. split; [done|]. left. eauto. }
  { left. eexists. split; [done|]. done. }
  right. exists p, reply. rewrite Hc. eauto 15.
Qed.
(** A request that is passed on. *)
Definition passed_on (r : res GatewayReply) : option (Principal * string * HeaderMap) :=
  match r with
  | Ok (GrForward p url h) | Ok (GrWebsocket p url h) => Some (p, url, h)
  | _ => None
  end.
Lemma gateway_consume_keeps e env token a m : passed_on (gateway_consume e env token a m).2 = None.
Proof. unfold gateway_consume. by repeat case_match. Qed.
Lemma proxy_inner_passed e env rq a m p url h :
  passed_on (proxy_inner e env rq a m).2 = Some (p, url, h) -> preview_access e env rq a m p.
Proof.
  unfold proxy_inner. destruct (bool_decide (pi_id (en_info e) ∈ pm_stopped m)) eqn:Est; [done|].
  destruct (gateway_authority e) as [authority|err] eqn:Ea; [|done].
  destruct (bool_decide (header_text (gq_headers rq) "host" = _)) eqn:Eh; [|done].
  cbn [negb]. destruct (option_is_some _ && _) eqn:Eo; [done|].
  case_match; [done|]. case_match; [|case_match; [done|]].
  { repeat case_match; try done. by rewrite gateway_consume_keeps. }
  destruct (gateway_forward e env rq a m) as [m' r] eqn:E.
  apply gateway_forward_cases in E as [(err & -> & _)|(q & reply & -> & Hr & Hcred & Hd & Hreq & Hid)];
    [done|]. intros Hp. assert (q = p) as ->
    by (destruct Hr as [(base & _ & _ & ->)|[_ ->]]; cbn in Hp; by simplify_eq).
  assert (header_get (gq_headers rq) "origin" = None \/
    header_text (gq_headers rq) "origin" = Some (str_bytes (pi_origin (en_info e)))) as Horigin.
  { destruct (header_get (gq_headers rq) "origin"); [right|by left]. cbn in Eo. by bools. }
  bools. repeat split; eauto 10.
Qed.
Lemma gateway_consume_cases e env token a m m' r :
  gateway_consume e env token a m = (m', r) ->
  pm_launches m' !! key token = None /\ pm_stopped m' = pm_stopped m /\
  ((exists err, r = Err err /\ err <> UpstreamChanged) \/
   exists g p, r = Ok (GrCookie (gr_preview g) (ge_credential env)) /\
     pm_launches m !! key token = Some g /\ ge_now env < gr_until g /\
     gr_preview g = pi_id (en_info e) /\ gr_client g = p_client_id p /\
     device_principal (p_client_id p) (ge_now env) a = Ok p /\
     principal_require (cancelled a) p PreviewRead (ge_now env) = Ok tt).
Proof.
  unfold gateway_consume. destruct (option_keep _ _) as [g|] eqn:Eg; cycle 1.
  { intros [= <- <-]. split; [apply lookup_delete_eq|]. split; [done|]. left. eauto. }
  apply option_keep_Some' in Eg as [Eg Hg]. apply retain_launches in Eg as [Eg Hu]. bools.
  destruct (device_principal _ _ _) as [p|err] eqn:Ep; cycle 1.
  { intros [= <- <-]. split; [apply lookup_delete_eq|]. split; [done|]. left. eexists. split; [done|].
    by eapply device_principal_Err. }
  destruct (device_principal_Ok _ _ _ _ Ep) as (_ & Hc & _).
  destruct (principal_require _ _ _ _) as [[]|err] eqn:Er; cycle 1.
  { intros [= <- <-]. split; [apply lookup_delete_eq|]. split; [done|]. left. eexists. split; [done|].
    by eapply principal_require_Err. }
  destruct (128 <=? _); intros [= <- <-]; (split; [apply lookup_delete_eq|]); (split; [done|]);
    [left; eauto|right]. exists g, p. rewrite Hc. eauto 10.
Qed.


(** ** The tables over every run
    [approved]: the (preview, client) pairs for which a device with the permission
    launched, since the last operation that withdraws it. *)
Definition approved_pair := (Uuid * Uuid)%type.
Inductive preview_step (url_with_port : string -> Z -> option string) (bind_port : Z)
  : PreviewManager * gset approved_pair -> PreviewManager * gset approved_pair -> Prop :=
| ps_insert public_origin p body env e m l :
    register_entry url_with_port bind_port public_origin p body env = Ok e ->
    preview_step url_with_port bind_port (m, l) ((register_insert e m).1, l)
| ps_finish e env m l : preview_step url_with_port bind_port (m, l) ((register_finish e env m).1, l)
| ps_remove id m l :
    preview_step url_with_port bind_port (m, l)
      (preview_remove id m, base.filter (fun x : approved_pair => x.1 <> id) l)
| ps_launch p id now ticket a m m' origin l :
    principal_require (cancelled a) p PreviewRead now = Ok tt ->
    preview_launch p id now ticket m = (m', Ok origin) ->
    preview_step url_with_port bind_port (m, l) (m', {[ (id, p_client_id p) ]} ∪ l)
| ps_launch_err p id now ticket m m' err l :
    preview_launch p id now ticket m = (m', Err err) -> preview_step url_with_port bind_port (m, l) (m', l)
| ps_request e env rq a m l : preview_step url_with_port bind_port (m, l) ((proxy_inner e env rq a m).1, l)
| ps_revoke_client id m l :
    preview_step url_with_port bind_port (m, l)
      (preview_revoke_client id m, base.filter (fun x : approved_pair => x.2 <> id) l)
| ps_block_all m l : preview_step url_with_port bind_port (m, l) (preview_block_all m, ∅)
| ps_shutdown m l : preview_step url_with_port bind_port (m, l) (preview_shutdown m, ∅).

Definition entries_ok (bind_port : Z) (es : gmap Uuid Entry) : Prop :=
  (size es <= 8)%nat /\
  (forall i e, es !! i = Some e -> pi_id (en_info e) = i /\
     1024 <= pi_port (en_info e) /\ pi_port (en_info e) <> bind_port /\
     ~ (13844 <= pi_port (en_info e) <= 13851) /\
     13844 <= pi_gateway_port (en_info e) <= 13851) /\
  (forall i j e f, es !! i = Some e -> es !! j = Some f ->
     pi_gateway_port (en_info e) = pi_gateway_port (en_info f) -> i = j).
Definition grants_ok (l : gset approved_pair) (n : nat) (t : gmap Digest Grant) : Prop :=
  (size t <= n)%nat /\ forall k g, t !! k = Some g -> (gr_preview g, gr_client g) ∈ l.
Definition preview_inv (bind_port : Z) (w : PreviewManager * gset approved_pair) : Prop :=
  entries_ok bind_port (pm_entries w.1) /\ grants_ok w.2 64 (pm_launches w.1) /\
  grants_ok w.2 128 (pm_browsers w.1).

Lemma grants_ok_empty l n : grants_ok l n ∅.
Proof. split; [rewrite map_size_empty; lia|done]. Qed.
Lemma grants_ok_filter l l' n t (P : Digest * Grant -> Prop) `{!forall x, Decision (P x)} :
  (forall k g, P (k, g) -> (gr_preview g, gr_client g) ∈ l -> (gr_preview g, gr_client g) ∈ l') ->
  grants_ok l n t -> grants_ok l' n (base.filter P t).
Proof.
  intros Hl [Hs Hg]. split; [etrans; [apply size_filter_le|done]|].
  intros k g [Hk HP]%map_lookup_filter_Some. eauto.
Qed.
Lemma grants_ok_delete l n k t : grants_ok l n t -> grants_ok l n (delete k t).
Proof.
  intros [Hs Hg]. split; [etrans; [apply map_subseteq_size, delete_subseteq|done]|].
  intros j g [_ Hj]%lookup_delete_Some. eauto.
Qed.
Lemma grants_ok_insert l n k g t :
  (size t < n)%nat -> (gr_preview g, gr_client g) ∈ l -> grants_ok l n t ->
  grants_ok l n (<[k := g]> t).
Proof.
  intros Hlt Hin [Hs Hg]. split; [etrans; [apply size_insert_le|lia]|].
  intros j h [[_ <-]|[_ Hj]]%lookup_insert_Some; eauto.
Qed.
Lemma grants_ok_mono l l' n t : l ⊆ l' -> grants_ok l n t -> grants_ok l' n t.
Proof. intros Hl [Hs Hg]. split; [done|]. eauto. Qed.
Lemma prune_inv bind_port now m l :
  preview_inv bind_port (m, l) -> preview_inv bind_port (preview_prune now m, l).
Proof. intros (H1 & H2 & H3). split; [done|]. split; by eapply grants_ok_filter; eauto. Qed.

Lemma entries_ok_delete bind_port i es :
  entries_ok bind_port es -> entries_ok bind_port (delete i es).
Proof.
  intros (H1 & H2 & H3). split; [etrans; [apply map_subseteq_size, delete_subseteq|done]|].
  split; [intros j e [_ Hj]%lookup_delete_Some; eauto|].
  intros j k e f [_ Hj]%lookup_delete_Some [_ Hk]%lookup_delete_Some. eauto.
Qed.
Lemma register_entry_Ok url_with_port bind_port public_origin p body env e :
  register_entry url_with_port bind_port public_origin p body env = Ok e ->
  1024 <= pi_port (en_info e) /\ pi_port (en_info e) <> bind_port /\
  ~ (13844 <= pi_port (en_info e) <= 13851) /\ 13844 <= pi_gateway_port (en_info e) <= 13851.
Proof.
  unfold register_entry, register_ports_ok, in_range.
  destruct ((rg_port body <? 1024) || _ || _ || _) eqn:E; [done|]. cbn [negb].
  destruct public_origin; [|done]. destruct (url_with_port _ _); [|done].
  destruct (re_identity env) as [[pid created]|]; [|done]. destruct (re_bound env); [|done].
  intros [= <-]. cbn. bools. lia.
Qed.
Lemma register_insert_inv bind_port e m l :
  1024 <= pi_port (en_info e) /\ pi_port (en_info e) <> bind_port /\
  ~ (13844 <= pi_port (en_info e) <= 13851) /\ 13844 <= pi_gateway_port (en_info e) <= 13851 ->
  preview_inv bind_port (m, l) -> preview_inv bind_port ((register_insert e m).1, l).
Proof.
  intros He Hinv. unfold register_insert. destruct (_ || _) eqn:E; [exact Hinv|].
  apply orb_false_iff in E as [E Ex]. bools. destruct Hinv as ((H1 & H2 & H3) & Hl & Hb).
  assert (forall j f, pm_entries m !! j = Some f ->
    pi_gateway_port (en_info f) <> pi_gateway_port (en_info e)) as Hne.
  { intros j f Hj Heq. apply Ex. by exists j, f. }
  split; [|done]. cbn [fst pm_entries set_entries].
  split; [etrans; [apply size_insert_le|cbn in *; lia]|]. split.
  - intros j f [[<- <-]|[_ Hj]]%lookup_insert_Some; [by split|by apply H2].
  - intros j k f g [[<- <-]|[_ Hj]]%lookup_insert_Some [[<- <-]|[_ Hk]]%lookup_insert_Some Heq;
      [done| | |by eapply H3]; exfalso; by eapply Hne; eauto.
Qed.
Lemma proxy_inner_inv bind_port e env rq a m l :
  preview_inv bind_port (m, l) -> preview_inv bind_port ((proxy_inner e env rq a m).1, l).
Proof.
  intros Hinv. pose proof (prune_inv bind_port (ge_now env) m l Hinv) as Hp.
  assert (forall token, preview_inv bind_port ((gateway_consume e env token a m).1, l)) as Hc.
  { intros token. unfold gateway_consume. destruct Hp as (H1 & H2 & H3).
    pose proof (grants_ok_delete _ _ (key token) _ H2) as H2'.
    destruct (option_keep _ _) as [g|] eqn:Eg; [|by split].
    apply option_keep_Some' in Eg as [Eg _]. destruct H2 as [_ H2]. apply H2 in Eg. cbn [snd] in *.
    destruct (device_principal _ _ _); [|by split]. destruct (principal_require _ _ _ _); [|by split].
    destruct (Z.leb_spec 128 (Z.of_nat (size (pm_browsers (set_grants
      (delete (key token) (pm_launches (preview_prune (ge_now env) m)))
      (pm_browsers (preview_prune (ge_now env) m)) (preview_prune (ge_now env) m))))));
      [by split|]. split; [done|]. split; [done|]. apply grants_ok_insert; [|done|done].
    cbn in *. lia. }
  assert (preview_inv bind_port ((gateway_forward e env rq a m).1, l)) as Hf.
  { unfold gateway_forward. repeat case_match; done. }
  unfold proxy_inner. repeat case_match; done.
Qed.
Lemma preview_step_inv url_with_port bind_port w w' :
  preview_inv bind_port w -> preview_step url_with_port bind_port w w' -> preview_inv bind_port w'.
Proof.
  intros Hinv Hs. destruct Hs as [o p body env e m l He|e env m l|id m l|p id now t a m m' origin l Hr Hl
    |p id now t m m' err l Hl|e env rq a m l|id m l|m l|m l].
  - apply register_insert_inv; [by eapply register_entry_Ok|done].
  - destruct Hinv as (H1 & H2). unfold register_finish.
    repeat case_match; (split; [|done]); [by apply entries_ok_delete|done|done].
  - destruct Hinv as (H1 & H2 & H3). unfold preview_remove.
    assert (forall n t, grants_ok l n t -> grants_ok (base.filter (fun x : approved_pair => x.1 <> id) l) n
      (base.filter (fun kv : Digest * Grant => negb (gr_preview kv.2 =? id) = true) t)) as Hf.
    { intros n t. apply grants_ok_filter. cbn. intros k g Hk Hg. bools. set_solver. }
    destruct (pm_entries m !! id); (split; [|split; by apply Hf]); [by apply entries_ok_delete|done].
  - unfold preview_launch in Hl. apply (prune_inv bind_port now) in Hinv as (H1 & H2 & H3).
    destruct (pm_entries _ !! id); [|done]. destruct (64 <=? _) eqn:Hlt; [done|].
    bools. simplify_eq. cbn [fst snd] in *. split; [done|].
    split; [apply grants_ok_insert; [lia|set_solver|]|]; (eapply grants_ok_mono; [|done]; set_solver).
  - unfold preview_launch in Hl. apply (prune_inv bind_port now) in Hinv.
    destruct (pm_entries _ !! id); [|by simplify_eq]. destruct (64 <=? _); by simplify_eq.
  - by apply proxy_inner_inv.
  - destruct Hinv as (H1 & H2 & H3). split; [done|].
    split; (eapply grants_ok_filter; [|done]); cbn; intros k g Hk Hg; bools; set_solver.
  - destruct Hinv as (H1 & H2 & H3). split; [done|]. split; apply grants_ok_empty.
  - split; [|split; apply grants_ok_empty]. split; [cbn; rewrite map_size_empty; lia|]. done.
Qed.

(** In every reachable state, whatever the order of calls and requests, at
    most 8 previews are registered, under their own ids, on pairwise different
    gateway ports 13844 to 13851 in front of a port that is neither privileged,
    the agent's own nor a gateway's; at most 64 launch and 128 browser grants
    exist, and each is for a preview and a device with the permission to read
    previews that launched it since the preview was removed, the device revoked
    or everything blocked. *)
Theorem preview_tables_sound url_with_port bind_port m approved :
  steps (preview_step url_with_port bind_port) (preview_new, ∅) (m, approved) ->
  entries_ok bind_port (pm_entries m) /\
  (size (pm_launches m) <= 64)%nat /\ (size (pm_browsers m) <= 128)%nat /\
  forall k g, pm_launches m !! k = Some g \/ pm_browsers m !! k = Some g ->
    (gr_preview g, gr_client g) ∈ approved.
Proof.
  intros Hs. assert (preview_inv bind_port (m, approved)) as (H1 & [H2 H2'] & [H3 H3']).
  { eapply (steps_invariant (preview_step url_with_port bind_port) (preview_inv bind_port)); [|exact Hs|].
    - intros w w' Hw Hstep. by eapply preview_step_inv.
    - split; [|split; apply grants_ok_empty]. split; [cbn; rewrite map_size_empty; lia|]. done. }
  split; [done|]. split; [done|]. split; [done|]. intros k g [Hk|Hk]; eauto.
Qed.
End Preview.

(** ** A concrete preview *)
Definition sample_url : Url :=
  {| u_scheme := "https"; u_host_str := Some "pc.ts.net"%string; u_username := "";
     u_password := None; u_path := "/"; u_query := None; u_fragment := None;
     u_port := Some 8444 |}.
Definition sample_register : Register :=
  {| rg_project_id := 3; rg_port := 5173; rg_public_port := 8444 |}.
Definition sample_register_env : RegisterEnv :=
  {| re_identity := Some (4321, 99); re_bound := true; re_id := 12; re_reserved := true;
     re_client := true |}.
Definition sample_entry : Entry :=
  {| en_info := {| pi_id := 12; pi_project_id := 3; pi_port := 5173; pi_gateway_port := 13844;
                   pi_origin := "https://pc.ts.net:8444"; pi_pid := 4321;
                   pi_process_created := dec 99; pi_approved_by := 5 |};
     en_created := 99 |}.
Definition sample_with_port (_ : string) (_ : Z) : option string :=
  Some "https://pc.ts.net:8444"%string.
Definition sample_proxy (identity : Z * Z) : GatewayRequest -> PreviewManager ->
    PreviewManager * res GatewayReply := fun rq m =>
  proxy_inner (fun _ => Some sample_url) u_port sample_key sample_b64 (fun _ => Some [])
    sample_entry {| ge_now := 2; ge_identity := Some identity; ge_credential := "cred" |} rq
    sample_auth m.
(** Registered and launched by the sample device. *)
Definition sample_launched : PreviewManager :=
  (preview_launch sample_key sample_principal 12 1 "ticket"
     (register_insert sample_entry preview_new).1).1.
Definition sample_consume : GatewayRequest :=
  {| gq_method := POST; gq_path := "/_rc/consume"; gq_suffix := "/_rc/consume";
     gq_headers := [("host", str_bytes "pc.ts.net:8444"); ("origin", str_bytes "https://pc.ts.net:8444")]%string;
     gq_upgrade := false; gq_ticket := Some (Some "ticket"%string) |}.
Definition sample_browsing : PreviewManager := (sample_proxy (4321, 99) sample_consume sample_launched).1.
Definition sample_get : GatewayRequest :=
  {| gq_method := GET; gq_path := "/index"; gq_suffix := "/index?q=1";
     gq_headers := [("host", str_bytes "pc.ts.net:8444"); ("authorization", str_bytes "Bearer x");
                    ("x-secret", str_bytes "1"); ("connection", str_bytes "X-Secret");
                    ("accept", str_bytes "*");
                    ("cookie", (cookie_name 12 ++ str_bytes "=cred; " ++ cookie_prefix 12 ++ str_bytes "app=1")%list)]%string;
     gq_upgrade := false; gq_ticket := None |}.
Example sample_forward_runs :
  (sample_proxy (4321, 99) sample_get sample_browsing).2 =
    Ok (GrForward {| p_client_id := 5; p_scopes := Scope_owner; p_expires := 2 + secs 60;
                     p_revoked := (0, 5) |} "http://127.0.0.1:5173/index?q=1"
          [("accept", str_bytes "*"); ("cookie", str_bytes "app=1");
           ("host", str_bytes "127.0.0.1:5173")]%string) /\
  (sample_proxy (4322, 99) sample_get sample_browsing).2 = Err UpstreamChanged /\
  (sample_proxy (4321, 99) sample_get sample_launched).2 = Err Unauthenticated.
Proof. by vm_compute. Qed.

Lemma preview_tables_sound_witness :
  (12, 5) ∈ ({[ (12, 5) ]} ∪ ∅ : gset approved_pair) /\
  pm_launches sample_launched !! sample_key "ticket" =
    Some {| gr_preview := 12; gr_client := 5; gr_until := 1 + secs 30 |}.
Proof.
  assert (pm_launches sample_launched !! sample_key "ticket" =
    Some {| gr_preview := 12; gr_client := 5; gr_until := 1 + secs 30 |}) as Hg by (by vm_compute).
  split; [|exact Hg].
  apply (preview_tables_sound (fun _ => Some sample_url) u_port sample_key
           sample_b64 (fun _ => Some []) sample_with_port 3847 sample_launched ({[ (12, 5) ]} ∪ ∅))
    with (k := sample_key "ticket")
         (g := {| gr_preview := 12; gr_client := 5; gr_until := 1 + secs 30 |}); [|by left].
  eapply steps_trans; [eapply (ps_insert _ _ _ _ _ _ _ (Some "https://pc.ts.net"%string)
    sample_principal sample_register sample_register_env sample_entry); by vm_compute|].
  eapply steps_trans; [apply (ps_finish _ _ _ _ _ _ _ sample_entry sample_register_env)|].
  eapply steps_one, (ps_launch _ _ _ _ _ _ _ sample_principal 12 1 "ticket" sample_auth);
    by vm_compute.
Defined.
