(* ===== verification/Relay.v ===== *)
(** * What a preview relays ([crates/rc-agent/src/preview.rs])
    The body of an application's response and the two directions of a WebSocket, as
    the loops that pass them on until the preview is stopped, the device revoked, the
    time over, or one end is done; and the whole answer of a gateway around them: the
    bootstrap page, the grant, the application's response, the upgraded connection. *)
From Stdlib Require Import String.
From S2P Require Import Prelude Errors Protocol Text Auth Config Preview.
#[global] Open Scope Z_scope.

Definition MESSAGE_LIMIT : Z := 1024 * 1024.
(** What a [select!] finds ready besides the ends: each turn sees the present flags. *)
Record Flags := { fl_stop : bool; fl_revoked : bool; fl_expired : bool }.
Definition cancelled_by (f : Flags) : bool := fl_stop f || fl_revoked f || fl_expired f.

(** ** The body of a response *)
(** A turn: the flags, whether the [select!] takes a cancelled branch, and the next part
    of the application's body. *)
Record BodyTurn := { bt_flags : Flags; bt_cancel : bool; bt_next : option (result () bytes) }.
(** What is yielded: parts, or the error that ends the body. *)
Fixpoint body_stream (ts : list BodyTurn) : list (result () bytes) :=
  match ts with
  | [] => []
  | t :: ts =>
    if bt_cancel t && (fl_stop (bt_flags t) || fl_revoked (bt_flags t)) then [] else
    match bt_next t with
    | Some (Ok part) => Ok part :: body_stream ts
    | Some (Err e) => [Err e]
    | None => []
    end
  end.

(** ** A WebSocket *)
Inductive Msg : Type := MText (t : bytes) | MBinary (b : bytes) | MPing | MPong | MClose.
Inductive Side : Type := Browser | Application.
(** The branch that is taken: a cancellation, or what an end received, with whether the
    other end takes what is passed on. *)
Inductive Pick : Type := PickCancel | PickFrom (side : Side) (m : option (result () Msg)) (sent : bool).
Record RelayTurn := { rt_flags : Flags; rt_pick : Pick }.
Record Relay := { rl_app : list Msg; rl_browser : list Msg }.
Definition relay_new : Relay := {| rl_app := []; rl_browser := [] |}.
Definition send_to (side : Side) (m : Msg) (r : Relay) : Relay :=
  match side with
  | Application => {| rl_app := rl_app r ++ [m]; rl_browser := rl_browser r |}
  | Browser => {| rl_app := rl_app r; rl_browser := rl_browser r ++ [m] |}
  end.
Definition other (side : Side) : Side :=
  match side with Browser => Application | Application => Browser end.
(** One turn; [None]: the loop is left. *)
Definition relay_turn (t : RelayTurn) (r : Relay) : option Relay :=
  let pass side m (sent : bool) := if sent then Some (send_to (other side) m r) else None in
  match rt_pick t with
  | PickCancel => if cancelled_by (rt_flags t) then None else Some r
  | PickFrom side (Some (Ok (MText t))) sent => pass side (MText t) sent
  | PickFrom Browser (Some (Ok (MBinary b))) sent => pass Browser (MBinary b) sent
  | PickFrom Application (Some (Ok (MBinary b))) sent =>
    if MESSAGE_LIMIT <? zlen b then None else pass Application (MBinary b) sent
  | PickFrom _ (Some (Ok (MPing | MPong))) _ => Some r
  | PickFrom _ _ _ => None
  end.
(** Both ends are closed when the loop is left; [None]: it was not. *)
Fixpoint relay_loop (ts : list RelayTurn) (r : Relay) : option Relay * Relay :=
  match ts with
  | [] => (None, r)
  | t :: ts =>
    match relay_turn t r with
    | Some r => relay_loop ts r
    | None => (Some (send_to Browser MClose (send_to Application MClose r)), r)
    end
  end.

(** ** Faithfulness *)
(** The messages with content that [side] was read from. *)
Definition content (side : Side) (t : RelayTurn) : list Msg :=
  match side, rt_pick t with
  | Browser, PickFrom Browser (Some (Ok (MText _ | MBinary _) as m)) _
  | Application, PickFrom Application (Some (Ok (MText _ | MBinary _) as m)) _ =>
    match m with Ok m => [m] | Err _ => [] end
  | _, _ => []
  end.
Definition contents (side : Side) (ts : list RelayTurn) : list Msg := concat (map (content side) ts).
Lemma relay_turn_spec t r r' :
  relay_turn t r = Some r' ->
  rl_app r' = rl_app r ++ content Browser t /\ rl_browser r' = rl_browser r ++ content Application t /\
  (rt_pick t = PickCancel -> cancelled_by (rt_flags t) = false) /\
  Forall (fun m => match m with MBinary b => zlen b <= MESSAGE_LIMIT | _ => True end) (content Application t).
Proof.
  unfold relay_turn, content. destruct t as [f [|[] [[[]|]|] []]]; cbn; try done;
    repeat case_match; intros [= <-]; cbn; rewrite ?app_nil_r; repeat split; try done.
  all: constructor; [|constructor]. 1: done. by apply Z.ltb_ge.
Qed.
Lemma relay_loop_spec ts r :
  let '(closed, r') := relay_loop ts r in
  exists n, (n <= length ts)%nat /\
    rl_app r' = rl_app r ++ contents Browser (take n ts) /\
    rl_browser r' = rl_browser r ++ contents Application (take n ts) /\
    Forall (fun t => rt_pick t = PickCancel -> cancelled_by (rt_flags t) = false) (take n ts) /\
    Forall (fun m => match m with MBinary b => zlen b <= MESSAGE_LIMIT | _ => True end)
      (contents Application (take n ts)) /\
    match closed with
    | Some c => (n < length ts)%nat /\
        rl_app c = rl_app r' ++ [MClose] /\ rl_browser c = rl_browser r' ++ [MClose]
    | None => n = length ts
    end.
Proof.
  revert r. induction ts as [|t ts IH]; intros r; cbn [relay_loop].
  { exists 0%nat. cbn. rewrite !app_nil_r. by repeat split. }
  destruct (relay_turn t r) as [r1|] eqn:Et.
  - apply relay_turn_spec in Et as (Ha & Hb & Hc & Hl). specialize (IH r1).
    destruct (relay_loop ts r1) as [closed r2]. destruct IH as (n & Hn & H1 & H2 & H3 & H4 & H5).
    exists (S n). unfold contents in *. cbn. rewrite H1, H2, Ha, Hb, <- !app_assoc.
    split; [lia|]. split; [done|]. split; [done|]. split; [by constructor|].
    split; [by apply Forall_app|]. destruct closed as [c|]; [|by f_equal].
    destruct H5 as (H5 & Hca & Hcb). split; [lia|]. by rewrite Hca, Hcb, H1, H2, Ha, Hb, <- !app_assoc.
  - exists 0%nat. cbn. rewrite !app_nil_r. by repeat split; try lia.
Qed.
(** A body is what the application sent, up to a point; only its last part may be an error. *)
Lemma body_stream_spec ts :
  exists n, body_stream ts = omap bt_next (take n ts) /\
    Forall (fun t => bt_cancel t = true -> fl_stop (bt_flags t) || fl_revoked (bt_flags t) = false) (take n ts) /\
    Forall (fun r => is_ok r = true) (removelast (body_stream ts)).
Proof.
  induction ts as [|t ts (n & Hb & Hc & Ho)]; [by exists 0%nat|]. cbn [body_stream].
  destruct (bt_cancel t && _) eqn:E; [by exists 0%nat|].
  assert (bt_cancel t = true -> fl_stop (bt_flags t) || fl_revoked (bt_flags t) = false) as Ht.
  { intros H. by rewrite H in E. }
  destruct (bt_next t) as [[part|[]]|] eqn:En; [| |by exists 0%nat].
  - exists (S n). cbn. rewrite En, Hb. split; [done|]. split; [by constructor|].
    rewrite <- Hb. destruct (body_stream ts); [constructor|]. by constructor.
  - exists 1%nat. cbn. rewrite En. by repeat constructor.
Qed.

(** A preview's relay is faithful and ends.  Whatever the two ends send, the
    application has received exactly the browser's text and binary messages up to a
    point, in order and unchanged, and the browser the application's, none of them over
    a mebibyte; no further message passes once a stop, a revocation or the expiry has
    been noticed, and whichever way the loop ends both ends get one closing message
    after everything else. *)
Theorem relay_faithful ts :
  let '(closed, r) := relay_loop ts relay_new in
  exists n, (n <= length ts)%nat /\
    rl_app r = contents Browser (take n ts) /\ rl_browser r = contents Application (take n ts) /\
    (forall i t, ts !! i = Some t -> rt_pick t = PickCancel -> cancelled_by (rt_flags t) = true ->
       (n <= i)%nat /\ option_is_some closed = true) /\
    Forall (fun m => match m with MBinary b => zlen b <= MESSAGE_LIMIT | _ => True end) (rl_browser r) /\
    match closed with
    | Some c => rl_app c = rl_app r ++ [MClose] /\ rl_browser c = rl_browser r ++ [MClose]
    | None => n = length ts
    end.
Proof.
  pose proof (relay_loop_spec ts relay_new) as H. destruct (relay_loop ts relay_new) as [closed r].
  destruct H as (n & Hn & Ha & Hb & Hc & Hl & He). cbn in Ha, Hb. exists n. split; [done|].
  split; [done|]. split; [done|]. split; [|split; [by rewrite Hb|]].
  - intros i t Hi Hp Hf. assert (n <= i)%nat as Hle.
    { destruct (decide (n <= i)%nat); [done|]. exfalso.
      assert (cancelled_by (rt_flags t) = false) as Hno; [|congruence].
      apply (proj1 (Forall_lookup _ (take n ts)) Hc i t); [|done]. by rewrite lookup_take_lt by lia. }
    split; [done|]. apply lookup_lt_Some in Hi. destruct closed; [done|lia].
  - destruct closed as [c|]; [by destruct He|done].
Qed.

(** ** The answer of a gateway *)

(** The script of the bootstrap page. *)
Definition SCRIPT : string :=
  "const ticket=location.hash.slice(1);history.replaceState(null,'','/_rc/bootstrap');fetch('/_rc/consume',{method:'POST',headers:{'Content-Type':'application/json'},body:JSON.stringify({ticket})}).then(r=>{if(!r.ok)throw Error('Preview approval expired');location.replace('/')}).catch(()=>{document.body.textContent='Preview authorization failed. Reopen it from RemoteCodex.'});".

(** What the application answers to a request, and the branch that the [select!] around
    the sending takes. *)
Record UpResponse := { ur_status : Z; ur_headers : HeaderMap; ur_body : list BodyTurn }.
Inductive SendPick : Type := SendRevoked | SendStopped | SendDone (r : result () UpResponse).
(** What comes of connecting to the application's WebSocket within five seconds: the
    headers of its handshake, and the turns of the relay after it. *)
Inductive Connect : Type :=
| ConnectTimeout
| ConnectFailed
| Connected (headers : HeaderMap) (turns : list RelayTurn).

Record AppResponse := {
  ar_status : Z; ar_headers : HeaderMap; ar_body : list (result () bytes)
}.
Record Channel := { ch_protocols : list bytes; ch_relay : option Relay * Relay }.
Inductive Served : Type := SvResponse (r : AppResponse) | SvChannel (c : Channel).

Definition websocket_exchange (c : Connect) : res Served :=
  match c with
  | ConnectTimeout | ConnectFailed => Err UpstreamChanged
  | Connected headers turns =>
    Ok (SvChannel {|
      ch_protocols := match header_text headers "sec-websocket-protocol" with
                      | Some protocol => [protocol]
                      | None => []
                      end;
      ch_relay := relay_loop turns relay_new |})
  end.

(** The answer to [/_rc/consume]. *)
Definition grant_reply (id : Uuid) (credential : string) : AppResponse := {|
  ar_status := 204;
  ar_headers :=
    [("cache-control"%string, str_bytes "no-store");
     ("set-cookie"%string,
      cookie_name id ++ str_bytes "=" ++ str_bytes credential ++
      str_bytes "; Secure; HttpOnly; SameSite=Strict; Path=/; Max-Age=600")];
  ar_body := [] |}.

Section Gateway.
Context (parse_url : string -> option Url) (url_default_port : Url -> option Z)
  (key : string -> Digest) (b64url_decode : string -> option bytes)
  (client_request : string -> option (list (string * bytes))).
Context {Cookie : Type} (cookie_parse : bytes -> option Cookie) (cookie_get_name : Cookie -> bytes)
  (cookie_renamed : Cookie -> bytes -> bytes) (b64url_encode : bytes -> bytes)
  (script_digest : string -> string).
Notation proxy_inner := (proxy_inner parse_url url_default_port key b64url_decode client_request).
Notation response_headers := (response_headers cookie_parse cookie_get_name cookie_renamed b64url_encode).
Notation preview_access := (preview_access parse_url url_default_port key).

(** The bootstrap page; [script_digest] is the base64 of the script's SHA-256. *)
Definition bootstrap_page : AppResponse := {|
  ar_status := 200;
  ar_headers :=
    [("content-type"%string, str_bytes "text/html; charset=utf-8");
     ("cache-control"%string, str_bytes "no-store");
     ("referrer-policy"%string, str_bytes "no-referrer");
     ("content-security-policy"%string,
      str_bytes "default-src 'none'; script-src 'sha256-" ++ str_bytes (script_digest SCRIPT) ++
      str_bytes "'; connect-src 'self'; frame-ancestors 'none'; base-uri 'none'")];
  ar_body :=
    [Ok (str_bytes "<!doctype html><meta charset=utf-8><title>RemoteCodex preview</title><p>Authenticating this preview…</p><script>" ++
         str_bytes SCRIPT ++ str_bytes "</script>")] |}.

Definition http_exchange (id : Uuid) (pick : SendPick) : res Served :=
  match pick with
  | SendRevoked => Err DeviceRevoked
  | SendStopped => Err PreviewNotApproved
  | SendDone (Err _) => Err UpstreamChanged
  | SendDone (Ok u) =>
    Ok (SvResponse {| ar_status := ur_status u; ar_headers := response_headers id (ur_headers u);
                      ar_body := body_stream (ur_body u) |})
  end.

(** A request to a gateway; [send] and [connect] are the application, asked with a URL
    and headers. *)
Definition gateway_serve (e : Entry) (env : GatewayEnv) (rq : GatewayRequest)
    (send : string -> HeaderMap -> SendPick) (connect : string -> HeaderMap -> Connect)
    (a : Auth) (m : PreviewManager) : PreviewManager * res Served :=
  let id := pi_id (en_info e) in
  match proxy_inner e env rq a m with
  | (m, Err err) => (m, Err err)
  | (m, Ok GrPage) => (m, Ok (SvResponse bootstrap_page))
  | (m, Ok (GrCookie id credential)) => (m, Ok (SvResponse (grant_reply id credential)))
  | (m, Ok (GrForward _ url h)) => (m, http_exchange id (send url h))
  | (m, Ok (GrWebsocket _ url h)) => (m, websocket_exchange (connect url h))
  end.

(** Whoever may not see a preview learns nothing of the application and does nothing to
    it: unless the request has the access of [preview_access], the answer and the
    gateway's tables are the same whatever the application is. *)
Theorem gateway_hides_application e env rq send send' connect connect' a m :
  (forall p, ~ preview_access e env rq a m p) ->
  gateway_serve e env rq send connect a m = gateway_serve e env rq send' connect' a m.
Proof.
  intros Hno. unfold gateway_serve.
  destruct (proxy_inner e env rq a m) as [m' r] eqn:E.
  assert (passed_on r = None) as Hr.
  { destruct (passed_on r) as [[[p url] h]|] eqn:Ep; [|done]. destruct (Hno p).
    apply (proxy_inner_passed parse_url url_default_port key b64url_decode client_request)
      with (url := url) (h := h). by rewrite E. }
  by destruct r as [[]|].
Qed.

(** What an application's response becomes.  Its status is kept; its body is cut only at
    the end, by a stop, a revocation or its own error; every header is one of the
    gateway's own, a cookie renamed into the preview's name space, or a header of the
    application that is neither hop-by-hop, nor listed in Connection, nor a policy the
    gateway sets; and the gateway's own are there. *)
Theorem preview_response_guarded id u s :
  http_exchange id (SendDone (Ok u)) = Ok s ->
  exists r, s = SvResponse r /\ ar_status r = ur_status u /\
    (exists n, ar_body r = omap bt_next (take n (ur_body u)) /\
       Forall (fun x => is_ok x = true) (removelast (ar_body r))) /\
    (forall kv, kv ∈ ar_headers r ->
       response_from cookie_parse cookie_get_name cookie_renamed b64url_encode id (ur_headers u) kv) /\
    (forall kv, kv ∈ gateway_headers -> kv ∈ ar_headers r).
Proof.
  intros [= <-]. eexists. split; [done|]. split; [done|]. split; [|split].
  - destruct (body_stream_spec (ur_body u)) as (n & Hb & _ & Ho). by exists n.
  - intros kv. apply response_headers_from.
  - intros kv. apply response_headers_set.
Qed.
End Gateway.

(** ** Concrete exchanges *)
Definition sample_serve (send : string -> HeaderMap -> SendPick) (m : PreviewManager) :=
  gateway_serve (fun _ => Some sample_url) u_port sample_key sample_b64 (fun _ => Some [])
    (fun raw => Some raw) (fun raw => default raw (option_map fst (split_once 61 raw)))
    (fun _ name => name ++ str_bytes "=1; Secure") (fun b => b) (fun _ => "digest"%string)
    sample_entry {| ge_now := 2; ge_identity := Some (4321, 99); ge_credential := "cred" |}
    sample_get send (fun _ _ => ConnectFailed) sample_auth m.
Definition sample_part : BodyTurn :=
  {| bt_flags := {| fl_stop := false; fl_revoked := false; fl_expired := false |};
     bt_cancel := false; bt_next := Some (Ok [104; 105]) |}.
Definition sample_up : UpResponse :=
  {| ur_status := 200;
     ur_headers := [("set-cookie", str_bytes "sid=1"); ("upgrade", str_bytes "h2");
                    ("referrer-policy", str_bytes "unsafe-url")]%string;
     ur_body := [sample_part] |}.
(** With a grant the application answers; without one nothing depends on it. *)
Example sample_serve_runs :
  (sample_serve (fun _ _ => SendDone (Ok sample_up)) sample_browsing).2 =
    Ok (SvResponse {| ar_status := 200;
      ar_headers := [("set-cookie"%string, cookie_prefix 12 ++ str_bytes "sid=1; Secure")] ++ gateway_headers;
      ar_body := [Ok [104; 105]] |}) /\
  (sample_serve (fun _ _ => SendDone (Ok sample_up)) sample_launched).2 = Err Unauthenticated.
Proof. by vm_compute. Qed.

Lemma gateway_hides_application_witness :
  sample_serve (fun _ _ => SendDone (Ok sample_up)) sample_launched =
  sample_serve (fun _ _ => SendRevoked) sample_launched.
Proof.
  apply gateway_hides_application.
  intros p (_ & _ & _ & (c & g & _ & Hg & _) & _).
  assert (pm_browsers sample_launched = ∅) as He by by vm_compute.
  rewrite He, lookup_empty in Hg. done.
Defined.
Lemma preview_response_guarded_witness :
  exists r, http_exchange (fun raw => Some raw) (fun raw => raw) (fun _ name => name) (fun b => b)
      12 (SendDone (Ok sample_up)) = Ok (SvResponse r) /\
    ar_status r = 200 /\ ("referrer-policy"%string, str_bytes "no-referrer") ∈ ar_headers r.
Proof.
  eexists. split; [reflexivity|].
  destruct (preview_response_guarded (fun raw => Some raw) (fun raw : bytes => raw)
    (fun _ name => name) (fun b => b) 12 sample_up _ eq_refl)
    as (r & [= <-] & Hs & _ & _ & Hg).
  split; [exact Hs|]. apply Hg. right. left.
Defined.
