(* ===== verification/Http.v ===== *)
(** * The HTTP interface ([crates/rc-agent/src/http.rs])
    The boundary every request passes, the handlers with the permission each of
    them demands, and the agent's state they work on.  Routing, JSON and static
    files belong to third-party crates. *)
From Stdlib Require Import String.
From S2P Require Import Prelude Errors Protocol Text Frame Ring VtFence Lease Ledger Auth.
From S2P Require Import SessionInput SessionOutput Session Float Geometry MediaWire MediaStream Config Preview.
#[global] Open Scope Z_scope.

(** [IntoResponse for Failure] *)
Definition failure_status (e : ErrorCode) : Z :=
  match e with
  | Unauthenticated | DeviceRevoked => 401
  | Forbidden | OriginRejected => 403
  | SessionLost => 404
  | LeaseBusy | LeaseRequired | LeaseStale | DuplicateInput => 409
  | RateLimited => 429
  | Internal => 500
  | CaptureUnsupported | MediaUnavailable => 501
  | _ => 400
  end.

(** ** The boundary *)
(** A request's head; headers that are not visible ASCII count as absent. *)
Record Request := {
  rq_method : Method;
  rq_path : string;
  rq_host : option string;
  rq_origin : option string;
  rq_authorization : option string
}.
Inductive Verdict : Type := Refuse (e : ErrorCode) | NoContent | Next.

Definition boundary (parse_url : string -> option Url) (c : Config) (r : Request) : Verdict :=
  if negb (host_allowed parse_url c (match rq_host r with Some h => h | None => ""%string end))
  then Refuse OriginRejected else
  if is_some_and (fun o => negb (origin_allowed c o)) (rq_origin r)
  then Refuse OriginRejected else
  if str_starts_with (rq_path r) "/api/" && option_is_none (rq_origin r) &&
     negb (bool_decide (rq_method r = GET)) && negb (bool_decide (rq_method r = HEAD))
  then Refuse OriginRejected else
  if bool_decide (rq_method r = OPTIONS) then NoContent else Next.

Section Http.
Context {Model : Type} (model_new : Z -> Z -> Model) (model_bracketed : Model -> bool).
Context (parse_url : string -> option Url) (url_with_port : string -> Z -> option string)
  (key : string -> Digest)
  (b64url_decode : string -> option bytes) (sec1_key_ok signature_ok : bytes -> bool)
  (ecdsa_verify : bytes -> string -> bytes -> bool) (audience : string).

Record AppState := {
  st_config : Config;
  st_auth : Auth;
  st_sessions : SessionManager (Model := Model);
  st_media : MediaManager;
  st_previews : PreviewManager
}.
Definition set_auth (a : Auth) (s : AppState) : AppState :=
  {| st_config := st_config s; st_auth := a; st_sessions := st_sessions s;
     st_media := st_media s; st_previews := st_previews s |}.
Definition set_manager (g : SessionManager) (s : AppState) : AppState :=
  {| st_config := st_config s; st_auth := st_auth s; st_sessions := g;
     st_media := st_media s; st_previews := st_previews s |}.
Definition set_media (m : MediaManager) (s : AppState) : AppState :=
  {| st_config := st_config s; st_auth := st_auth s; st_sessions := st_sessions s;
     st_media := m; st_previews := st_previews s |}.
Definition set_previews (m : PreviewManager) (s : AppState) : AppState :=
  {| st_config := st_config s; st_auth := st_auth s; st_sessions := st_sessions s;
     st_media := st_media s; st_previews := m |}.
Definition put_session (id : Uuid) (x : Session) (s : AppState) : AppState :=
  set_manager (Session.set_sessions (<[id := x]> (sm_sessions (st_sessions s))) (st_sessions s)) s.

(** The bearer token's principal, if it has the scope. *)
Definition http_principal (r : Request) (scope : Scope) (now : Z) (s : AppState) : res Principal :=
  match rq_authorization r with
  | None => Err Unauthenticated
  | Some v =>
    match str_strip_prefix v "Bearer " with
    | None => Err Unauthenticated
    | Some bearer =>
      match authorize key bearer now (st_auth s) with
      | Err e => Err e
      | Ok p =>
        match principal_require (cancelled (st_auth s)) p scope now with
        | Err e => Err e
        | Ok _ => Ok p
        end
      end
    end
  end.

(** ** The handlers *)
Inductive Reply : Type :=
| RpPaired (d : Device)
| RpChallenge (id message : string)
| RpToken (token : string)
| RpView                      (* host, profiles, sessions, history, devices *)
| RpSession (s : Session (Model := Model))
| RpDone
| RpTicket (ticket : string)
| RpPreview (e : Entry)
| RpLaunch (origin ticket : string).

Definition handle_pair (ticket public_key label : string) (now client : Z) (saved : bool)
    (s : AppState) : AppState * res Reply :=
  let '(a, r) := auth_pair key b64url_decode sec1_key_ok ticket public_key label now client
                   saved (st_auth s) in
  (set_auth a s, match r with Ok d => Ok (RpPaired d) | Err e => Err e end).
Definition handle_challenge (client now unix_ms : Z) (id nonce : string) (s : AppState)
  : AppState * res Reply :=
  let '(a, r) := auth_challenge audience client now unix_ms id nonce (st_auth s) in
  (set_auth a s, match r with Ok (i, m) => Ok (RpChallenge i m) | Err e => Err e end).
Definition handle_verify (id signature : string) (now : Z) (token : string) (s : AppState)
  : AppState * res Reply :=
  let '(a, r) := auth_verify key b64url_decode sec1_key_ok signature_ok ecdsa_verify
                   id signature now token (st_auth s) in
  (set_auth a s, match r with Ok t => Ok (RpToken t) | Err e => Err e end).

(** [principal(&s, &h, scope)?] in front of a handler's body. *)
Definition with_scope (r : Request) (scope : Scope) (now : Z) (s : AppState)
    (k : Principal -> AppState * res Reply) : AppState * res Reply :=
  match http_principal r scope now s with
  | Err e => (s, Err e)
  | Ok p => k p
  end.

Definition handle_view (r : Request) (scope : Scope) (now : Z) (s : AppState) :=
  with_scope r scope now s (fun _ => (s, Ok RpView)).
Definition handle_projection (r : Request) (id : Uuid) (now : Z) (s : AppState) :=
  with_scope r TerminalRead now s (fun _ =>
    match manager_get id (st_sessions s) with
    | Err e => (s, Err e)
    | Ok x => (s, Ok (RpSession x))
    end).
Definition handle_create (r : Request) (body : CreateSession) (env : CreateEnv) (now : Z)
    (s : AppState) :=
  with_scope r TerminalCreate now s (fun _ =>
    let '(g, _, res) := manager_create model_new body env (st_sessions s) in
    (set_manager g s, match res with Ok x => Ok (RpSession x) | Err e => Err e end)).
Definition handle_rename (r : Request) (id : Uuid) (label : string) (stored : bool)
    (now later : Z) (s : AppState) :=
  with_scope r TerminalCreate now s (fun p =>
    let '(g, _, res) := manager_rename (cancelled (st_auth s)) p id label later stored
                          (st_sessions s) in
    (set_manager g s, match res with Ok _ => Ok RpDone | Err e => Err e end)).
Definition handle_close (r : Request) (id : Uuid) (now : Z) (s : AppState) :=
  with_scope r TerminalClose now s (fun _ =>
    match manager_get id (st_sessions s) with
    | Err e => (s, Err e)
    | Ok x => (put_session id (session_close x).1 s, Ok RpDone)
    end).
Definition handle_ws_ticket (r : Request) (channel : string) (session : option Uuid)
    (now later : Z) (token : string) (s : AppState) :=
  with_scope r TerminalRead now s (fun p =>
    let checked :=
      if bool_decide (channel = "media"%string) then
        match session with
        | None => Err InvalidRequest
        | Some id =>
          match media_get (cancelled (st_auth s)) id p later (st_media s) with
          | Err e => Err e
          | Ok _ => Ok tt
          end
        end
      else match session with
           | None => Ok tt
           | Some id =>
             match manager_get id (st_sessions s) with Err e => Err e | Ok _ => Ok tt end
           end in
    match checked with
    | Err e => (s, Err e)
    | Ok _ =>
      let '(a, res) := issue_ws key p channel session later token (st_auth s) in
      (set_auth a s, match res with Ok t => Ok (RpTicket t) | Err e => Err e end)
    end).
Definition handle_revoke_device (r : Request) (id : Uuid) (saved : bool) (now : Z)
    (s : AppState) :=
  with_scope r AdminDevices now s (fun _ =>
    let '(a, res) := auth_revoke id saved (st_auth s) in
    let s := set_auth a s in
    match res with
    | Err e => (s, Err e)
    | Ok _ =>
      let s := set_manager (manager_revoke_client id (st_sessions s)) s in
      let s := set_previews (preview_revoke_client id (st_previews s)) s in
      (set_media (media_revoke_client id (st_media s)) s, Ok RpDone)
    end).
Definition handle_pair_ticket (r : Request) (scopes : list Scope) (now later : Z)
    (token : string) (s : AppState) :=
  with_scope r AdminDevices now s (fun p =>
    if existsb (fun v => negb (bool_decide (v ∈ p_scopes p))) scopes
    then (s, Err Forbidden) else
    let '(a, res) := issue_pair_ticket key scopes later token (st_auth s) in
    (set_auth a s, match res with Ok t => Ok (RpTicket t) | Err e => Err e end)).
Definition handle_block_remote (r : Request) (now : Z) (s : AppState) :=
  with_scope r AdminSettings now s (fun _ =>
    let s := set_auth (block_all (st_auth s)) s in
    let s := set_manager (manager_block_input (st_sessions s)) s in
    let s := set_previews (preview_block_all (st_previews s)) s in
    (set_media (media_cancel_all (st_media s)) s, Ok RpDone)).
(** The paste itself; waiting for its delivery changes nothing. *)
Definition handle_paste (r : Request) (id : Uuid) (agent_epoch generation connection lease
    input_id input_seq : Z) (text : bytes) (append_enter : bool) (now later : Z) (s : AppState) :=
  with_scope r TerminalWrite now s (fun p =>
    match manager_get id (st_sessions s) with
    | Err e => (s, Err e)
    | Ok x =>
      match validate_generation agent_epoch generation x with
      | Err e => (s, Err e)
      | Ok _ =>
        let '(x, res) := session_enqueue_paste model_bracketed (cancelled (st_auth s)) p
          connection lease input_id input_seq text append_enter later later later x in
        (put_session id x s, match res with Ok _ => Ok RpDone | Err e => Err e end)
      end
    end).
Definition handle_register (r : Request) (body : Register) (env : RegisterEnv) (now : Z)
    (s : AppState) :=
  with_scope r AdminSettings now s (fun p =>
    let '(m, res) := preview_register url_with_port (sa_port (cf_bind (st_config s)))
                       (cf_public_origin (st_config s)) p body env (st_previews s) in
    (set_previews m s, match res with Ok e => Ok (RpPreview e) | Err e => Err e end)).
Definition handle_remove_preview (r : Request) (id : Uuid) (now : Z) (s : AppState) :=
  with_scope r AdminSettings now s (fun _ =>
    (set_previews (preview_remove id (st_previews s)) s, Ok RpDone)).
Definition handle_launch (r : Request) (id : Uuid) (now later : Z) (ticket : string)
    (s : AppState) :=
  with_scope r PreviewRead now s (fun p =>
    let '(m, res) := preview_launch key p id later ticket (st_previews s) in
    (set_previews m s, match res with Ok o => Ok (RpLaunch o ticket) | Err e => Err e end)).

(** ** Routing *)
Inductive ApiCall : Type :=
| ApiPair (ticket public_key label : string) (client : Z) (saved : bool)
| ApiChallenge (client unix_ms : Z) (id nonce : string)
| ApiVerify (id signature token : string)
| ApiHost | ApiProfiles | ApiSessions | ApiHistory | ApiDevices
| ApiProjection (id : Uuid)
| ApiCreate (body : CreateSession) (env : CreateEnv)
| ApiRename (id : Uuid) (label : string) (stored : bool)
| ApiClose (id : Uuid)
| ApiWsTicket (channel : string) (session : option Uuid) (token : string)
| ApiRevokeDevice (id : Uuid) (saved : bool)
| ApiPairTicket (scopes : list Scope) (token : string)
| ApiBlockRemote
| ApiPreviews
| ApiRegister (body : Register) (env : RegisterEnv)
| ApiRemovePreview (id : Uuid)
| ApiLaunch (id : Uuid) (ticket : string)
| ApiPaste (id : Uuid) (agent_epoch generation connection lease input_id input_seq : Z)
    (text : bytes) (append_enter : bool).

Definition under (p : string) (id : Uuid) (suffix : string) : string :=
  "/api/v1/" ++ p ++ "/" ++ uuid_string id ++ suffix.
Definition call_route (c : ApiCall) : Method * string :=
  match c with
  | ApiPair _ _ _ _ _ => (POST, "/api/v1/auth/pair")
  | ApiChallenge _ _ _ _ => (POST, "/api/v1/auth/challenge")
  | ApiVerify _ _ _ => (POST, "/api/v1/auth/verify")
  | ApiHost => (GET, "/api/v1/host")
  | ApiProfiles => (GET, "/api/v1/profiles")
  | ApiSessions => (GET, "/api/v1/sessions")
  | ApiHistory => (GET, "/api/v1/history")
  | ApiDevices => (GET, "/api/v1/devices")
  | ApiProjection id => (GET, under "sessions" id "/projection")
  | ApiCreate _ _ => (POST, "/api/v1/sessions")
  | ApiRename id _ _ => (POST, under "sessions" id "/rename")
  | ApiClose id => (DELETE, under "sessions" id "")
  | ApiWsTicket _ _ _ => (POST, "/api/v1/tickets/ws")
  | ApiRevokeDevice id _ => (DELETE, under "devices" id "")
  | ApiPairTicket _ _ => (POST, "/api/v1/pair-tickets")
  | ApiBlockRemote => (POST, "/api/v1/block-remote")
  | ApiPreviews => (GET, "/api/v1/previews")
  | ApiRegister _ _ => (POST, "/api/v1/previews")
  | ApiRemovePreview id => (DELETE, under "previews" id "")
  | ApiLaunch id _ => (POST, under "previews" id "/launch")
  | ApiPaste id _ _ _ _ _ _ _ _ => (POST, under "sessions" id "/paste")
  end%string.
(** The permission a call demands; the three calls that authenticate demand none. *)
Definition call_scope (c : ApiCall) : option Scope :=
  match c with
  | ApiPair _ _ _ _ _ | ApiChallenge _ _ _ _ | ApiVerify _ _ _ => None
  | ApiHost | ApiProfiles | ApiSessions | ApiHistory | ApiProjection _ | ApiWsTicket _ _ _ =>
    Some TerminalRead
  | ApiCreate _ _ | ApiRename _ _ _ => Some TerminalCreate
  | ApiClose _ => Some TerminalClose
  | ApiDevices | ApiRevokeDevice _ _ | ApiPairTicket _ _ => Some AdminDevices
  | ApiBlockRemote | ApiRegister _ _ | ApiRemovePreview _ => Some AdminSettings
  | ApiPreviews | ApiLaunch _ _ => Some PreviewRead
  | ApiPaste _ _ _ _ _ _ _ _ _ => Some TerminalWrite
  end.
Definition handle (r : Request) (c : ApiCall) (now later : Z) (s : AppState)
  : AppState * res Reply :=
  match c with
  | ApiPair t k l client saved => handle_pair t k l now client saved s
  | ApiChallenge client unix_ms id nonce => handle_challenge client now unix_ms id nonce s
  | ApiVerify id sig token => handle_verify id sig now token s
  | ApiHost | ApiProfiles | ApiSessions | ApiHistory => handle_view r TerminalRead now s
  | ApiDevices => handle_view r AdminDevices now s
  | ApiProjection id => handle_projection r id now s
  | ApiCreate body env => handle_create r body env now s
  | ApiRename id label stored => handle_rename r id label stored now later s
  | ApiClose id => handle_close r id now s
  | ApiWsTicket ch session token => handle_ws_ticket r ch session now later token s
  | ApiRevokeDevice id saved => handle_revoke_device r id saved now s
  | ApiPairTicket scopes token => handle_pair_ticket r scopes now later token s
  | ApiBlockRemote => handle_block_remote r now s
  | ApiPreviews => handle_view r PreviewRead now s
  | ApiRegister body env => handle_register r body env now s
  | ApiRemovePreview id => handle_remove_preview r id now s
  | ApiLaunch id ticket => handle_launch r id now later ticket s
  | ApiPaste id ae gen conn lease iid seq text enter =>
    handle_paste r id ae gen conn lease iid seq text enter now later s
  end.
(** A routed request: the boundary, then the handler. *)
Definition serve (r : Request) (c : ApiCall) (now later : Z) (s : AppState)
  : AppState * res Reply :=
  match boundary parse_url (st_config s) r with
  | Refuse e => (s, Err e)
  | NoContent => (s, Ok RpDone)
  | Next => handle r c now later s
  end.
Definition routed (r : Request) (c : ApiCall) : Prop :=
  rq_method r = (call_route c).1 /\ rq_path r = (call_route c).2.

(** ** Nothing happens without authority *)
Lemma with_scope_cases r scope now s k :
  (exists e, with_scope r scope now s k = (s, Err e)) \/
  (exists p, http_principal r scope now s = Ok p /\ with_scope r scope now s k = k p).
Proof. unfold with_scope. destruct (http_principal r scope now s); eauto. Qed.
Lemma handle_scope r c now later s scope :
  call_scope c = Some scope ->
  (exists e, handle r c now later s = (s, Err e)) \/
  (exists p, http_principal r scope now s = Ok p).
Proof.
  intros Hc. destruct c; cbn in Hc; simplify_eq; cbn [handle];
    unfold handle_view, handle_projection, handle_create, handle_rename, handle_close,
      handle_ws_ticket, handle_revoke_device, handle_pair_ticket, handle_block_remote, handle_paste,
      handle_register, handle_remove_preview, handle_launch;
    match goal with |- context [with_scope ?r ?sc ?now ?s ?k] =>
      destruct (with_scope_cases r sc now s k) as [[e He]|(p & Hp & _)] end; eauto.
Qed.
Lemma call_path_api c : str_starts_with (call_route c).2 "/api/" = true.
Proof. by destruct c. Qed.
Lemma handle_get r c now later s :
  (call_route c).1 = GET -> (handle r c now later s).1 = s.
Proof.
  intros Hc. destruct c; try discriminate Hc; cbn [handle];
    unfold handle_view, handle_projection, with_scope; by repeat case_match.
Qed.

End Http.

(** ** A concrete request: the owner's device issues a pairing ticket *)
Definition demo_auth : Auth :=
  set_tables ∅ ∅ {[ sample_key "tok" := {| Auth.ac_client := 5; Auth.ac_until := secs 600 |} ]} ∅
    sample_auth.
Definition demo_state : AppState (Model := Z * Z) :=
  {| st_config := config_default; st_auth := demo_auth; st_sessions := sample_manager;
     st_media := media_new media_config_default; st_previews := preview_new |}.
Definition demo_request : Request :=
  {| rq_method := POST; rq_path := "/api/v1/pair-tickets"; rq_host := Some "127.0.0.1:3847"%string;
     rq_origin := Some "tauri://localhost"%string; rq_authorization := Some "Bearer tok"%string |}.
Definition demo_call : ApiCall := ApiPairTicket [TerminalRead] "pair-me".
Definition demo_serve (r : Request) : AppState * res Reply :=
  serve size_new (fun _ => true) (fun _ => None) sample_with_port sample_key sample_b64 (fun _ => true)
    (fun _ => true) sample_sig "aud" r demo_call (secs 1) (secs 1) demo_state.
Example http_refuses_foreign_origin :
  (demo_serve {| rq_method := POST; rq_path := "/api/v1/pair-tickets";
     rq_host := Some "127.0.0.1:3847"%string; rq_origin := Some "https://evil.test"%string;
     rq_authorization := Some "Bearer tok"%string |}).2 = Err OriginRejected.
Proof. by vm_compute. Qed.
