(* ===== verification/Response.v ===== *)
(** * The headers of every HTTP response ([boundary] of [crates/rc-agent/src/http.rs])
    What the boundary adds to the response of a request it let through, and what a
    refused request gets. *)
From Stdlib Require Import String.
From S2P Require Import Prelude Errors Text MediaWire Config Preview Http.
#[global] Open Scope Z_scope.

(** [s.replacen(from, to, 1)] *)
Fixpoint replacen1 (s from to : string) : string :=
  match str_strip_prefix s from with
  | Some r => to ++ r
  | None => match s with EmptyString => EmptyString | String c r => String c (replacen1 r from to) end
  end.
Record Response := { rs_status : Z; rs_headers : HeaderMap }.
(** [Failure::into_response]; the body is JSON. *)
Definition failure_response (e : ErrorCode) : Response :=
  {| rs_status := failure_status e;
     rs_headers := [("content-type"%string, str_bytes "application/json")] |}.

Definition ws_source (c : Config) : string :=
  match cf_public_origin c with
  | Some s => replacen1 s "https://" "wss://"
  | None => replacen1 (local_origin c) "http://" "ws://"
  end.
Definition policy (c : Config) : string :=
  "default-src 'self'; script-src 'self'; style-src 'self' 'unsafe-inline'; connect-src 'self' " ++
  ws_source c ++
  "; img-src 'self' data:; media-src 'self' blob:; font-src 'self'; object-src 'none'; frame-ancestors 'none'; base-uri 'none'; worker-src 'self'".
Definition fixed_headers : list (string * string) :=
  [("x-content-type-options", "nosniff"); ("referrer-policy", "no-referrer");
   ("cache-control", "no-store"); ("x-frame-options", "DENY")]%string.
Definition cors_headers (origin : string) : list (string * string) :=
  [("access-control-allow-origin", origin); ("vary", "Origin");
   ("access-control-allow-methods", "GET, POST, DELETE, OPTIONS");
   ("access-control-allow-headers", "Authorization, Content-Type")]%string.
(** [HeaderValue::from_str] *)
Definition header_value_ok (s : string) : bool := forallb visible_ascii (str_bytes s).
(** The headers that are inserted, in order. *)
Definition boundary_headers (c : Config) (origin : option string) : list (string * string) :=
  fixed_headers ++
  (if header_value_ok (policy c) then [("content-security-policy"%string, policy c)] else []) ++
  match origin with
  | Some o => if header_value_ok o then cors_headers o else []
  | None => []
  end.
Definition insert_all (l : list (string * string)) (h : HeaderMap) : HeaderMap :=
  fold_left (fun h kv => header_insert kv.1 (str_bytes kv.2) h) l h.
(** [response]: what the routes answer. *)
Definition boundary_response (parse_url : string -> option Url) (c : Config) (r : Request)
    (response : Response) : Response :=
  match boundary parse_url c r with
  | Refuse e => failure_response e
  | v =>
    let response := match v with NoContent => {| rs_status := 204; rs_headers := [] |} | _ => response end in
    {| rs_status := rs_status response;
       rs_headers := insert_all (boundary_headers c (rq_origin r)) (rs_headers response) |}
  end.

(** ** Lemmas *)
Lemma header_all_remove n m h :
  header_all (header_remove n h) m = if bool_decide (n = m) then [] else header_all h m.
Proof.
  unfold header_all, header_remove. induction h as [|[k v] h IH]; [by destruct (bool_decide _)|]. cbn.
  destruct (decide (k = n)) as [->|Hk].
  - rewrite (bool_decide_eq_true_2 (n = n)) by done. cbn. rewrite IH. by destruct (bool_decide (n = m)).
  - rewrite (bool_decide_eq_false_2 (k = n)) by done. cbn. destruct (decide (k = m)) as [->|Hm].
    + rewrite (bool_decide_eq_true_2 (m = m)) by done. cbn. rewrite IH.
      by rewrite bool_decide_eq_false_2 by congruence.
    + by rewrite (bool_decide_eq_false_2 (k = m)).
Qed.
Lemma header_all_app h h' m : header_all (h ++ h') m = header_all h m ++ header_all h' m.
Proof. unfold header_all. by rewrite List.filter_app, map_app. Qed.
Lemma header_all_insert n v m h :
  header_all (header_insert n v h) m = if bool_decide (n = m) then [v] else header_all h m.
Proof.
  unfold header_insert. rewrite header_all_app, header_all_remove. unfold header_all at 2. cbn.
  case_bool_decide; [done|]. cbn. by rewrite app_nil_r.
Qed.
(** After inserting headers of different names, exactly these have their values. *)
Lemma header_all_insert_all l h m :
  NoDup l.*1 ->
  header_all (insert_all l h) m =
    match List.find (fun kv => bool_decide (kv.1 = m)) l with
    | Some kv => [str_bytes kv.2]
    | None => header_all h m
    end.
Proof.
  revert h. induction l as [|[k v] l IH]; intros h Hnd; [done|].
  change (insert_all ((k, v) :: l) h) with (insert_all l (header_insert k (str_bytes v) h)).
  cbn in Hnd |- *. apply NoDup_cons in Hnd as [Hk Hnd]. rewrite IH, header_all_insert by done. case_bool_decide as E; [|done]. subst m.
  destruct (List.find _ l) as [kv|] eqn:Ef; [|done]. apply find_some in Ef as [Hin Hkv]. bools. subst k.
  destruct Hk. apply list_elem_of_fmap. exists kv. split; [done|]. by apply list_elem_of_In.
Qed.
Lemma boundary_headers_nodup c o : NoDup (boundary_headers c o).*1.
Proof.
  unfold boundary_headers. destruct (header_value_ok (policy c)), o as [o|]; [destruct (header_value_ok o)| |
    destruct (header_value_ok o)|]; cbn; apply (bool_decide_unpack _); by vm_compute.
Qed.

(** The directives that are meant, for an origin of the agent's WebSockets. *)
Definition intended_directives (ws : string) : list string :=
  ["default-src 'self'"; " script-src 'self'"; " style-src 'self' 'unsafe-inline'";
   " connect-src 'self' " ++ ws;
   " img-src 'self' data:"; " media-src 'self' blob:"; " font-src 'self'"; " object-src 'none'";
   " frame-ancestors 'none'"; " base-uri 'none'"; " worker-src 'self'"]%string.
Definition directives (policy : string) : list bytes := split_list (Z.eqb 59) (str_bytes policy) [].
Lemma policy_directives c :
  free_of 59 (str_bytes (ws_source c)) ->
  directives (policy c) = map str_bytes (intended_directives (ws_source c)).
Proof.
  intros Hw. unfold policy, directives, intended_directives. cbn [map]. rewrite !str_bytes_app. revert Hw. generalize (str_bytes (ws_source c)) as w.
  intros w Hw. change (str_bytes " connect-src 'self' ") with
    (str_bytes " connect-src 'self'" ++ [32]).
  match goal with |- context [split_list _ (?a ++ w ++ ?b) _] =>
    let a' := eval vm_compute in a in let b' := eval vm_compute in b in
    change (split_list (Z.eqb 59) (a ++ w ++ b) []) with (split_list (Z.eqb 59) (a' ++ w ++ b') []) end.
  cbn [app split_list Z.eqb Pos.eqb].
  rewrite split_list_app by done. cbn [app split_list Z.eqb Pos.eqb map].
  repeat f_equal; vm_compute; done.
Qed.

Lemma fixed_kept c o h n v :
  (n, v) ∈ fixed_headers -> header_all (insert_all (boundary_headers c o) h) n = [str_bytes v].
Proof.
  intros Hin. rewrite header_all_insert_all by apply boundary_headers_nodup.
  unfold boundary_headers, fixed_headers in *.
  repeat (apply elem_of_cons in Hin as [[= -> ->]|Hin]; [done|]). by apply not_elem_of_nil in Hin.
Qed.
Lemma find_unlisted {A} (l : list (string * A)) n :
  n ∉ l.*1 -> List.find (fun kv => bool_decide (kv.1 = n)) l = None.
Proof.
  intros Hn. destruct (List.find _ l) as [[k v]|] eqn:E; [|done]. apply find_some in E as [Hin Hk].
  bools. cbn in Hk. subst k. destruct Hn. apply list_elem_of_fmap. exists (n, v).
  split; [done|]. by apply list_elem_of_In.
Qed.
Lemma boundary_origin parse_url c r o :
  (forall e, boundary parse_url c r <> Refuse e) -> rq_origin r = Some o -> origin_allowed c o = true.
Proof.
  intros Hn Ho. unfold boundary in Hn. rewrite Ho in Hn.
  destruct (negb (host_allowed _ _ _)); [by destruct (Hn OriginRejected)|]. cbn in Hn.
  destruct (origin_allowed c o); [done|]. by destruct (Hn OriginRejected).
Qed.


(** A refused request, a preflight, and a request of the agent's own page. *)
Definition demo_get (host : string) (origin : option string) (m : Method) : Request :=
  {| rq_method := m; rq_path := "/api/v1/host"; rq_host := Some host; rq_origin := origin;
     rq_authorization := None |}.
Definition demo_page : Response :=
  {| rs_status := 200; rs_headers := [("cache-control"%string, str_bytes "public");
                                      ("etag"%string, str_bytes "1")] |}.
