(* ===== verification/Control.v ===== *)
(** * The control channel ([crates/rc-agent/src/ws.rs], first half)
    Upgrading a request to a WebSocket with a one-use ticket, the loop of a
    control connection, and the dispatch of its messages to the sessions. *)
From Stdlib Require Import String.
From S2P Require Import Prelude Errors Protocol Text Frame Ring VtFence Lease Ledger Auth.
From S2P Require Import SessionInput SessionOutput Session Float Geometry MediaWire MediaStream Config Preview Http.
#[global] Open Scope Z_scope.

(** ** Upgrades *)
(** The ticket in [sec-websocket-protocol]; [None]: no such (ASCII) header. *)
Definition ws_ticket (header : option bytes) : res string :=
  match header with
  | None => Err Unauthenticated
  | Some raw =>
    let parts := map trim_bytes (split_list (Z.eqb 44) raw []) in
    if negb (existsb (fun p => bool_decide (p = str_bytes "rctm.v1")) parts)
    then Err InvalidRequest else
    match omap (strip_bytes (str_bytes "rc-ticket.")) parts with
    | [t] => Ok (bytes_str t)
    | _ => Err Unauthenticated
    end
  end.
Example ws_ticket_runs :
  ws_ticket (Some (str_bytes "rctm.v1, rc-ticket.abc")) = Ok "abc"%string /\
  ws_ticket (Some (str_bytes "rctm.v1, rc-ticket.a, rc-ticket.b")) = Err Unauthenticated /\
  ws_ticket (Some (str_bytes "rc-ticket.abc")) = Err InvalidRequest.
Proof. by vm_compute. Qed.

Section Control.
Context {Model : Type} (model_resize : Model -> Z -> Z -> Model).
Context (key : string -> Digest) (base64_decode : string -> option bytes).

(** The common head: an allowed Origin, then the ticket. *)
Definition ws_consume (origin : option string) (header : option bytes) (channel : string)
    (now : Z) (s : AppState (Model := Model)) : AppState * res (Principal * option Uuid) :=
  if negb (is_some_and (origin_allowed (st_config s)) origin) then (s, Err OriginRejected) else
  match ws_ticket header with
  | Err e => (s, Err e)
  | Ok t => let '(a, r) := consume_ws key t channel now (st_auth s) in (set_auth a s, r)
  end.
Definition control_upgrade (origin : option string) (header : option bytes) (now : Z)
    (s : AppState) : AppState * res Principal :=
  let '(s, r) := ws_consume origin header "control" now s in
  (s, match r with Ok (p, _) => Ok p | Err e => Err e end).
Definition terminal_upgrade (origin : option string) (header : option bytes) (now : Z)
    (s : AppState) : AppState * res (Principal * Uuid) :=
  let '(s, r) := ws_consume origin header "terminal" now s in
  (s, match r with
      | Ok (p, Some id) =>
        match manager_get id (st_sessions s) with Ok _ => Ok (p, id) | Err e => Err e end
      | Ok (_, None) => Err InvalidRequest
      | Err e => Err e
      end).

(** ** Dispatch *)
Inductive ControlReply : Type :=
| CrPong (request_id : Uuid)
| CrLease (request_id session_id : Uuid) (lease : LeaseView)
| CrReleased (request_id session_id : Uuid)
| CrResized (request_id session_id : Uuid)
| CrAccepted (request_id session_id input_id : Uuid)
| CrRejected (request_id : Uuid) (code : ErrorCode)
| CrAuthRefreshed (request_id : Uuid)
| CrError (code : ErrorCode)
| CrResync.
Definition TX_CAP : Z := 128.
Definition MAX_CHILDREN : Z := 128.

(** [tx.try_send(reply).map_err(|_| RateLimited)] *)
Definition try_send (tx : list ControlReply) (r : ControlReply) : list ControlReply * res unit :=
  if TX_CAP <=? zlen tx then (tx, Err RateLimited) else (tx ++ [r], Ok tt).

(** What a dispatch observes: the clock at the permission check and under the
    lock, when the message came, and what the system answers to a resize. *)
Record DispatchEnv := {
  de_now0 : Z;
  de_now : Z;
  de_received : Z;
  de_resized : bool
}.
Definition payload_bytes (p : InputPayload) : res bytes :=
  match p with
  | Utf8 text => Ok text
  | Binary base64 =>
    match base64_decode base64 with Some d => Ok d | None => Err InvalidRequest end
  end.
(** The body of [dispatch]: the state, whether a child was spawned, the reply.
    A lease call never panics ([Lease.lease_acquire_correct]). *)
Definition unwrap_view (r : option (res LeaseView)) : res LeaseView :=
  match r with Some r => r | None => Err Internal end.
Definition dispatch_body (env : DispatchEnv) (p : Principal) (connection : Uuid)
    (msg : ControlMessage) (children : Z) (s : AppState) : AppState * bool * res ControlReply :=
  let can := cancelled (st_auth s) in
  match msg with
  | RefreshAuth _ _ => (s, false, Err InvalidRequest)
  | Ping request_id => (s, false, Ok (CrPong request_id))
  | LeaseAcquire request_id id takeover =>
    match manager_get id (st_sessions s) with
    | Err e => (s, false, Err e)
    | Ok x =>
      let '(x, _, r) := session_acquire can p connection takeover (de_now0 env) (de_now env) x in
      (put_session id x s, false,
       match unwrap_view r with Ok v => Ok (CrLease request_id id v) | Err e => Err e end)
    end
  | LeaseRenew request_id id epoch =>
    match manager_get id (st_sessions s) with
    | Err e => (s, false, Err e)
    | Ok x =>
      let '(x, r) := session_renew can p connection epoch (de_now0 env) (de_now env) x in
      (put_session id x s, false,
       match unwrap_view r with Ok v => Ok (CrLease request_id id v) | Err e => Err e end)
    end
  | LeaseRelease request_id id epoch =>
    match manager_get id (st_sessions s) with
    | Err e => (s, false, Err e)
    | Ok x =>
      let '(x, _, r) := session_release can p connection epoch (de_now0 env) (de_now env) x in
      (put_session id x s, false,
       match r with Ok _ => Ok (CrReleased request_id id) | Err e => Err e end)
    end
  | Resize request_id id agent generation lease cols rows =>
    match manager_get id (st_sessions s) with
    | Err e => (s, false, Err e)
    | Ok x =>
      match validate_generation agent generation x with
      | Err e => (s, false, Err e)
      | Ok _ =>
        let '(x, _, _, r) := session_resize model_resize can p connection lease cols rows
                               (de_now0 env) (de_now env) (de_resized env) x in
        (put_session id x s, false,
         match r with Ok _ => Ok (CrResized request_id id) | Err e => Err e end)
      end
    end
  | Input request_id id agent generation lease input_id input_seq payload =>
    if MAX_CHILDREN <=? children then (s, false, Err RateLimited) else
    match manager_get id (st_sessions s) with
    | Err e => (s, false, Err e)
    | Ok x =>
      match validate_generation agent generation x with
      | Err e => (s, false, Err e)
      | Ok _ =>
        match payload_bytes payload with
        | Err e => (s, false, Err e)
        | Ok data =>
          let '(x, r) := session_enqueue can p connection lease input_id input_seq data
                           (de_received env) (de_now0 env) (de_now env) x in
          (put_session id x s, is_ok r,
           match r with Ok _ => Ok (CrAccepted request_id id input_id) | Err e => Err e end)
        end
      end
    end
  end.

(** ** The connection *)
Record Control := {
  ct_p : Principal;
  ct_window : Z;
  ct_count : Z;
  ct_children : Z;
  ct_tx : list ControlReply
}.
Definition control_start (p : Principal) (now : Z) : Control :=
  {| ct_p := p; ct_window := now; ct_count := 0; ct_children := 0; ct_tx := [] |}.
Definition set_p (p : Principal) (c : Control) : Control :=
  {| ct_p := p; ct_window := ct_window c; ct_count := ct_count c; ct_children := ct_children c;
     ct_tx := ct_tx c |}.
Definition set_rate (window count : Z) (c : Control) : Control :=
  {| ct_p := ct_p c; ct_window := window; ct_count := count; ct_children := ct_children c;
     ct_tx := ct_tx c |}.
Definition set_children (n : Z) (c : Control) : Control :=
  {| ct_p := ct_p c; ct_window := ct_window c; ct_count := ct_count c; ct_children := n;
     ct_tx := ct_tx c |}.
Definition set_tx (tx : list ControlReply) (c : Control) : Control :=
  {| ct_p := ct_p c; ct_window := ct_window c; ct_count := ct_count c;
     ct_children := ct_children c; ct_tx := tx |}.

Inductive ControlEvent : Type :=
| CeReply                          (* a queued reply goes out *)
| CeText (m : option ControlMessage)
| CeOther                          (* binary, ping and the like *)
| CeClose                          (* a close frame or an error *)
| CeChanged | CeLagged | CeEventsClosed
| CeChild (reply : ControlReply)   (* a child posts its answer, if there is room *)
| CeJoined.                        (* a child that ended is collected *)
Record ControlEnv := {
  ce_now : Z;
  ce_shutdown : bool;
  ce_event : ControlEvent;
  ce_io_ok : bool;
  ce_dispatch : DispatchEnv
}.

(** [dispatch(...).await], and the rejection if it fails. *)
Definition control_dispatch (env : DispatchEnv) (connection : Uuid) (msg : ControlMessage)
    (c : Control) (s : AppState) : option Control * AppState * list ControlReply :=
  let '(s, spawned, r) := dispatch_body env (ct_p c) connection msg (ct_children c) s in
  let c := if spawned then set_children (ct_children c + 1) c else c in
  match r with
  | Err e => (Some c, s, [CrRejected (ControlMessage_request_id msg) e])
  | Ok reply =>
    let '(tx, r) := try_send (ct_tx c) reply in
    (Some (set_tx tx c), s,
     match r with Ok _ => [] | Err e => [CrRejected (ControlMessage_request_id msg) e] end)
  end.
(** [None] leaves the loop; the list is what is sent at once. *)
Definition control_text (env : ControlEnv) (connection : Uuid) (m : option ControlMessage)
    (c : Control) (s : AppState) : option Control * AppState * list ControlReply :=
  let reset := secs 1 <=? saturating_sub (ce_now env) (ct_window c) in
  let window := if reset then ce_now env else ct_window c in
  let count := (if reset then 0 else ct_count c) + 1 in
  if 2000 <? count then (None, s, []) else
  let c := set_rate window count c in
  match m with
  | None => (Some c, s, [CrError InvalidRequest])
  | Some (RefreshAuth request_id ticket) =>
    let '(a, r) := consume_ws key ticket "control" (ce_now env) (st_auth s) in
    let s := set_auth a s in
    match r with
    | Ok (next, None) =>
      if p_client_id next =? p_client_id (ct_p c)
      then (Some (set_p next c), s, [CrAuthRefreshed request_id]) else (None, s, [])
    | _ => (None, s, [])
    end
  | Some msg => control_dispatch (ce_dispatch env) connection msg c s
  end.
Definition control_round (env : ControlEnv) (connection : Uuid) (c : Control) (s : AppState)
  : option Control * AppState * list ControlReply :=
  if bool_decide (p_revoked (ct_p c) ∈ cancelled (st_auth s)) || ce_shutdown env ||
     (p_expires (ct_p c) <=? ce_now env)
  then (None, s, []) else
  match ce_event env with
  | CeReply =>
    match ct_tx c with
    | [] => (Some c, s, [])
    | r :: tx => (if ce_io_ok env then Some (set_tx tx c) else None, s, [r])
    end
  | CeText m => control_text env connection m c s
  | CeOther => (Some c, s, [])
  | CeClose | CeEventsClosed => (None, s, [])
  | CeChanged => (if ce_io_ok env then Some c else None, s, [])
  | CeLagged => (Some c, s, [CrResync])
  | CeChild reply => (Some (set_tx (try_send (ct_tx c) reply).1 c), s, [])
  | CeJoined =>
    (Some (if 0 <? ct_children c then set_children (ct_children c - 1) c else c), s, [])
  end.
(** After the loop. *)
Definition control_end (connection : Uuid) (s : AppState (Model := Model)) : AppState :=
  set_manager (manager_revoke_connection connection (st_sessions s)) s.

(** ** A connection acts for itself only *)
(** What a call on behalf of [(client, connection)] may do to a session: leave it,
    or with permission change it such that its lease is the old one, free, or the
    connection's own. *)
Definition own_change (permitted : Prop) (client connection : Uuid)
    (x x' : Session (Model := Model)) : Prop :=
  x' = x \/ (permitted /\
    (session_lease x' = session_lease x \/ ls_owner (session_lease x') = None \/
     exists o, ls_owner (session_lease x') = Some o /\ ow_client o = client /\
       ow_connection o = connection)).

Lemma lease_call_own l client connection now op :
  (exists t, op = OpAcquire client connection t) \/ (exists e, op = OpRenew client connection e) \/
  (exists e, op = OpRelease client connection e) ->
  let l' := lease_apply l now op in
  l' = l \/ ls_owner l' = None \/
  exists o, ls_owner l' = Some o /\ ow_client o = client /\ ow_connection o = connection.
Proof.
  intros Hop l'. destruct (lease_apply_cases l now op) as [H|[[_ H]|[(c & k & Ho & _ & _ & H)|
    (c & k & t & Ho & _ & _ & _ & H)]]]; [by left|by right; left| |];
    right; right; eexists; (split; [exact H|]); cbn;
    destruct Hop as [[t' Ht]|[[e Ht]|[e Ht]]]; rewrite Ht in Ho; naive_solver.
Qed.
Lemma with_lease_own P client connection l (x : Session (Model := Model)) :
  P -> (l = session_lease x \/ ls_owner l = None \/
    exists o, ls_owner l = Some o /\ ow_client o = client /\ ow_connection o = connection) ->
  own_change P client connection x (with_lease l x).
Proof. intros HP Hl. right. split; [done|]. exact Hl. Qed.

(** Each session call. *)
Section Calls.
Context (can : gset Token) (p : Principal) (connection : Uuid) (now0 now : Z).
Definition may_write : Prop := principal_require can p TerminalWrite now0 = Ok tt.
Abbreviation own := (own_change may_write (p_client_id p) connection).

Lemma acquire_own takeover x :
  own x (session_acquire can p connection takeover now0 now x).1.1.
Proof.
  unfold session_acquire. destruct (principal_require _ _ _ _) as [[]|] eqn:E; [|by left].
  destruct (negb _); [by left|].
  pose proof (lease_call_own (session_lease x) (p_client_id p) connection now
    (OpAcquire (p_client_id p) connection takeover) ltac:(eauto)) as H.
  cbn [lease_apply] in H. destruct (lease_acquire _ _ _ _ _) as [l r]. cbn [fst] in *.
  by apply with_lease_own.
Qed.
Lemma renew_own epoch x : own x (session_renew can p connection epoch now0 now x).1.
Proof.
  unfold session_renew. destruct (principal_require _ _ _ _) as [[]|] eqn:E; [|by left].
  pose proof (lease_call_own (session_lease x) (p_client_id p) connection now
    (OpRenew (p_client_id p) connection epoch) ltac:(eauto)) as H.
  cbn [lease_apply] in H. destruct (lease_renew _ _ _ _ _) as [l r]. cbn [fst] in *.
  by apply with_lease_own.
Qed.
Lemma release_own epoch x : own x (session_release can p connection epoch now0 now x).1.1.
Proof.
  unfold session_release. destruct (principal_require _ _ _ _) as [[]|] eqn:E; [|by left].
  pose proof (lease_call_own (session_lease x) (p_client_id p) connection now
    (OpRelease (p_client_id p) connection epoch) ltac:(eauto)) as H.
  cbn [lease_apply] in H. destruct (lease_release _ _ _ _ _) as [l [r|e]]; cbn [fst] in *;
    by apply with_lease_own.
Qed.
Lemma resize_own lease cols rows resized x :
  own x (session_resize model_resize can p connection lease cols rows now0 now resized x).1.1.1.
Proof.
  unfold session_resize. destruct (principal_require _ _ _ _) as [[]|] eqn:E; [|by left].
  repeat (case_match; [by left|]). repeat case_match; try (by left);
    unfold session_commit_resize, commit_resize in *; simplify_eq; right; (split; [done|by left]).
Qed.
Lemma enqueue_own lease id seq data received x :
  own x (session_enqueue can p connection lease id seq data received now0 now x).1.
Proof.
  unfold session_enqueue, enqueue.
  destruct (principal_require _ _ _ _) as [[]|] eqn:E; [|left; by destruct x].
  destruct (lease_verify _ _ _ _ _); [|left; by destruct x].
  right. split; [done|]. left. by repeat case_match; simplify_eq.
Qed.
End Calls.

(** The same over all sessions. *)
Definition sessions_own (permitted : Prop) (client connection : Uuid)
    (m m' : gmap Uuid (Session (Model := Model))) : Prop :=
  forall id, match m !! id, m' !! id with
             | Some x, Some x' => own_change permitted client connection x x'
             | None, None => True
             | _, _ => False
             end.
Lemma sessions_own_refl P client connection m : sessions_own P client connection m m.
Proof. intros id. destruct (m !! id); [by left|done]. Qed.
Lemma sessions_own_insert P client connection m id x x' :
  m !! id = Some x -> own_change P client connection x x' ->
  sessions_own P client connection m (<[id := x']> m).
Proof.
  intros Hx Ho j. destruct (decide (j = id)) as [->|Hj].
  - by rewrite Hx, lookup_insert_eq.
  - rewrite lookup_insert_ne by done. by apply sessions_own_refl.
Qed.
Lemma manager_get_Some id (g : SessionManager (Model := Model)) x :
  manager_get id g = Ok x -> sm_sessions g !! id = Some x.
Proof. unfold manager_get, ok_or. case_match; naive_solver. Qed.

Lemma dispatch_own env p connection msg children s :
  let '(s', _, _) := dispatch_body env p connection msg children s in
  st_auth s' = st_auth s /\
  sessions_own (may_write (cancelled (st_auth s)) p (de_now0 env)) (p_client_id p) connection
    (sm_sessions (st_sessions s)) (sm_sessions (st_sessions s')).
Proof.
  destruct msg as [rid id takeover|rid id epoch|rid id epoch|rid id ag gen le iid seq pl
    |rid id ag gen le cols rows|rid t|rid]; cbn [dispatch_body];
    try (split; [done|apply sessions_own_refl]).
  - destruct (manager_get id (st_sessions s)) as [x|] eqn:Eg; [|split; [done|apply sessions_own_refl]].
    pose proof (acquire_own (cancelled (st_auth s)) p connection (de_now0 env) (de_now env)
      takeover x) as H.
    destruct (session_acquire _ _ _ _ _ _ _) as [[x' c'] r']. split; [done|].
    eapply sessions_own_insert; [by apply manager_get_Some|exact H].
  - destruct (manager_get id (st_sessions s)) as [x|] eqn:Eg; [|split; [done|apply sessions_own_refl]].
    pose proof (renew_own (cancelled (st_auth s)) p connection (de_now0 env) (de_now env) epoch x) as H.
    destruct (session_renew _ _ _ _ _ _ _) as [x' r']. split; [done|].
    eapply sessions_own_insert; [by apply manager_get_Some|exact H].
  - destruct (manager_get id (st_sessions s)) as [x|] eqn:Eg; [|split; [done|apply sessions_own_refl]].
    pose proof (release_own (cancelled (st_auth s)) p connection (de_now0 env) (de_now env) epoch x) as H.
    destruct (session_release _ _ _ _ _ _ _) as [[x' c'] r']. split; [done|].
    eapply sessions_own_insert; [by apply manager_get_Some|exact H].
  - destruct (MAX_CHILDREN <=? children); [split; [done|apply sessions_own_refl]|].
    destruct (manager_get id (st_sessions s)) as [x|] eqn:Eg; [|split; [done|apply sessions_own_refl]].
    destruct (validate_generation ag gen x); [|split; [done|apply sessions_own_refl]].
    destruct (payload_bytes pl) as [data|]; [|split; [done|apply sessions_own_refl]].
    pose proof (enqueue_own (cancelled (st_auth s)) p connection (de_now0 env) (de_now env)
      le iid seq data (de_received env) x) as H.
    destruct (session_enqueue _ _ _ _ _ _ _ _ _ _ _) as [x' r']. split; [done|].
    eapply sessions_own_insert; [by apply manager_get_Some|exact H].
  - destruct (manager_get id (st_sessions s)) as [x|] eqn:Eg; [|split; [done|apply sessions_own_refl]].
    destruct (validate_generation ag gen x); [|split; [done|apply sessions_own_refl]].
    pose proof (resize_own (cancelled (st_auth s)) p connection (de_now0 env) (de_now env)
      le cols rows (de_resized env) x) as H.
    destruct (session_resize _ _ _ _ _ _ _ _ _ _ _) as [[[x' f'] c'] r']. split; [done|].
    eapply sessions_own_insert; [by apply manager_get_Some|exact H].
Qed.

(** What a connection keeps bounded. *)
Definition control_wf (c : Control) : Prop :=
  0 <= ct_count c <= 2000 /\ 0 <= ct_children c <= MAX_CHILDREN /\ zlen (ct_tx c) <= TX_CAP.
Lemma try_send_cap tx r : zlen tx <= TX_CAP -> zlen (try_send tx r).1 <= TX_CAP.
Proof. unfold try_send. destruct (Z.leb_spec TX_CAP (zlen tx)); cbn; rewrite ?zlen_app, ?zlen_cons, ?zlen_nil; lia. Qed.
Lemma dispatch_spawned env p connection msg children s :
  (dispatch_body env p connection msg children s).1.2 = true -> children < MAX_CHILDREN.
Proof.
  destruct msg as [rid id takeover|rid id epoch|rid id epoch|rid id ag gen le iid seq pl
    |rid id ag gen le cols rows|rid t|rid]; cbn [dispatch_body]; intros H;
    try (by repeat case_match; simplify_eq).
  destruct (Z.leb_spec MAX_CHILDREN children); [done|lia].
Qed.
(** What one message may do. *)
Definition control_ok (can : gset Token) (now0 : Z) (connection : Uuid) (c : Control)
    (o : option Control) (s s' : AppState) : Prop :=
  (forall c', o = Some c' -> control_wf c' /\ p_client_id (ct_p c') = p_client_id (ct_p c)) /\
  sessions_own (may_write can (ct_p c) now0) (p_client_id (ct_p c)) connection
    (sm_sessions (st_sessions s)) (sm_sessions (st_sessions s')).
Lemma control_ok_end can now0 connection c s : control_ok can now0 connection c None s s.
Proof. split; [done|]. apply sessions_own_refl. Qed.
Lemma control_ok_same can now0 connection c c' s s' :
  control_wf c' -> p_client_id (ct_p c') = p_client_id (ct_p c) ->
  st_sessions s' = st_sessions s -> control_ok can now0 connection c (Some c') s s'.
Proof. intros Hwf Hp E. split; [by intros ? [= <-]|]. rewrite E. apply sessions_own_refl. Qed.

Lemma control_dispatch_ok env connection msg c s o s' out :
  control_wf c -> control_dispatch env connection msg c s = (o, s', out) ->
  control_ok (cancelled (st_auth s)) (de_now0 env) connection c o s s'.
Proof.
  intros (Hc & Hk & Ht) H. unfold control_dispatch in H.
  pose proof (dispatch_own env (ct_p c) connection msg (ct_children c) s) as Hd.
  pose proof (dispatch_spawned env (ct_p c) connection msg (ct_children c) s) as Hs.
  destruct (dispatch_body _ _ _ _ _ _) as [[s1 spawned] r]. cbn [fst snd] in Hs.
  destruct Hd as [_ Hown].
  set (c1 := if spawned then set_children (ct_children c + 1) c else c) in *.
  assert (control_wf c1 /\ ct_p c1 = ct_p c) as [(Hc1 & Hk1 & Ht1) Hp].
  { destruct spawned; (split; [|done]); [|done]. specialize (Hs eq_refl).
    split; [done|]. split; [cbn; lia|done]. }
  destruct r as [reply|e].
  - pose proof (try_send_cap (ct_tx c1) reply Ht1) as Hcap.
    destruct (try_send (ct_tx c1) reply) as [tx r]. simplify_eq. split; [|done].
    intros ? [= <-]. cbn. by rewrite Hp.
  - simplify_eq. split; [|done]. intros ? [= <-]. by rewrite Hp.
Qed.
Lemma control_text_ok env connection m c s o s' out :
  control_wf c -> control_text env connection m c s = (o, s', out) ->
  control_ok (cancelled (st_auth s)) (de_now0 (ce_dispatch env)) connection c o s s'.
Proof.
  intros (Hc & Hk & Ht) H. unfold control_text in H.
  set (count := (if secs 1 <=? _ then 0 else ct_count c) + 1) in H.
  set (window := if secs 1 <=? _ then _ else _) in H.
  destruct (Z.ltb_spec 2000 count) as [|Hcount]; [simplify_eq; apply control_ok_end|].
  assert (control_wf (set_rate window count c)) as Hwf.
  { split; [|done]. cbn. subst count. case_match; lia. }
  destruct m as [msg|]; [|simplify_eq; by apply control_ok_same].
  destruct msg as [| | | | |rid t|]; try (by apply (control_dispatch_ok _ _ _ _ _ _ _ _ Hwf H)).
  destruct (consume_ws _ _ _ _ _) as [a r].
  destruct r as [[next [id|]]|e]; try (simplify_eq; split; [done|]; by apply sessions_own_refl).
  cbn [set_rate ct_p] in H.
  destruct (Z.eqb_spec (p_client_id next) (p_client_id (ct_p c))); simplify_eq;
    [by apply control_ok_same|split; [done|]; by apply sessions_own_refl].
Qed.
Lemma control_round_ok env connection c s o s' out :
  control_wf c -> control_round env connection c s = (o, s', out) ->
  control_ok (cancelled (st_auth s)) (de_now0 (ce_dispatch env)) connection c o s s'.
Proof.
  intros Hwf H. unfold control_round in H.
  destruct (_ || _ || _); [simplify_eq; apply control_ok_end|].
  destruct (ce_event env) as [|m| | | | | |reply|]; [| by eapply control_text_ok| | | | | | |].
  - destruct (ct_tx c) as [|r tx] eqn:Etx; simplify_eq; [by apply control_ok_same|].
    destruct (ce_io_ok env); [|apply control_ok_end]. apply control_ok_same; [|done|done].
    destruct Hwf as (Hc & Hk & Ht). rewrite Etx, zlen_cons in Ht.
    split; [done|]. split; [done|]. cbn. lia.
  - simplify_eq. by apply control_ok_same.
  - simplify_eq. apply control_ok_end.
  - simplify_eq. destruct (ce_io_ok env); [by apply control_ok_same|apply control_ok_end].
  - simplify_eq. by apply control_ok_same.
  - simplify_eq. apply control_ok_end.
  - simplify_eq. destruct Hwf as (Hc & Hk & Ht). apply control_ok_same; [|done|done].
    split; [done|]. split; [done|]. by apply try_send_cap.
  - simplify_eq. destruct (Z.ltb_spec 0 (ct_children c)); [|by apply control_ok_same].
    destruct Hwf as (Hc & Hk & Ht). apply control_ok_same; [|done|done].
    split; [done|]. split; [cbn; lia|done].
Qed.
Lemma revoked_connection_free connection (s : AppState (Model := Model)) id x own :
  sm_sessions (st_sessions (control_end connection s)) !! id = Some x ->
  ls_owner (session_lease x) = Some own -> ow_connection own <> connection.
Proof.
  unfold control_end, manager_revoke_connection, revoke_in_all. cbn. rewrite lookup_fmap.
  destruct (sm_sessions (st_sessions s) !! id) as [y|]; [|done]. intros [= <-] Ho Heq.
  change (session_lease (with_lease (lease_revoke_connection (session_lease y) connection) y))
    with (lease_revoke_connection (session_lease y) connection) in Ho.
  unfold lease_revoke_connection in Ho.
  destruct (ls_owner (session_lease y)) as [w|] eqn:Ew; cbn [is_some_and] in Ho; [|congruence].
  destruct (Z.eqb_spec (ow_connection w) connection); [done|]. congruence.
Qed.

End Control.

(** ** A concrete connection: it takes a session's lease, ends, and leaves it free *)
Definition control_sample_state : AppState (Model := Z * Z) :=
  {| st_config := config_default; st_auth := sample_auth;
     st_sessions := Session.set_sessions {[ 7 := sample_session ]} sample_manager;
     st_media := media_new media_config_default; st_previews := preview_new |}.
Definition control_sample_env (now : Z) : ControlEnv :=
  {| ce_now := now; ce_shutdown := false; ce_event := CeText (Some (LeaseAcquire 1 7 true));
     ce_io_ok := true;
     ce_dispatch := {| de_now0 := now; de_now := now; de_received := now; de_resized := true |} |}.
Definition control_sample_round (now : Z)
    : option Control * AppState (Model := Z * Z) * list ControlReply :=
  control_round size_resize sample_key sample_b64 (control_sample_env now) 9
    (control_start sample_principal 0) control_sample_state.
Definition holder (s : AppState (Model := Z * Z)) : option Uuid :=
  match sm_sessions (st_sessions s) !! 7 with
  | Some x => option_map ow_connection (ls_owner (session_lease x))
  | None => None
  end.
