(* ===== verification/MediaStart.v ===== *)
(** * Starting, probing and ending the media helper ([crates/rc-agent/src/media.rs])
    Which program the helper is and with what environment it runs; the cached probe of
    its capabilities; the media routes; and a stream's whole life: taking the one
    slot, starting the input session and the helper, the loop of [MediaStream], and
    giving everything back. *)
From Stdlib Require Import String Sorted.
From S2P Require Import Prelude Errors Protocol Text Paths Auth Float Geometry MediaWire MediaStream MediaHelper Tailscale Config Http Control.
#[global] Open Scope Z_scope.
Open Scope string_scope.
Open Scope Z_scope.

(** ** The program *)
Definition helper_name (exe : Components) : string :=
  if executable_suffix exe then "rc-media.exe" else "rc-media".
Definition default_helper_from (exe : Components) (packaged : bool) : Components :=
  let dir := match parent exe with Some p => p | None => ["."] end in
  if packaged then app dir ["media-runtime"; "bin"; helper_name exe] else app dir [helper_name exe].
(** What the host answers: the program's own path, and which files there are. *)
Record HelperHost := { hh_exe : sres Components; hh_is_file : Components -> bool }.
Definition config_helper (host : HelperHost) (c : MediaConfig) : sres Components :=
  match mc_helper_path c with
  | Some (_, p) => Ok p
  | None =>
    match hh_exe host with
    | Err e => Err e
    | Ok exe =>
      let packaged := match parent exe with
                      | Some p => hh_is_file host (app p ["media-runtime"; "bin"; helper_name exe])
                      | None => false
                      end in
      Ok (default_helper_from exe packaged)
    end
  end.
Definition bundled_runtime (helper : Components) : option Components :=
  bin ← parent helper;
  name ← file_name bin;
  if negb (eq_ignore_ascii_case name "bin") then None else
  runtime ← parent bin;
  name ← file_name runtime;
  if negb (eq_ignore_ascii_case name "media-runtime") then None else Some runtime.

(** A command line; [hc_env] is what it sets in the inherited environment. *)
Record HelperCommand := {
  hc_program : Components;
  hc_arg : string;
  hc_env : list (string * string)
}.
Section Environment.
Context (windows : bool) (search_path : option string).   (* cfg!(windows), $PATH *)
Definition configure_helper_command (helper : Components) (arg : string) : HelperCommand :=
  {| hc_program := helper; hc_arg := arg;
     hc_env :=
       match bundled_runtime helper with
       | None => []
       | Some runtime =>
         let text := path_text (if windows then "\" else "/") in
         let bin := text (app runtime ["bin"]) in
         [("PATH", match search_path with
                   | Some existing => bin ++ (if windows then ";" else ":") ++ existing
                   | None => bin
                   end);
          ("GST_PLUGIN_SYSTEM_PATH_1_0", "");
          ("GST_PLUGIN_PATH_1_0", text (app runtime ["lib"; "gstreamer-1.0"]));
          ("GST_PLUGIN_SCANNER",
           text (app runtime ["libexec"; "gstreamer-1.0"; "gst-plugin-scanner.exe"]))]
       end |}.

(** ** The probe *)
(** [pi_output]: the exit status and standard output, or why there are none. *)
Record ProbeIo := {
  pi_host : HelperHost;
  pi_output : sres (bool * bytes);
  pi_parse : bytes -> sres Json
}.
Abbreviation Cache := (option (Z * Json)) (only parsing).
Definition unavailable (reason : string) : Json :=
  JObject [("available", JBool false); ("reason", JString reason)].
(** [v[key].as_bool().unwrap_or(false)] *)
Definition bool_member (v : Json) (key : string) : bool :=
  match json_field v key with Some (JBool b) => b | _ => false end.
Definition probed (allow_control : bool) (v : Json) : Json :=
  JObject [("available", JBool (bool_member v "available")); ("native", v);
           ("window_control_configured", JBool allow_control);
           ("single_video_viewer", JBool true); ("windows_runtime_verified", JBool false)].
(** The helper's own answer, with the command that was run for it. *)
Definition probe_helper (io : ProbeIo) (c : MediaConfig) : option HelperCommand * sres Json :=
  match config_helper (pi_host io) c with
  | Err e => (None, Err e)
  | Ok path =>
    (Some (configure_helper_command path "--probe"),
     match pi_output io with
     | Err e => Err e
     | Ok (success, stdout) =>
       if negb success || (32768 <? zlen stdout) then Err "Media helper probe failed"
       else pi_parse io stdout
     end)
  end.
(** [now] when the cache is read, [later] when it is written; the lock is held from
    one to the other. *)
Definition media_capabilities (c : MediaConfig) (io : ProbeIo) (now later : Z) (cache : Cache)
  : Cache * option HelperCommand * Json :=
  if negb (mc_enabled c)
  then (cache, None, unavailable "Media disabled; terminal-only mode loads no media SDK") else
  let fresh := match cache with
               | Some (at_, value) => if since now at_ <? secs 60 then Some value else None
               | None => None
               end in
  match fresh with
  | Some value => (cache, None, value)
  | None =>
    let '(command, result) := probe_helper io c in
    let v := match result with
             | Ok v => probed (mc_allow_control c) v
             | Err e => unavailable e
             end in
    (Some (later, v), command, v)
  end.
End Environment.

(** ** The routes *)
Section Routes.
Context {Model : Type} (key : string -> Digest).

Definition media_capabilities_route (windows : bool) (search_path : option string) (r : Request)
    (io : ProbeIo) (checked now later : Z) (s : AppState (Model := Model)) (cache : option (Z * Json))
  : option (Z * Json) * option HelperCommand * res Json :=
  match http_principal key r TerminalRead checked s with
  | Err e => (cache, None, Err e)
  | Ok _ =>
    let '(cache, command, v) :=
      media_capabilities windows search_path (mm_config (st_media s)) io now later cache in
    (cache, command, Ok v)
  end.
Definition media_sources_route (r : Request) (checked now : Z) (s : AppState (Model := Model))
  : res (gmap Uuid SourceView) :=
  match http_principal key r TerminalRead checked s with
  | Err e => Err e
  | Ok p => Ok (public_sources (cancelled (st_auth s)) p now (st_media s))
  end.
(** Who will be streamed what. *)
Definition media_upgrade (origin : option string) (header : option bytes) (now later : Z)
    (s : AppState (Model := Model)) : AppState * res (Principal * Approved) :=
  let '(s, r) := ws_consume key origin header "media" now s in
  (s, match r with
      | Ok (p, Some id) =>
        match media_get (cancelled (st_auth s)) id p later (st_media s) with
        | Ok source => Ok (p, source)
        | Err e => Err e
        end
      | Ok (_, None) => Err InvalidRequest
      | Err e => Err e
      end).
End Routes.

(** ** Signalling to the helper *)
(** [helper_send]: what is written, if the message fits a line and the pipe takes it. *)
Definition helper_send (to_vec : HelperIn -> option bytes) (written : bool) (m : HelperIn)
  : sres bytes :=
  match to_vec m with
  | None => Err "serde_json"
  | Some b =>
    if MAX_SIGNAL - 1 <? zlen b then Err "Signaling too large" else
    if written then Ok (app b [10]) else Err "write_all"
  end.

(** ** A stream's life *)
Inductive RunEffect : Type :=
| ReError (code : string)              (* an error message to the client *)
| ReRefused (code : ErrorCode)
| ReHello (stream : Uuid) (view : SourceView)
| ReGuiStart (source : LocalSource)
| ReGuiDrop
| ReSpawn (command : HelperCommand)
| ReLoop (e : Effect)
| ReCloseInput
| ReWait (exited : bool)               (* at most two seconds *)
| ReKill                               (* and wait *)
| ReAbortReader
| ReCloseClient.

(** What a run observes. *)
Record RunEnv := {
  re_gui_started : bool;
  re_host : HelperHost;
  re_spawned : bool;
  re_pipes : bool;
  re_init_sent : bool;
  re_hello_sent : bool;
  re_started : Z;                      (* the loop's [started] *)
  re_rounds : list MediaEnv;
  re_exited : bool                     (* the helper ends within two seconds *)
}.
Section Run.
Context (windows : bool) (search_path : option string) (config : MediaConfig).
Context (p : Principal) (source : Approved) (stream : Uuid).

(** [startup]: what happened, and whether there are an input session and a helper.
    What was started is dropped when a later step fails. *)
Definition run_startup (env : RunEnv) : list RunEffect * bool :=
  let local := ap_local source in
  if negb (re_gui_started env) then ([], false) else
  match config_helper (re_host env) config with
  | Err _ => ([ReGuiStart local; ReGuiDrop], false)
  | Ok helper =>
    if negb (re_spawned env) then ([ReGuiStart local; ReGuiDrop], false) else
    let spawn := ReSpawn (configure_helper_command windows search_path helper "--stdio") in
    if negb (re_pipes env) then ([ReGuiStart local; spawn; ReKill; ReGuiDrop], false)
    else ([ReGuiStart local; spawn], true)
  end.
Definition media_init (ip : bytes) : MediaInit :=
  {| mi_protocol := 1; mi_source := ap_local source; mi_profile := mc_profile config;
     mi_tailnet_ip := ip; mi_min_port := mc_min_port config; mi_max_port := mc_max_port config |}.
(** [outcome], with the disarm and the helper's [Stop] that follow it; [Ok]: the loop
    is still running. *)
Definition run_outcome (env : RunEnv) : result bool Stream * list RunEffect :=
  let ending := [ReLoop EfDisarm; ReLoop (EfHelper HiStop)] in
  match mc_tailnet_ip config with
  | None => (Err true, ending)
  | Some ip =>
    let init := ReLoop (EfHelper (HiInit (media_init ip))) in
    if negb (re_init_sent env) then (Err true, init :: ending) else
    let hello := ReHello stream (ap_view source) in
    if negb (re_hello_sent env) then (Err true, init :: hello :: ending) else
    let '(r, es) := media_loop config source (re_started env) (re_rounds env)
                      (stream_start p (re_started env)) in
    (r, init :: hello :: map ReLoop es)
  end.
(** What is left to do on every exit. *)
Definition run_teardown (env : RunEnv) (failed : bool) : list RunEffect :=
  app [ReCloseInput; ReWait (re_exited env)]
  (app (if re_exited env then [] else [ReKill])
  (app [ReAbortReader; ReGuiDrop]
  (app (if failed then [ReError "MEDIA_SESSION_STOPPED"] else []) [ReCloseClient]))).
(** The run after [begin]; [Ok]: still going on; [Err]: over, and whether it had
    started. *)
Definition run_body (env : RunEnv) : result bool Stream * list RunEffect :=
  let '(es, started) := run_startup env in
  if negb started then (Err false, app es [ReError "MEDIA_START_FAILED"]) else
  match run_outcome env with
  | (Ok st, os) => (Ok st, app es os)
  | (Err failed, os) => (Err true, app es (app os (run_teardown env failed)))
  end.
End Run.
(** The flag the tray shows, as a run leaves it. *)
Definition set_controlled (b : bool) (m : MediaManager) : MediaManager :=
  {| mm_config := mm_config m; mm_inner := mm_inner m; mm_cancelled := mm_cancelled m;
     mm_gui_controlled := b |}.
(** The whole of [run]; [others]: what the rest of the agent does to the manager
    meanwhile. *)
Definition media_run (windows : bool) (search_path : option string) (revoked : gset Token)
    (p : Principal) (source : Approved) (now : Z) (stream : Uuid) (cancel : Token)
    (others : list (Z * MediaOp)) (env : RunEnv) (m : MediaManager)
  : MediaManager * list RunEffect :=
  match media_begin revoked p (sv_id (ap_view source)) stream cancel now m with
  | (m, Err e) => (m, [ReRefused e])
  | (m, Ok _) =>
    let config := mm_config m in
    let m := (media_ops others m).1 in
    match run_body windows search_path config p source stream env with
    | (Ok st, es) => (set_controlled (s_gui_controlled st) m, es)
    | (Err started, es) =>
      (media_finish stream (if started then set_controlled false m else m), es)
    end
  end.

(** ** The helper that is started *)
Lemma helper_name_plain exe : helper_name exe <> ".."%string.
Proof. unfold helper_name. by destruct (executable_suffix exe). Qed.
Lemma bundled_runtime_bin dir name :
  bundled_runtime (app dir ["media-runtime"; "bin"; name]) = Some (app dir ["media-runtime"]).
Proof.
  unfold bundled_runtime.
  change (app dir ["media-runtime"; "bin"; name]) with (app dir (app ["media-runtime"] (app ["bin"] [name]))).
  rewrite !app_assoc, parent_snoc. cbn [mbind option_bind].
  rewrite file_name_snoc by done. cbn [mbind option_bind].
  rewrite parent_snoc. cbn [mbind option_bind]. by rewrite file_name_snoc.
Qed.
(** Without an explicit path the helper is beside the program, and if the bundle has
    one it is that, run with the bundle's own libraries first and only its plug-ins. *)
Lemma helper_environment windows search_path host c helper arg :
  config_helper host c = Ok helper -> mc_helper_path c = None ->
  let command := configure_helper_command windows search_path helper arg in
  hc_program command = helper /\ hc_arg command = arg /\
  exists exe dir, hh_exe host = Ok exe /\ dir = default ["."] (parent exe) /\
    (helper = app dir ["media-runtime"; "bin"; helper_name exe] /\ hh_is_file host helper = true /\
       map fst (hc_env command) =
         ["PATH"; "GST_PLUGIN_SYSTEM_PATH_1_0"; "GST_PLUGIN_PATH_1_0"; "GST_PLUGIN_SCANNER"] \/
     helper = app dir [helper_name exe]).
Proof.
  unfold config_helper. intros Hh Hn. rewrite Hn in Hh. cbn zeta. do 2 (split; [done|]).
  destruct (hh_exe host) as [exe|] eqn:He; [|done]. injection Hh as <-.
  exists exe, (default ["."] (parent exe)). do 2 (split; [done|]).
  unfold default_helper_from. destruct (parent exe) as [dir|] eqn:Ep; cbn [default]; [|by right].
  destruct (hh_is_file host _) eqn:Hf; [left|by right]. split; [done|]. split; [done|].
  unfold configure_helper_command. cbn [hc_env]. by rewrite bundled_runtime_bin.
Qed.

(** ** The slot *)
Lemma media_begin_err revoked p id stream cancel now m m' e :
  media_begin revoked p id stream cancel now m = (m', Err e) -> m' = m.
Proof. unfold media_begin. intros H. by repeat case_match; simplify_eq. Qed.
Lemma media_begin_ok revoked p id stream cancel now m m' r :
  media_begin revoked p id stream cancel now m = (m', Ok r) ->
  in_active (mm_inner m) = None /\ mm_config m' = mm_config m /\
  in_active (mm_inner m') =
    Some {| ac_id := stream; ac_client := p_client_id p; ac_cancel := cancel |} /\
  mm_gui_controlled m' = mm_gui_controlled m.
Proof. unfold media_begin. intros H. by repeat case_match; simplify_eq. Qed.
Lemma media_op_controlled now op m :
  mm_gui_controlled (media_op now op m).1 = mm_gui_controlled m.
Proof.
  destruct op; cbn [media_op fst]; unfold media_approve, media_begin, media_finish, media_cancel_all,
    media_revoke_client, media_clear_sources, cancel_active; by repeat case_match; simplify_eq.
Qed.
Lemma media_ops_controlled ops m :
  mm_gui_controlled (media_ops ops m).1 = mm_gui_controlled m.
Proof.
  revert m. induction ops as [|[now op] ops IH]; intros m; [done|]. cbn [media_ops].
  pose proof (media_op_controlled now op m) as H. destruct (media_op now op m) as [m1 b].
  specialize (IH m1). destruct (media_ops ops m1). cbn [fst] in *. congruence.
Qed.

(** ** What a run holds *)
(** The input session, the helper process, the helper's input, and whether the helper
    was initialised. *)
Record Held := { hl_gui : bool; hl_child : bool; hl_pipe : bool; hl_init : bool }.
Definition held_none : Held :=
  {| hl_gui := false; hl_child := false; hl_pipe := false; hl_init := false |}.
(** An effect is only possible while what it uses is held. *)
Definition hold (h : Held) (e : RunEffect) : option Held :=
  match e with
  | ReGuiStart _ =>
    if hl_gui h then None
    else Some {| hl_gui := true; hl_child := hl_child h; hl_pipe := hl_pipe h; hl_init := hl_init h |}
  | ReGuiDrop =>
    if hl_gui h && negb (hl_child h) && negb (hl_pipe h) then Some held_none else None
  | ReSpawn _ =>
    if hl_gui h && negb (hl_child h)
    then Some {| hl_gui := true; hl_child := true; hl_pipe := true; hl_init := false |} else None
  | ReLoop (EfHelper (HiInit _)) =>
    if hl_pipe h && negb (hl_init h)
    then Some {| hl_gui := hl_gui h; hl_child := hl_child h; hl_pipe := true; hl_init := true |}
    else None
  | ReLoop (EfHelper HiStop) => if hl_pipe h then Some h else None
  | ReLoop EfDisarm => if hl_gui h then Some h else None
  | ReLoop _ => if hl_gui h && hl_pipe h && hl_init h then Some h else None
  | ReCloseInput =>
    if hl_pipe h
    then Some {| hl_gui := hl_gui h; hl_child := hl_child h; hl_pipe := false; hl_init := hl_init h |}
    else None
  | ReWait exited =>
    if hl_child h
    then Some {| hl_gui := hl_gui h; hl_child := negb exited; hl_pipe := hl_pipe h;
                 hl_init := hl_init h |}
    else None
  | ReKill =>
    if hl_child h
    then Some {| hl_gui := hl_gui h; hl_child := false; hl_pipe := false; hl_init := hl_init h |}
    else None
  | ReError _ | ReRefused _ | ReHello _ _ | ReAbortReader | ReCloseClient => Some h
  end.
Abbreviation holds := (trace hold).
Definition running : Held := {| hl_gui := true; hl_child := true; hl_pipe := true; hl_init := true |}.
(** The loop itself never initialises the helper. *)
Definition no_init (e : Effect) : Prop := forall i, e <> EfHelper (HiInit i).
Lemma media_round_no_init config source started env st :
  Forall no_init (media_round config source started env st).2.
Proof.
  unfold media_round, on_tick, on_helper, on_client, on_message, on_acquire, on_input.
  repeat case_match; cbn; repeat constructor; by intros i.
Qed.
Lemma media_loop_no_init config source started envs st :
  Forall no_init (media_loop config source started envs st).2.
Proof.
  revert st. induction envs as [|env envs IH]; intros st; [constructor|]. cbn [media_loop].
  pose proof (media_round_no_init config source started env st) as Hr.
  destruct (media_round _ _ _ env st) as [[st1|failed] es]; cbn [snd] in Hr.
  - specialize (IH st1). destruct (media_loop _ _ _ envs st1) as [r es']. by apply Forall_app.
  - apply Forall_app. split; [done|]. repeat constructor; by intros i.
Qed.
Lemma holds_loop es : Forall no_init es -> holds (map ReLoop es) running = Some running.
Proof.
  intros Hes. apply trace_steady, Forall_fmap. eapply Forall_impl; [exact Hes|]. intros e He.
  destruct e as [| | | | | |[i| | |]| | |]; try done. by destruct (He i).
Qed.
(** What reached the stream's loop, in order. *)
Definition loop_effects (es : list RunEffect) : list Effect :=
  omap (fun e => match e with ReLoop e => Some e | _ => None end) es.
Lemma loop_effects_app es k : loop_effects (app es k) = app (loop_effects es) (loop_effects k).
Proof. unfold loop_effects. apply omap_app. Qed.
Lemma loop_effects_map es : loop_effects (map ReLoop es) = es.
Proof. induction es as [|e es IH]; [done|]. cbn. by f_equal. Qed.

Definition started_held : Held :=
  {| hl_gui := true; hl_child := true; hl_pipe := true; hl_init := false |}.
Lemma run_startup_holds windows search_path config source env :
  let '(es, started) := run_startup windows search_path config source env in
  holds es held_none = Some (if started then started_held else held_none) /\ loop_effects es = [].
Proof.
  unfold run_startup. cbn zeta. destruct (re_gui_started env); [|done].
  destruct (config_helper _ _); [|done]. by destruct (re_spawned env), (re_pipes env).
Qed.
Lemma run_teardown_holds env failed h :
  hl_gui h = true -> hl_child h = true -> hl_pipe h = true ->
  holds (run_teardown env failed) h = Some held_none /\ loop_effects (run_teardown env failed) = [].
Proof.
  destruct h as [g c pi i]. cbn. intros -> -> ->. unfold run_teardown.
  by destruct (re_exited env), failed.
Qed.
Lemma run_outcome_holds config p source stream env :
  let '(r, es) := run_outcome config p source stream env in
  (exists h, holds es started_held = Some h /\ hl_gui h = true /\ hl_child h = true /\ hl_pipe h = true) /\
  (is_err r = true -> disarmed_after (loop_effects es) /\ EfDisarm ∈ loop_effects es).
Proof.
  unfold run_outcome. cbn zeta. destruct (mc_tailnet_ip config) as [ip|].
  2:{ split; [by eexists|]. intros _. split; [by repeat split|]. left. }
  destruct (re_init_sent env); cbn [negb].
  2:{ split; [by eexists|]. intros _. split; [by repeat split|]. right. left. }
  destruct (re_hello_sent env); cbn [negb].
  2:{ split; [by eexists|]. intros _. split; [by repeat split|]. right. left. }
  pose proof (media_loop_no_init config source (re_started env) (re_rounds env)
                (stream_start p (re_started env))) as Hn.
  pose proof (media_loop_disarmed config source (re_started env) (re_rounds env)
                (stream_start p (re_started env))) as Hd.
  destruct (media_loop _ _ _ _ _) as [r es]. cbn [snd] in Hn. split.
  - exists running. cbn [trace hold started_held]. split; [by apply holds_loop|done].
  - unfold loop_effects. cbn [omap list_omap]. fold (loop_effects (map ReLoop es)).
    rewrite loop_effects_map. destruct r as [st|failed]; [done|]. intros _. destruct Hd as [Hd Hin].
    split; [by split|]. by right.
Qed.
Lemma run_body_holds windows search_path config p source stream env :
  let '(r, es) := run_body windows search_path config p source stream env in
  match r with
  | Ok _ => exists h, holds es held_none = Some h /\ hl_gui h = true /\ hl_child h = true
  | Err _ => holds es held_none = Some held_none /\ disarmed_after (loop_effects es)
  end.
Proof.
  unfold run_body. pose proof (run_startup_holds windows search_path config source env) as Hs.
  destruct (run_startup _ _ _ _ env) as [es [|]]; destruct Hs as [Hs Hl]; cbn [negb].
  2:{ rewrite trace_app, Hs, loop_effects_app, Hl. done. }
  pose proof (run_outcome_holds config p source stream env) as Ho.
  destruct (run_outcome config p source stream env) as [[st|failed] os];
    destruct Ho as ((h & Hh & Hg & Hc & Hp) & Hd).
  - exists h. rewrite trace_app, Hs. done.
  - destruct (run_teardown_holds env failed h Hg Hc Hp) as [Ht Htl].
    rewrite trace_app, Hs, trace_app, Hh, Ht, !loop_effects_app, Hl, Htl, app_nil_r.
    split; [done|]. by apply Hd.
Qed.

(** C24: One viewer's stream gives everything back.  A client is either turned away, and
    then nothing is started and the manager is as before; or it gets the slot, and
    then, whatever the rest of the agent asks of the manager meanwhile, nobody else
    gets it before this run is over.  Throughout, the input session and the helper are
    used only while they are held, neither is started twice, and the helper is
    initialised once and before anything else it is told.  When the run is over,
    however it ended, the slot is free again and the controlled flag is off; the
    helper has exited or was killed and its input is closed; the input session is
    gone, and was disarmed after the last action it was given. *)
Theorem media_run_releases windows search_path revoked p source now stream cancel others env m :
  mm_gui_controlled m = false ->
  Forall (fun op => op.2 <> MoFinish stream) others ->
  let '(m1, begun) := media_begin revoked p (sv_id (ap_view source)) stream cancel now m in
  let '(m', es) := media_run windows search_path revoked p source now stream cancel others env m in
  match begun with
  | Err e => m' = m /\ es = [ReRefused e]
  | Ok _ =>
    in_active (mm_inner m) = None /\
    Forall (fun began => began = false) (media_ops others m1).2 /\
    match (run_body windows search_path (mm_config m) p source stream env).1 with
    | Ok _ =>
      is_Some (in_active (mm_inner m')) /\
      exists h, holds es held_none = Some h /\ hl_gui h = true /\ hl_child h = true
    | Err _ =>
      in_active (mm_inner m') = None /\ mm_gui_controlled m' = false /\
      holds es held_none = Some held_none /\ disarmed_after (loop_effects es)
    end
  end.
Proof.
  intros Hf Hops. unfold media_run.
  destruct (media_begin revoked p _ stream cancel now m) as [m1 [r|e]] eqn:Hb.
  2:{ by rewrite (media_begin_err _ _ _ _ _ _ _ _ _ Hb). }
  destruct (media_begin_ok _ _ _ _ _ _ _ _ _ Hb) as (Hnone & Hconf & Hact & Hflag).
  destruct (media_ops_busy _ others m1 (Hops : Forall (fun op => op.2 <> MoFinish (ac_id
    {| ac_id := stream; ac_client := p_client_id p; ac_cancel := cancel |})) others) Hact) as (Ha & Hno & _).
  pose proof (media_ops_controlled others m1) as Hc. rewrite Hflag, Hf in Hc.
  rewrite Hconf. set (m2 := (media_ops others m1).1) in *.
  pose proof (run_body_holds windows search_path (mm_config m) p source stream env) as Hbody.
  destruct (run_body _ _ _ _ _ _ env) as [[st|started] es]; (split; [done|split; [done|]]); cbn [fst].
  - split; [|done]. cbn. rewrite Ha. by eexists.
  - destruct Hbody as [Hh Hd]. destruct started; unfold media_finish; cbn; rewrite Ha; cbn;
      rewrite Z.eqb_refl; by repeat split.
Qed.

(** ** Probing is rare and honest *)
Record ProbeCall := { pc_now : Z; pc_later : Z; pc_io : ProbeIo }.
Section Probes.
Context (windows : bool) (search_path : option string) (c : MediaConfig).
(** Calls one after the other, with the command each ran and its answer. *)
Fixpoint probe_calls (calls : list ProbeCall) (cache : option (Z * Json))
  : list (ProbeCall * option HelperCommand * Json) :=
  match calls with
  | [] => []
  | x :: calls =>
    let '(cache, command, v) :=
      media_capabilities windows search_path c (pc_io x) (pc_now x) (pc_later x) cache in
    (x, command, v) :: probe_calls calls cache
  end.
Fixpoint in_time (t : Z) (calls : list ProbeCall) : Prop :=
  match calls with
  | [] => True
  | x :: calls => t <= pc_now x /\ pc_now x <= pc_later x /\ in_time (pc_later x) calls
  end.
Definition launched (l : list (ProbeCall * option HelperCommand * Json)) : list ProbeCall :=
  omap (fun x => if option_is_some x.1.2 then Some x.1.1 else None) l.
(** The helper itself said so. *)
Definition confirmed (x : ProbeCall) : Prop :=
  exists stdout v, pi_output (pc_io x) = Ok (true, stdout) /\ zlen stdout <= 32768 /\
    pi_parse (pc_io x) stdout = Ok v /\ bool_member v "available" = true.

Lemma probe_helper_confirmed x :
  let v := match (probe_helper windows search_path (pc_io x) c).2 with
           | Ok v => probed (mc_allow_control c) v
           | Err e => unavailable e
           end in
  bool_member v "available" = true -> confirmed x.
Proof.
  unfold probe_helper, confirmed. destruct (config_helper _ c) as [path|e]; [|done].
  destruct (pi_output (pc_io x)) as [[success stdout]|e]; [|done]. cbn [snd].
  destruct (negb success || _) eqn:E; [done|]. bools.
  destruct (pi_parse (pc_io x) stdout) as [v|e] eqn:Ep; [|done]. intros Hv.
  subst success. exists stdout, v. split; [done|]. split; [lia|]. by split.
Qed.
Lemma probe_helper_arg x command :
  (probe_helper windows search_path (pc_io x) c).1 = Some command -> hc_arg command = "--probe".
Proof. unfold probe_helper. destruct (config_helper _ c); [|done]. by intros [= <-]. Qed.

(** What a call does: answer from the cache, or run the helper and remember. *)
Lemma media_capabilities_cases x cache cache' command v :
  media_capabilities windows search_path c (pc_io x) (pc_now x) (pc_later x) cache =
    (cache', command, v) ->
  (command = None /\ cache' = cache /\
     (mc_enabled c = false /\ bool_member v "available" = false \/
      exists t, cache = Some (t, v) /\ since (pc_now x) t < secs 60)) \/
  (mc_enabled c = true /\ cache' = Some (pc_later x, v) /\
     command = (probe_helper windows search_path (pc_io x) c).1 /\
     (bool_member v "available" = true -> confirmed x) /\
     forall t w, cache = Some (t, w) -> secs 60 <= since (pc_now x) t).
Proof.
  unfold media_capabilities. destruct (mc_enabled c); cbn [negb].
  2:{ intros [= <- <- <-]. left. split; [done|]. split; [done|]. by left. }
  destruct cache as [[t w]|]; [destruct (Z.ltb_spec (since (pc_now x) t) (secs 60)) as [Ht|Ht]|].
  - intros [= <- <- <-]. left. do 2 (split; [done|]). right. by exists t.
  - pose proof (probe_helper_confirmed x) as Hc.
    destruct (probe_helper _ _ _ _) as [cmd r]. intros [= <- <- <-]. right.
    do 3 (split; [done|]). split; [done|]. by intros t' w' [= <- <-].
  - pose proof (probe_helper_confirmed x) as Hc.
    destruct (probe_helper _ _ _ _) as [cmd r]. intros [= <- <- <-]. right.
    do 3 (split; [done|]). by split.
Qed.

(** With a value remembered at [t], nothing is launched before a minute later. *)
Lemma launched_after t calls cache :
  in_time t calls -> (exists s v, cache = Some (s, v) /\ s <= t) ->
  Forall (fun x => forall s v, cache = Some (s, v) -> s + secs 60 <= pc_now x)
    (launched (probe_calls calls cache)).
Proof.
  revert t cache. induction calls as [|x calls IH]; intros t cache Ht (s & v & Hc & Hs); [constructor|].
  destruct Ht as (H1 & H2 & H3). cbn [probe_calls].
  destruct (media_capabilities _ _ _ _ _ _ cache) as [[cache' command] w] eqn:E.
  apply media_capabilities_cases in E as [(-> & -> & _)|(_ & -> & Hcmd & _ & Hgap)].
  - apply (IH (pc_later x)); [done|]. exists s, v. split; [done|lia].
  - specialize (Hgap s v Hc). unfold since, saturating_sub in Hgap.
    assert (s + secs 60 <= pc_now x) as Hx by (unfold secs in *; lia).
    assert (Forall (fun y => forall s v, cache = Some (s, v) -> s + secs 60 <= pc_now y)
      (launched (probe_calls calls (Some (pc_later x, w))))) as Hrest.
    { eapply Forall_impl; [apply (IH (pc_later x)); [done|by exists (pc_later x), w]|].
      intros y Hy s' v' Hc'. rewrite Hc in Hc'. injection Hc' as <- <-.
      specialize (Hy _ _ eq_refl). lia. }
    unfold launched. cbn [omap list_omap]. fold (launched (probe_calls calls (Some (pc_later x, w)))).
    cbn [fst snd]. destruct (option_is_some command); [|done]. constructor; [|done].
    intros s' v' Hc'. rewrite Hc in Hc'. by injection Hc' as <- <-.
Qed.

(** What a cached or fresh answer rests on. *)
Definition rests_on (known : list ProbeCall) (now : Z) (x : ProbeCall) : Prop :=
  x ∈ known /\ confirmed x /\ pc_now x <= now /\ now - pc_later x < secs 60.
Lemma probe_calls_confirmed t calls cache known :
  in_time t calls ->
  (forall s v, cache = Some (s, v) -> s <= t /\
     (bool_member v "available" = true -> exists x, x ∈ known /\ confirmed x /\
       s = pc_later x /\ pc_now x <= s)) ->
  Forall (fun l => bool_member l.2 "available" = true ->
      exists x, rests_on (app known calls) (pc_now l.1.1) x)
    (probe_calls calls cache).
Proof.
  revert t cache known. induction calls as [|y calls IH]; intros t cache known Ht Hc; [constructor|].
  destruct Ht as (H1 & H2 & H3). cbn [probe_calls].
  destruct (media_capabilities _ _ _ _ _ _ cache) as [[cache' command] w] eqn:E.
  assert (app known (y :: calls) = app (app known [y]) calls) as Heq by by rewrite <- app_assoc.
  assert (forall s v, cache' = Some (s, v) -> s <= pc_later y /\
    (bool_member v "available" = true ->
       exists x, x ∈ app known [y] /\ confirmed x /\ s = pc_later x /\ pc_now x <= s)) as Hc'.
  { intros s v ->. apply media_capabilities_cases in E as [(_ & <- & _)|(_ & [= -> ->] & _ & Hconf & _)].
    - destruct (Hc _ _ eq_refl) as [Hs Hv]. split; [lia|]. intros Ha.
      destruct (Hv Ha) as (x & Hin & Hx). exists x. split; [set_solver|done].
    - split; [lia|]. intros Ha. exists y. split; [set_solver|]. split; [by apply Hconf|done]. }
  constructor; [|rewrite Heq; by apply (IH (pc_later y))].
  cbn [fst snd]. intros Ha.
  apply media_capabilities_cases in E as [(_ & _ & [[_ Hno]|(s & Hs & Hage)])|(_ & _ & _ & Hconf & _)].
  - congruence.
  - destruct (Hc _ _ Hs) as [Hst Hv]. destruct (Hv Ha) as (x & Hin & Hx & -> & Hle).
    exists x. split; [set_solver|]. split; [done|]. split; [lia|]. unfold since, saturating_sub in Hage. lia.
  - exists y. split; [set_solver|]. split; [by apply Hconf|]. split; [done|]. unfold secs. lia.
Qed.
Lemma probe_calls_disabled calls cache :
  mc_enabled c = false -> launched (probe_calls calls cache) = [].
Proof.
  intros He. revert cache. induction calls as [|x calls IH]; intros cache; [done|]. cbn [probe_calls].
  unfold media_capabilities. rewrite He. cbn [negb]. unfold launched. cbn. apply IH.
Qed.
Lemma launched_spaced t calls cache :
  in_time t calls -> (forall s v, cache = Some (s, v) -> s <= t) ->
  StronglySorted (fun a b => pc_later a + secs 60 <= pc_now b) (launched (probe_calls calls cache)).
Proof.
  revert t cache. induction calls as [|x calls IH]; intros t cache Ht Hc; [constructor|].
  destruct Ht as (H1 & H2 & H3). cbn [probe_calls].
  destruct (media_capabilities _ _ _ _ _ _ cache) as [[cache' command] w] eqn:E.
  assert (forall s v, cache' = Some (s, v) -> s <= pc_later x) as Hc'.
  { intros s v ->. apply media_capabilities_cases in E as [(_ & <- & _)|(_ & [= -> ->] & _)]; [|lia].
    specialize (Hc _ _ eq_refl). lia. }
  specialize (IH _ _ H3 Hc'). unfold launched. cbn [omap list_omap fst snd].
  fold (launched (probe_calls calls cache')). destruct (option_is_some command) eqn:Ec; [|done].
  apply media_capabilities_cases in E as [(-> & _)|(_ & -> & _)]; [done|].
  constructor; [done|]. eapply Forall_impl.
  - apply (launched_after (pc_later x)); [done|]. by exists (pc_later x), w.
  - intros y Hy. apply (Hy _ _ eq_refl).
Qed.

(** Asking for the media capabilities, again and again: while media is disabled no
    helper is ever started; the helper is started at most once a minute, counted from
    the end of one probe to the start of the next; and whenever the answer is that
    media is available, there was a helper run, started no later and ended less than a
    minute before, that was successful and reported so within the size limit. *)
Theorem media_probe_bounded t calls :
  in_time t calls ->
  let l := probe_calls calls None in
  (mc_enabled c = false -> launched l = []) /\
  StronglySorted (fun a b => pc_later a + secs 60 <= pc_now b) (launched l) /\
  Forall (fun x => bool_member x.2 "available" = true ->
    exists y, rests_on calls (pc_now x.1.1) y) l.
Proof.
  intros Ht l. split; [intros He; by apply probe_calls_disabled|]. split.
  - by apply (launched_spaced t).
  - by apply (probe_calls_confirmed t calls None []).
Qed.
End Probes.

(** ** A concrete run *)
Definition demo_host : HelperHost :=
  {| hh_exe := Ok ["C:"; "RemoteCodex"; "rc-agent.exe"]; hh_is_file := fun _ => true |}.
Example demo_command :
  match config_helper demo_host demo_config with
  | Ok helper => configure_helper_command true (Some "C:\Windows") helper "--probe"
  | Err _ => {| hc_program := []; hc_arg := ""; hc_env := [] |}
  end =
  {| hc_program := ["C:"; "RemoteCodex"; "media-runtime"; "bin"; "rc-media.exe"];
     hc_arg := "--probe";
     hc_env := [("PATH", "C:\RemoteCodex\media-runtime\bin;C:\Windows");
       ("GST_PLUGIN_SYSTEM_PATH_1_0", "");
       ("GST_PLUGIN_PATH_1_0", "C:\RemoteCodex\media-runtime\lib\gstreamer-1.0");
       ("GST_PLUGIN_SCANNER",
        "C:\RemoteCodex\media-runtime\libexec\gstreamer-1.0\gst-plugin-scanner.exe")] |}.
Proof. by vm_compute. Qed.
Definition demo_run_env : RunEnv :=
  {| re_gui_started := true; re_host := demo_host; re_spawned := true; re_pipes := true;
     re_init_sent := true; re_hello_sent := true; re_started := secs 90;
     re_rounds := app demo_envs [demo_env None (say McStop)]; re_exited := false |}.
Lemma media_run_releases_witness :
  let '(m', es) := media_run true None ∅ demo_viewer demo_approved 0 21 (31, 0)
    [(0, MoBegin ∅ demo_viewer 11 22 (32, 0))] demo_run_env demo_manager in
  in_active (mm_inner m') = None /\ holds es held_none = Some held_none /\
  actions (loop_effects es) = [(1, 1); (1, 2)] /\ ReKill ∈ es.
Proof.
  pose proof (media_run_releases true None ∅ demo_viewer demo_approved 0 21 (31, 0)
    [(0, MoBegin ∅ demo_viewer 11 22 (32, 0))] demo_run_env demo_manager eq_refl) as H.
  specialize (H ltac:(repeat constructor; by intros [=])).
  assert (is_ok (media_begin ∅ demo_viewer (sv_id (ap_view demo_approved)) 21 (31, 0) 0
    demo_manager).2 = true) as Hok by (by vm_compute).
  assert (is_err (run_body true None (mm_config demo_manager) demo_viewer demo_approved 21
    demo_run_env).1 = true) as Hend by (by vm_compute).
  assert (let es := (media_run true None ∅ demo_viewer demo_approved 0 21 (31, 0)
    [(0, MoBegin ∅ demo_viewer 11 22 (32, 0))] demo_run_env demo_manager).2 in
    actions (loop_effects es) = [(1, 1); (1, 2)] /\ In ReKill es) as [Hact Hkill]
    by (vm_compute; tauto).
  destruct (media_begin ∅ demo_viewer (sv_id (ap_view demo_approved)) 21 (31, 0) 0 demo_manager)
    as [m1 [r|e]]; [|discriminate Hok].
  destruct (media_run _ _ _ _ _ _ _ _ _ _ _) as [m' es].
  destruct (run_body _ _ _ _ _ _ _) as [[st|started] es']; [done|]. cbn [fst snd] in *.
  destruct H as (_ & _ & H1 & _ & H2 & _). split; [done|]. split; [done|]. split; [done|].
  by apply list_elem_of_In.
Defined.
Definition demo_probe (now : Z) (available : bool) : ProbeCall :=
  {| pc_now := secs now; pc_later := secs (now + 1);
     pc_io := {| pi_host := demo_host; pi_output := Ok (true, str_bytes "{}");
                 pi_parse := fun _ => Ok (JObject [("available", JBool available)]) |} |}.
Definition demo_probes : list ProbeCall := [demo_probe 0 true; demo_probe 30 false; demo_probe 61 false].
Lemma media_probe_bounded_witness :
  let l := probe_calls true None demo_config demo_probes None in
  map (fun x => bool_member x.2 "available") l = [true; true; false] /\
  launched l = [demo_probe 0 true; demo_probe 61 false] /\
  StronglySorted (fun a b => pc_later a + secs 60 <= pc_now b) (launched l).
Proof.
  intros l. split; [by vm_compute|]. split; [reflexivity|].
  apply (media_probe_bounded true None demo_config 0 demo_probes).
  cbn. unfold secs. lia.
Defined.
