(* ===== verification/Tray.v ===== *)
(** * The notification-area tray ([crates/rc-platform-windows/src/tray.rs])
    The menu, the window that forwards the shell's callbacks, and [run_tray]: its
    resources and its message loop over a host that it only knows through two
    callbacks ([TrayHost]).  What the system answers is observed, one [Turn] for each
    message; the host changes on its own between the calls. *)
From Stdlib Require Import String.
From S2P Require Import Prelude Text.
#[global] Open Scope Z_scope.
Open Scope string_scope.
Open Scope Z_scope.

(** ** The menu *)
Inductive TrayState : Type := Idle | RemoteConnected | GuiControlled | TrayBlocked.
Inductive TrayAction : Type := OpenDesktop | TrayBlock | TrayResume | StopGui | ShutdownAgent.
Record TraySnapshot := { ts_state : TrayState; ts_live_ptys : Z }.
Record MenuItem := { mi_action : TrayAction; mi_label : string; mi_enabled : bool }.
#[global] Instance TrayState_eq_dec : EqDecision TrayState.
Proof. solve_decision. Defined.
#[global] Instance TrayAction_eq_dec : EqDecision TrayAction.
Proof. solve_decision. Defined.

Definition state_label (s : TrayState) : string :=
  match s with
  | Idle => "Waiting"
  | RemoteConnected => "Remote connected"
  | GuiControlled => "GUI control active"
  | TrayBlocked => "Remote access blocked"
  end.
Definition plural (count : Z) : string := if count =? 1 then "" else "s".
Definition menu (s : TraySnapshot) : list MenuItem :=
  let blocked := bool_decide (ts_state s = TrayBlocked) in
  let count := ts_live_ptys s in
  [{| mi_action := OpenDesktop; mi_label := "Open RemoteCodex"; mi_enabled := true |};
   {| mi_action := TrayBlock; mi_label := "Block remote access"; mi_enabled := negb blocked |};
   {| mi_action := TrayResume; mi_label := "Resume remote access"; mi_enabled := blocked |};
   {| mi_action := StopGui; mi_label := "Stop GUI control";
      mi_enabled := bool_decide (ts_state s = GuiControlled) |};
   {| mi_action := ShutdownAgent;
      mi_label := "Exit Agent (" ++ dec count ++ " terminal" ++ plural count ++ " running)";
      mi_enabled := true |}].
Definition shutdown_confirmation (s : TraySnapshot) : string :=
  let count := ts_live_ptys s in
  "Exiting the Agent will end " ++ dec count ++ " live terminal" ++ plural count ++
  ". Confirm shutdown?".
Definition action_name (a : TrayAction) : string :=      (* {action:?} *)
  match a with
  | OpenDesktop => "OpenDesktop" | TrayBlock => "BlockRemote" | TrayResume => "ResumeRemote"
  | StopGui => "StopGui" | ShutdownAgent => "ShutdownAgent"
  end.

(** ** Win32 values *)
Definition WM_APP : Z := 32768.
Definition TRAY_CALLBACK : Z := WM_APP + 41.
Definition TRAY_DISPATCH : Z := WM_APP + 42.
Definition WM_RBUTTONUP : Z := 517.
Definition WM_LBUTTONDBLCLK : Z := 515.
Definition MF_GRAYED : Z := 1.
Definition MF_DISABLED : Z := 2.
Definition MB_ERROR : Z := 16.                 (* MB_OK | MB_ICONERROR *)
Definition MB_CONFIRM : Z := 4 + 48 + 256.     (* MB_YESNO | MB_ICONWARNING | MB_DEFBUTTON2 *)
Definition IDYES : Z := 6.
Definition wide (s : string) : list Z := app (encode_utf16 (str_bytes s)) [0].
(** A buffer of [n] units, the last of them always 0. *)
Definition fixed_wide (n : nat) (s : string) : list Z :=
  let units := take (n - 1) (encode_utf16 (str_bytes s)) in
  app units (repeat 0 (n - length units)).
Definition menu_command (command : Z) : option TrayAction :=
  match command with
  | 1 => Some OpenDesktop
  | 2 => Some TrayBlock
  | 3 => Some TrayResume
  | 4 => Some StopGui
  | 5 => Some ShutdownAgent
  | _ => None
  end.

(** ** What the tray does *)
Inductive TrayEffect : Type :=
| TeRegister | TeUnregister
| TeCreateWindow | TeDestroyWindow
| TeIcon                                       (* NIM_ADD *)
| TeTip (tip : list Z)                         (* NIM_MODIFY *)
| TeDeleteIcon
| TePost (message wparam lparam : Z)
| TeDefault                                    (* DefWindowProcW *)
| TePopup | TeAppend (flags : Z) (command : nat) (text : list Z)
| TeForeground | TeTrack (x y : Z) | TeDestroyMenu
| TeMessage (text : list Z) (style : Z)        (* MessageBoxW *)
| TeAction (a : TrayAction).                   (* the host's handler *)

(** [tray_window_proc] *)
Definition tray_window_proc (message wparam lparam : Z) : TrayEffect :=
  if message =? TRAY_CALLBACK then TePost TRAY_DISPATCH wparam lparam else TeDefault.
Definition tip (s : TraySnapshot) : list Z :=
  fixed_wide 128 ("RemoteCodex: " ++ state_label (ts_state s)).
Definition show_message (message : string) : TrayEffect := TeMessage (wide message) MB_ERROR.
Definition show_handler_error (a : TrayAction) (error : string) : TrayEffect :=
  show_message ("Unable to complete " ++ action_name a ++ ": " ++ error).

(** The host, as the tray sees it. *)
Class TrayHost (H Io : Type) := {
  th_snapshot : H -> TraySnapshot;
  th_action : TrayAction -> Io -> H -> H * sres ()
}.

Section Loop.
Context {H Io : Type} `{TrayHost H Io}.

(** A message, and what happens while it is handled. *)
Record Turn := {
  tn_code : Z;                       (* what GetMessageW returns *)
  tn_own : bool;                     (* the message is for the tray's window *)
  tn_message : Z;
  tn_wparam : Z;
  tn_lparam : Z;
  tn_tip : bool;                     (* Shell_NotifyIconW, before the menu *)
  tn_popup : bool;                   (* CreatePopupMenu *)
  tn_append : nat -> bool;           (* AppendMenuW *)
  tn_cursor : option (Z * Z);        (* GetCursorPos *)
  tn_track : list MenuItem -> Z;     (* what is picked from the menu *)
  tn_answer : Z;                     (* what the confirmation is answered *)
  tn_io : Io;
  tn_tip_after : bool;
  tn_before : H -> H;                (* the host's own life: until the message, *)
  tn_menu : H -> H;                  (* while the menu is open, *)
  tn_dialog : H -> H;                (* while the dialog is, *)
  tn_after : H -> H                  (* and after the action *)
}.

Definition update_tooltip (ok : bool) (s : TraySnapshot) : list TrayEffect :=
  TeTip (tip s) ::
  (if ok then [] else [show_message "Shell_NotifyIconW(NIM_MODIFY) failed"]).

(** The items from [index] on; whether all could be appended. *)
Fixpoint append_items (ok : nat -> bool) (index : nat) (items : list MenuItem)
  : list TrayEffect * bool :=
  match items with
  | [] => ([], true)
  | item :: items =>
    let flags := if mi_enabled item then 0 else MF_DISABLED + MF_GRAYED in
    let e := TeAppend flags (index + 1) (wide (mi_label item)) in
    if negb (ok index) then ([e], false) else
    let '(es, all) := append_items ok (S index) items in (e :: es, all)
  end.
Definition popup_body (t : Turn) (s : TraySnapshot) : list TrayEffect * sres (option TrayAction) :=
  let '(es, all) := append_items (tn_append t) 0 (menu s) in
  if negb all then (es, Err "AppendMenuW failed") else
  match tn_cursor t with
  | None => (es, Err "GetCursorPos failed")
  | Some (x, y) =>
    (app es [TeForeground; TeTrack x y; TePost 0 0 0], Ok (menu_command (tn_track t (menu s))))
  end.
Definition popup_menu (t : Turn) (s : TraySnapshot) : list TrayEffect * sres (option TrayAction) :=
  if negb (tn_popup t) then ([], Err "CreatePopupMenu failed") else
  let '(es, r) := popup_body t s in (TePopup :: app es [TeDestroyMenu], r).

(** The handler is called; whether the loop ends. *)
Definition perform (a : TrayAction) (io : Io) (h : H) : H * list TrayEffect * bool :=
  let '(h, r) := th_action a io h in
  match r with
  | Ok _ => (h, [TeAction a], bool_decide (a = ShutdownAgent))
  | Err e => (h, [TeAction a; show_handler_error a e], false)
  end.
Definition dispatch_selected (t : Turn) (a : TrayAction) (h : H) : H * list TrayEffect * bool :=
  if bool_decide (a = ShutdownAgent) then
    let ask := TeMessage (wide (shutdown_confirmation (th_snapshot h))) MB_CONFIRM in
    let h := tn_dialog t h in
    if negb (tn_answer t =? IDYES) then (h, [ask], false) else
    let '(h, es, ends) := perform a (tn_io t) h in (h, ask :: es, ends)
  else perform a (tn_io t) h.

Definition on_right_click (t : Turn) (h : H) : H * list TrayEffect * bool :=
  let current := th_snapshot h in
  let es := update_tooltip (tn_tip t) current in
  let '(ps, r) := popup_menu t current in
  let h := tn_menu t h in
  match r with
  | Ok (Some selected) =>
    let '(h, ds, ends) := dispatch_selected t selected h in
    if ends then (h, app es (app ps ds), true) else
    let h := tn_after t h in
    (h, app es (app ps (app ds (update_tooltip (tn_tip_after t) (th_snapshot h)))), false)
  | Ok None => (h, app es ps, false)
  | Err e => (h, app es (app ps [show_message e]), false)
  end.
Definition on_double_click (t : Turn) (h : H) : H * list TrayEffect * bool :=
  let '(h, es, _) := perform OpenDesktop (tn_io t) h in (h, es, false).

(** One message: [None]: the loop goes on. *)
Definition tray_turn (t : Turn) (h : H) : H * list TrayEffect * option (sres ()) :=
  let h := tn_before t h in
  if tn_code t =? -1 then (h, [], Some (Err "GetMessageW failed")) else
  if tn_code t =? 0 then (h, [], Some (Ok tt)) else
  if negb (tn_own t) || negb (tn_message t =? TRAY_DISPATCH) then
    (h, if tn_own t then [tray_window_proc (tn_message t) (tn_wparam t) (tn_lparam t)] else [], None)
  else
    let '(h, es, ends) :=
      if wrap32 (tn_lparam t) =? WM_RBUTTONUP then on_right_click t h
      else if wrap32 (tn_lparam t) =? WM_LBUTTONDBLCLK then on_double_click t h
      else (h, [], false) in
    (h, es, if ends then Some (Ok tt) else None).
(** The loop; [None]: still waiting for a message. *)
Fixpoint tray_loop (turns : list Turn) (h : H) : H * list TrayEffect * option (sres ()) :=
  match turns with
  | [] => (h, [], None)
  | t :: turns =>
    let '(h, es, r) := tray_turn t h in
    match r with
    | Some r => (h, es, Some r)
    | None => let '(h, es', r) := tray_loop turns h in (h, app es es', r)
    end
  end.

(** ** The whole run *)
Record TraySetup := {
  ty_instance : bool;                (* GetModuleHandleW *)
  ty_register : option Z;            (* RegisterClassW: its error *)
  ty_window : bool;
  ty_icon : bool;
  ty_add : bool                      (* Shell_NotifyIconW(NIM_ADD) *)
}.
(** [Drop] of [TrayResources] *)
Definition release (icon_added : bool) : list TrayEffect :=
  app (if icon_added then [TeDeleteIcon] else []) [TeDestroyWindow; TeUnregister].
Definition run_tray (y : TraySetup) (turns : list Turn) (h : H)
  : H * list TrayEffect * option (sres ()) :=
  if negb (ty_instance y) then (h, [], Some (Err "GetModuleHandleW failed")) else
  match ty_register y with
  | Some e => (h, [], Some (Err ("RegisterClassW failed with error " ++ dec e)))
  | None =>
    if negb (ty_window y)
    then (h, [TeRegister; TeUnregister], Some (Err "CreateWindowExW failed")) else
    if negb (ty_icon y)
    then (h, TeRegister :: TeCreateWindow :: release false, Some (Err "LoadIconW failed")) else
    if negb (ty_add y)
    then (h, TeRegister :: TeCreateWindow :: release false,
          Some (Err "Shell_NotifyIconW(NIM_ADD) failed")) else
    let '(h, es, r) := tray_loop turns h in
    (h, TeRegister :: TeCreateWindow :: TeIcon ::
        app es (match r with Some _ => release true | None => [] end), r)
  end.
End Loop.

(** ** Texts and commands *)
Lemma fixed_wide_length n s : length (fixed_wide n s) = n.
Proof. unfold fixed_wide. rewrite length_app, length_take, repeat_length. lia. Qed.
(** The buffer ends in a NUL, so the shell never reads past it. *)
Lemma fixed_wide_terminated n s : (0 < n)%nat -> last (fixed_wide n s) = Some 0.
Proof.
  intros Hn. unfold fixed_wide. set (u := take (n - 1) _).
  assert (exists k, n - length u = S k)%nat as [k ->].
  { exists (n - length u - 1)%nat. subst u. rewrite length_take. lia. }
  cbn [repeat]. by rewrite repeat_cons, app_assoc, last_snoc.
Qed.
(** No label is cut. *)
Lemma tip_complete s :
  let text := wide ("RemoteCodex: " ++ state_label (ts_state s)) in
  tip s = app text (repeat 0 (128 - length text)).
Proof. unfold tip. destruct (ts_state s); vm_compute; reflexivity. Qed.
(** The position of an item is the command that stands for it. *)
Lemma menu_positions s k item :
  menu s !! k = Some item -> menu_command (Z.of_nat k + 1) = Some (mi_action item).
Proof. do 5 (destruct k as [|k]; [by intros [= <-]|]). done. Qed.
Lemma menu_command_position s n a :
  menu_command n = Some a ->
  exists k item, n = Z.of_nat k + 1 /\ menu s !! k = Some item /\ mi_action item = a.
Proof.
  intros Hn. assert (1 <= n <= 5) as Hr by (unfold menu_command in Hn; repeat case_match; lia || done).
  exists (Z.to_nat (n - 1)).
  assert (n = 1 \/ n = 2 \/ n = 3 \/ n = 4 \/ n = 5) as [->|[->|[->|[->| ->]]]] by lia;
    injection Hn as <-; eexists; (split; [|split]); done || reflexivity.
Qed.

(** ** What is held *)
Record Shown := { sh_class : bool; sh_window : bool; sh_icon : bool; sh_menu : bool }.
Definition shown_none : Shown :=
  {| sh_class := false; sh_window := false; sh_icon := false; sh_menu := false |}.
Definition shown_all : Shown :=
  {| sh_class := true; sh_window := true; sh_icon := true; sh_menu := false |}.
(** An effect is only possible while what it uses is there; nothing is created twice,
    and what others rest on is released last. *)
Definition show (h : Shown) (e : TrayEffect) : option Shown :=
  match h, e with
  | {| sh_class := false |}, TeRegister =>
    Some {| sh_class := true; sh_window := false; sh_icon := false; sh_menu := false |}
  | {| sh_class := true; sh_window := false |}, TeCreateWindow =>
    Some {| sh_class := true; sh_window := true; sh_icon := false; sh_menu := false |}
  | {| sh_class := true; sh_window := true; sh_icon := false |}, TeIcon => Some shown_all
  | {| sh_class := true; sh_window := true; sh_icon := true; sh_menu := false |}, TeDeleteIcon =>
    Some {| sh_class := true; sh_window := true; sh_icon := false; sh_menu := false |}
  | {| sh_class := true; sh_window := true; sh_icon := false; sh_menu := false |}, TeDestroyWindow =>
    Some {| sh_class := true; sh_window := false; sh_icon := false; sh_menu := false |}
  | {| sh_class := true; sh_window := false |}, TeUnregister => Some shown_none
  | {| sh_class := true; sh_window := true; sh_icon := true; sh_menu := false |}, TePopup =>
    Some {| sh_class := true; sh_window := true; sh_icon := true; sh_menu := true |}
  | {| sh_class := true; sh_window := true; sh_icon := true; sh_menu := true |}, TeDestroyMenu =>
    Some shown_all
  | {| sh_icon := true; sh_menu := true |}, (TeAppend _ _ _ | TeForeground | TeTrack _ _ | TePost _ _ _) =>
    Some h
  | {| sh_icon := true; sh_menu := false |},
    (TeTip _ | TePost _ _ _ | TeDefault | TeMessage _ _ | TeAction _) => Some h
  | _, _ => None
  end.
Abbreviation shows := (trace show).
(** Effects that leave everything as it is. *)
Abbreviation steady es := (shows es shown_all = Some shown_all).
Lemma steady_app es k : steady es -> steady k -> steady (app es k).
Proof. intros He Hk. by rewrite trace_app, He. Qed.
#[local] Hint Resolve steady_app : tray.

Section LoopFacts.
Context {H Io : Type} `{TrayHost H Io}.
Implicit Types (h : H) (t : Turn (H := H) (Io := Io)).

Lemma update_tooltip_steady ok s : steady (update_tooltip ok s).
Proof. by destruct ok. Qed.
Definition shown_menu : Shown :=
  {| sh_class := true; sh_window := true; sh_icon := true; sh_menu := true |}.
Lemma append_items_open ok i items : shows (append_items ok i items).1 shown_menu = Some shown_menu.
Proof.
  revert i. induction items as [|item items IH]; intros i; [done|]. cbn [append_items].
  destruct (negb (ok i)); [done|]. specialize (IH (S i)). by destruct (append_items ok (S i) items).
Qed.
Lemma popup_menu_steady t s : steady (popup_menu t s).1.
Proof.
  unfold popup_menu. destruct (negb _); [done|].
  assert (shows (popup_body t s).1 shown_menu = Some shown_menu) as Hb.
  { unfold popup_body. pose proof (append_items_open (tn_append t) 0 (menu s)) as Ha.
    destruct (append_items _ _ _) as [es all]. cbn [fst] in Ha. destruct (negb all); [done|].
    destruct (tn_cursor t) as [[x y]|]; [|done]. cbn [fst]. by rewrite trace_app, Ha. }
  destruct (popup_body t s) as [es r]. cbn [fst trace show shown_all] in *.
  fold shown_menu. by rewrite trace_app, Hb.
Qed.
Lemma perform_steady a io h : steady (perform a io h).1.2.
Proof. unfold perform. destruct (th_action a io h) as [h' [[]|e]]; done. Qed.
Lemma dispatch_selected_steady t a h : steady (dispatch_selected t a h).1.2.
Proof.
  unfold dispatch_selected. case_bool_decide; [|apply perform_steady].
  destruct (negb _); [done|]. pose proof (perform_steady a (tn_io t) (tn_dialog t h)) as Hp.
  by destruct (perform _ _ _) as [[h' es] b].
Qed.
#[local] Hint Resolve update_tooltip_steady popup_menu_steady dispatch_selected_steady : tray.
Lemma on_right_click_steady t h : steady (on_right_click t h).1.2.
Proof.
  unfold on_right_click.
  pose proof (popup_menu_steady t (th_snapshot h)) as Hp. pose proof (dispatch_selected_steady t) as Hd.
  destruct (popup_menu t _) as [ps [[a|]|e]]; cbn [fst] in Hp; cbn [fst snd]; auto with tray.
  specialize (Hd a (tn_menu t h)). destruct (dispatch_selected t a _) as [[h' ds] [|]];
    cbn [fst snd] in *; auto 6 with tray.
Qed.
Lemma tray_turn_steady t h : steady (tray_turn t h).1.2.
Proof.
  unfold tray_turn. destruct (_ =? -1); [done|]. destruct (_ =? 0); [done|].
  destruct (negb _ || _) eqn:E.
  { destruct (tn_own t); [|done]. cbn. unfold tray_window_proc. by destruct (_ =? TRAY_CALLBACK). }
  destruct (_ =? WM_RBUTTONUP).
  - pose proof (on_right_click_steady t (tn_before t h)) as Hr. by destruct (on_right_click t _) as [[? ?] ?].
  - destruct (_ =? WM_LBUTTONDBLCLK); [|done]. unfold on_double_click.
    pose proof (perform_steady OpenDesktop (tn_io t) (tn_before t h)) as Hr.
    by destruct (perform _ _ _) as [[? ?] ?].
Qed.

(** ** What a message can do *)
Definition actions (es : list TrayEffect) : list TrayAction :=
  omap (fun e => match e with TeAction a => Some a | _ => None end) es.
Lemma tray_actions_app es k : actions (app es k) = app (actions es) (actions k).
Proof. apply omap_app. Qed.
Lemma actions_update ok s : actions (update_tooltip ok s) = [].
Proof. by destruct ok. Qed.
Lemma actions_append ok i items : actions (append_items ok i items).1 = [].
Proof.
  revert i. induction items as [|item items IH]; intros i; [done|]. cbn [append_items].
  destruct (negb (ok i)); [done|]. specialize (IH (S i)). by destruct (append_items ok (S i) items).
Qed.
Lemma actions_popup t s : actions (popup_menu t s).1 = [].
Proof.
  unfold popup_menu, popup_body. destruct (negb _); [done|].
  pose proof (actions_append (tn_append t) 0 (menu s)) as Ha.
  destruct (append_items _ _ _) as [es all]. cbn [fst] in Ha. destruct (negb all); [|destruct (tn_cursor t) as [[x y]|]];
    cbn; fold (actions (app es [TeDestroyMenu])); try (by rewrite tray_actions_app, Ha).
  change (actions (app (app es [TeForeground; TeTrack x y; TePost 0 0 0]) [TeDestroyMenu]) = []).
  by rewrite !tray_actions_app, Ha.
Qed.
Lemma popup_menu_picked t s a :
  (popup_menu t s).2 = Ok (Some a) -> menu_command (tn_track t (menu s)) = Some a.
Proof.
  unfold popup_menu, popup_body. intros Hp. repeat case_match; simplify_eq; by cbn in Hp; simplify_eq.
Qed.

(** A disabled item cannot be picked; 0: nothing was. *)
Definition picks_enabled t : Prop := forall s,
  tn_track t (menu s) = 0 \/
  exists k item, tn_track t (menu s) = Z.of_nat k + 1 /\ menu s !! k = Some item /\
    mi_enabled item = true.
(** What the action may be, given the menu's snapshot. *)
Definition permitted t (s : TraySnapshot) (a : TrayAction) : Prop :=
  (exists item, item ∈ menu s /\ mi_action item = a /\ mi_enabled item = true) /\
  (a = ShutdownAgent -> tn_answer t = IDYES).
Lemma picked_enabled t s a :
  picks_enabled t -> (popup_menu t s).2 = Ok (Some a) ->
  exists item, item ∈ menu s /\ mi_action item = a /\ mi_enabled item = true.
Proof.
  intros Hp Ha. apply popup_menu_picked in Ha. destruct (Hp s) as [Hz|(k & item & Hk & Hm & He)].
  - by rewrite Hz in Ha.
  - rewrite Hk, (menu_positions s k item Hm) in Ha. injection Ha as <-.
    exists item. split; [by eapply list_elem_of_lookup_2|done].
Qed.
Lemma open_permitted t s : permitted t s OpenDesktop.
Proof. split; [|done]. eexists. split; [left|done]. Qed.

(** The host on its own, and the one action. *)
Definition own_life (R : relation H) t : Prop :=
  forall h, R h (tn_before t h) /\ R h (tn_menu t h) /\ R h (tn_dialog t h) /\ R h (tn_after t h).
Definition acts (R : relation H) t (l : list TrayAction) : Prop :=
  forall a h, a ∈ l -> R h (th_action a (tn_io t) h).1.
Section Related.
Context (R : relation H) `{!PreOrder R}.
Lemma perform_spec t a h :
  let '(h', es, ends) := perform a (tn_io t) h in
  actions es = [a] /\ (ends = true -> a = ShutdownAgent) /\ (acts R t [a] -> R h h').
Proof.
  unfold perform. destruct (th_action a (tn_io t) h) as [h' [[]|e]] eqn:E; (split; [done|]).
  - split; [by intros Hb%bool_decide_eq_true_1|]. intros Ha. specialize (Ha a h). rewrite E in Ha.
    apply Ha. left.
  - split; [done|]. intros Ha. specialize (Ha a h). rewrite E in Ha. apply Ha. left.
Qed.
Lemma dispatch_selected_spec t a h :
  own_life R t ->
  let '(h', es, ends) := dispatch_selected t a h in
  (actions es = [] /\ ends = false \/
   actions es = [a] /\ (a = ShutdownAgent -> tn_answer t = IDYES) /\
   (ends = true -> a = ShutdownAgent)) /\
  (acts R t (actions es) -> R h h').
Proof.
  intros Hl. unfold dispatch_selected. case_bool_decide as Ea.
  - destruct (Hl h) as (_ & _ & Hd & _). destruct (Z.eqb_spec (tn_answer t) IDYES) as [Hy|]; cbn [negb].
    + pose proof (perform_spec t a (tn_dialog t h)) as Hp.
      destruct (perform a (tn_io t) _) as [[h' es] ends]. destruct Hp as (H1 & H2 & H3).
      change (actions (?e :: es)) with (actions es). rewrite H1.
      split; [by right|]. intros Ha. etransitivity; [exact Hd|by apply H3].
    + split; [by left|]. by intros _.
  - pose proof (perform_spec t a h) as Hp. destruct (perform a (tn_io t) h) as [[h' es] ends].
    destruct Hp as (H1 & H2 & H3). rewrite H1. split; [|done]. right. by split.
Qed.
Lemma on_right_click_spec t h :
  picks_enabled t -> own_life R t ->
  let '(h', es, ends) := on_right_click t h in
  (actions es = [] /\ ends = false \/
   exists a, actions es = [a] /\ permitted t (th_snapshot h) a /\ (ends = true -> a = ShutdownAgent)) /\
  (acts R t (actions es) -> R h h').
Proof.
  intros Hp Hl. unfold on_right_click. destruct (Hl h) as (_ & Hm & _).
  pose proof (picked_enabled t (th_snapshot h)) as Hpick.
  pose proof (actions_popup t (th_snapshot h)) as Hnone.
  destruct (popup_menu t (th_snapshot h)) as [ps [[a|]|e]]; cbn [fst snd] in *.
  - specialize (Hpick a Hp eq_refl). pose proof (dispatch_selected_spec t a (tn_menu t h) Hl) as Hd.
    destruct (dispatch_selected t a _) as [[h' ds] ends]. destruct Hd as [Hd HR].
    destruct (Hl h') as (_ & _ & _ & Hafter).
    assert (actions ds = [] /\ ends = false \/
      exists a, actions ds = [a] /\ permitted t (th_snapshot h) a /\ (ends = true -> a = ShutdownAgent))
      as Hacts by (destruct Hd as [?|(? & ? & ?)]; [by left|right; by exists a]).
    destruct ends; rewrite !tray_actions_app, !actions_update, Hnone, ?app_nil_r; cbn [app];
      (split; [exact Hacts|]); intros Ha; (etransitivity; [exact Hm|]); [by apply HR|].
    etransitivity; [by apply HR|exact Hafter].
  - rewrite tray_actions_app, actions_update, Hnone. split; [by left|done].
  - rewrite !tray_actions_app, actions_update, Hnone. split; [by left|done].
Qed.
End Related.

(** What one message makes the tray do.  It asks the host for at most one action, and
    only for one that the menu, built from the host's state when it was opened, showed
    as enabled and that was picked there, or for opening the desktop on a double click;
    shutting down, only after the confirmation was answered with Yes.  The loop ends
    regularly only when the system quits it or after such a shutdown.  Apart from that
    action the host changes only by itself: what every change of it and the action
    preserve is preserved. *)
Lemma tray_turn_spec (R : relation H) `{!PreOrder R} t h :
  picks_enabled t -> own_life R t ->
  let '(h', es, r) := tray_turn t h in
  (actions es = [] \/
   exists a, actions es = [a] /\ permitted t (th_snapshot (tn_before t h)) a) /\
  (r = Some (Ok tt) -> tn_code t = 0 \/ actions es = [ShutdownAgent]) /\
  (acts R t (actions es) -> R h h').
Proof.
  intros Hp Hl. unfold tray_turn. destruct (Hl h) as (Hb & _).
  destruct (_ =? -1); [split; [by left|by split]|].
  destruct (Z.eqb_spec (tn_code t) 0); [split; [by left|]; split; [by left|done]|].
  destruct (negb _ || _).
  { split; [left|by split]. destruct (tn_own t); [|done]. unfold tray_window_proc.
    by destruct (_ =? TRAY_CALLBACK). }
  destruct (_ =? WM_RBUTTONUP); [|destruct (_ =? WM_LBUTTONDBLCLK)].
  - pose proof (on_right_click_spec R t (tn_before t h) Hp Hl) as Hr.
    destruct (on_right_click t _) as [[h' es] ends]. destruct Hr as [Hr HR].
    split; [destruct Hr as [[-> _]|(a & -> & Hperm & _)]; [by left|right; by exists a]|].
    split; [|intros Ha; etransitivity; [exact Hb|by apply HR]].
    destruct Hr as [[_ ->]|(a & -> & _ & He)]; [done|]. destruct ends; [|done].
    intros _. right. by rewrite (He eq_refl).
  - unfold on_double_click. pose proof (perform_spec R t OpenDesktop (tn_before t h)) as Hd.
    destruct (perform _ _ _) as [[h' es] ends]. destruct Hd as (-> & _ & HR).
    split; [right; eexists; split; [done|apply open_permitted]|]. split; [done|].
    intros Ha. etransitivity; [exact Hb|by apply HR].
  - split; [by left|by split].
Qed.

(** The tray over its whole life.  However it starts and whatever messages come, what
    it uses is there when it is used: nothing is created twice, a menu is gone before
    the next message, and the icon is never shown without its window.  When the run is
    over, be it a failure at any step of the start, of the message queue, the end of
    the process or a confirmed shutdown, everything it created has been released, in
    order; and until then icon and window stay. *)
Theorem tray_releases_everything y (turns : list (Turn (H := H) (Io := Io))) h :
  let '(h', es, r) := run_tray y turns h in
  shows es shown_none = Some (if option_is_some r then shown_none else shown_all).
Proof.
  assert (forall turns h, steady (tray_loop turns h).1.2) as Hloop.
  { clear. intros turns. induction turns as [|t turns IH]; intros h; [done|]. cbn [tray_loop].
    pose proof (tray_turn_steady t h) as Ht. destruct (tray_turn t h) as [[h1 es] [r|]]; [done|].
    specialize (IH h1). destruct (tray_loop turns h1) as [[h2 es'] r].
    cbn [fst snd] in *. by apply steady_app. }
  unfold run_tray. destruct (ty_instance y); [|done]. destruct (ty_register y); [done|].
  destruct (ty_window y), (ty_icon y), (ty_add y); try done. cbn [negb].
  specialize (Hloop turns h). destruct (tray_loop turns h) as [[h' es] r]. cbn [fst snd] in Hloop.
  cbn [trace show shown_none]. fold shown_all. rewrite trace_app, Hloop. by destruct r.
Qed.
End LoopFacts.
