(* ===== verification/Admin.v ===== *)
(** * The local user's side of the agent
    ([crates/rc-agent/src/local.rs], [tray.rs], [main.rs])
    The commands of the named pipe, the tray's actions and snapshot, the probe of a
    running agent and the end of a run, over the agent's whole state.  The pipe, its
    security descriptor and the peer check belong to the operating system; JSON is a
    parameter. *)
From Stdlib Require Import String.
From S2P Require Import Prelude Errors Protocol Text Paths Frame Ring VtFence Lease Ledger Auth SessionInput SessionOutput Session Float Geometry MediaWire MediaStream Config Preview Http Control Tray.
#[global] Open Scope Z_scope.

(** ** Commands and answers *)
Inductive LocalCommand : Type :=
| PairOwner | PairReader | PairGui
| MediaSources
| MediaApprove (kind handle : string) (control : bool)
| MediaClear
| BlockRemote | ResumeRemote
| LocalStatus
| Shutdown.
Inductive LocalReply : Type :=
| LrTicket (ticket : string) (expires_in : Z)
| LrSources (l : list LocalSource)
| LrApproved (v : SourceView)
| LrCleared
| LrBlocked (blocked : bool)
| LrStatus (epoch : Uuid) (blocked : bool) (sessions : list SessionInfo)
    (local_origin : string) (public_origin : option string) (media : MediaConfig)
| LrShutdownRequested.
Inductive LocalError : Type := LeCode (e : ErrorCode) | LeText (message : string).

(** The command line's subcommands. *)
Inductive Command : Type :=
| CmdRun
| CmdPair (reader gui : bool)
| CmdMediaSources
| CmdMediaApprove (kind handle : string) (control : bool)
| CmdMediaClear | CmdStatus | CmdStatusProbe | CmdBlockRemote | CmdResumeRemote | CmdShutdown.
(** The request a subcommand sends; [Run] and [StatusProbe] send none. *)
Definition command_request (c : Command) : option LocalCommand :=
  match c with
  | CmdRun | CmdStatusProbe => None
  | CmdPair reader gui => Some (if gui then PairGui else if reader then PairReader else PairOwner)
  | CmdMediaSources => Some MediaSources
  | CmdMediaApprove kind handle control => Some (MediaApprove kind handle control)
  | CmdMediaClear => Some MediaClear
  | CmdStatus => Some LocalStatus
  | CmdBlockRemote => Some BlockRemote
  | CmdResumeRemote => Some ResumeRemote
  | CmdShutdown => Some Shutdown
  end.

(** ** The probe *)
Inductive ProbeStatus : Type := Active | Missing | Unsafe.
Definition classify_open_error (raw_os_error : option Z) : ProbeStatus :=
  match raw_os_error with Some 2 => Missing | _ => Unsafe end.
(** [reply]: the status request was answered in time, within bounds and with JSON. *)
Definition probe_status (name_ok : bool) (open : result (option Z) ()) (peer_ok reply : bool)
  : ProbeStatus :=
  if negb name_ok then Unsafe else
  match open with
  | Err e => classify_open_error e
  | Ok _ => if negb peer_ok then Unsafe else if reply then Active else Unsafe
  end.
Definition probe_exit (s : ProbeStatus) : Z :=
  match s with Active => 0 | Missing => 3 | Unsafe => 4 end.

(** ** Framing of the pipe *)
Definition local_frame (l : bytes) : bytes := be_enc 4 (wrap32 (zlen l)) ++ l.
(** [None]: the pipe ended early, or the length is above [limit]. *)
Definition local_read (limit : Z) (l : bytes) : option bytes :=
  if (length l <? 4)%nat then None else
  let len := be_dec (take 4 l) in
  if limit <? len then None else
  if zlen (drop 4 l) <? len then None else Some (take (Z.to_nat len) (drop 4 l)).
Definition REQUEST_LIMIT : Z := 2048.
Definition REPLY_LIMIT : Z := 128 * 1024.

(** What one side frames the other reads, up to its limit. *)
Lemma local_frame_read limit l :
  limit <= u32_max -> zlen l <= u32_max ->
  local_read limit (local_frame l) = if limit <? zlen l then None else Some l.
Proof.
  intros Hlim Hl. pose proof (zlen_nonneg l). unfold local_read, local_frame, u32_max in *.
  rewrite wrap32_small by (unfold u32_max; lia).
  assert (length (be_enc 4 (zlen l)) = 4%nat) as H4 by apply be_enc_length.
  rewrite length_app, H4. destruct (Nat.ltb_spec (4 + length l) 4); [lia|].
  rewrite take_app_length', drop_app_length' by done.
  rewrite be_dec_enc by (change (256 ^ Z.of_nat 4) with 4294967296; lia).
  destruct (limit <? zlen l); [done|]. rewrite Z.ltb_irrefl. unfold zlen.
  by rewrite Nat2Z.id, firstn_all.
Qed.

(** ** Handlers *)
Section Admin.
Context {Model : Type} (key : string -> Digest) (parse_command : bytes -> option LocalCommand).

(** The agent, whether its shutdown was requested, and the remote connections the
    counter holds. *)
Record Host := {
  ho_state : AppState (Model := Model);
  ho_shutdown : bool;
  ho_remote : Z
}.
Definition set_app_state (s : AppState) (h : Host) : Host :=
  {| ho_state := s; ho_shutdown := ho_shutdown h; ho_remote := ho_remote h |}.
Definition request_shutdown (h : Host) : Host :=
  {| ho_state := ho_state h; ho_shutdown := true; ho_remote := ho_remote h |}.

(** What the system gives a command: clock, secret, the sources it lists, a fresh
    id, whether the store was written, which sessions run the composer's program. *)
Record LocalEnv := {
  le_now : Z;
  le_token : string;
  le_sources : option (list LocalSource);
  le_id : Uuid;
  le_persisted : bool;
  le_matches : Uuid -> bool
}.

Definition gui_scopes (allow_control : bool) : list Scope :=
  Scope_owner ++ [WindowView; DesktopView] ++
  (if allow_control then [WindowControl; DesktopControl] else []).
Definition local_pair (scopes : list Scope) (env : LocalEnv) (h : Host)
  : Host * result LocalError LocalReply :=
  let '(a, r) := issue_pair_ticket key scopes (le_now env) (le_token env) (st_auth (ho_state h)) in
  (set_app_state (set_auth a (ho_state h)) h,
   match r with Ok t => Ok (LrTicket t 300) | Err e => Err (LeCode e) end).
(** The four steps of a block, in their order. *)
Definition block_remote_state (s : AppState (Model := Model)) : AppState (Model := Model) :=
  let s := set_auth (block_all (st_auth s)) s in
  let s := set_manager (manager_block_input (st_sessions s)) s in
  let s := set_previews (preview_block_all (st_previews s)) s in
  set_media (media_cancel_all (st_media s)) s.
Definition local_dispatch (cmd : LocalCommand) (env : LocalEnv) (h : Host)
  : Host * result LocalError LocalReply :=
  let s := ho_state h in
  match cmd with
  | PairOwner => local_pair Scope_owner env h
  | PairGui =>
    if negb (mc_enabled (cf_media (st_config s))) then (h, Err (LeText "Media not configured"%string))
    else local_pair (gui_scopes (mc_allow_control (cf_media (st_config s)))) env h
  | MediaSources =>
    (h, match le_sources env with
        | Some l => Ok (LrSources l) | None => Err (LeText "enumerate_sources"%string) end)
  | MediaApprove kind handle control =>
    let '(m, r) := media_approve kind handle control (le_sources env) (le_id env) (le_now env)
                     (st_media s) in
    (set_app_state (set_media m s) h,
     match r with Ok v => Ok (LrApproved v) | Err e => Err (LeText e) end)
  | MediaClear => (set_app_state (set_media (media_clear_sources (st_media s)) s) h, Ok LrCleared)
  | PairReader => local_pair [TerminalRead] env h
  | BlockRemote => (set_app_state (block_remote_state s) h, Ok (LrBlocked true))
  | ResumeRemote =>
    let a := resume_local (le_persisted env) (st_auth s) in
    (set_app_state (set_auth a s) h, Ok (LrBlocked (a_blocked a)))
  | LocalStatus =>
    (h, Ok (LrStatus (sm_epoch (st_sessions s)) (a_blocked (st_auth s))
              (manager_list (le_now env) (le_matches env) (st_sessions s))
              (local_origin (st_config s)) (cf_public_origin (st_config s))
              (cf_media (st_config s))))
  | Shutdown => (request_shutdown h, Ok LrShutdownRequested)
  end.
(** One connection of the pipe: [verified] says the peer is this user's. *)
Definition local_connection (verified : bool) (received : bytes) (env : LocalEnv) (h : Host)
  : Host * option (result LocalError LocalReply) :=
  if negb verified then (h, None) else
  match local_read REQUEST_LIMIT received with
  | None => (h, None)
  | Some data =>
    match parse_command data with
    | None => (h, None)
    | Some cmd => let '(h, r) := local_dispatch cmd env h in (h, Some r)
    end
  end.

(** ** The tray *)
(** Where the desktop shell may be, beside the agent's own program. *)
Definition desktop_candidates (agent : Components) : sres (list Components) :=
  match parent agent with
  | None => Err "The Agent executable has no parent directory"%string
  | Some directory =>
    Ok [app directory ["remotecodex-desktop.exe"%string];
        app directory ["resources"; "remotecodex-desktop.exe"]%string]
  end.
Record DesktopIo := {
  di_exe : sres Components;           (* current_exe *)
  di_is_file : Components -> bool;
  di_spawned : sres ()
}.
(** The program that was started. *)
Definition open_desktop (io : DesktopIo) : sres Components :=
  match di_exe io with
  | Err e => Err e
  | Ok agent =>
    match desktop_candidates agent with
    | Err e => Err e
    | Ok candidates =>
      match List.find (di_is_file io) candidates with
      | None => Err ("Could not locate remotecodex-desktop.exe. Checked: " ++
                     String.concat ", " (map (path_text "\") candidates))%string
      | Some desktop => match di_spawned io with Ok _ => Ok desktop | Err e => Err e end
      end
    end
  end.
Definition live_state (l : Lifecycle) : bool :=
  match l with Protocol.Starting | Protocol.Running | Protocol.Closing => true | _ => false end.
Definition tray_snapshot (h : Host) : TraySnapshot :=
  let s := ho_state h in
  {| ts_state :=
       if a_blocked (st_auth s) then TrayBlocked
       else if mm_gui_controlled (st_media s) then GuiControlled
       else if 0 <? ho_remote h then RemoteConnected else Idle;
     ts_live_ptys :=
       Z.of_nat (size (base.filter (fun kv : Uuid * Session =>
         live_state (si_state (s_meta kv.2)) = true) (sm_sessions (st_sessions s)))) |}.
(** [persisted]: the store was written.  Starting the desktop shell changes nothing here. *)
Definition tray_action (act : TrayAction) (persisted : bool) (h : Host) : Host :=
  let s := ho_state h in
  match act with
  | OpenDesktop => h
  | TrayBlock => set_app_state (block_remote_state s) h
  | TrayResume => set_app_state (set_auth (resume_local persisted (st_auth s)) s) h
  | StopGui => set_app_state (set_media (media_cancel_all (st_media s)) s) h
  | ShutdownAgent => request_shutdown h
  end.
(** What the tray is answered. *)
Definition handle_tray (act : TrayAction) (io : bool * DesktopIo) (h : Host) : Host * sres () :=
  (tray_action act io.1 h,
   match act with
   | OpenDesktop => match open_desktop io.2 with Ok _ => Ok tt | Err e => Err e end
   | _ => Ok tt
   end).
#[export] Instance agent_tray : TrayHost Host (bool * DesktopIo) :=
  {| th_snapshot := tray_snapshot; th_action := handle_tray |}.

(** [enter] and the guard's [drop] on the atomic counter. *)
Definition remote_enter (h : Host) : Host :=
  {| ho_state := ho_state h; ho_shutdown := ho_shutdown h; ho_remote := wrap64 (ho_remote h + 1) |}.
Definition remote_leave (h : Host) : Host :=
  {| ho_state := ho_state h; ho_shutdown := ho_shutdown h; ho_remote := wrap64 (ho_remote h - 1) |}.

(** ** The end of a run *)
Definition agent_finish (h : Host) : Host :=
  let s := set_media (media_cancel_all (st_media (ho_state h))) (ho_state h) in
  let s := set_previews (preview_shutdown (st_previews s)) s in
  set_app_state (set_manager (manager_shutdown (st_sessions s)) s) h.

(** ** A blocked agent *)
(** Nothing remote has any authority: no ticket, challenge, token or grant is left,
    the devices' tokens and those of the principals in [l] are cancelled, no lease is
    held and the stream, if there is one, was told to stop. *)
Record quiet (l : list Principal) (s : AppState (Model := Model)) : Prop := {
  qu_blocked : a_blocked (st_auth s) = true;
  qu_tables : pairs (st_auth s) = ∅ /\ challenges (st_auth s) = ∅ /\
    access (st_auth s) = ∅ /\ ws (st_auth s) = ∅;
  qu_devices : forall c d, devices (st_auth s) !! c = Some d -> ds_cancel d ∈ cancelled (st_auth s);
  qu_handed : forall p, p ∈ l -> p_revoked p ∈ cancelled (st_auth s);
  qu_leases : forall id x, sm_sessions (st_sessions s) !! id = Some x ->
    ls_owner (session_lease x) = None;
  qu_previews : pm_launches (st_previews s) = ∅ /\ pm_browsers (st_previews s) = ∅;
  qu_media : forall a, in_active (mm_inner (st_media s)) = Some a ->
    ac_cancel a ∈ mm_cancelled (st_media s)
}.

Lemma cancel_active_all m a :
  in_active (mm_inner (media_cancel_all m)) = Some a ->
  ac_cancel a ∈ mm_cancelled (media_cancel_all m).
Proof.
  unfold media_cancel_all, cancel_active. destruct (in_active (mm_inner m)) as [b|] eqn:E.
  - cbn. rewrite E. intros [= ->]. set_solver.
  - rewrite E. done.
Qed.
(** Blocking makes the agent quiet, provided the principals in [l] are all that were
    handed out; sessions keep running. *)
Lemma block_remote_quiet l s :
  auth_inv (st_auth s, l) ->
  quiet l (block_remote_state s) /\
  (forall id, s_running <$> sm_sessions (st_sessions (block_remote_state s)) !! id =
              s_running <$> sm_sessions (st_sessions s) !! id).
Proof.
  intros I. split.
  - split; cbn; try done.
    + intros c d Hd. apply elem_of_union_l, elem_of_map_to_set. eauto.
    + intros p Hp. destruct (ai_current _ I p Hp) as [?|(d & Hd & Hc)]; [set_solver|].
      apply elem_of_union_l, elem_of_map_to_set. cbn in *. eauto.
    + intros id x. rewrite lookup_fmap, fmap_Some. by intros (y & _ & ->).
    + apply cancel_active_all.
  - intros id. cbn. rewrite lookup_fmap. by destruct (sm_sessions (st_sessions s) !! id).
Qed.

(** *** What a blocked agent does *)
Context (model_new : Z -> Z -> Model) (model_bracketed : Model -> bool)
  (model_resize : Model -> Z -> Z -> Model) (parse_url : string -> option Url)
  (url_with_port : string -> Z -> option string) (url_default_port : Url -> option Z)
  (client_request : string -> option HeaderMap)
  (b64url_decode base64_decode : string -> option bytes) (sec1_key_ok signature_ok : bytes -> bool)
  (ecdsa_verify : bytes -> string -> bytes -> bool) (audience : string).
Abbreviation http_serve := (serve model_new model_bracketed parse_url url_with_port key
  b64url_decode sec1_key_ok signature_ok ecdsa_verify audience).
Abbreviation gateway := (proxy_inner parse_url url_default_port key b64url_decode client_request).

(** Everything that happens to the agent, except a local resume: HTTP requests,
    WebSocket upgrades, commands on the pipe, the tray, turns of control connections
    whose principal is in [l] and their end, requests to a preview's gateway, the
    exit of a session's process, the end of a stream, connections counted. *)
Inductive host_step (l : list Principal) : Host -> Host -> Prop :=
| hs_http r c now later h :
    routed r c -> host_step l h (set_app_state (http_serve r c now later (ho_state h)).1 h)
| hs_upgrade origin header channel now h :
    host_step l h (set_app_state (ws_consume key origin header channel now (ho_state h)).1 h)
| hs_local verified received env h :
    (forall data, local_read REQUEST_LIMIT received = Some data ->
       parse_command data <> Some ResumeRemote) ->
    host_step l h (local_connection verified received env h).1
| hs_tray act persisted h : act <> TrayResume -> host_step l h (tray_action act persisted h)
| hs_control env connection c h :
    ct_p c ∈ l ->
    host_step l h (set_app_state (control_round model_resize key base64_decode env connection c
                                (ho_state h)).1.2 h)
| hs_control_end connection h :
    host_step l h (set_app_state (control_end connection (ho_state h)) h)
| hs_gateway e env rq h :
    host_step l h (set_app_state (set_previews (gateway e env rq (st_auth (ho_state h))
                                 (st_previews (ho_state h))).1 (ho_state h)) h)
| hs_exited id x exit_ok h :
    sm_sessions (st_sessions (ho_state h)) !! id = Some x ->
    host_step l h (set_app_state (put_session id (session_exited exit_ok x).1 (ho_state h)) h)
| hs_stream_finished id h :
    host_step l h (set_app_state (set_media (media_finish id (st_media (ho_state h))) (ho_state h)) h)
| hs_enter h : host_step l h (remote_enter h)
| hs_leave h : host_step l h (remote_leave h).

Lemma state_eta (s : AppState (Model := Model)) :
  set_auth (st_auth s) s = s /\ set_previews (st_previews s) s = s.
Proof. by destruct s. Qed.
Lemma blocked_authorize s token now : a_blocked (st_auth s) = true ->
  authorize key token now (st_auth (Model := Model) s) = Err Forbidden.
Proof. intros Hb. unfold authorize, ensure_open. by rewrite Hb. Qed.
Lemma blocked_principal (s : AppState (Model := Model)) r scope now :
  a_blocked (st_auth s) = true -> is_err (http_principal key r scope now s) = true.
Proof.
  intros Hb. unfold http_principal. case_match; [|done]. case_match; [|done].
  by rewrite blocked_authorize.
Qed.
(** A blocked agent refuses every request as it is. *)
Lemma blocked_http r c now later s :
  a_blocked (st_auth s) = true -> routed r c ->
  exists e, http_serve r c now later s = (s, Err e).
Proof.
  intros Hb [Hm _]. unfold serve.
  assert (rq_method r <> OPTIONS) as Hopt by (rewrite Hm; by destruct c).
  destruct (boundary parse_url (st_config s) r) eqn:Eb; [eauto| |].
  { unfold boundary in Eb. rewrite (bool_decide_eq_false_2 _ Hopt) in Eb. by repeat case_match. }
  destruct (call_scope c) as [scope|] eqn:Ec.
  - destruct (handle_scope model_new model_bracketed url_with_port key b64url_decode sec1_key_ok
      signature_ok ecdsa_verify audience r c now later s scope Ec) as [[e He]|[p Hp]]; [eauto|].
    pose proof (blocked_principal s r scope now Hb) as Hn. by rewrite Hp in Hn.
  - destruct (state_eta s) as [Heta _].
    destruct c; try done; cbn [handle]; unfold handle_pair, handle_challenge, handle_verify,
      auth_pair, auth_challenge, auth_verify, ensure_open; rewrite Hb, Heta; eauto.
Qed.
(** Its gateways answer nothing but their own page. *)
Lemma blocked_gateway e env rq a m :
  pm_launches m = ∅ -> pm_browsers m = ∅ ->
  let '(m', r) := gateway e env rq a m in
  pm_launches m' = ∅ /\ pm_browsers m' = ∅ /\ (r = Ok GrPage \/ is_err r = true).
Proof.
  intros Hl Hb. destruct (gateway e env rq a m) as [m' r] eqn:E. revert E. unfold proxy_inner.
  repeat (case_match; [by intros [= <- <-]; auto|]).
  destruct (gateway_authority _ _ e); [|by intros [= <- <-]; auto].
  repeat (case_match; [by intros [= <- <-]; auto|]). case_match.
  - case_match; [by intros [= <- <-]; auto|]. case_match; [|by intros [= <- <-]; auto].
    case_match; [|by intros [= <- <-]; auto].
    unfold gateway_consume, preview_prune, retain_grants. cbn [pm_launches pm_browsers set_grants].
    rewrite Hl, Hb, !map_filter_empty, lookup_empty. cbn [option_keep].
    intros [= <- <-]. cbn. rewrite delete_empty. auto.
  - case_match; [by intros [= <- <-]; auto|]. unfold gateway_forward.
    destruct (List.find _ _) as [[? credential]|]; [|by intros [= <- <-]; auto].
    unfold preview_prune, retain_grants. cbn [pm_launches pm_browsers set_grants].
    rewrite Hl, Hb, !map_filter_empty, lookup_empty. cbn [option_keep].
    intros [= <- <-]. cbn. auto.
Qed.

Lemma quiet_media l s m :
  quiet l s -> (forall a, in_active (mm_inner m) = Some a -> ac_cancel a ∈ mm_cancelled m) ->
  quiet l (set_media m s).
Proof. by intros [Q1 Q2 Q3 Q4 Q5 Q6 Q7] Hm; split. Qed.
Lemma quiet_previews l s m :
  quiet l s -> pm_launches m = ∅ /\ pm_browsers m = ∅ -> quiet l (set_previews m s).
Proof. by intros [Q1 Q2 Q3 Q4 Q5 Q6 Q7] Hm; split. Qed.
Lemma quiet_manager l s g :
  quiet l s -> (forall id x, sm_sessions g !! id = Some x -> ls_owner (session_lease x) = None) ->
  quiet l (set_manager g s).
Proof. by intros [Q1 Q2 Q3 Q4 Q5 Q6 Q7] Hm; split. Qed.
Lemma quiet_block l s : quiet l s -> quiet l (block_remote_state s).
Proof.
  intros [Q1 Q2 Q3 Q4 Q5 Q6 Q7]. split; cbn; try done.
  - intros c d Hd. apply elem_of_union_l, elem_of_map_to_set. eauto.
  - intros p Hp. apply elem_of_union_r. by apply Q4.
  - intros id x. rewrite lookup_fmap, fmap_Some. by intros (y & _ & ->).
  - apply cancel_active_all.
Qed.
Lemma quiet_pair l scopes env h :
  quiet l (ho_state h) -> local_pair scopes env h = (h, Err (LeCode Forbidden)).
Proof.
  intros Q. unfold local_pair, issue_pair_ticket, ensure_open. rewrite (qu_blocked _ _ Q).
  destruct h as [s sd rc]. cbn. by rewrite (proj1 (state_eta s)).
Qed.
Lemma quiet_dispatch l cmd env h :
  cmd <> ResumeRemote -> quiet l (ho_state h) -> quiet l (ho_state (local_dispatch cmd env h).1).
Proof.
  intros Hne Q. destruct cmd as [| | | |kind handle control| | | | |]; cbn [local_dispatch]; try done.
  - by rewrite (quiet_pair l).
  - by rewrite (quiet_pair l).
  - destruct (negb _); [done|]. by rewrite (quiet_pair l).
  - destruct (media_approve_active kind handle control (le_sources env) (le_id env) (le_now env)
      (st_media (ho_state h))) as [Ha Hc].
    destruct (media_approve _ _ _ _ _ _ _) as [m r]. cbn [fst] in *.
    apply quiet_media; [done|]. rewrite Ha, Hc. apply Q.
  - apply quiet_media; [done|]. intros a. unfold media_clear_sources.
    apply (cancel_active_all (set_sources ∅ (st_media (ho_state h)))).
  - by apply quiet_block.
Qed.
Lemma quiet_finish l id s :
  quiet l s -> quiet l (set_media (media_finish id (st_media s)) s).
Proof.
  intros Q. apply quiet_media; [done|]. unfold media_finish. case_match; [done|apply Q].
Qed.
Lemma quiet_step l h h' : quiet l (ho_state h) -> host_step l h h' -> quiet l (ho_state h').
Proof.
  intros Q Hs. destruct Hs as [r c now later h Hr|origin header channel now h
    |verified received env h Hc|act persisted h Hact|env connection c h Hc|connection h|e env rq h
    |id x ok h Hx|id h|h|h]; cbn [set_app_state ho_state remote_enter remote_leave].
  - destruct (blocked_http r c now later (ho_state h) (qu_blocked _ _ Q) Hr) as [e ->]. done.
  - unfold ws_consume. destruct (negb _); [done|]. destruct (ws_ticket header); [|done].
    unfold consume_ws, ensure_open. rewrite (qu_blocked _ _ Q). cbn [fst].
    by rewrite (proj1 (state_eta _)).
  - unfold local_connection. destruct (negb verified); [done|].
    destruct (local_read _ _) as [data|] eqn:E; [|done].
    destruct (parse_command data) as [cmd|] eqn:Ep; [|done].
    pose proof (quiet_dispatch l cmd env h) as Hd. destruct (local_dispatch cmd env h).
    apply Hd; [|done]. intros ->. by eapply Hc.
  - destruct act; cbn; [done|by apply quiet_block|done| |done].
    apply quiet_media; [done|]. apply cancel_active_all.
  - unfold control_round. rewrite bool_decide_eq_true_2 by (by apply (qu_handed _ _ Q)).
    done.
  - apply quiet_manager; [done|]. intros id x. cbn. rewrite lookup_fmap, fmap_Some.
    intros (y & Hy & ->). cbn. unfold lease_revoke_connection.
    pose proof (qu_leases _ _ Q id y Hy) as Ho. by rewrite Ho.
  - apply quiet_previews; [done|]. destruct (qu_previews _ _ Q) as [Hl Hb].
    pose proof (blocked_gateway e env rq (st_auth (ho_state h)) (st_previews (ho_state h)) Hl Hb) as Hg.
    destruct (gateway _ _ _ _ _) as [m r]. by destruct Hg as (? & ? & _).
  - apply quiet_manager; [done|]. intros id' x'. cbn.
    intros [[<- <-]|[_ Hx']]%lookup_insert_Some; [done|]. by apply (qu_leases _ _ Q id').
  - by apply quiet_finish.
  - done.
  - done.
Qed.

(** ** A block holds until the local user resumes *)
(** The three ways to block: the pipe, the tray, and the HTTP call of a device with
    the permission. *)
Definition blocks (h h1 : Host) : Prop :=
  (exists env, h1 = (local_dispatch BlockRemote env h).1) \/
  (exists persisted, h1 = tray_action TrayBlock persisted h) \/
  (exists r now p, http_principal key r AdminSettings now (ho_state h) = Ok p /\
     h1 = set_app_state (handle_block_remote key r now (ho_state h)).1 h).
Lemma blocks_state h h1 : blocks h h1 -> ho_state h1 = block_remote_state (ho_state h).
Proof.
  intros [[env ->]|[[b ->]|(r & now & p & Hp & ->)]]; try done.
  unfold handle_block_remote, with_scope. by rewrite Hp.
Qed.


(** The end of a run leaves nothing running. *)
Lemma agent_finish_complete h :
  (forall id x, sm_sessions (st_sessions (ho_state (agent_finish h))) !! id = Some x ->
     s_running x = false /\ s_master x = false) /\
  pm_entries (st_previews (ho_state (agent_finish h))) = ∅ /\
  (forall id, is_Some (pm_entries (st_previews (ho_state h)) !! id) ->
     id ∈ pm_stopped (st_previews (ho_state (agent_finish h)))) /\
  (forall a, in_active (mm_inner (st_media (ho_state (agent_finish h)))) = Some a ->
     ac_cancel a ∈ mm_cancelled (st_media (ho_state (agent_finish h)))).
Proof.
  split; [|split; [done|split]].
  - intros id x. cbn. rewrite lookup_fmap, fmap_Some. intros (y & _ & ->).
    unfold session_close. by destruct (s_running y) eqn:E.
  - intros id Hid. cbn. apply elem_of_union_l, elem_of_dom. exact Hid.
  - apply cancel_active_all.
Qed.

(** ** The tray on the running agent *)
Lemma tray_snapshot_state h :
  (ts_state (tray_snapshot h) = TrayBlocked <-> a_blocked (st_auth (ho_state h)) = true) /\
  (ts_state (tray_snapshot h) = GuiControlled -> mm_gui_controlled (st_media (ho_state h)) = true).
Proof.
  unfold tray_snapshot. cbn. destruct (a_blocked _); [done|]. destruct (mm_gui_controlled _); [done|].
  by destruct (0 <? ho_remote h).
Qed.
(** The tray and the agent together.  Whatever happens on the agent before the message,
    while the menu or the confirmation is open and afterwards, one message makes the
    tray do at most one thing: block only an agent that was open when the menu was
    opened, resume only one that was blocked, stop a GUI control only if there was one,
    and shut down only after a confirmation.  Unless it resumes, the agent has only
    taken steps that it may take by itself: a block holds through every use of the tray
    but Resume. *)
Theorem tray_acts_on_host l (t : Turn (H := Host) (Io := bool * DesktopIo)) h :
  picks_enabled t -> own_life (rtc (host_step l)) t ->
  let before := ho_state (tn_before t h) in
  let '(h', es, r) := tray_turn t h in
  (actions es = [] \/ exists a, actions es = [a] /\
     (a = TrayBlock -> a_blocked (st_auth before) = false) /\
     (a = TrayResume -> a_blocked (st_auth before) = true) /\
     (a = StopGui -> mm_gui_controlled (st_media before) = true) /\
     (a = ShutdownAgent -> tn_answer t = IDYES)) /\
  (TrayResume ∉ actions es -> rtc (host_step l) h h') /\
  (r = Some (Ok tt) -> tn_code t = 0 \/ actions es = [ShutdownAgent]).
Proof.
  intros Hp Hl. cbn zeta. pose proof (tray_turn_spec (rtc (host_step l)) t h Hp Hl) as Hs.
  destruct (tray_turn t h) as [[h' es] r]. destruct Hs as (Ha & Hr & HR). split; [|split; [|done]].
  - destruct Ha as [Ha|(a & Ha & (item & Hin & Hact & Hen) & Hyes)]; [by left|right].
    exists a. split; [done|]. cbn [th_snapshot agent_tray] in Hin.
    destruct (tray_snapshot_state (tn_before t h)) as [Hb Hg]. unfold menu in Hin.
    repeat (apply elem_of_cons in Hin as [->|Hin]); [..|by apply not_elem_of_nil in Hin];
      cbn in Hact, Hen; subst a; (repeat split; try done; intros _).
    + apply negb_true_iff, bool_decide_eq_false_1 in Hen. apply not_true_iff_false. by rewrite <- Hb.
    + apply bool_decide_eq_true_1 in Hen. by apply Hb.
    + apply bool_decide_eq_true_1 in Hen. by apply Hg.
  - intros Hno. apply HR. intros a h1 Hin. cbn [th_action agent_tray handle_tray fst].
    apply rtc_once, hs_tray. by intros ->.
Qed.
End Admin.

(** ** A concrete block, from the tray *)
Definition demo_host : Host (Model := Z * Z) :=
  {| ho_state := set_auth sample_auth demo_state; ho_shutdown := false; ho_remote := 1 |}.
Definition demo_blocked : Host (Model := Z * Z) := tray_action TrayBlock true demo_host.
Example demo_tray_snapshot :
  ts_state (tray_snapshot demo_host) = RemoteConnected /\
  ts_state (tray_snapshot demo_blocked) = TrayBlocked /\
  ts_state (tray_snapshot (tray_action TrayResume true demo_blocked)) = RemoteConnected.
Proof. by vm_compute. Qed.
Example probe_runs :
  map probe_exit [probe_status true (Ok ()) true true; probe_status true (Err (Some 2)) true true;
                  probe_status true (Err (Some 5)) true true; probe_status true (Ok ()) false true]
  = [0; 3; 4; 4].
Proof. done. Qed.

(** A click on the second item of the open agent's menu. *)
Definition demo_desktop_io : DesktopIo :=
  {| di_exe := Ok ["C:"; "rc-agent.exe"]%string; di_is_file := fun _ => true; di_spawned := Ok tt |}.
Definition demo_click : Turn (H := Host (Model := Z * Z)) (Io := bool * DesktopIo) :=
  {| tn_code := 1; tn_own := true; tn_message := TRAY_DISPATCH; tn_wparam := 1;
     tn_lparam := WM_RBUTTONUP; tn_tip := true; tn_popup := true; tn_append := fun _ => true;
     tn_cursor := Some (10, 20);
     tn_track := fun items => if is_some_and mi_enabled (items !! 1%nat) then 2 else 0;
     tn_answer := 7; tn_io := (true, demo_desktop_io); tn_tip_after := true;
     tn_before := id; tn_menu := id; tn_dialog := id; tn_after := id |}.
Lemma tray_acts_on_host_witness :
  let '(h', es, r) := tray_turn demo_click demo_host in
  h' = demo_blocked /\ actions es = [TrayBlock] /\
  a_blocked (st_auth (ho_state demo_host)) = false.
Proof.
  pose proof (tray_acts_on_host sample_key (fun _ => None) size_new (fun _ => true)
    (fun m _ _ => m) (fun _ => None) sample_with_port (fun _ => None) (fun _ => None) sample_b64
    sample_b64 (fun _ => true) (fun _ => true) sample_sig "aud" [sample_principal]
    demo_click demo_host) as H.
  assert (picks_enabled demo_click) as Hp.
  { intros s. cbn [tn_track demo_click menu lookup list_lookup is_some_and mi_enabled].
    destruct (negb _) eqn:E; [right|by left]. exists 1%nat. eexists. by repeat split. }
  specialize (H Hp ltac:(intros h; repeat split; constructor)).
  assert (actions (tray_turn demo_click demo_host).1.2 = [TrayBlock]) as Ha by (by vm_compute).
  assert ((tray_turn demo_click demo_host).1.1 = demo_blocked) as Hh by reflexivity.
  destruct (tray_turn demo_click demo_host) as [[h' es] r]. cbn [fst snd] in *.
  destruct H as (Hact & _). split; [done|]. split; [done|]. rewrite Ha in Hact.
  destruct Hact as [Hact|(a & Hact & Hb & _)]; [done|]. injection Hact as <-. by apply Hb.
Defined.
