(* ===== verification/Agent.v ===== *)
(** * Agent processes on one data directory ([crates/rc-agent/src/main.rs])
    The statements of [main] for [run], from the configuration to the end of the
    process, with the lock file between them and the store; any number of processes on
    one directory, interleaved at any point; and that what they do to the store is what
    one agent with restarts does ([Restart]). *)
From Stdlib Require Import String.
From S2P Require Import Prelude Errors Protocol Text Auth Store Restart Session MediaStream.
From S2P Require Import Config Preview Http Admin.
#[global] Open Scope Z_scope.

(** ** One process *)
(** The statement [main] is at; [Leaving]: it has returned [r], and the runtime with
    its [tasks] is being torn down. *)
Inductive Phase : Type :=
| LoadConfig | RestrictDir | OpenLock | TakeLock | StartTrace | OpenStore | LoadAuth | BindPort
| StartTray | Serving | CloseSessions | FinishTrace | DropLock
| Leaving (tasks : bool) (r : sres ()).
(** From [TakeLock] until it leaves, a process holds the lock. *)
Definition holds_lock (ph : Phase) : bool :=
  match ph with
  | LoadConfig | RestrictDir | OpenLock | TakeLock | Leaving _ _ => false
  | _ => true
  end.
(** The tray, the pipe and the HTTP server can reach the state. *)
Definition has_tasks (ph : Phase) : bool :=
  match ph with
  | Serving | CloseSessions | FinishTrace | DropLock => true
  | Leaving tasks _ => tasks
  | _ => false
  end.
Record Proc := { pc_phase : Phase; pc_auth : option Auth }.

(** The directory's lock and store, and the processes. *)
Record Machine := { ma_lock : option Z; ma_procs : gmap Z Proc; ma_db : Store }.
Definition machine_new : Machine := {| ma_lock := None; ma_procs := ∅; ma_db := store_empty |}.
Definition set_proc (pid : Z) (p : Proc) (m : Machine) : Machine :=
  {| ma_lock := ma_lock m; ma_procs := <[pid := p]> (ma_procs m); ma_db := ma_db m |}.
Definition set_db (db : Store) (m : Machine) : Machine :=
  {| ma_lock := ma_lock m; ma_procs := ma_procs m; ma_db := db |}.
Definition take_lock (pid : Z) (m : Machine) : Machine :=
  {| ma_lock := Some pid; ma_procs := ma_procs m; ma_db := ma_db m |}.
Definition release_lock (pid : Z) (m : Machine) : Machine :=
  {| ma_lock := if bool_decide (ma_lock m = Some pid) then None else ma_lock m;
     ma_procs := ma_procs m; ma_db := ma_db m |}.

Section Agent.
Context `{Codec}.

(** The next statement of process [me], which succeeds if [ok]: an error returns from
    [main], which closes the lock file. *)
Definition main_step (me : Z) (ok : bool) (now : Z) (m : Machine) : Machine :=
  match ma_procs m !! me with
  | None => m
  | Some p =>
    let go ph := set_proc me {| pc_phase := ph; pc_auth := pc_auth p |} in
    let leave r m := release_lock me (go (Leaving (has_tasks (pc_phase p)) r) m) in
    let next ph e := if ok then go ph m else leave (Err e) m in
    match pc_phase p with
    | LoadConfig => next RestrictDir "load"%string
    | RestrictDir => next OpenLock "restrict_data_dir"%string
    | OpenLock => next TakeLock "open"%string
    | TakeLock =>
      if ok && negb (option_is_some (ma_lock m)) then take_lock me (go StartTrace m)
      else leave (Err "An Agent already owns this user data directory"%string) m
    | StartTrace => next OpenStore "init_from_env"%string
    | OpenStore =>
      match store_open ok (ma_db m) with
      | (db, Ok _) => go LoadAuth (set_db db m)
      | (db, Err _) => leave (Err "Store::open"%string) (set_db db m)
      end
    | LoadAuth =>
      match store_devices ok (ma_db m), remote_blocked ok (ma_db m) with
      | Ok stored, Ok blocked =>
        set_proc me {| pc_phase := BindPort; pc_auth := Some (auth_new stored blocked now) |} m
      | _, _ => leave (Err "Auth::new"%string) m
      end
    | BindPort => next StartTray "bind"%string
    | StartTray => next Serving "start"%string
    | Serving => next CloseSessions "serve"%string
    | CloseSessions => next FinishTrace "spawn_blocking"%string
    | FinishTrace => next DropLock "finish"%string
    | DropLock => leave (Ok tt) m
    | Leaving _ _ => m
    end
  end.

Context (key : string -> Digest) (b64url_decode : string -> option bytes)
  (sec1_key_ok : bytes -> bool) (signature_ok : bytes -> bool)
  (ecdsa_verify : bytes -> string -> bytes -> bool).
Abbreviation agent_step := (agent_step key b64url_decode sec1_key_ok signature_ok ecdsa_verify).
Abbreviation agent_task := (agent_task key b64url_decode sec1_key_ok signature_ok ecdsa_verify).

(** Processes start, run their next statement, run a task, or end.  [late]: tasks may
    still run when the process is leaving. *)
Inductive machine_step (late reliable : bool) : Machine -> Machine -> Prop :=
| ms_spawn pid m :
    ma_procs m !! pid = None ->
    machine_step late reliable m (set_proc pid {| pc_phase := LoadConfig; pc_auth := None |} m)
| ms_main pid ok now m : machine_step late reliable m (main_step pid ok now m)
| ms_task pid p a a' db m :
    ma_procs m !! pid = Some p -> has_tasks (pc_phase p) = true ->
    (late = true \/ holds_lock (pc_phase p) = true) ->
    pc_auth p = Some a -> agent_task reliable (a, ma_db m) (a', db) ->
    machine_step late reliable m
      (set_db db (set_proc pid {| pc_phase := pc_phase p; pc_auth := Some a' |} m))
| ms_end pid m :
    machine_step late reliable m
      (release_lock pid {| ma_lock := ma_lock m; ma_procs := delete pid (ma_procs m); ma_db := ma_db m |}).

(** ** The lock *)
Definition early (ph : Phase) : bool :=
  match ph with LoadConfig | RestrictDir | OpenLock | TakeLock => true | _ => false end.
(** What holds of process [pid] while the abstract agent is [a]. *)
Definition proc_ok (a : Auth) (m : Machine) (pid : Z) (p : Proc) : Prop :=
  (early (pc_phase p) = true -> pc_auth p = None) /\
  (holds_lock (pc_phase p) = true ->
   ma_lock m = Some pid /\
   (pc_phase p = LoadAuth -> store_open true (ma_db m) = (ma_db m, Ok tt)) /\
   (forall b, pc_auth p = Some b -> b = a)).
Definition machine_inv (a : Auth) (m : Machine) : Prop :=
  forall pid p, ma_procs m !! pid = Some p -> proc_ok a m pid p.

(** One process changes; the agent, the store and another's lock only if it held the lock. *)
Lemma inv_change pid a a' m m' :
  machine_inv a m -> (forall q, q <> pid -> ma_procs m' !! q = ma_procs m !! q) ->
  (forall p, ma_procs m' !! pid = Some p -> proc_ok a' m' pid p) ->
  (a' = a /\ ma_db m' = ma_db m /\ (forall q, q <> pid -> ma_lock m = Some q -> ma_lock m' = Some q)) \/
  ma_lock m = Some pid ->
  machine_inv a' m'.
Proof.
  intros I Ho Hp Hc q p Hq. destruct (decide (q = pid)) as [->|Hne]; [by apply Hp|].
  rewrite Ho in Hq by done. destruct (I q p Hq) as [He Hh]. split; [done|].
  intros (Hl & Hs & Ha)%Hh. destruct Hc as [(-> & Hdb & Hlock)|Hc]; [|congruence].
  rewrite Hdb. split; [by apply Hlock|done].
Qed.
Lemma release_others pid m q : q <> pid -> ma_lock m = Some q -> ma_lock (release_lock pid m) = Some q.
Proof. intros Hne Hl. cbn. case_bool_decide; congruence. Qed.
Lemma store_open_idem io db : let db' := (store_open io db).1 in
  (store_open io db).2 = Ok tt -> store_open true db' = (db', Ok tt).
Proof.
  destruct io; [|done]. cbn. intros _. unfold with_sessions. cbn. do 2 f_equal.
  apply map_eq. intros k. rewrite !lookup_fmap. destruct (db_sessions db !! k) as [r|]; [|done]. cbn.
  f_equal. unfold lose_session at 1. destruct (lifecycle_live (sr_lifecycle (lose_session r))) eqn:E; [|done].
  unfold lose_session in E. destruct (lifecycle_live (sr_lifecycle r)) eqn:E'; [done|congruence].
Qed.

(** A process that changes only itself: it goes to a statement before the lock, leaves,
    or goes on with what it has. *)
Lemma inv_go a m pid p ph :
  machine_inv a m -> ma_procs m !! pid = Some p ->
  (early ph = true -> early (pc_phase p) = true) ->
  (holds_lock ph = true -> holds_lock (pc_phase p) = true /\ ph <> LoadAuth) ->
  machine_inv a (set_proc pid {| pc_phase := ph; pc_auth := pc_auth p |} m).
Proof.
  intros I Hp He Hh. eapply (inv_change pid); [exact I| | |].
  - intros q Hq. cbn. by rewrite lookup_insert_ne.
  - intros p'. cbn. rewrite lookup_insert_eq. intros [= <-]. destruct (I pid p Hp) as [He' Hh'].
    split; cbn; [intros ?; by apply He', He|]. intros [Hold Hne]%Hh.
    destruct (Hh' Hold) as (Hl & _ & Ha). by repeat split.
  - left. by repeat split.
Qed.
Lemma inv_leave a m pid p tasks r :
  machine_inv a m -> ma_procs m !! pid = Some p ->
  machine_inv a (release_lock pid (set_proc pid {| pc_phase := Leaving tasks r; pc_auth := pc_auth p |} m)).
Proof.
  intros I Hp. eapply (inv_change pid); [exact I| | |].
  - intros q Hq. cbn. by rewrite lookup_insert_ne.
  - intros p'. cbn. rewrite lookup_insert_eq. by intros [= <-].
  - left. split; [done|]. split; [done|]. intros q. apply (release_others pid (set_proc _ _ m)).
Qed.
Lemma inv_open a m pid p ok :
  machine_inv a m -> ma_procs m !! pid = Some p -> pc_phase p = OpenStore ->
  (store_open ok (ma_db m)).2 = Ok tt ->
  machine_inv a (set_proc pid {| pc_phase := LoadAuth; pc_auth := pc_auth p |}
                   (set_db (store_open ok (ma_db m)).1 m)).
Proof.
  intros I Hp Hph Hok. destruct (I pid p Hp) as [_ Hh]. rewrite Hph in Hh.
  destruct (Hh eq_refl) as (Hl & _ & Ha). eapply (inv_change pid); [exact I| | |by right].
  - intros q Hq. cbn. by rewrite lookup_insert_ne.
  - intros p'. cbn. rewrite lookup_insert_eq. intros [= <-]. split; [done|]. intros _. cbn.
    split; [done|]. split; [|done]. intros _. by apply store_open_idem.
Qed.
Lemma inv_load a m pid p ok now stored blocked :
  machine_inv a m -> ma_procs m !! pid = Some p -> pc_phase p = LoadAuth ->
  store_devices ok (ma_db m) = Ok stored -> remote_blocked ok (ma_db m) = Ok blocked ->
  let a' := auth_new stored blocked now in
  agent_start true now (ma_db m) = (ma_db m, Ok a') /\
  machine_inv a' (set_proc pid {| pc_phase := BindPort; pc_auth := Some a' |} m).
Proof.
  intros I Hp Hph Hs Hb a'. destruct (I pid p Hp) as [_ Hh]. rewrite Hph in Hh.
  destruct (Hh eq_refl) as (Hl & Ho & _). destruct ok; [|done]. split.
  - unfold agent_start. by rewrite (Ho eq_refl), Hs, Hb.
  - eapply (inv_change pid); [exact I| | |by right].
    + intros q Hq. cbn. by rewrite lookup_insert_ne.
    + intros p'. cbn. rewrite lookup_insert_eq. intros [= <-]. split; [done|]. intros _. cbn.
      split; [done|]. split; [done|]. by intros b [= <-].
Qed.
Lemma main_step_refines reliable a pid ok now m :
  machine_inv a m -> let m' := main_step pid ok now m in
  exists a', steps (agent_step reliable) (a, ma_db m) (a', ma_db m') /\ machine_inv a' m'.
Proof.
  intros I m'. subst m'. unfold main_step.
  destruct (ma_procs m !! pid) as [p|] eqn:Hp; [|exists a; split; [constructor|done]].
  assert (forall ph e, (early ph = true -> early (pc_phase p) = true) ->
    (holds_lock ph = true -> holds_lock (pc_phase p) = true /\ ph <> LoadAuth) ->
    let m' := if ok then set_proc pid {| pc_phase := ph; pc_auth := pc_auth p |} m
      else release_lock pid (set_proc pid
             {| pc_phase := Leaving (has_tasks (pc_phase p)) (Err e); pc_auth := pc_auth p |} m) in
    exists a', steps (agent_step reliable) (a, ma_db m) (a', ma_db m') /\ machine_inv a' m') as Hnext.
  { intros ph e He Hh. exists a. destruct ok; (split; [constructor|]); [by apply inv_go|by apply inv_leave]. }
  destruct (pc_phase p) eqn:Hph; try (by apply Hnext).
  - destruct (ok && negb (option_is_some (ma_lock m))) eqn:E; exists a; (split; [constructor|]);
      [|by apply inv_leave].
    apply andb_true_iff in E as [_ E]. destruct (ma_lock m) eqn:Hl; [done|].
    destruct (I pid p Hp) as [He _]. rewrite Hph in He.
    eapply (inv_change pid); [exact I| | |left; repeat split; intros q Hq; congruence].
    + intros q Hq. cbn. by rewrite lookup_insert_ne.
    + intros p'. cbn. rewrite lookup_insert_eq. intros [= <-]. split; [done|]. intros _. cbn.
      rewrite (He eq_refl). by repeat split.
  - destruct (store_open ok (ma_db m)) as [db [[]|e]] eqn:E.
    + exists a. pose proof (inv_open a m pid p ok I Hp Hph) as Hi. rewrite E in Hi. split; [|by apply Hi].
      cbn. apply steps_one, as_task, as_store; destruct ok; cbn in E; simplify_eq; try done.
      exact (st_open true (ma_db m)).
    + destruct ok; cbn in E; simplify_eq. exists a. split; [constructor|].
      by apply (inv_leave a (set_db (ma_db m) m)); [destruct m|].
  - destruct (store_devices ok (ma_db m)) as [stored|] eqn:Es;
      [destruct (remote_blocked ok (ma_db m)) as [blocked|] eqn:Eb|].
    + destruct (inv_load a m pid p ok now stored blocked I Hp Hph Es Eb) as [Hstart Hi].
      exists (auth_new stored blocked now). split; [|done]. eapply steps_one, as_restart, Hstart.
    + exists a. split; [constructor|by apply inv_leave].
    + exists a. split; [constructor|by apply inv_leave].
  - exists a. split; [constructor|by apply inv_leave].
  - exists a. split; [constructor|done].
Qed.
Lemma task_refines reliable a m pid p b b' db :
  machine_inv a m -> ma_procs m !! pid = Some p -> holds_lock (pc_phase p) = true ->
  has_tasks (pc_phase p) = true -> pc_auth p = Some b -> agent_task reliable (b, ma_db m) (b', db) ->
  machine_inv b' (set_db db (set_proc pid {| pc_phase := pc_phase p; pc_auth := Some b' |} m)).
Proof.
  intros I Hp Hl Ht Hb Hs. destruct (I pid p Hp) as [_ Hh]. destruct (Hh Hl) as (Hlock & _ & _).
  eapply (inv_change pid); [exact I| | |by right].
  - intros q Hq. cbn. by rewrite lookup_insert_ne.
  - intros p'. cbn. rewrite lookup_insert_eq. intros [= <-]. cbn. split.
    + intros He. by destruct (pc_phase p).
    + intros _. split; [done|]. split; [|by intros ? [= <-]]. intros E. cbn in E. by rewrite E in Ht.
Qed.
Lemma machine_step_refines reliable a m m' :
  machine_inv a m -> machine_step false reliable m m' ->
  exists a', steps (agent_step reliable) (a, ma_db m) (a', ma_db m') /\ machine_inv a' m'.
Proof.
  intros I Hs. destruct Hs as [pid m Hn|pid ok now m|pid p b b' db m Hp Ht Hl Hb Hs|pid m].
  - exists a. split; [constructor|]. eapply (inv_change pid); [exact I| | |by left].
    + intros q Hq. cbn. by rewrite lookup_insert_ne.
    + intros p. cbn. rewrite lookup_insert_eq. by intros [= <-].
  - by apply main_step_refines.
  - destruct Hl as [|Hl]; [done|]. exists b'.
    assert (b = a) as -> by (by apply (I pid p Hp)).
    split; [by apply steps_one, as_task|by eapply task_refines].
  - exists a. split; [constructor|]. eapply (inv_change pid); [exact I| | |].
    + intros q Hq. cbn. by rewrite lookup_delete_ne.
    + intros p. cbn. by rewrite lookup_delete_eq.
    + left. split; [done|]. split; [done|]. intros q Hq Hl. cbn. case_bool_decide; congruence.
Qed.

Lemma machine_refines reliable now m :
  steps (machine_step false reliable) machine_new m ->
  exists a, steps (agent_step reliable) (auth_new [] false now, store_empty) (a, ma_db m) /\
    machine_inv a m.
Proof.
  intros Hs. eapply (steps_invariant (machine_step false reliable) (fun m => exists a,
    steps (agent_step reliable) (auth_new [] false now, store_empty) (a, ma_db m) /\ machine_inv a m));
    [|exact Hs|].
  - intros x y (a & Ha & I) Hxy. destruct (machine_step_refines reliable a x y I Hxy) as (a' & Hs' & I').
    exists a'. split; [by eapply steps_app|done].
  - exists (auth_new [] false now). split; [constructor|]. intros pid p. cbn. by rewrite lookup_empty.
Qed.



(** The next [n] statements of [main], all succeeding. *)
Definition run (pid : Z) (n : nat) (m : Machine) : Machine := Nat.iter n (main_step pid true 0) m.
Definition spawn (pid : Z) (m : Machine) : Machine :=
  set_proc pid {| pc_phase := LoadConfig; pc_auth := None |} m.
Lemma run_steps late reliable pid n m : steps (machine_step late reliable) m (run pid n m).
Proof.
  induction n as [|n IH]; [constructor|]. eapply steps_app; [exact IH|]. by apply steps_one, ms_main.
Qed.
Lemma spawn_steps late reliable pid n m :
  ma_procs m !! pid = None -> steps (machine_step late reliable) m (run pid n (spawn pid m)).
Proof. intros Hn. eapply steps_trans; [by apply ms_spawn|apply run_steps]. Qed.
(** The tasks of [pid] take the agent and its store to [w]. *)
Definition after_task (pid : Z) (ph : Phase) (w : Agent) (m : Machine) : Machine :=
  set_db w.2 (set_proc pid {| pc_phase := ph; pc_auth := Some w.1 |} m).
Lemma task_steps late reliable pid ph w a m :
  ma_procs m !! pid = Some {| pc_phase := ph; pc_auth := Some a |} -> has_tasks ph = true ->
  late = true \/ holds_lock ph = true -> agent_task reliable (a, ma_db m) w ->
  machine_step late reliable m (after_task pid ph w m).
Proof. intros Hp Ht Hl Hs. destruct w as [a' db]. by eapply (ms_task late reliable pid _ a a' db m Hp). Qed.
End Agent.

(** ** The state of a new process *)
Section State.
Context {Model : Type}.
(** The audience of the signatures that [auth] asks for. *)
Definition audience (c : Config) : string :=
  match cf_public_origin c with Some o => o | None => local_origin c end.
Definition agent_state (c : Config) (epoch : Uuid) (a : Auth) : AppState (Model := Model) :=
  {| st_config := c; st_auth := a;
     st_sessions := manager_new epoch (cf_max_sessions c) (cf_ring_bytes c);
     st_media := media_new (cf_media c); st_previews := preview_new |}.
Definition agent_host (c : Config) (epoch : Uuid) (a : Auth) : Host :=
  {| ho_state := agent_state c epoch a; ho_shutdown := false; ho_remote := 0 |}.
End State.

(** ** Two processes *)
Abbreviation demo_machine_step :=
  (machine_step sample_key sample_b64 (fun _ => true) (fun _ => true) sample_sig).
Definition demo_first : Machine := run 1 9 (spawn 1 machine_new).
Definition demo_both : Machine := run 2 4 (spawn 2 demo_first).
Lemma demo_first_steps late reliable : steps (demo_machine_step late reliable) machine_new demo_first.
Proof. by apply spawn_steps. Qed.
(** [main] closes the lock file before the runtime has stopped: a revocation that a
    leaving process acknowledges after the next one has started is unknown to that. *)
Definition demo_serving : Machine :=
  after_task 1 Serving demo_paired (after_task 1 Serving demo_ticketed demo_first).
Lemma demo_serving_steps late reliable : steps (demo_machine_step late reliable) machine_new demo_serving.
Proof.
  unfold demo_serving. eapply steps_app; [apply demo_first_steps|]. eapply steps_trans.
  { eapply (task_steps _ _ _ _ _ _ _ 1 Serving demo_ticketed demo_fresh.1 demo_first);
      [reflexivity|done|by right|].
    refine (as_tables _ _ _ _ _ _ _ demo_ticketed.1 [] [] store_empty
      (step_issue_pair _ _ _ _ _ Scope_owner 1 "ticket" demo_fresh.1 []) _).
    exact (proj1 (issue_pair_ticket_core sample_key Scope_owner 1 "ticket" demo_fresh.1)). }
  apply steps_one.
  eapply (task_steps _ _ _ _ _ _ _ 1 Serving demo_paired demo_ticketed.1 (after_task 1 _ demo_ticketed _));
    [reflexivity|done|by right|].
  exact (as_pair _ _ _ _ _ _ true "ticket" "key" "laptop" 2 5 demo_ticketed.1
    store_empty (fun _ => eq_refl) (conj (Z.lt_le_incl 0 5 eq_refl) eq_refl) eq_refl).
Qed.
(** The first process leaves and a second one starts. *)
Definition handed_over (m : Machine) : Machine := run 2 9 (spawn 2 (run 1 4 m)).
Lemma handed_over_steps late reliable m :
  ma_procs (run 1 4 m) !! 2 = None -> steps (demo_machine_step late reliable) m (handed_over m).
Proof.
  intros Hn. unfold handed_over. eapply steps_app; [apply (run_steps _ _ _ _ _ _ _ 1 4)|].
  apply (spawn_steps _ _ _ _ _ _ _ 2 9). exact Hn.
Qed.
Definition demo_next : Machine := handed_over demo_serving.
Lemma demo_next_steps : steps (demo_machine_step true true) machine_new demo_next.
Proof.
  eapply steps_app; [apply demo_serving_steps|]. by apply handed_over_steps.
Qed.
Definition demo_late : Agent * res () :=
  revoke_stored true 5 (demo_paired.1, ma_db demo_next).
Example late_task_is_lost :
  let m := after_task 1 (Leaving true (Ok tt)) demo_late.1 demo_next in
  steps (demo_machine_step true true) machine_new m /\ demo_late.2 = Ok tt /\
  match ma_procs m !! 2 with
  | Some {| pc_phase := Serving; pc_auth := Some a |} => is_ok (device_principal 5 30 a) = true
  | _ => False
  end.
Proof.
  split; [|by vm_compute]. eapply steps_app; [exact demo_next_steps|]. apply steps_one.
  apply (task_steps _ _ _ _ _ _ _ 1 (Leaving true (Ok tt)) demo_late.1 demo_paired.1 demo_next);
    [by vm_compute|done|by left|].
  exact (as_revoke _ _ _ _ _ true true 5 demo_paired.1 (ma_db demo_next) (fun _ => eq_refl)).
Qed.
