(* ===== verification/LocalIpc.v ===== *)
(** * The local pipe, end to end
    ([crates/rc-agent/src/local.rs], [apps/desktop/src-tauri/src/main.rs])
    The pipe's name and the mutual check of its ends ([Windows]), the server's loop
    around one connection ([Admin.local_connection]), the clients of the command line
    and of the desktop shell, and one call from end to end.  JSON is a parameter. *)
From Stdlib Require Import String.
From S2P Require Import Prelude Errors Protocol Text Auth Session Geometry MediaWire MediaStream.
From S2P Require Import Http Windows Admin.
#[global] Open Scope Z_scope.

Inductive LocalIpcError : Type := IpcMissing | IpcOther (message : string).

(** ** The clients *)
(** What a client observes of the pipe. *)
Record Channel := {
  ch_open : result (option Z * string) ();   (* raw_os_error and message *)
  ch_peer : option Z;                        (* GetNamedPipeServerProcessId *)
  ch_written : bool;
  ch_response : bytes;                       (* until the pipe ends *)
  ch_in_time : bool
}.
Definition read_reply (oversized : string) (l : bytes) : sres bytes :=
  if (length l <? 4)%nat then Err "read_u32"%string else
  let len := be_dec (take 4 l) in
  if REPLY_LIMIT <? len then Err oversized else
  if zlen (drop 4 l) <? len then Err "read_exact"%string else Ok (take (Z.to_nat len) (drop 4 l)).

Section Clients.
Context {V : Type} (sy : System) (sha256 : bytes -> bytes) (parse : bytes -> sres V).

(** [send_local]: what is written, and the answer. *)
Definition send_local (encoded : sres bytes) (ch : Channel) : bytes * result LocalIpcError V :=
  let other {A} (e : string) : result LocalIpcError A := Err (IpcOther e) in
  match pipe_name sy sha256 with
  | Err e => ([], other e)
  | Ok _ =>
    match ch_open ch with
    | Err (os, e) => ([], if bool_decide (os = Some 2) then Err IpcMissing else other e)
    | Ok _ =>
      match verify_pipe_peer sy (ch_peer ch) with
      | Err e => ([], other e)
      | Ok _ =>
        match encoded with
        | Err e => ([], other e)
        | Ok data =>
          if negb (ch_written ch) then ([], other "write"%string) else
          (local_frame data,
           if negb (ch_in_time ch) then other "Agent IPC timed out"%string else
           match read_reply "Oversized IPC response" (ch_response ch) with
           | Err e => other e
           | Ok l => match parse l with Err e => other e | Ok v => Ok v end
           end)
        end
      end
    end
  end.
(** [local::request], for the command line. *)
Definition local_request (encoded : sres bytes) (ch : Channel) : bytes * sres V :=
  match pipe_name sy sha256 with
  | Err e => ([], Err e)
  | Ok _ =>
    match ch_open ch with
    | Err (_, e) => ([], Err e)
    | Ok _ =>
      match verify_pipe_peer sy (ch_peer ch) with
      | Err e => ([], Err e)
      | Ok _ =>
        match encoded with
        | Err e => ([], Err e)
        | Ok data =>
          if negb (ch_written ch) then ([], Err "write"%string) else
          (local_frame data,
           match read_reply "Oversized local response" (ch_response ch) with
           | Err e => Err e
           | Ok l => parse l
           end)
        end
      end
    end
  end.
(** Nothing is written to a pipe that is not this user's agent's. *)
Lemma send_local_verified encoded ch :
  (send_local encoded ch).1 <> [] ->
  ch_open ch = Ok tt /\ verify_pipe_peer sy (ch_peer ch) = Ok tt /\
  exists data, encoded = Ok data /\ (send_local encoded ch).1 = local_frame data.
Proof.
  unfold send_local. destruct (pipe_name sy sha256); [|done]. destruct (ch_open ch) as [[]|[os e]]; [|done].
  destruct (verify_pipe_peer sy (ch_peer ch)) as [[]|]; [|done]. destruct encoded as [data|]; [|done].
  destruct (negb (ch_written ch)); [done|]. intros _. do 2 (split; [done|]). by exists data.
Qed.
End Clients.

(** ** The server *)
Section Server.
Context {Model : Type} (key : string -> Digest) (parse_command : bytes -> option LocalCommand).
Context (encode_reply : LocalReply -> option bytes) (sy : System).

(** A connection: who is at the other end, what was received within the three
    seconds, whether the next instance could be created and the answer written. *)
Record Connection := {
  cn_connected : bool;
  cn_peer : option Z;
  cn_received : bytes;
  cn_next : bool;
  cn_written : bool;
  cn_env : LocalEnv
}.
Definition encode_answer (written : bool) (r : option (result LocalError LocalReply)) : bytes :=
  match r with
  | Some (Ok reply) =>
    match encode_reply reply with
    | Some l => if written then local_frame l else []
    | None => []
    end
  | _ => []
  end.
Inductive IpcEvent : Type := IpcShutdown | IpcConnect (c : Connection).
(** One turn of the loop: the host, the answer, and how the loop ends. *)
Definition ipc_turn (e : IpcEvent) (h : Host (Model := Model)) : Host * bytes * option (sres ()) :=
  match e with
  | IpcShutdown => (h, [], if ho_shutdown h then Some (Ok tt) else None)
  | IpcConnect c =>
    if negb (cn_connected c) then (h, [], Some (Err "connect"%string)) else
    if negb (cn_next c) then (h, [], Some (Err "create_with_security_attributes_raw"%string)) else
    let verified := is_ok (verify_pipe_peer sy (cn_peer c)) in
    let '(h, r) := local_connection key parse_command verified (cn_received c) (cn_env c) h in
    (h, encode_answer (cn_written c) r, None)
  end.
(** [serve]: the pipe's first instance, then connections one after the other. *)
Fixpoint ipc_loop (es : list IpcEvent) (h : Host (Model := Model))
  : Host * list bytes * option (sres ()) :=
  match es with
  | [] => (h, [], None)
  | e :: es =>
    let '(h, l, r) := ipc_turn e h in
    match r with
    | Some r => (h, [l], Some r)
    | None => let '(h, ls, r) := ipc_loop es h in (h, l :: ls, r)
    end
  end.
Definition ipc_serve (sha256 : bytes -> bytes) (first : bool) (es : list IpcEvent)
    (h : Host (Model := Model)) : Host * list bytes * option (sres ()) :=
  match pipe_name sy sha256 with
  | Err e => (h, [], Some (Err e))
  | Ok _ =>
    if negb first then (h, [], Some (Err "create_with_security_attributes_raw"%string))
    else ipc_loop es h
  end.

(** A command that was carried out: by whom and what. *)
Definition carried_out (c : Connection) (cmd : LocalCommand) : Prop :=
  verify_pipe_peer sy (cn_peer c) = Ok tt /\
  exists data, local_read REQUEST_LIMIT (cn_received c) = Some data /\ parse_command data = Some cmd.
Lemma ipc_turn_spec e h :
  let '(h', l, r) := ipc_turn e h in
  (h' = h /\ l = []) \/
  exists c cmd, e = IpcConnect c /\ carried_out c cmd /\
    h' = (local_dispatch key cmd (cn_env c) h).1 /\
    l = encode_answer (cn_written c) (Some (local_dispatch key cmd (cn_env c) h).2).
Proof.
  destruct e as [|c]; cbn [ipc_turn]; [by left|].
  destruct (negb (cn_connected c)); [by left|]. destruct (negb (cn_next c)); [by left|].
  unfold local_connection. destruct (verify_pipe_peer sy (cn_peer c)) as [[]|] eqn:Ev; cbn [is_ok negb];
    [|by left].
  destruct (local_read REQUEST_LIMIT (cn_received c)) as [data|] eqn:Er; [|by left].
  destruct (parse_command data) as [cmd|] eqn:Ep; [|by left].
  destruct (local_dispatch key cmd (cn_env c) h) as [h' r] eqn:Ed. right. exists c, cmd.
  split; [done|]. rewrite Ed. split; [|done]. split; [done|]. by exists data.
Qed.
End Server.

(** ** What no request but a shutdown changes *)
Section Keeps.
Context {Model : Type} (key : string -> Digest).
(** The same devices, the same sessions running, and no shutdown requested. *)
Definition same_agent (h h' : Host (Model := Model)) : Prop :=
  ho_shutdown h' = ho_shutdown h /\ ho_remote h' = ho_remote h /\
  (forall id, s_running <$> sm_sessions (st_sessions (ho_state h')) !! id =
              s_running <$> sm_sessions (st_sessions (ho_state h)) !! id) /\
  forall c, ds_device <$> devices (st_auth (ho_state h')) !! c =
            ds_device <$> devices (st_auth (ho_state h)) !! c.
Lemma local_pair_keeps scopes env h : same_agent h (local_pair key scopes env h).1.
Proof.
  unfold local_pair. destruct (issue_pair_ticket _ _ _ _ _) as [a r] eqn:E. cbn. repeat split; try done.
  intros c. pose proof (proj1 (issue_pair_ticket_core key scopes (le_now env) (le_token env)
    (st_auth (ho_state h)))) as H. rewrite E in H. injection H as _ H _ _. cbn in H |- *. by rewrite H.
Qed.
Lemma local_dispatch_keeps cmd env h :
  cmd <> Shutdown -> same_agent h (local_dispatch key cmd env h).1.
Proof.
  intros Hc. destruct cmd; try done; cbn [local_dispatch]; try apply local_pair_keeps.
  - destruct (negb _); [done|]. apply local_pair_keeps.
  - destruct (media_approve _ _ _ _ _ _ _) as [m r]. done.
  - repeat split; try done. intros id. cbn. rewrite lookup_fmap.
    by destruct (sm_sessions (st_sessions (ho_state h)) !! id).
  - repeat split; try done. intros c. cbn. unfold resume_local.
    destruct (le_persisted env); [|done]. cbn. rewrite map_lookup_imap.
    destruct (devices (st_auth (ho_state h)) !! c) as [d|]; [|done]. cbn. by case_match.
Qed.
End Keeps.

(** ** One call, from end to end *)
(** The same machine, seen by a process. *)
Definition as_process (sy : System) (pid : Z) : System :=
  {| sy_me := pid; sy_process := sy_process sy; sy_sid_text := sy_sid_text sy; sy_tcp := sy_tcp sy |}.
(** Two processes of one account in one session. *)
Definition same_user (sy : System) (a b : Z) : Prop :=
  exists sid s, token_sid sy a = Ok sid /\ token_sid sy b = Ok sid /\
    pr_session (sy_process sy a) = Some s /\ pr_session (sy_process sy b) = Some s.
Lemma token_sid_as sy me pid : token_sid (as_process sy me) pid = token_sid sy pid.
Proof. done. Qed.
Lemma verify_as sy me pid :
  verify_pipe_peer (as_process sy me) (Some pid) = Ok tt <-> same_user sy pid me.
Proof.
  rewrite verify_pipe_peer_exact. unfold same_user. split.
  - intros (p & sid & s & [= <-] & H1 & H2 & H3 & H4). by exists sid, s.
  - intros (sid & s & H1 & H2 & H3 & H4). by exists pid, sid, s.
Qed.
Lemma same_user_sym sy a b : same_user sy a b <-> same_user sy b a.
Proof. split; intros (sid & s & H1 & H2 & H3 & H4); by exists sid, s. Qed.
Lemma verify_err sy me pid : ~ same_user sy pid me -> is_ok (verify_pipe_peer (as_process sy me) (Some pid)) = false.
Proof.
  intros Hn. destruct (verify_pipe_peer _ _) as [[]|] eqn:E; [|done]. by apply verify_as in E.
Qed.

Section Call.
Context {Model : Type} (key : string -> Digest) (sha256 : bytes -> bytes).
Context (encode_command : LocalCommand -> bytes) (parse_command : bytes -> option LocalCommand).
Context (encode_reply : LocalReply -> bytes) (parse_reply : bytes -> sres LocalReply).

(** A client process calls an agent process: it opens the pipe of its own name, which
    is there if the agent's has the same one; each verifies the other; then the
    request and the answer cross. *)
Definition ipc_call (sy : System) (client agent : Z) (cmd : LocalCommand) (env : LocalEnv)
    (h : Host (Model := Model)) : Host * result LocalIpcError LocalReply :=
  let exists_ := match pipe_name (as_process sy client) sha256, pipe_name (as_process sy agent) sha256 with
                 | Ok a, Ok b => bool_decide (a = b)
                 | _, _ => false
                 end in
  let open := if exists_ then Ok tt else Err (Some 2, "file not found"%string) in
  let channel response := {| ch_open := open; ch_peer := Some agent; ch_written := true;
                             ch_response := response; ch_in_time := true |} in
  let request := (send_local (as_process sy client) sha256 parse_reply (Ok (encode_command cmd))
                    (channel [])).1 in
  let connection := {| cn_connected := true; cn_peer := Some client; cn_received := request;
                       cn_next := true; cn_written := true; cn_env := env |} in
  let '(h, answer, _) :=
    if bool_decide (request = []) then (h, [], None)
    else ipc_turn key parse_command (fun r => Some (encode_reply r)) (as_process sy agent)
           (IpcConnect connection) h in
  (h, (send_local (as_process sy client) sha256 parse_reply (Ok (encode_command cmd))
         (channel answer)).2).

Lemma read_reply_frame oversized l :
  zlen l <= u32_max ->
  read_reply oversized (local_frame l) = if REPLY_LIMIT <? zlen l then Err oversized else Ok l.
Proof.
  intros Hl. pose proof (zlen_nonneg l). unfold read_reply, local_frame, u32_max in *.
  rewrite wrap32_small by (unfold u32_max; lia).
  assert (length (be_enc 4 (zlen l)) = 4%nat) as H4 by apply be_enc_length.
  rewrite length_app, H4. destruct (Nat.ltb_spec (4 + length l) 4); [lia|].
  rewrite take_app_length', drop_app_length' by done.
  rewrite be_dec_enc by (change (256 ^ Z.of_nat 4) with 4294967296; lia).
  destruct (REPLY_LIMIT <? zlen l); [done|]. rewrite Z.ltb_irrefl. unfold zlen.
  by rewrite Nat2Z.id, firstn_all.
Qed.
Lemma pipe_name_same sy a b :
  same_user sy a b ->
  exists name, pipe_name (as_process sy a) sha256 = Ok name /\ pipe_name (as_process sy b) sha256 = Ok name.
Proof.
  intros (sid & s & Ha & Hb & _). unfold pipe_name. cbn [sy_me as_process].
  rewrite !token_sid_as, Ha, Hb. by eexists.
Qed.
Lemma local_frame_nonempty l : local_frame l <> [].
Proof.
  unfold local_frame. intros H. apply (f_equal length) in H. rewrite length_app, be_enc_length in H.
  cbn in H. lia.
Qed.

(** What a call can do to the agent: nothing, or what was asked. *)
Lemma ipc_call_host sy client agent cmd env h :
  parse_command (encode_command cmd) = Some cmd -> zlen (encode_command cmd) <= REQUEST_LIMIT ->
  (ipc_call sy client agent cmd env h).1 = h \/
  (ipc_call sy client agent cmd env h).1 = (local_dispatch key cmd env h).1.
Proof.
  intros Hcmd Hlen. unfold ipc_call. case_bool_decide as Hr; [by left|].
  apply send_local_verified in Hr as (_ & _ & data & [= <-] & Hr). cbv zeta in Hr |- *. rewrite Hr.
  match goal with |- context [ipc_turn key parse_command ?f ?sy (IpcConnect ?c) h] =>
    pose proof (ipc_turn_spec key parse_command f sy (IpcConnect c) h) as Ht;
    destruct (ipc_turn key parse_command f sy (IpcConnect c) h) as [[h' l] r] end.
  cbn [fst]. destruct Ht as [[-> _]|(c & cmd' & [= <-] & (_ & data & Hd & Hp) & -> & _)]; [by left|right].
  cbn [cn_received cn_env] in *. unfold REQUEST_LIMIT in *.
  rewrite local_frame_read in Hd by (unfold u32_max; lia).
  destruct (Z.ltb_spec 2048 (zlen (encode_command cmd))); [lia|]. congruence.
Qed.

End Call.

(** ** A concrete call *)
(** Processes 1 and 2 are of session 7, every other one of session 8. *)
Definition sample_process (pid : Z) : ProcessInfo :=
  {| pr_open := None; pr_times := Some (0, pid); pr_image := None; pr_token := true;
     pr_user_length := 44; pr_user := true; pr_sid := [1; 5; 21]; pr_copy := true;
     pr_session := Some (if pid <? 3 then 7 else 8); pr_label_length := 0; pr_label := false;
     pr_authorities := [] |}.
Definition sample_system : System :=
  {| sy_me := 1; sy_process := sample_process; sy_sid_text := fun _ => None;
     sy_tcp := {| tc_size := 0; tc_result := 0; tc_size_after := 0; tc_entries := 0; tc_rows := [] |} |}.
Definition sample_env : LocalEnv :=
  {| le_now := 0; le_token := "token"; le_sources := None; le_id := 0; le_persisted := true;
     le_matches := fun _ => true |}.
Definition sample_call (client : Z) : Host (Model := Z * Z) * result LocalIpcError LocalReply :=
  ipc_call sample_key id (fun _ => [9]) (fun _ => Some BlockRemote) (fun _ => [4; 2])
    (fun _ => Ok (LrBlocked true)) sample_system client 2 BlockRemote sample_env demo_host.
