(* ===== verification/Desktop.v ===== *)
(** * The desktop shell's own operations
    ([apps/desktop/src-tauri/src/main.rs], [lifecycle.rs])
    The media settings it keeps in the agent's configuration, the requests it lets
    through to the agent's pipe, starting the agent, the preview links it opens, the
    files it locates and the first configuration it writes.  TOML is read and written
    by third-party crates: a document is its tables of values. *)
From Stdlib Require Import String.
From stdpp Require Import strings.
From S2P Require Import Prelude Errors Protocol Text Paths Auth Float Geometry MediaWire MediaStream Config Autostart.
From S2P Require Import Admin LocalIpc.
#[global] Open Scope Z_scope.

(** ** Documents *)
(** [VOther]: a value of any other kind. *)
#[warnings="-register-all"]
Inductive Value : Type :=
| VBool (b : bool) | VStr (s : bytes) | VInt (n : Z) | VArray (l : list Value) | VOther (n : Z).
(** [Leaf (VOther _)] is also what an inline table is to the shell. *)
Inductive Item : Type := Leaf (v : Value) | TableItem (t : gmap string Value).
Abbreviation Document := (gmap string Item) (only parsing).

Definition as_table (i : Item) : option (gmap string Value) :=
  match i with TableItem t => Some t | Leaf _ => None end.
Definition as_bool (v : Value) : option bool := match v with VBool b => Some b | _ => None end.
Definition as_str (v : Value) : option bytes := match v with VStr s => Some s | _ => None end.
Definition as_array (v : Value) : option (list Value) :=
  match v with VArray l => Some l | _ => None end.

(** ** The media settings *)
Record MediaSettings := {
  ms_enabled : bool;
  ms_allow_control : bool;
  ms_tailnet_ip : option bytes;
  ms_allowed_peer_ips : list bytes
}.
#[global] Instance MediaSettings_eq_dec : EqDecision MediaSettings.
Proof. solve_decision. Defined.

Definition validate_media_settings (s : MediaSettings) : sres () :=
  if (16 <? zlen (ms_allowed_peer_ips s)) ||
     existsb (fun ip => negb (tailnet_ip ip)) (ms_allowed_peer_ips s)
  then Err "Allowed peers must be numeric 100.64.0.0/10 Tailscale IPv4 addresses"%string else
  if is_some_and (fun ip => negb (tailnet_ip ip)) (ms_tailnet_ip s)
  then Err "The host Tailscale IPv4 address is invalid"%string else
  if ms_enabled s && (option_is_none (ms_tailnet_ip s) || bool_decide (ms_allowed_peer_ips s = []))
  then Err "Enabled media needs a host Tailscale IP and at least one allowed peer"%string else
  if negb (ms_enabled s) && ms_allow_control s
  then Err "GUI control can only be enabled with media"%string else Ok tt.

Definition bool_field (table : option (gmap string Value)) (name : string) (dflt : bool)
  : sres bool :=
  match table ≫= (fun t => t !! name) with
  | None => Ok dflt
  | Some item => ok_or (as_bool item) ("media." ++ name ++ " must be a boolean")%string
  end.
Definition media_from_document (doc : Document) : sres MediaSettings :=
  let table := doc !! "media"%string ≫= as_table in
  match (match table ≫= (fun t => t !! "tailnet_ip"%string) with
         | None => Ok None
         | Some item =>
           match as_str item with
           | Some s => Ok (Some s) | None => Err "media.tailnet_ip must be a string"%string end
         end : sres (option bytes)) with
  | Err e => Err e
  | Ok ip =>
    match (match table ≫= (fun t => t !! "allowed_peer_ips"%string) with
           | None => Ok []
           | Some item =>
             match as_array item with
             | None => Err "media.allowed_peer_ips must be an array"%string
             | Some l => ok_or (mapM as_str l) "media.allowed_peer_ips must contain strings"%string
             end
           end : sres (list bytes)) with
    | Err e => Err e
    | Ok peers =>
      match bool_field table "enabled" false, bool_field table "allow_control" false with
      | Err e, _ => Err e
      | _, Err e => Err e
      | Ok enabled, Ok allow_control =>
        let settings := {| ms_enabled := enabled; ms_allow_control := allow_control;
                           ms_tailnet_ip := ip; ms_allowed_peer_ips := peers |} in
        match validate_media_settings settings with
        | Err e => Err e
        | Ok _ => Ok settings
        end
      end
    end
  end.

(** The table after the settings are written into it. *)
Definition write_media_table (s : MediaSettings) (t : gmap string Value) : gmap string Value :=
  let t := <["allow_control"%string := VBool (ms_allow_control s)]>
             (<["enabled"%string := VBool (ms_enabled s)]> t) in
  let t := match ms_tailnet_ip s with
           | Some ip => <["tailnet_ip"%string := VStr ip]> t
           | None => delete "tailnet_ip"%string t
           end in
  <["max_port"%string := VInt 50010]>
    (<["min_port"%string := VInt 50000]>
      (<["allowed_peer_ips"%string := VArray (map VStr (ms_allowed_peer_ips s))]> t)).
Definition write_media (s : MediaSettings) (doc : Document) : sres Document :=
  let doc := match doc !! "media"%string with
             | None => <["media"%string := TableItem ∅]> doc | Some _ => doc end in
  match doc !! "media"%string ≫= as_table with
  | None => Err "media must be a TOML table"%string
  | Some t => Ok (<["media"%string := TableItem (write_media_table s t)]> doc)
  end.

(** The configuration and the temporary file beside it; the file system's answers:
    the text read, how much of the new text a failing write leaves, the rename. *)
Record Files := { fi_config : option bytes; fi_temporary : option bytes }.
Record FileIo := { fo_read : bool; fo_write : option nat; fo_rename : bool }.

Section Documents.
Context (doc_parse : bytes -> option Document) (doc_print : Document -> bytes).

Definition set_media_document (io : FileIo) (s : MediaSettings) (f : Files) : Files * sres () :=
  match validate_media_settings s with
  | Err e => (f, Err e)
  | Ok _ =>
    match (if fo_read io then fi_config f else None) with
    | None => (f, Err "read"%string)
    | Some text =>
      match doc_parse text with
      | None => (f, Err "Invalid Agent configuration"%string)
      | Some doc =>
        match write_media s doc with
        | Err e => (f, Err e)
        | Ok doc =>
          match fo_write io with
          | Some n =>
            ({| fi_config := fi_config f; fi_temporary := Some (take n (doc_print doc)) |},
             Err "write"%string)
          | None =>
            if fo_rename io
            then ({| fi_config := Some (doc_print doc); fi_temporary := None |}, Ok tt)
            else ({| fi_config := fi_config f; fi_temporary := Some (doc_print doc) |},
                  Err "rename"%string)
          end
        end
      end
    end
  end.
End Documents.

(** What [Config::load] of the agent makes of the table: the fields its [serde]
    derivation names, with their defaults and types.  Profile and helper path have
    deserializers of their own, and [other_ok] says no unknown field is there. *)
Section AgentView.
Context (profile_of : Value -> option VideoProfile) (helper_of : Value -> option (bool * Components)).
Definition field {A} (t : gmap string Value) (name : string) (dflt : A) (f : Value -> option A)
  : option A :=
  match t !! name with None => Some dflt | Some v => f v end.
Definition as_u16 (v : Value) : option Z :=
  match v with VInt n => if in_range 0 u16_max n then Some n else None | _ => None end.
Definition agent_fields : list string :=
  ["enabled"; "allow_control"; "tailnet_ip"; "allowed_peer_ips"; "min_port"; "max_port";
   "helper_path"; "profile"]%string.
Definition agent_media (t : gmap string Value) : option MediaConfig :=
  if negb (bool_decide (map_Forall (fun k _ => k ∈ agent_fields) t)) then None else
  let d := media_config_default in
  enabled ← field t "enabled" (mc_enabled d) as_bool;
  allow_control ← field t "allow_control" (mc_allow_control d) as_bool;
  tailnet_ip ← field t "tailnet_ip" (mc_tailnet_ip d) (fun v => option_map Some (as_str v));
  peers ← field t "allowed_peer_ips" (mc_allowed_peer_ips d) (fun v => as_array v ≫= mapM as_str);
  min_port ← field t "min_port" (mc_min_port d) as_u16;
  max_port ← field t "max_port" (mc_max_port d) as_u16;
  helper ← field t "helper_path" (mc_helper_path d) (fun v => option_map Some (helper_of v));
  profile ← field t "profile" (mc_profile d) profile_of;
  Some {| mc_enabled := enabled; mc_allow_control := allow_control; mc_tailnet_ip := tailnet_ip;
          mc_allowed_peer_ips := peers; mc_min_port := min_port; mc_max_port := max_port;
          mc_helper_path := helper; mc_profile := profile |}.
End AgentView.

(** *** What is written is what both sides read *)
Definition written_value (s : MediaSettings) (k : string) : option (option Value) :=
  if decide (k = "enabled"%string) then Some (Some (VBool (ms_enabled s)))
  else if decide (k = "allow_control"%string) then Some (Some (VBool (ms_allow_control s)))
  else if decide (k = "tailnet_ip"%string) then Some (VStr <$> ms_tailnet_ip s)
  else if decide (k = "allowed_peer_ips"%string)
  then Some (Some (VArray (map VStr (ms_allowed_peer_ips s))))
  else if decide (k = "min_port"%string) then Some (Some (VInt 50000))
  else if decide (k = "max_port"%string) then Some (Some (VInt 50010))
  else None.
Lemma write_media_lookup s t k :
  write_media_table s t !! k = match written_value s k with Some v => v | None => t !! k end.
Proof.
  unfold write_media_table, written_value.
  destruct (ms_tailnet_ip s) as [ip|]; repeat case_decide; subst; by simplify_map_eq.
Qed.
Lemma write_media_fields s t :
  write_media_table s t !! "enabled"%string = Some (VBool (ms_enabled s)) /\
  write_media_table s t !! "allow_control"%string = Some (VBool (ms_allow_control s)) /\
  write_media_table s t !! "tailnet_ip"%string = VStr <$> ms_tailnet_ip s /\
  write_media_table s t !! "allowed_peer_ips"%string = Some (VArray (map VStr (ms_allowed_peer_ips s))) /\
  write_media_table s t !! "min_port"%string = Some (VInt 50000) /\
  write_media_table s t !! "max_port"%string = Some (VInt 50010) /\
  write_media_table s t !! "helper_path"%string = t !! "helper_path"%string /\
  write_media_table s t !! "profile"%string = t !! "profile"%string.
Proof. repeat split; by rewrite write_media_lookup. Qed.
Lemma mapM_as_str l : mapM as_str (map VStr l) = Some l.
Proof. induction l as [|x l IH]; cbn in *; [done|]. by rewrite IH. Qed.

Lemma media_from_written s t (doc : Document) :
  validate_media_settings s = Ok tt ->
  doc !! "media"%string = Some (TableItem (write_media_table s t)) -> media_from_document doc = Ok s.
Proof.
  intros Hv Hd. unfold media_from_document. rewrite Hd. cbn [mbind option_bind as_table].
  unfold bool_field. cbn [mbind option_bind].
  destruct (write_media_fields s t) as (-> & -> & -> & -> & _).
  destruct s as [en ac ip peers]. cbn. destruct ip as [ip|]; cbn; rewrite mapM_as_str; cbn; by rewrite Hv.
Qed.
Lemma agent_reads_written profile_of helper_of s t c :
  agent_media profile_of helper_of t = Some c ->
  agent_media profile_of helper_of (write_media_table s t) =
    Some {| mc_enabled := ms_enabled s; mc_allow_control := ms_allow_control s;
            mc_tailnet_ip := ms_tailnet_ip s; mc_allowed_peer_ips := ms_allowed_peer_ips s;
            mc_min_port := 50000; mc_max_port := 50010;
            mc_helper_path := mc_helper_path c; mc_profile := mc_profile c |}.
Proof.
  unfold agent_media. intros Hc.
  destruct (bool_decide (map_Forall _ t)) eqn:Ek; [|done]. apply bool_decide_eq_true_1 in Ek.
  rewrite bool_decide_eq_true_2; cbn [negb] in *.
  2:{ intros k v. rewrite write_media_lookup. unfold written_value.
      repeat (case_decide; [intros _; subst; set_solver|]). by apply Ek. }
  unfold field in *. destruct (write_media_fields s t) as (-> & -> & -> & -> & -> & -> & -> & ->).
  repeat (apply bind_Some in Hc as (? & ? & Hc)). injection Hc as <-.
  destruct s as [en ac ip peers]. cbn in *. destruct ip as [ip|]; cbn; rewrite mapM_as_str; cbn.
  all: by repeat match goal with H : _ = Some _ |- _ => first [rewrite H; cbn | idtac]; clear H end.
Qed.
Lemma validated_for_agent s (c : MediaConfig) :
  validate_media_settings s = Ok tt -> profile_validate (mc_profile c) = Ok tt ->
  is_some_and (fun p => negb p.1) (mc_helper_path c) = false ->
  media_config_validate
    {| mc_enabled := ms_enabled s; mc_allow_control := ms_allow_control s;
       mc_tailnet_ip := ms_tailnet_ip s; mc_allowed_peer_ips := ms_allowed_peer_ips s;
       mc_min_port := 50000; mc_max_port := 50010;
       mc_helper_path := mc_helper_path c; mc_profile := mc_profile c |} = Ok tt.
Proof.
  unfold validate_media_settings, media_config_validate. cbn. intros Hv -> ->.
  destruct (_ || _); [done|]. destruct (ms_tailnet_ip s) as [ip|]; cbn in *.
  - destruct (negb (tailnet_ip ip)); [done|]. cbn in *.
    destruct (ms_enabled s && _); [done|]. done.
  - destruct (ms_enabled s); done.
Qed.


(** *** Status and change of the settings *)
Record MediaConfigStatus := {
  cs_stored : MediaSettings;
  cs_live : option MediaSettings;
  cs_agent_running : bool;
  cs_restart_required : bool
}.
(** The agent's answer to a status request: a missing pipe is no agent; an answer
    holds the media settings if it has them in the right form. *)
Definition live_settings (answer : result LocalIpcError (option MediaSettings))
  : sres (option MediaSettings) :=
  match answer with
  | Ok (Some m) => Ok (Some m)
  | Ok None => Err "Agent media status is invalid"%string
  | Err IpcMissing => Ok None
  | Err (IpcOther e) => Err e
  end.
Definition config_status (stored : MediaSettings) (live : option MediaSettings)
  : MediaConfigStatus :=
  {| cs_stored := stored; cs_live := live; cs_agent_running := option_is_some live;
     cs_restart_required := is_some_and (fun v => negb (bool_decide (v = stored))) live |}.
(** [paths]: the installation was found; [writable]: [preflight_config] passed. *)
Definition media_config_status (doc_parse : bytes -> option Document)
    (lock : sres TransactionGuard) (paths writable : bool) (text : option bytes)
    (answer : result LocalIpcError (option MediaSettings)) : sres MediaConfigStatus :=
  match lock with
  | Err e => Err e
  | Ok g =>
    if tg_abandoned g
    then Err "A previous settings transaction requires recovery before media changes"%string else
    if negb paths || negb writable then Err "paths"%string else
    match text with
    | None => Err "read"%string
    | Some text =>
      match doc_parse text with
      | None => Err "Invalid Agent configuration"%string
      | Some doc =>
        match media_from_document doc with
        | Err e => Err e
        | Ok stored =>
          match live_settings answer with
          | Err e => Err e
          | Ok live => Ok (config_status stored live)
          end
        end
      end
    end
  end.
Definition set_media_config (doc_parse : bytes -> option Document) (doc_print : Document -> bytes)
    (consent : bool) (s : MediaSettings) (lock : sres TransactionGuard) (paths writable : bool)
    (io : FileIo) (answer : result LocalIpcError (option MediaSettings)) (f : Files)
  : Files * sres MediaConfigStatus :=
  if negb consent then (f, Err "Explicit consent is required"%string) else
  match validate_media_settings s with
  | Err e => (f, Err e)
  | Ok _ =>
    match lock with
    | Err e => (f, Err e)
    | Ok g =>
      if tg_abandoned g
      then (f, Err "A previous settings transaction requires recovery before media changes"%string)
      else if negb paths || negb writable then (f, Err "paths"%string) else
      match set_media_document doc_parse doc_print io s f with
      | (f, Err e) => (f, Err e)
      | (f, Ok _) =>
        match live_settings answer with
        | Err e => (f, Err e)
        | Ok live => (f, Ok (config_status s live))
        end
      end
    end
  end.
(** Nothing is written without consent, without the lock, or over an interrupted
    transaction. *)
Lemma set_media_config_guarded doc_parse doc_print consent s lock paths writable io answer f f' r :
  set_media_config doc_parse doc_print consent s lock paths writable io answer f = (f', r) ->
  f' <> f -> consent = true /\ validate_media_settings s = Ok tt /\
    exists g, lock = Ok g /\ tg_abandoned g = false.
Proof.
  unfold set_media_config. destruct consent; [|by intros [= <- <-]]. cbn [negb].
  destruct (validate_media_settings s) as [[]|]; [|by intros [= <- <-]].
  destruct lock as [g|]; [|by intros [= <- <-]].
  destruct (tg_abandoned g) eqn:Eg; [by intros [= <- <-]|]. eauto.
Qed.

(** ** Requests to the agent's pipe *)
Record MediaApproval := { ma_kind : string; ma_handle : string; ma_control : bool }.
(** The request that is sent; the operation names are those of the agent's enum. *)
Definition local_admin (operation : string) (request : option MediaApproval)
  : result string LocalCommand :=
  let plain (c : LocalCommand) : result string LocalCommand :=
    match request with Some _ => Err "Unexpected local arguments"%string | None => Ok c end in
  if bool_decide (operation = "media_approve"%string) then
    match request with
    | None => Err "Missing source approval"%string
    | Some r =>
      if negb (bool_decide (ma_kind r ∈ ["window"; "monitor"]%string)) ||
         (20 <? str_len (ma_handle r)) ||
         is_none_or (fun n => n =? 0) (parse_unsigned u64_max (ma_handle r))
      then Err "Invalid native source"%string
      else Ok (MediaApprove (ma_kind r) (ma_handle r) (ma_control r))
    end
  else if bool_decide (operation = "status"%string) then plain LocalStatus
  else if bool_decide (operation = "pair_owner"%string) then plain PairOwner
  else if bool_decide (operation = "pair_reader"%string) then plain PairReader
  else if bool_decide (operation = "pair_gui"%string) then plain PairGui
  else if bool_decide (operation = "media_sources"%string) then plain MediaSources
  else if bool_decide (operation = "media_clear"%string) then plain MediaClear
  else if bool_decide (operation = "block_remote"%string) then plain BlockRemote
  else if bool_decide (operation = "resume_remote"%string) then plain ResumeRemote
  else Err "Unsupported local operation"%string.
(** The page can never stop the agent, and names only real sources. *)
Lemma local_admin_limited operation request c :
  local_admin operation request = Ok c ->
  c <> Shutdown /\ forall kind handle control, c = MediaApprove kind handle control ->
    (kind = "window"%string \/ kind = "monitor"%string) /\
    exists n, parse_unsigned u64_max handle = Some n /\ 0 < n.
Proof.
  unfold local_admin. case_bool_decide.
  - destruct request as [r|]; [|done]. destruct (_ || _) eqn:E; [done|]. intros [= <-].
    split; [done|]. intros kind handle control [= <- <- <-].
    rewrite !orb_false_iff in E. destruct E as [[Ek _] E]. bools. split.
    { rewrite !elem_of_cons, elem_of_nil in Ek. naive_solver. }
    destruct (parse_unsigned _ _) as [n|] eqn:En; [|done]. apply parse_unsigned_nonneg in En.
    exists n. split; [done|]. cbn in E. lia.
  - destruct request; repeat case_bool_decide; try done; intros [= <-]; done.
Qed.

(** Whatever the page asks for, from the command to the agent.  A request the shell
    lets through and sends over the pipe never shuts the agent down, stops no session,
    adds, changes or revokes no device, and approves only a window or monitor named by a
    positive number; a request it does not let through is not sent. *)
Theorem page_requests_keep_agent {Model} key sha256 encode_command parse_command encode_reply
    parse_reply sy client agent operation request cmd env (h : Host (Model := Model)) :
  local_admin operation request = Ok cmd ->
  parse_command (encode_command cmd) = Some cmd -> zlen (encode_command cmd) <= REQUEST_LIMIT ->
  same_agent h (ipc_call key sha256 encode_command parse_command encode_reply parse_reply sy
                  client agent cmd env h).1 /\
  forall kind handle control, cmd = MediaApprove kind handle control ->
    (kind = "window"%string \/ kind = "monitor"%string) /\
    exists n, parse_unsigned u64_max handle = Some n /\ 0 < n.
Proof.
  intros Hadmin Hcmd Hlen. destruct (local_admin_limited _ _ _ Hadmin) as [Hs Hm]. split.
  - destruct (ipc_call_host key sha256 encode_command parse_command encode_reply parse_reply sy client
      agent cmd env h Hcmd Hlen) as [->| ->]; [done|by apply local_dispatch_keeps].
  - by apply Hm.
Qed.

Definition demo_approval : MediaApproval :=
  {| ma_kind := "monitor"; ma_handle := "65537"; ma_control := true |}.
Lemma page_requests_keep_agent_witness :
  same_agent demo_host (sample_call 1).1 /\
  exists n, parse_unsigned u64_max "65537" = Some n /\ 0 < n.
Proof.
  split.
  - apply (page_requests_keep_agent sample_key id (fun _ => [9]) (fun _ => Some BlockRemote)
      (fun _ => [4; 2]) (fun _ => Ok (LrBlocked true)) sample_system 1 2 "block_remote" None BlockRemote
      sample_env demo_host eq_refl eq_refl). by vm_compute.
  - eapply (page_requests_keep_agent sample_key id (fun _ => [9])
      (fun _ => Some (MediaApprove "monitor" "65537" true)) (fun _ => [4; 2])
      (fun _ => Ok (LrBlocked true)) sample_system 1 2 "media_approve" (Some demo_approval)
      (MediaApprove "monitor" "65537" true) sample_env demo_host eq_refl eq_refl); [by vm_compute|reflexivity].
Defined.

(** ** Finding the installation *)
Record HostPaths := { hp_agent : Components; hp_config : Components; hp_web_dir : Components }.
(** The candidates are part of the message. *)
Inductive DiscoverError : Type :=
| NoDirectory | NoAgent (checked : list Components) | NoWeb (checked : list Components) | NoWebParent.
Definition agent_candidates (exe_dir : Components) : list Components :=
  [exe_dir ++ ["rc-agent.exe"%string]; exe_dir ++ ["resources"; "rc-agent.exe"]%string].
Definition web_candidates (exe_dir : Components) : list Components :=
  [exe_dir ++ ["web"; "index.html"]%string; exe_dir ++ ["resources"; "web"; "index.html"]%string].
Definition discover_paths (exe local_app_data : Components) (is_file : Components -> bool)
  : result DiscoverError HostPaths :=
  match parent exe with
  | None => Err NoDirectory
  | Some exe_dir =>
    match List.find is_file (agent_candidates exe_dir) with
    | None => Err (NoAgent (agent_candidates exe_dir))
    | Some agent =>
      match List.find is_file (web_candidates exe_dir) with
      | None => Err (NoWeb (web_candidates exe_dir))
      | Some web_index =>
        match parent web_index with
        | None => Err NoWebParent
        | Some web_dir =>
          Ok {| hp_agent := agent; hp_web_dir := web_dir;
                hp_config := local_app_data ++ ["RemoteCodex"; "agent.toml"]%string |}
        end
      end
    end
  end.
(** What is found is there, beside the program or under [resources]; the first of the
    two is taken; and nothing is reported missing that is there. *)
Lemma discover_paths_spec exe data is_file :
  match discover_paths exe data is_file with
  | Ok p => is_file (hp_agent p) = true /\ is_file (hp_web_dir p ++ ["index.html"%string]) = true /\
      hp_config p = data ++ ["RemoteCodex"; "agent.toml"]%string /\
      exists dir, parent exe = Some dir /\ hp_agent p ∈ agent_candidates dir /\
        (is_file (dir ++ ["rc-agent.exe"%string]) = true -> hp_agent p = dir ++ ["rc-agent.exe"%string])
  | Err NoDirectory => exe = []
  | Err (NoAgent l) => forall p, p ∈ l -> is_file p = false
  | Err (NoWeb l) => forall p, p ∈ l -> is_file p = false
  | Err NoWebParent => False
  end.
Proof.
  unfold discover_paths. destruct (parent exe) as [dir|] eqn:Ep; [|by destruct exe].
  destruct (List.find is_file (agent_candidates dir)) as [agent|] eqn:Ea.
  2:{ intros p Hp%list_elem_of_In. by eapply List.find_none in Ea. }
  destruct (List.find is_file (web_candidates dir)) as [index|] eqn:Ew.
  2:{ intros p Hp%list_elem_of_In. by eapply List.find_none in Ew. }
  assert (agent ∈ agent_candidates dir) as Hin
    by (apply list_elem_of_In; apply (List.find_some _ _ Ea)).
  pose proof (List.find_some _ _ Ea) as [_ Hf]. apply List.find_some in Ew as [Hw Hwf].
  assert (exists d, index = d ++ ["index.html"%string] /\ parent index = Some d) as (d & -> & ->).
  { assert (forall d : list string, parent (d ++ ["index.html"%string]) = Some d) as Hpar.
    { intros d. unfold parent. rewrite removelast_last. by destruct d. }
    destruct Hw as [<-|[<-|[]]].
    - exists (dir ++ ["web"%string]). rewrite <- Hpar.
      by rewrite <- (app_assoc dir ["web"%string] ["index.html"%string]).
    - exists (dir ++ ["resources"; "web"]%string). rewrite <- Hpar.
      by rewrite <- (app_assoc dir ["resources"; "web"]%string ["index.html"%string]). }
  cbn. split; [exact Hf|]. split; [exact Hwf|]. split; [done|]. exists dir. split; [done|].
  split; [done|]. intros Hfirst. cbn in Ea. rewrite Hfirst in Ea. congruence.
Qed.

(** [installed_host_paths]; [show] is the message of a failed discovery. *)
Definition installed_host_paths (show : DiscoverError -> string) (exe : sres Components)
    (local_app_data : option Components) (is_file : Components -> bool) : sres HostPaths :=
  match exe, local_app_data with
  | Err e, _ => Err e
  | Ok _, None => Err "LOCALAPPDATA is unavailable"%string
  | Ok exe, Some data =>
    match discover_paths exe data is_file with Ok p => Ok p | Err e => Err (show e) end
  end.

(** ** The page's switch for autostart *)
Definition autostart_response (s : AutostartStatus) : string :=
  match s with Disabled => "disabled" | Enabled => "enabled" | Conflict => "conflict" end.
Section AutostartCommands.
Context (to_path : Components -> Path).
Definition page_autostart_status (paths : sres HostPaths) (io : RegIo) (v : option RegValue)
  : sres string :=
  match paths with
  | Err e => Err e
  | Ok p =>
    match autostart_status (to_path (hp_agent p)) (to_path (hp_config p)) io v with
    | Err e => Err e
    | Ok s => Ok (autostart_response s)
    end
  end.
Definition page_set_autostart (paths : sres HostPaths) (enabled : bool) (io1 io2 io3 : RegIo)
    (v : option RegValue) : option RegValue * sres string :=
  match paths with
  | Err e => (v, Err e)
  | Ok p =>
    let '(v, r) := set_enabled (to_path (hp_agent p)) (to_path (hp_config p)) enabled io1 io2 io3 v in
    (v, match r with Err e => Err e | Ok s => Ok (autostart_response s) end)
  end.
End AutostartCommands.
(** [main]: the uninstaller's exit code, or the shell is shown. *)
Definition desktop_main (args : list string) (cleanup : sres ()) : option Z :=
  if bool_decide ("--uninstall-cleanup"%string ∈ drop 1 args)
  then Some (if is_ok cleanup then 0 else 4) else None.

(** ** The first configuration *)
Definition escape_char (c : Z) : chars :=
  if c =? 92 then [92; 92] else if c =? 34 then [92; 34] else if c =? 10 then [92; 110]
  else if c =? 13 then [92; 114] else if c =? 9 then [92; 116] else [c].
Definition render_config (web_dir : option chars) : sres chars :=
  match web_dir with
  | None => Err "The web asset path is not valid Unicode"%string
  | Some value =>
    Ok (str_bytes "web_dir = " ++ [34] ++ concat (map escape_char value) ++ [34; 10])
  end.
(** TOML's basic strings: what stands between the quotes, and its value. *)
Definition toml_plain (c : Z) : Prop := c = 9 \/ 32 <= c /\ c <> 34 /\ c <> 92 /\ c <> 127.
Definition toml_escape (e : Z) : option Z :=
  if e =? 98 then Some 8 else if e =? 116 then Some 9 else if e =? 110 then Some 10
  else if e =? 102 then Some 12 else if e =? 114 then Some 13 else if e =? 34 then Some 34
  else if e =? 92 then Some 92 else None.
Inductive toml_basic : chars -> chars -> Prop :=
| tb_end : toml_basic [] []
| tb_plain c l v : toml_plain c -> toml_basic l v -> toml_basic (c :: l) (c :: v)
| tb_escape e c l v : toml_escape e = Some c -> toml_basic l v -> toml_basic (92 :: e :: l) (c :: v).
(** A text stands for one value at most. *)
Lemma toml_basic_unique l v v' : toml_basic l v -> toml_basic l v' -> v = v'.
Proof.
  intros H. revert v'. induction H as [|c l v Hc H IH|e c l v He H IH]; intros v' H'.
  - by inversion H'.
  - inversion H' as [|? ? v2 ? H2|? ? ? v2 ? H2]; subst; [f_equal; by apply IH|].
    unfold toml_plain in Hc. lia.
  - inversion H' as [|? ? v2 Hp H2|? ? ? v2 He2 H2]; subst; [unfold toml_plain in Hp; lia|].
    rewrite He in He2. injection He2 as <-. f_equal. by apply IH.
Qed.
(** The control characters the escaping leaves alone. *)
Definition unescaped_control (c : Z) : Prop :=
  c < 32 /\ c <> 9 /\ c <> 10 /\ c <> 13 \/ c = 127.
Lemma escape_char_basic c l v :
  ~ unescaped_control c -> toml_basic l v -> toml_basic (escape_char c ++ l) (c :: v).
Proof.
  intros Hc Hl. unfold escape_char, unescaped_control in *.
  repeat match goal with |- context [c =? ?n] => destruct (Z.eqb_spec c n) as [->|?] end; cbn [app];
    first [by apply tb_escape | apply tb_plain; [unfold toml_plain; lia|done]].
Qed.
Lemma escape_char_basic_inv c l v :
  toml_basic (escape_char c ++ l) v -> ~ unescaped_control c /\ exists v', v = c :: v' /\ toml_basic l v'.
Proof.
  unfold escape_char, unescaped_control.
  repeat match goal with |- context [c =? ?n] => destruct (Z.eqb_spec c n) as [->|?] end; cbn [app];
    intros H; inversion H as [|? ? ? Hp ?|? ? ? ? He ?]; subst;
    try done; try (unfold toml_plain in Hp; lia); try (cbn in He; injection He as <-);
    (split; [unfold toml_plain in *; lia|eauto]).
Qed.
(** The configuration the shell writes names its web directory.  The rendered
    line is a TOML key with a basic string whose value is the directory's path, for
    every path; except that a path with a control character other than tab, CR and LF
    renders to no basic string at all. *)
Theorem render_config_reads_back value :
  exists body, render_config (Some value) =
      Ok (str_bytes "web_dir = " ++ [34] ++ body ++ [34; 10]) /\
    (forall v, toml_basic body v <-> v = value /\ forall c, c ∈ value -> ~ unescaped_control c).
Proof.
  eexists. split; [reflexivity|]. intros v. split.
  - revert v. induction value as [|c value IH]; intros v H; cbn in H.
    + inversion H. split; [done|]. intros c Hc. by apply elem_of_nil in Hc.
    + apply escape_char_basic_inv in H as (Hc & v' & -> & [-> Hall]%IH).
      split; [done|]. intros c' [->|Hc']%elem_of_cons; auto.
  - intros [-> Hall]. induction value as [|c value IH]; cbn; [constructor|].
    apply escape_char_basic; [apply Hall; by left|]. apply IH. intros c' Hc'. apply Hall. by right.
Qed.

(** ** Starting the agent *)
Definition agent_args (p : HostPaths) : list Components :=
  [["--config"%string]; hp_config p; ["run"%string]].
(** What the system answers: the directory is there, the file could be made or is
    already there, how much a failing write leaves, the process was spawned. *)
Record StartIo := {
  so_mkdir : bool;
  so_create : bool;
  so_write : option nat;
  so_spawn : bool
}.
(** The configuration file and the processes started. *)
Definition start_detached_host (paths : result DiscoverError HostPaths) (web_text : option chars)
    (io : StartIo) (config : option chars)
  : option chars * list (list Components) * sres () :=
  match paths with
  | Err _ => (config, [], Err "installed_host_paths"%string)
  | Ok p =>
    match parent (hp_config p) with
    | None => (config, [], Err "The Agent config path has no parent directory"%string)
    | Some _ =>
      if negb (so_mkdir io) then (config, [], Err "Could not create directory"%string) else
      match render_config web_text with
      | Err e => (config, [], Err e)
      | Ok contents =>
        let '(config, r) :=
          if negb (so_create io) then (config, Err "Could not create"%string) else
          match config with
          | Some _ => (config, Ok tt)                      (* AlreadyExists *)
          | None =>
            match so_write io with
            | Some n => (Some (take n contents), Err "Could not write"%string)
            | None => (Some contents, Ok tt)
            end
          end in
        match r with
        | Err e => (config, [], Err e)
        | Ok _ =>
          match parent (hp_agent p) with
          | None => (config, [], Err "The Agent executable path has no parent directory"%string)
          | Some _ =>
            if so_spawn io then (config, [hp_agent p :: agent_args p], Ok tt)
            else (config, [], Err "Could not start"%string)
          end
        end
      end
    end
  end.
Ltac start_case := cbn; repeat split; try done; try lia; intros; naive_solver lia.
(** A configuration that exists is never touched, and the agent is started, once, only
    when there is one. *)
Lemma start_detached_host_spec paths web io config :
  let '(config', started, r) := start_detached_host paths web io config in
  (forall c, config = Some c -> config' = Some c) /\
  (is_ok r = true <-> started <> []) /\ (length started <= 1)%nat /\
  (started <> [] -> config' = config \/ config = None /\ exists t, render_config web = Ok t /\ config' = Some t) /\
  (started <> [] -> is_Some config').
Proof.
  unfold start_detached_host. destruct paths as [p|]; [|start_case].
  destruct (parent (hp_config p)); [|start_case].
  destruct (negb (so_mkdir io)); [start_case|].
  destruct (render_config web) as [t|] eqn:Et; [|start_case].
  destruct (negb (so_create io)); [start_case|]. destruct config as [c|].
  - destruct (parent (hp_agent p)); [|start_case].
    destruct (so_spawn io); start_case.
  - destruct (so_write io); [start_case|].
    destruct (parent (hp_agent p)); [|start_case].
    destruct (so_spawn io); start_case.
Qed.
(** A failing write leaves a cut-off file, and the next start runs the agent on it. *)
Example start_after_torn_write :
  let paths := Ok {| hp_agent := ["a"%string]; hp_config := ["c"%string]; hp_web_dir := [] |} in
  let web := Some (str_bytes "C:\web") in
  let io n := {| so_mkdir := true; so_create := true; so_write := n; so_spawn := true |} in
  let '(config, started, _) := start_detached_host paths web (io (Some 13%nat)) None in
  config = Some (str_bytes "web_dir = " ++ [34] ++ str_bytes "C:") /\ started = [] /\
  (start_detached_host paths web (io None) config).1.1 = config /\
  is_ok (start_detached_host paths web (io None) config).2 = true.
Proof. by vm_compute. Qed.

Inductive HostAttach : Type := Attached | Started.
(** The polls for the pipe; [send i] is the answer to the i-th status request. *)
Fixpoint await_ready (left i : nat) (send : nat -> result LocalIpcError ()) : sres HostAttach :=
  match left with
  | O => Err "Agent started, but its SID-verified IPC did not become ready"%string
  | S left =>
    match send i with
    | Ok _ => Ok Started
    | Err IpcMissing => await_ready left (S i) send
    | Err (IpcOther m) => Err m
    end
  end.
(** Whether a start was attempted, and the answer. *)
Definition ensure_host (send : nat -> result LocalIpcError ()) (start : sres ())
  : bool * sres HostAttach :=
  match send 0%nat with
  | Ok _ => (false, Ok Attached)
  | Err (IpcOther m) => (false, Err m)
  | Err IpcMissing =>
    (true, match start with Err e => Err e | Ok _ => await_ready 30 1 send end)
  end.
Lemma await_ready_spec left i send :
  await_ready left i send = Ok Started <->
  exists k, (k < left)%nat /\ send (i + k)%nat = Ok tt /\
    forall j, (j < k)%nat -> send (i + j)%nat = Err IpcMissing.
Proof.
  revert i. induction left as [|left IH]; intros i; cbn.
  { split; [done|]. intros (k & Hk & _). lia. }
  destruct (send i) as [[]|[|m]] eqn:E.
  - split; [|done]. intros _. exists 0%nat. rewrite Nat.add_0_r. split; [lia|]. split; [done|]. lia.
  - rewrite IH. split.
    + intros (k & Hk & Hs & Hj). exists (S k). rewrite <- Nat.add_succ_comm. split; [lia|].
      split; [done|]. intros [|j] Hlt; [by rewrite Nat.add_0_r|].
      rewrite <- Nat.add_succ_comm. apply Hj. lia.
    + intros ([|k] & Hk & Hs & Hj); [rewrite Nat.add_0_r in Hs; congruence|].
      exists k. split; [lia|]. split; [by rewrite <- Nat.add_succ_comm in Hs|]. intros j Hlt.
      rewrite Nat.add_succ_comm. apply Hj. lia.
  - split; [done|]. intros ([|k] & Hk & Hs & Hj); [rewrite Nat.add_0_r in Hs; congruence|].
    specialize (Hj 0%nat ltac:(lia)). rewrite Nat.add_0_r in Hj. congruence.
Qed.
Lemma await_ready_not_attached left i send : await_ready left i send <> Ok Attached.
Proof.
  revert i. induction left as [|left IH]; intros i; cbn; [done|].
  destruct (send i) as [[]|[|m]]; [done|apply IH|done].
Qed.
(** An agent that answers is never started a second time; a start counts once its pipe
    answers within thirty polls, before anything else goes wrong. *)
Lemma ensure_host_spec send start :
  ((ensure_host send start).1 = true <-> send 0%nat = Err IpcMissing) /\
  ((ensure_host send start).2 = Ok Attached <-> send 0%nat = Ok tt) /\
  ((ensure_host send start).2 = Ok Started <->
     send 0%nat = Err IpcMissing /\ start = Ok tt /\
     exists k, (1 <= k <= 30)%nat /\ send k = Ok tt /\
       forall j, (1 <= j < k)%nat -> send j = Err IpcMissing).
Proof.
  unfold ensure_host. destruct (send 0%nat) as [[]|[|m]] eqn:E; cbn [fst snd].
  - repeat split; try done. by intros (? & _).
  - split; [done|]. destruct start as [[]|e].
    + split.
      * split; [|done]. intros H. by apply await_ready_not_attached in H.
      * rewrite await_ready_spec. split.
        -- intros (k & Hk & Hs & Hj). split; [done|]. split; [done|]. exists (S k). split; [lia|].
           split; [done|]. intros [|j] Hlt; [lia|]. apply (Hj j). lia.
        -- intros (_ & _ & [|k] & Hk & Hs & Hj); [lia|]. exists k. split; [lia|]. split; [done|].
           intros j Hlt. apply Hj. lia.
    + repeat split; try done. by intros (_ & ? & _).
  - repeat split; try done. by intros (? & _).
Qed.

(** ** Preview links *)
Definition fragment_char (b : Z) : bool := is_ascii_alphanumeric b || (b =? 95) || (b =? 45).
(** The URL that is opened, if it is one. *)
Definition open_preview (parse_url : string -> option Url) (url : string) : sres string :=
  match parse_url url with
  | None => Err "parse"%string
  | Some u =>
    if negb (bool_decide (u_scheme u = "https"%string)) ||
       negb (is_some_and (fun h => bytes_ends_with (str_bytes h) (str_bytes ".ts.net")) (u_host_str u)) ||
       negb (is_some_and (in_range 8444 8451) (u_port u)) ||
       negb (bool_decide (u_path u = "/_rc/bootstrap"%string)) ||
       option_is_some (u_query u) || negb (bool_decide (u_username u = ""%string)) ||
       option_is_some (u_password u) ||
       is_none_or (fun f => (128 <? str_len f) || negb (forallb fragment_char (str_bytes f)))
         (u_fragment u)
    then Err "Not an approved preview URL shape"%string
    else Ok url
  end.
Lemma open_preview_approved parse_url url url' :
  open_preview parse_url url = Ok url' ->
  url' = url /\ exists u h f, parse_url url = Some u /\ u_scheme u = "https"%string /\
    u_host_str u = Some h /\ bytes_ends_with (str_bytes h) (str_bytes ".ts.net") = true /\
    (exists p, u_port u = Some p /\ 8444 <= p <= 8451) /\ u_path u = "/_rc/bootstrap"%string /\
    u_query u = None /\ u_username u = ""%string /\ u_password u = None /\
    u_fragment u = Some f /\ str_len f <= 128 /\ forallb fragment_char (str_bytes f) = true.
Proof.
  unfold open_preview. destruct (parse_url url) as [u|] eqn:E; [|done].
  destruct (_ || _) eqn:Ec; [done|]. intros [= <-]. split; [done|].
  repeat (apply orb_false_iff in Ec as [Ec ?]). repeat match goal with H : negb _ = false |- _ =>
    apply negb_false_iff in H end.
  destruct (u_host_str u) as [h|] eqn:Eh; [|done]. destruct (u_port u) as [p|] eqn:Ep; [|done].
  destruct (u_fragment u) as [f|] eqn:Ef; [|done]. destruct (u_query u) eqn:Eq; [done|].
  destruct (u_password u) eqn:Epw; [done|]. cbn [is_some_and is_none_or option_is_some] in *.
  repeat match goal with H : _ || _ = false |- _ => apply orb_false_iff in H as [? ?]
    | H : negb _ = false |- _ => apply negb_false_iff in H end.
  exists u, h, f. rewrite Z.ltb_ge in *. rewrite bool_decide_eq_true in *.
  repeat (split; [first [done | exists p; split; [done|by apply in_range_spec]]|]). done.
Qed.

(** ** A concrete text format, and a change of settings *)
Fixpoint value_tree (v : Value) : gen_tree (bool + bytes + Z + Z) :=
  match v with
  | VBool b => GenLeaf (inl (inl (inl b)))
  | VStr s => GenLeaf (inl (inl (inr s)))
  | VInt n => GenLeaf (inl (inr n))
  | VOther n => GenLeaf (inr n)
  | VArray l => GenNode 0 (map value_tree l)
  end.
Fixpoint tree_value (t : gen_tree (bool + bytes + Z + Z)) : Value :=
  match t with
  | GenLeaf (inl (inl (inl b))) => VBool b
  | GenLeaf (inl (inl (inr s))) => VStr s
  | GenLeaf (inl (inr n)) => VInt n
  | GenLeaf (inr n) => VOther n
  | GenNode _ l => VArray (map tree_value l)
  end.
Fixpoint value_tree_round (v : Value) : tree_value (value_tree v) = v.
Proof.
  destruct v as [b|s|n|l|n]; cbn; try done. f_equal. induction l as [|x l IH]; cbn; [done|].
  f_equal; [apply value_tree_round|exact IH].
Defined.
#[global] Instance Value_eq_dec : EqDecision Value.
Proof.
  refine (fun x y => cast_if (decide (value_tree x = value_tree y))).
  - rewrite <- (value_tree_round x), <- (value_tree_round y). congruence.
  - congruence.
Defined.
#[global] Instance Value_countable : Countable Value := inj_countable' _ _ value_tree_round.
#[global] Instance Item_eq_dec : EqDecision Item.
Proof. solve_decision. Defined.
#[global] Program Instance Item_countable : Countable Item :=
  inj_countable' (fun i => match i with Leaf v => inl v | TableItem t => inr t end)
    (fun x => match x with inl v => Leaf v | inr t => TableItem t end) _.
Next Obligation. by intros []. Qed.
Definition sample_print (d : Document) : bytes := [Zpos (encode d)].
Definition sample_parse (l : bytes) : option Document :=
  match l with [Zpos p] => decode p | _ => None end.
Lemma sample_print_round d : sample_parse (sample_print d) = Some d.
Proof. apply decode_encode. Qed.

Definition demo_settings : MediaSettings :=
  {| ms_enabled := true; ms_allow_control := true;
     ms_tailnet_ip := Some (str_bytes "100.100.100.10");
     ms_allowed_peer_ips := [str_bytes "100.100.100.20"] |}.
Definition demo_document : Document :=
  <["bind"%string := Leaf (VStr (str_bytes "127.0.0.1:3847"))]>
    {[ "media"%string := TableItem {[ "profile"%string := VOther 7 ]} ]}.
Definition demo_files : Files :=
  {| fi_config := Some (sample_print demo_document); fi_temporary := None |}.
Definition all_files_ok : FileIo := {| fo_read := true; fo_write := None; fo_rename := true |}.
(** An inline table is no table to the shell, which then shows the defaults. *)
Example inline_media_table :
  media_from_document {[ "media"%string := Leaf (VOther 1) ]} =
  Ok {| ms_enabled := false; ms_allow_control := false; ms_tailnet_ip := None;
        ms_allowed_peer_ips := [] |}.
Proof. by vm_compute. Qed.

